(* ===== verification/_CoqProject ===== *)
-Q . S2P
Prelude.v
Models.v
JobTime.v
Batcher.v
Sql.v
Fsm.v
Replication.v
Inserts.v
Reads.v
JobQueueRepo.v
Queue.v
JobRepo.v
JobFacts.v
ExecutionsRepo.v
ExecutionsFacts.v
AsyncRepo.v
AccountRepos.v
SharedRepo.v
SharedFacts.v
Cascade.v
Snapshot.v
Recovery.v
RecoveryFacts.v
Disk.v
DiskFacts.v
Executor.v
ExecutorFacts.v
ExecutorImpl.v
Processor.v
Takeup.v
AsyncService.v
AsyncFacts.v
AsyncImpl.v
Pool.v
PoolFacts.v
Debounce.v
Config.v
ConfigFacts.v
HttpExecutor.v
Execution.v
ExecutionRuns.v
Node.v
NodeFacts.v
Delivery.v
FanIn.v
FanInFacts.v
FanInRuns.v
Lone.v
Cluster.v
Lifetime.v
LifetimeFacts.v
JobService.v
JobServiceFacts.v
Encrypt.v
Accounts.v
AccountsFacts.v
Http.v
HttpFacts.v
HttpRuns.v
Startup.v
Network.v
Service.v
Cli.v
CliFacts.v
ServiceFacts.v
CliRuns.v
