(* ===== verification/Prelude.v ===== *)
(** * Scheduler0 in Rocq

    Scheduler0 (Go, under src/) is a distributed cron service.  A cluster of
    nodes replicates a SQLite database through raft; the leader divides the
    ids of the jobs into ranges and queues them to the workers; each worker
    schedules the jobs of its ranges in memory, posts the due ones over HTTP
    and logs every execution in a table of its own, which the leader collects
    and commits through raft.  This library models that core and proves what
    makes it correct.

    ** Parts, files and what is proved

    Foundations.
    - Prelude (this file): Go's 64-bit integers and doubles, results, the
      monad [Go] of stateful code that may panic, loops, shared lemmas,
      tactics and hints.
    - Models: pkg/models, pkg/constants, pkg/utils/errors.go: the records the
      parts exchange, and the methods of a job that compute activations.
      JobTime: the search of [GetNextExecutionTime] ends, at the first
      activation that is not past; execution ids separate jobs and projects.
    - Batcher: pkg/utils/batcher.go and [ExpandIdsRange]: batches keep every
      element in order and respect SQLite's limit on bound variables.

    The replicated database.
    - Sql: the schema of pkg/db/db.go and an executable model of the SQL
      statements the repositories send (inserts with NOT NULL, UNIQUE and
      foreign keys, updates, cascading deletes, selects).
    - Fsm: pkg/fsm/fsm_actions.go and the state machine of fsm_store.go:
      writing a command to the log and applying an entry, with an explicit
      list of driver faults.  Replication: an entry is one atomic step of an
      abstract machine, a refused command changes nothing, only leaders
      write, and replicas that agree on the replicated tables keep agreeing
      whatever their local tables hold ([rep_eq], with its [Proper]
      instances).
    - Snapshot: pkg/fsm/fsm_snapshot.go and [BytesFromSnapshot]: round trip
      and error handling.  Recovery, RecoveryFacts: [RecoverRaftState] and
      [Restore]: a restarted node catches up with a node that applied the log
      meanwhile and keeps its own uncommitted executions.
    - Disk, DiskFacts: the data store and the migrations of pkg/db/db.go and
      the directory helpers of pkg/utils/misc.go over a tree of files: what
      an initialised machine holds, and that a directory without the file
      gives a database without tables.

    The repositories (pkg/repository, pkg/shared_repo).
    - Inserts, Reads: what every batched insert and batched read does.
    - JobQueueRepo, JobRepo and JobFacts, ExecutionsRepo and ExecutionsFacts,
      AsyncRepo, AccountRepos (projects and credentials), SharedRepo and
      SharedFacts, Cascade: each method over the database, and round trips,
      pagination, newest logs, cascading deletes as theorems about the rows.

    The services (pkg/service).
    - Queue: queue/queue.go.  Its clients' theorems are proved against the
      class [JobQueuesRepo] with its laws, which the repository discharges:
      the queued ranges partition the interval of the job ids.
    - Executor, ExecutorFacts, ExecutorImpl: executor/executor.go, over the
      class [ExecutorRepos]: a tick invokes exactly the due jobs, new jobs
      are scheduled, successes advance, failures are counted; ExecutorImpl
      is the instance over the database and the concrete runs.
    - Processor: processor/processor.go: a new leader queues every job of
      every project.  Takeup: a worker that starts its jobs takes up every
      range that was queued to it.
    - AsyncService, AsyncFacts, AsyncImpl: async_task/async_task.go: tasks,
      subscribers and their notification; every waiter finds its task in its
      channel, and a task is read back by its request id.
    - Pool, PoolFacts: the worker pool of pkg/utils/dispatcher.go and
      worker.go as a transition system: work is never lost or run twice, and
      without cancellation all of it runs.  Debounce: pkg/utils/debounce.go.
    - HttpExecutor: executor/executors/http_post.go.  Execution composes it
      with the executor: a schedule that is due leads to its next one,
      whatever the network does.  ExecutionRuns: concrete runs.  Lifetime:
      the ticker, the debounced flush, the attempts of the pool and the rest
      of the node as a transition system over the executor ([exec_step]);
      LifetimeFacts: over the repositories, no job is ever lost or in flight
      twice, every step comes back, and every state can be settled.
    - Config, ConfigFacts: pkg/config, pkg/secrets: a configuration in the
      environment is read back.
    - Node, NodeFacts: node/node.go and node_http_client.go.  FanIn: the
      goroutines of a leader as a transition system, with the invariant that
      writes are accepted only when every peer was collected; FanInFacts: the
      three phases; FanInRuns: an executable scheduler and concrete runs.
      Delivery: what the workers fetch after the leader wrote queue logs.
      Lone: a node alone, from its election to the schedule of its jobs.
      Cluster: a leader that collected its peers queues every job, and each
      job has a worker that schedules it.
    - JobService, JobServiceFacts: job/job.go: validation, creation through
      the worker pool, updates.  Encrypt: pkg/utils/encrypt.go.  Accounts,
      AccountsFacts: project/project.go, credential/credential.go: a created
      credential authenticates its owner.
    - Startup: [Start] of the node, the configuration of raft, the clock and
      the memory check that service.go sets up.  Service: service/service.go
      and [Start] of the HTTP server.  ServiceFacts: the life of a node, from
      [config init] through its first start to its restarts.

    The edge.
    - Http, HttpFacts, HttpRuns: pkg/http/server: routes, middlewares and all
      controllers over the node; the authentication middleware is its
      specification, and no write of a client gets through before the leader
      has collected its peers.
    - Network: pkg/network: the header byte of a connection decides which
      layer gets it; the transport raft is given.
    - Cli, CliFacts: cmd: every command of the binary; [create credential]
      is led by redirects to the leader of a cluster of modelled servers and
      prints a credential that authenticates.  CliRuns: concrete runs.

    ** How code is modelled

    A method that reads or changes state is a function in [Go S A], which is
    [S -> option (A * S)]: [None] is a panic, a [log.Fatal] or a loop that
    does not end.  A Go error is a value of [result] or [option].  The state
    of the repositories is [World]: the database, the clock, the state of
    raft (leader, follower, failing), the post-process channel, and the
    faults the driver will answer next; a database without faults is
    [healthy].  The files of a machine are a [host].  A service's state is a record beside the world.  Interfaces
    are classes over the state; a method that writes through raft writes and
    applies one entry.  The order in which Go visits a map is a parameter
    ([MapOrder] or an argument), and the theorems hold for every order.
    Mutexes are left out: each method is one step.  Timers and goroutines are
    steps of their own: [tick] and [flush] for the executor's ticker and its
    debounced closure, [deliver] for the listener of the async tasks, the
    relations [pool_step], [debounce_step], [run_step] and [exec_step] for the
    pool, the debouncer, the fan-in and the executor; [listenOnInputQueues]
    takes messages one after the other.  A closure handed to the worker pool is part of
    the answer of the operation that hands it over.

    Integers are [Z] with the source's conversions written out ([u64],
    [i64], [f64] for values that pass through JSON or float64).  Times are
    nanoseconds with a location; times read from the database are UTC.

    Outside code is a parameter: cron and the time zone database (class
    [Env]), the protobuf codec ([CommandCodec]), gzip ([Gzip]), the
    database file ([DbFile]), AES-GCM ([AEAD]), the path matcher ([Mux]) and
    the JSON and YAML of each document ([ConfigFormats], [PeerJson],
    [JobJson], [ExecJson], [BodyJson], [CredentialJson]), the stores of raft
    ([RaftStores]), each with its documented laws as a
    class or a named hypothesis, and an instance for the witnesses.

    ** Fuel

    Loops over slices are structural.  [next_loop] runs at most once per
    nanosecond between the last execution and the present, which suffices
    when the schedule advances ([advances]; the runs of [exec_step] keep the
    clock within a horizon the fuel reaches); [assign_loop], [expand_loop] and
    [queue_walk] advance by at least one id per turn and take the length of
    the interval; [batch_loop] and [bytes_loop] consume an element per turn.
    The theorems conclude that a result is returned, not only that a returned
    result is right.

    ** Not modelled

    raft, SQLite, cobra and the HTTP library are outside code; sockets,
    loggers and the locks are left out, and so are methods that only hand
    over a field or call raft; generated code (pkg/protobuffs), mocks and
    fixtures are not part of the program. *)

From stdpp Require Import base list gmap strings pretty sorting.
From Stdlib Require Import ZArith Lia.

#[local] Open Scope Z_scope.

(** ** Go's fixed-width integers

    A Go [uint64] or [int64] is a [Z]; the conversions that wrap are written
    out where the source converts. *)

Definition MaxInt64 : Z := 9223372036854775807.
Definition MinInt64 : Z := -9223372036854775808.
Definition MinInt16 : Z := -32768.
Definition MaxUint64 : Z := 18446744073709551615.

(** [uint64(x)] *)
Definition u64 (z : Z) : Z := z mod 18446744073709551616.

(** [int64(x)], and the result of a signed 64-bit operation *)
Definition i64 (z : Z) : Z :=
  (z + 9223372036854775808) mod 18446744073709551616 - 9223372036854775808.

(** [float64(x)] of an integer, as the integer the double denotes: round to
    nearest, ties to even, at 53 significant bits. *)
Definition f64 (z : Z) : Z :=
  let a := Z.abs z in
  if a <=? 9007199254740992 then z
  else
    let e := Z.log2 a - 52 in
    let q := a / 2 ^ e in
    let r := a mod 2 ^ e in
    let half := 2 ^ (e - 1) in
    let q' := if r <? half then q
              else if half <? r then q + 1
              else if Z.even q then q else q + 1 in
    Z.sgn z * (q' * 2 ^ e).

(** [int64(x)] of an integral double.  Go leaves the out-of-range conversion
    implementation defined; this is the value of its amd64 code. *)
Definition i64_of_f64 (z : Z) : Z :=
  if (MinInt64 <=? z) && (z <=? MaxInt64) then z else MinInt64.

Lemma u64_small z : 0 <= z <= MaxUint64 -> u64 z = z.
Proof. unfold u64, MaxUint64. intros. apply Z.mod_small. lia. Qed.

Lemma u64_range z : 0 <= u64 z <= MaxUint64.
Proof. unfold u64, MaxUint64. pose proof (Z.mod_pos_bound z 18446744073709551616). lia. Qed.

Lemma i64_small z : MinInt64 <= z <= MaxInt64 -> i64 z = z.
Proof. unfold i64, MinInt64, MaxInt64. intros. rewrite Z.mod_small; lia. Qed.

Lemma i64_range z : MinInt64 <= i64 z <= MaxInt64.
Proof.
  unfold i64, MinInt64, MaxInt64.
  pose proof (Z.mod_pos_bound (z + 9223372036854775808) 18446744073709551616). lia.
Qed.

Lemma f64_exact z : -9007199254740992 <= z <= 9007199254740992 -> f64 z = z.
Proof. unfold f64. intros. rewrite (proj2 (Z.leb_le _ _)); [done | lia]. Qed.

Lemma i64_of_f64_small z : MinInt64 <= z <= MaxInt64 -> i64_of_f64 z = z.
Proof.
  unfold i64_of_f64. intros.
  by rewrite (proj2 (Z.leb_le _ _)), (proj2 (Z.leb_le _ _)) by lia.
Qed.

(** ** Results, panics and loops

    A Go function that returns [(T, error)] returns a [result].  A function
    that reads or changes shared state is a [Go W A]: it takes the state and
    gives the value and the new state, or [None] where the program stops (a
    panic, [log.Fatal]) or a loop does not come back. *)

Inductive result (E A : Type) : Type :=
| Ok (a : A)
| Err (e : E).
Arguments Ok {E A} a.
Arguments Err {E A} e.

#[global] Instance result_eq_dec {E A} `{EqDecision E, EqDecision A} : EqDecision (result E A).
Proof. solve_decision. Defined.

Definition Go (W A : Type) : Type := W -> option (A * W).

#[global] Instance go_ret {W} : MRet (Go W) := fun A a w => Some (a, w).
#[global] Instance go_bind {W} : MBind (Go W) := fun A B f m w =>
  match m w with
  | Some (a, w') => f a w'
  | None => None
  end.

Definition crash {W A} : Go W A := fun _ => None.
Definition gets {W A} (f : W -> A) : Go W A := fun w => Some (f w, w).
Definition modify {W} (f : W -> W) : Go W unit := fun w => Some (tt, f w).
Definition lift_opt {W A} (o : option A) : Go W A := fun w => (fun a => (a, w)) <$> o.

(** [for _, a := range l { s = body(s, a) }] *)
Fixpoint go_for {W A S} (body : S -> A -> Go W S) (l : list A) (s : S) : Go W S :=
  match l with
  | [] => mret s
  | a :: l' => s' ← body s a; go_for body l' s'
  end.

(** The same loop with an early [return]: [inr] leaves the function. *)
Fixpoint go_for_ret {W A S R} (body : S -> A -> Go W (S + R)) (l : list A) (s : S)
    : Go W (S + R) :=
  match l with
  | [] => mret (inl s)
  | a :: l' =>
      x ← body s a;
      match x with
      | inl s' => go_for_ret body l' s'
      | inr r => mret (inr r)
      end
  end.

Lemma go_bind_ret {W A B} (a : A) (f : A -> Go W B) : (mret a ≫= f) = f a.
Proof. done. Qed.

Lemma go_bind_eq {W A B} (m : Go W A) (f : A -> Go W B) w :
  (m ≫= f) w = match m w with Some (a, w') => f a w' | None => None end.
Proof. done. Qed.

Lemma go_bind_Some {W A B} (m : Go W A) (f : A -> Go W B) w a w' :
  m w = Some (a, w') -> (m ≫= f) w = f a w'.
Proof. intros H. by rewrite go_bind_eq, H. Qed.

Lemma go_bind_inv {W A B} (m : Go W A) (f : A -> Go W B) w b w'' :
  (m ≫= f) w = Some (b, w'') ->
  exists a w', m w = Some (a, w') /\ f a w' = Some (b, w'').
Proof. rewrite go_bind_eq. destruct (m w) as [[a w']|] eqn:E; [eauto | done]. Qed.

Lemma go_bind_gets {W A B} (g : W -> A) (f : A -> Go W B) w : (gets g ≫= f) w = f (g w) w.
Proof. done. Qed.
Lemma go_bind_modify {W B} (g : W -> W) (f : unit -> Go W B) w : (modify g ≫= f) w = f tt (g w).
Proof. done. Qed.
Lemma go_bind_mret {W A B} (a : A) (f : A -> Go W B) w : (mret a ≫= f) w = f a w.
Proof. done. Qed.
Lemma go_bind_crash {W A B} (f : A -> Go W B) w : (crash ≫= f) w = None.
Proof. done. Qed.
Lemma go_bind_lift {W A B} (o : option A) a (f : A -> Go W B) w :
  o = Some a -> (lift_opt o ≫= f) w = f a w.
Proof. by intros ->. Qed.
Lemma go_bind_assoc {W A B C} (m : Go W A) (f : A -> Go W B) (g : B -> Go W C) w :
  ((m ≫= f) ≫= g) w = (m ≫= fun a => f a ≫= g) w.
Proof. rewrite !go_bind_eq. by destruct (m w) as [[a w']|]. Qed.

Lemma go_for_app {W A S} (body : S -> A -> Go W S) l1 l2 s w :
  go_for body (l1 ++ l2) s w = (go_for body l1 s ≫= go_for body l2) w.
Proof.
  revert s w. induction l1 as [|a l1 IH]; intros s w; [done|]. simpl.
  rewrite !go_bind_eq. destruct (body s a w) as [[s' w']|]; [apply IH | done].
Qed.

(** A loop preserves what each turn preserves. *)
Lemma go_for_inv {W A S} (body : S -> A -> Go W S) (P : S -> W -> Prop) l s w s' w' :
  (forall a s w s' w', a ∈ l -> P s w -> body s a w = Some (s', w') -> P s' w') ->
  P s w -> go_for body l s w = Some (s', w') -> P s' w'.
Proof.
  revert s w. induction l as [|a l IH]; intros s w Hb HP.
  - intros [= <- <-]. done.
  - simpl. intros (s1 & w1 & H1 & H2)%go_bind_inv.
    eapply (IH s1 w1); [| |done].
    + intros. eapply Hb; [by right|..]; done.
    + eapply Hb; [by left|..]; done.
Qed.

(** A component's operation inside a state that pairs it with another. *)
Definition on_fst {W S A} (m : Go W A) : Go (W * S) A := fun ws =>
  match m (fst ws) with
  | Some (a, w') => Some (a, (w', snd ws))
  | None => None
  end.

Lemma go_bind_on_fst {W S A B} (m : Go W A) (k : A -> Go (W * S) B) w (s : S) a w' :
  m w = Some (a, w') -> (on_fst m ≫= k) (w, s) = k a (w', s).
Proof. intros H. rewrite go_bind_eq. unfold on_fst. simpl. by rewrite H. Qed.

(** Positional lookup in an association list (first match). *)
Fixpoint assoc {A} (k : string) (l : list (string * A)) : option A :=
  match l with
  | [] => None
  | (k', a) :: l' => if String.eqb k k' then Some a else assoc k l'
  end.

(** Consecutive integers [lo, lo+1, ..., lo+n-1]. *)
Fixpoint zseq (lo : Z) (n : nat) : list Z :=
  match n with
  | O => []
  | S n' => lo :: zseq (lo + 1) n'
  end.

Lemma length_zseq lo n : length (zseq lo n) = n.
Proof. revert lo. induction n; intros; simpl; auto. Qed.

Lemma elem_of_zseq lo n x : x ∈ zseq lo n <-> lo <= x < lo + Z.of_nat n.
Proof.
  revert lo. induction n as [|n IH]; intros lo.
  - simpl. rewrite elem_of_nil. lia.
  - simpl zseq. rewrite elem_of_cons, IH. lia.
Qed.

Lemma zseq_app lo a b : zseq lo (a + b) = zseq lo a ++ zseq (lo + Z.of_nat a) b.
Proof.
  revert lo. induction a as [|a IH]; intros lo; simpl.
  - f_equal. lia.
  - rewrite IH. do 3 f_equal. lia.
Qed.

Lemma NoDup_zseq lo n : NoDup (zseq lo n).
Proof.
  revert lo. induction n as [|n IH]; intros lo; simpl; constructor; [|done].
  rewrite elem_of_zseq. lia.
Qed.

(** ** Filters *)

Lemma elem_of_filter_bool {A} (p : A -> bool) l x : x ∈ List.filter p l <-> x ∈ l /\ p x = true.
Proof. by rewrite !list_elem_of_In, filter_In. Qed.

Lemma filter_all {A} (p : A -> bool) l : (forall x, x ∈ l -> p x = true) -> List.filter p l = l.
Proof.
  induction l as [|x l IH]; intros H; [done|]. cbn [List.filter]. rewrite H by (by left).
  f_equal. apply IH. intros. apply H. by right.
Qed.

Lemma filter_none {A} (p : A -> bool) l : (forall x, x ∈ l -> p x = false) -> List.filter p l = [].
Proof.
  induction l as [|x l IH]; intros H; [done|]. cbn [List.filter]. rewrite H by (by left).
  apply IH. intros. apply H. by right.
Qed.

#[export] Instance filter_bool_perm {A} (p : A -> bool) :
  Proper (Permutation ==> Permutation) (List.filter p).
Proof.
  intros l l'. induction 1 as [|x l l' _ IH|x y l|l1 l2 l3 _ IH1 _ IH2]; cbn [List.filter].
  - done.
  - case_match; [by constructor|done].
  - repeat case_match; (done || by constructor).
  - by rewrite IH1.
Qed.

Lemma Forall_filter {A} (P : A -> Prop) (p : A -> bool) l : Forall P l -> Forall P (List.filter p l).
Proof. induction 1; cbn [List.filter]; [constructor|]. case_match; by try constructor. Qed.

Lemma NoDup_fmap_filter {A} (f : A -> Z) (p : A -> bool) l :
  NoDup (f <$> l) -> NoDup (f <$> List.filter p l).
Proof.
  induction l as [|x l IH]; [done|]. rewrite fmap_cons. intros [Hx Hnd]%NoDup_cons.
  cbn [List.filter]. case_match; [|by apply IH]. rewrite fmap_cons. constructor; [|by apply IH].
  intros (y & Hy & [Hin _]%elem_of_filter_bool)%list_elem_of_fmap. apply Hx. rewrite Hy.
  by apply list_elem_of_fmap_2.
Qed.

Lemma elem_of_concat {A} (x : A) ls : x ∈ concat ls <-> exists l, l ∈ ls /\ x ∈ l.
Proof. rewrite list_elem_of_In, in_concat. by setoid_rewrite list_elem_of_In. Qed.

(** In a list without repeated keys a key determines its element. *)
Lemma NoDup_fmap_inj {A B} (f : A -> B) l x y :
  NoDup (f <$> l) -> x ∈ l -> y ∈ l -> f x = f y -> x = y.
Proof.
  intros Hnd [i Hi]%list_elem_of_lookup [j Hj]%list_elem_of_lookup Hf.
  rewrite NoDup_alt in Hnd. assert (i = j); [|congruence].
  eapply (Hnd i j (f x)); rewrite list_lookup_fmap; [rewrite Hi|rewrite Hj]; cbn; congruence.
Qed.

(** ** Tactics *)

(** Unfold the integer bounds and close an arithmetic goal. *)
Ltac go_lia := unfold MaxInt64, MinInt64, MaxUint64, MinInt16 in *; lia.

(** Push a hypothesis [(m ≫= f) w = Some _] through its binds. *)
Ltac go_inv :=
  repeat match goal with
  | H : (_ ≫= _) _ = Some (_, _) |- _ =>
      apply go_bind_inv in H; destruct H as (? & ? & ? & H)
  | H : mret _ _ = Some _ |- _ => unfold mret, go_ret in H; simplify_eq
  end.

(** Run the pure steps at the head of the goal's computation. *)
Ltac go_step :=
  repeat (first [ rewrite go_bind_gets | rewrite go_bind_modify | rewrite go_bind_mret
                | rewrite go_bind_assoc ]); cbn beta iota zeta.

(** Run a call at the head of the computation by its equation. *)
Tactic Notation "go_call" uconstr(H) := erewrite go_bind_Some by (eapply H; eauto with go); cbn beta iota.

(** Split every boolean test of the goal into its arithmetic meaning. *)
Ltac cases_z :=
  repeat match goal with
  | |- context [if ?a <? ?b then _ else _] => destruct (Z.ltb_spec a b)
  | |- context [if ?a <=? ?b then _ else _] => destruct (Z.leb_spec a b)
  | |- context [if ?a =? ?b then _ else _] => destruct (Z.eqb_spec a b)
  end.

Create HintDb go discriminated.
#[export] Hint Rewrite @length_app @length_map length_zseq @length_replicate : go_len.
