(* ===== verification/Models.v ===== *)
(** * Data model: pkg/models, pkg/constants, pkg/utils/errors.go, time

    The structs the components exchange, Go's [time.Time] as far as the code
    uses it, and the methods of [models.Job] that compute a job's next
    execution.  The cron parser (github.com/robfig/cron) and the zone
    database are parameters, the class [Env]. *)

From stdpp Require Import base list gmap strings pretty.
From Stdlib Require Import ZArith Lia Ascii.
From S2P Require Import Prelude.

#[local] Open Scope Z_scope.

(** ** Time *)

(** An instant in nanoseconds since Go's zero time, and the name of the
    location it is shown in. *)
Record Time := mkTime { t_ns : Z; t_loc : string }.

#[global] Instance time_eq_dec : EqDecision Time.
Proof. solve_decision. Defined.

Definition time_zero : Time := mkTime 0 "UTC".
Definition IsZero (t : Time) : bool := t_ns t =? 0.
Definition Before (t u : Time) : bool := t_ns t <? t_ns u.
Definition After (t u : Time) : bool := t_ns u <? t_ns t.
Definition In_loc (loc : string) (t : Time) : Time := mkTime (t_ns t) loc.

Definition Second : Z := 1000000000.
Definition Minute : Z := 60000000000.

(** [t.Sub(u)]: a [Duration], saturated at its bounds. *)
Definition Sub (t u : Time) : Z := Z.max MinInt64 (Z.min MaxInt64 (t_ns t - t_ns u)).

(** [d.Round(m)]: to the nearest multiple of [m], halves away from zero. *)
Definition Round (d m : Z) : Z :=
  if m <=? 0 then d
  else
    let r := Z.rem d m in
    if d <? 0 then
      let r := - r in
      if r + r <? m then d + r
      else let d1 := i64 (d - m + r) in if d1 <? d then d1 else MinInt64
    else
      if r + r <? m then d - r
      else let d1 := i64 (d + m - r) in if d <? d1 then d1 else MaxInt64.

(** ** Errors *)

Record GenericError := mkGenericError { Message : string; Type_ : Z }.

#[global] Instance generic_error_eq_dec : EqDecision GenericError.
Proof. solve_decision. Defined.

Definition HTTPGenericError (httpStatus : Z) (errorMessage : string) : GenericError :=
  {| Type_ := httpStatus; Message := errorMessage |}.

(** The [Error] method of [GenericError]. *)
Definition ErrorString (g : GenericError) : string :=
  "message: " +:+ Message g +:+ ", code: " +:+ pretty (Type_ g).

Definition StatusOK : Z := 200.
Definition StatusCreated : Z := 201.
Definition StatusAccepted : Z := 202.
Definition StatusNoContent : Z := 204.
Definition StatusMovedPermanently : Z := 301.
Definition StatusFound : Z := 302.
Definition StatusBadRequest : Z := 400.
Definition StatusUnauthorized : Z := 401.
Definition StatusNotFound : Z := 404.
Definition StatusUnprocessableEntity : Z := 422.
Definition StatusInternalServerError : Z := 500.
Definition StatusNotImplemented : Z := 501.
Definition StatusServiceUnavailable : Z := 503.

(** ** Constants *)

Definition DBMaxVariableSize : Z := 32766.
Definition JobMaxBatchSize : Z := 5461.
Definition JobExecutionLogMaxBatchSize : Z := 4095.

Definition CommandTypeDbExecute : Z := 0.

(** [constants.CommandAction]; a command carries it as a [uint64]. *)
Definition CommandActionQueueJob : Z := 0.
Definition CommandActionCleanUncommittedAsyncTasksLogs : Z := 1.
Definition CommandActionCleanUncommittedExecutionLogs : Z := 2.

Definition CreateJobAsyncTaskService : string := "create_job".
Definition JobExecutorAsyncTaskService : string := "job_executor".

(** ** Structs *)

Inductive AsyncTaskState := AsyncTaskNotStated | AsyncTaskInProgress
                          | AsyncTaskSuccess | AsyncTaskFail.
#[global] Instance async_task_state_eq_dec : EqDecision AsyncTaskState.
Proof. solve_decision. Defined.

Definition AsyncTaskState_num (s : AsyncTaskState) : Z :=
  match s with
  | AsyncTaskNotStated => 0 | AsyncTaskInProgress => 1
  | AsyncTaskSuccess => 2 | AsyncTaskFail => 3
  end.

Record AsyncTask := mkAsyncTask {
  at_Id : Z;
  at_RequestId : string;
  at_Input : string;
  at_Output : string;
  at_Service : string;
  at_State : Z;
  at_DateCreated : Time }.

#[global] Instance async_task_eq_dec : EqDecision AsyncTask.
Proof. solve_decision. Defined.

Record Credential := mkCredential {
  cr_ID : Z;
  cr_Archived : bool;
  cr_ApiKey : string;
  cr_ApiSecret : string;
  cr_DateCreated : Time }.

#[global] Instance credential_eq_dec : EqDecision Credential.
Proof. solve_decision. Defined.

Record Project := mkProject {
  p_ID : Z;
  p_Name : string;
  p_Description : string;
  p_DateCreated : Time }.

#[global] Instance project_eq_dec : EqDecision Project.
Proof. solve_decision. Defined.

Record Job := mkJob {
  ID : Z;
  ProjectID : Z;
  Spec : string;
  CallbackUrl : string;
  Data : string;
  ExecutionType : string;
  StartDate : Time;
  EndDate : Time;
  LastExecutionDate : Time;
  Timezone : string;
  TimezoneOffset : Z;
  ExecutionId : string;
  DateCreated : Time }.

#[global] Instance job_eq_dec : EqDecision Job.
Proof. solve_decision. Defined.

(** Assignments to a field of a [Job]. *)
Definition set_ID (v : Z) (j : Job) : Job :=
  mkJob v (ProjectID j) (Spec j) (CallbackUrl j) (Data j) (ExecutionType j) (StartDate j)
    (EndDate j) (LastExecutionDate j) (Timezone j) (TimezoneOffset j) (ExecutionId j)
    (DateCreated j).
Definition set_LastExecutionDate (v : Time) (j : Job) : Job :=
  mkJob (ID j) (ProjectID j) (Spec j) (CallbackUrl j) (Data j) (ExecutionType j) (StartDate j)
    (EndDate j) v (Timezone j) (TimezoneOffset j) (ExecutionId j) (DateCreated j).
Definition set_ExecutionId (v : string) (j : Job) : Job :=
  mkJob (ID j) (ProjectID j) (Spec j) (CallbackUrl j) (Data j) (ExecutionType j) (StartDate j)
    (EndDate j) (LastExecutionDate j) (Timezone j) (TimezoneOffset j) v (DateCreated j).
Definition set_DateCreated (v : Time) (j : Job) : Job :=
  mkJob (ID j) (ProjectID j) (Spec j) (CallbackUrl j) (Data j) (ExecutionType j) (StartDate j)
    (EndDate j) (LastExecutionDate j) (Timezone j) (TimezoneOffset j) (ExecutionId j) v.

(** [models.Job{}] *)
Definition job_zero : Job :=
  mkJob 0 0 "" "" "" "" time_zero time_zero time_zero "" 0 "" time_zero.

(** [models.JobExecutionLogState], a [uint64] in the source. *)
Definition ExecutionLogScheduleState : Z := 0.
Definition ExecutionLogSuccessState : Z := 1.
Definition ExecutionLogFailedState : Z := 2.

Record JobExecutionLog := mkJobExecutionLog {
  el_Id : Z;
  el_UniqueId : string;
  el_State : Z;
  el_NodeId : Z;
  el_LastExecutionDatetime : Time;
  el_NextExecutionDatetime : Time;
  el_JobId : Z;
  el_JobQueueVersion : Z;
  el_ExecutionVersion : Z;
  el_DataCreated : Time }.

#[global] Instance execution_log_eq_dec : EqDecision JobExecutionLog.
Proof. solve_decision. Defined.

(** [models.JobExecutionLog{}], what a missing key of a map reads as. *)
Definition execution_log_zero : JobExecutionLog :=
  mkJobExecutionLog 0 "" 0 0 time_zero time_zero 0 0 0 time_zero.

Record MemJobExecution := mkMemJobExecution {
  m_ExecutionVersion : Z;
  m_FailCount : Z;
  m_LastState : Z;
  m_LastExecutionDatetime : Time;
  m_NextExecutionDatetime : Time }.

#[global] Instance mem_job_execution_eq_dec : EqDecision MemJobExecution.
Proof. solve_decision. Defined.

Record JobQueueLog := mkJobQueueLog {
  q_Id : Z;
  q_NodeId : Z;
  q_LowerBoundJobId : Z;
  q_UpperBoundJobId : Z;
  q_Version : Z;
  q_DateCreated : Time }.

#[global] Instance job_queue_log_eq_dec : EqDecision JobQueueLog.
Proof. solve_decision. Defined.

Record JobSchedule := mkJobSchedule { js_Job : Job; js_ExecutionTime : Time }.

#[global] Instance job_schedule_eq_dec : EqDecision JobSchedule.
Proof. solve_decision. Defined.

Record SQLResponse := mkSQLResponse { RowsAffected : Z; LastInsertedId : Z }.
Record FSMResponse := mkFSMResponse { f_Data : SQLResponse; f_Error : string }.
Definition sql_response_zero : SQLResponse := mkSQLResponse 0 0.

#[global] Instance sql_response_eq_dec : EqDecision SQLResponse.
Proof. solve_decision. Defined.
#[global] Instance fsm_response_eq_dec : EqDecision FSMResponse.
Proof. solve_decision. Defined.

Record PostProcess := mkPostProcess {
  pp_Action : Z;
  pp_TargetNodes : list Z;
  pp_Data : SQLResponse }.

#[global] Instance post_process_eq_dec : EqDecision PostProcess.
Proof. solve_decision. Defined.

(** ** What the models call outside the repository *)

Class Env := {
  (** [cron.Parse]: the schedule's [Next], or a parse error. *)
  cron_parse : string -> result string (Time -> Time);
  (** [time.LoadLocation] on the host's zone database. *)
  load_location : string -> result string string;
  (** [time.Time.String] *)
  time_string : Time -> string;
  (** Turns of the loop in [GetNextExecutionTime] the model runs. *)
  loop_fuel : nat }.

(** The documented contract of a cron schedule that has an activation time:
    [Next] gives a time later than its argument. *)
Definition advances (next : Time -> Time) : Prop := forall t, t_ns t < t_ns (next t).

(** ** Methods of [models.Job] *)

Section JobMethods.
Context `{!Env}.

Definition ConvertTimeToJobTimezone (j : Job) (timeToConvert : Time) : result string Time :=
  match load_location (Timezone j) with
  | Err err => Err err
  | Ok locale => Ok (In_loc locale timeToConvert)
  end.

(** The [for] loop of [GetNextExecutionTime]; [None] when the fuel is out. *)
Fixpoint next_loop (fuel : nat) (next : Time -> Time) (now currentTime : Time)
    : option Time :=
  if (0 <=? Round (Sub now currentTime) (Second * 1)) && Before currentTime now then
    match fuel with
    | O => None
    | S fuel' => next_loop fuel' next now (next currentTime)
    end
  else Some currentTime.

(** [None] is a loop that does not come back within [loop_fuel] turns. *)
Definition GetNextExecutionTime (now : Time) (j : Job) : option (result string Time) :=
  match cron_parse (Spec j) with
  | Err parseErr => Some (Err parseErr)
  | Ok next =>
      let from := if IsZero (LastExecutionDate j) then DateCreated j
                  else LastExecutionDate j in
      match ConvertTimeToJobTimezone j from with
      | Err err => Some (Err err)
      | Ok lastExecutionDateLocal =>
          Ok <$> next_loop loop_fuel next now lastExecutionDateLocal
      end
  end.

(** [fmt.Sprintf("%x", b)] of a byte string. *)
Definition hex_digit (n : nat) : ascii :=
  ascii_of_nat (if (n <? 10)%nat then 48 + n else 87 + n).
Fixpoint hex_string (s : string) : string :=
  match s with
  | EmptyString => EmptyString
  | String c s' =>
      let n := nat_of_ascii c in
      String (hex_digit (n / 16)) (String (hex_digit (n mod 16)) (hex_string s'))
  end.

(** [sha256.New().Sum(nil)], the digest of nothing, in hex. *)
Definition sha256_empty_hex : string :=
  "e3b0c44298fc1c149afbf4c8996fb92427ae41e4649b934ca495991b7852b855".

Definition execution_unique_id (j : Job) (nextExecutionTime : Time) : string :=
  pretty (ProjectID j) +:+ "-" +:+ pretty (ID j) +:+ "-" +:+
  time_string (LastExecutionDate j) +:+ "-" +:+ time_string nextExecutionTime.

(** [sha.Sum(b)] appends the digest of what was written, nothing, to [b]. *)
Definition GetNextExecutionId (now : Time) (j : Job) : option (result string string) :=
  match GetNextExecutionTime now j with
  | None => None
  | Some (Err _) => Some (Ok "")
  | Some (Ok nextExecutionTime) =>
      Some (Ok (hex_string (execution_unique_id j nextExecutionTime) +:+ sha256_empty_hex))
  end.

End JobMethods.
