(* ===== verification/JobTime.v ===== *)
(** * The next execution of a job: theorems on [models.Job]

    [GetNextExecutionTime] comes back with the first activation that is not
    in the past, and [GetNextExecutionId] tells jobs apart. *)

From stdpp Require Import base list gmap strings pretty.
From Stdlib Require Import ZArith Lia Ascii.
From S2P Require Import Prelude Models.

#[local] Open Scope Z_scope.

(** ** The loop condition *)

Lemma Round_nonneg d : 0 <= d <= MaxInt64 -> 0 <= Round d (Second * 1).
Proof.
  unfold Round, Second. intros.
  rewrite (proj2 (Z.leb_gt _ 0)), (proj2 (Z.ltb_ge d 0)) by lia.
  pose proof (Z.rem_bound_pos d (1000000000 * 1)).
  pose proof (Z.rem_le d (1000000000 * 1)). cases_z; go_lia.
Qed.

(** The first conjunct of the condition adds nothing to the second. *)
Lemma loop_cond now cur :
  (0 <=? Round (Sub now cur) (Second * 1)) && Before cur now = (t_ns cur <? t_ns now).
Proof.
  unfold Before. destruct (Z.ltb_spec (t_ns cur) (t_ns now)); [|by rewrite andb_false_r].
  rewrite andb_true_r. apply Z.leb_le, Round_nonneg. unfold Sub. go_lia.
Qed.

Lemma next_loop_unfold fuel next now cur :
  next_loop fuel next now cur =
  if t_ns cur <? t_ns now then
    match fuel with
    | O => None
    | S fuel' => next_loop fuel' next now (next cur)
    end
  else Some cur.
Proof. destruct fuel; simpl; by rewrite loop_cond. Qed.

(** The loop stops at the first element of the orbit of [next] that is not
    before [now], within as many turns as there are nanoseconds to go. *)
Lemma next_loop_first fuel next now cur :
  advances next -> (Z.to_nat (t_ns now - t_ns cur) <= fuel)%nat ->
  exists k, next_loop fuel next now cur = Some (Nat.iter k next cur) /\
    t_ns now <= t_ns (Nat.iter k next cur) /\
    forall i, (i < k)%nat -> t_ns (Nat.iter i next cur) < t_ns now.
Proof.
  intros Hadv. revert cur. induction fuel as [|fuel IH]; intros cur Hf;
    rewrite next_loop_unfold; destruct (Z.ltb_spec (t_ns cur) (t_ns now)).
  - lia.
  - exists 0%nat. simpl. split; [done|]. split; [done|]. lia.
  - destruct (IH (next cur)) as (k & Hk & Hge & Hlt).
    { pose proof (Hadv cur). lia. }
    exists (S k). rewrite Nat.iter_succ_r, Hk. split; [done|]. split; [done|].
    intros [|i] Hi; [done|]. rewrite Nat.iter_succ_r. apply Hlt. lia.
  - exists 0%nat. simpl. split; [done|]. split; [done|]. lia.
Qed.

(** ** Decimal numerals contain no dash *)

Fixpoint no_dash (s : string) : bool :=
  match s with
  | EmptyString => true
  | String c s' => negb (Ascii.eqb c "-"%char) && no_dash s'
  end.

Lemma pretty_N_char_no_dash x : Ascii.eqb (pretty_N_char x) "-"%char = false.
Proof. unfold pretty_N_char. by repeat case_match. Qed.

Lemma pretty_N_go_no_dash x s : no_dash s = true -> no_dash (pretty_N_go x s) = true.
Proof.
  revert s. induction (N.lt_wf_0 x) as [x _ IH]; intros s Hs.
  assert (x = 0 \/ 0 < x)%N as [->|?] by lia; [by rewrite pretty_N_go_0|].
  rewrite pretty_N_go_step by done. apply IH; [by apply N.div_lt|].
  simpl. by rewrite pretty_N_char_no_dash, Hs.
Qed.

Lemma pretty_Z_no_dash z : 0 <= z -> no_dash (pretty z) = true.
Proof.
  intros. destruct z; [done| |lia].
  unfold pretty, pretty_Z, pretty, pretty_positive, pretty, pretty_N.
  case_decide; [done|]. by apply pretty_N_go_no_dash.
Qed.

(** A dash ends the first field, so the split is unique. *)
Lemma split_at_dash s1 s2 r1 r2 :
  no_dash s1 = true -> no_dash s2 = true ->
  s1 +:+ "-" +:+ r1 = s2 +:+ "-" +:+ r2 -> s1 = s2 /\ r1 = r2.
Proof.
  revert s2. induction s1 as [|c s1 IH]; intros [|d s2]; simpl; intros H1 H2 Heq.
  - by simplify_eq.
  - injection Heq as <- _. done.
  - injection Heq as -> _. done.
  - apply andb_prop in H1 as [_ H1]. apply andb_prop in H2 as [_ H2].
    injection Heq as -> Heq. by destruct (IH s2 H1 H2 Heq) as [-> ->].
Qed.

(** ** Hex encoding loses nothing *)

Lemma hex_digit_inj a b : (a < 16)%nat -> (b < 16)%nat -> hex_digit a = hex_digit b -> a = b.
Proof. do 16 (destruct a as [|a]; [do 16 (destruct b as [|b]; [done|]); lia|]). lia. Qed.

#[local] Opaque Nat.div Nat.modulo.

#[global] Instance hex_string_inj : Inj (=) (=) hex_string.
Proof.
  intros s1. induction s1 as [|c s1 IH]; intros [|d s2]; cbn [hex_string]; try done.
  intros [= H1 H2 H3]. f_equal; [|by apply IH].
  pose proof (nat_ascii_bounded c). pose proof (nat_ascii_bounded d).
  apply hex_digit_inj in H1, H2;
    try (apply Nat.Div0.div_lt_upper_bound; lia); try (apply Nat.mod_upper_bound; lia).
  rewrite <- (ascii_nat_embedding c), <- (ascii_nat_embedding d). f_equal.
  pose proof (Nat.div_mod_eq (nat_of_ascii c) 16).
  pose proof (Nat.div_mod_eq (nat_of_ascii d) 16). lia.
Qed.

Lemma string_length_app s t : String.length (s +:+ t) = (String.length s + String.length t)%nat.
Proof. induction s; simpl; auto. Qed.

Lemma string_app_inj_suffix s1 s2 t : s1 +:+ t = s2 +:+ t -> s1 = s2.
Proof.
  revert s2. induction s1 as [|c s1 IH]; intros [|d s2]; simpl; intros Heq; try done;
    try (apply (f_equal String.length) in Heq; rewrite !string_length_app in Heq; simpl in Heq; lia).
  injection Heq as -> Heq. f_equal. by apply IH.
Qed.

(** ** Properties *)

Section Props.
Context `{!Env}.

(** C29: [GetNextExecutionTime] comes back, and with the first activation of the
    schedule, counted from the last execution (or, for a job that never ran,
    from its creation) in the job's own time zone, that is not in the past. *)
Theorem GetNextExecutionTime_first now (j : Job) next loc :
  cron_parse (Spec j) = Ok next -> advances next ->
  load_location (Timezone j) = Ok loc ->
  let from := In_loc loc (if IsZero (LastExecutionDate j) then DateCreated j
                          else LastExecutionDate j) in
  (Z.to_nat (t_ns now - t_ns from) <= loop_fuel)%nat ->
  exists k,
    GetNextExecutionTime now j = Some (Ok (Nat.iter k next from)) /\
    t_ns now <= t_ns (Nat.iter k next from) /\
    forall i, (i < k)%nat -> t_ns (Nat.iter i next from) < t_ns now.
Proof.
  intros Hc Hadv Hl from Hf. unfold GetNextExecutionTime, ConvertTimeToJobTimezone.
  rewrite Hc, Hl. fold from.
  destruct (next_loop_first loop_fuel next now from Hadv Hf) as (k & Hk & ?).
  exists k. by rewrite Hk.
Qed.

(** Two jobs never get the same execution id, whatever their dates: the id
    determines the project and the job. *)
Theorem GetNextExecutionId_separates now now' (j j' : Job) id :
  0 <= ProjectID j -> 0 <= ProjectID j' -> 0 <= ID j -> 0 <= ID j' ->
  GetNextExecutionId now j = Some (Ok id) -> GetNextExecutionId now' j' = Some (Ok id) ->
  id <> "" -> ProjectID j = ProjectID j' /\ ID j = ID j'.
Proof.
  intros HP HP' HI HI'. unfold GetNextExecutionId.
  destruct (GetNextExecutionTime now j) as [[t|]|]; [|by intros [= <-]|done].
  destruct (GetNextExecutionTime now' j') as [[t'|]|]; [|by intros _ [= <-]|done].
  intros [= <-] [= Heq] _.
  apply string_app_inj_suffix, (inj hex_string) in Heq. symmetry in Heq.
  unfold execution_unique_id in Heq.
  apply split_at_dash in Heq as [Hp Heq]; [|by apply pretty_Z_no_dash..].
  apply split_at_dash in Heq as [Hi _]; [|by apply pretty_Z_no_dash..].
  by split; apply (inj pretty).
Qed.

End Props.

(** ** A concrete environment: a schedule every three nanoseconds *)

Definition every3 (t : Time) : Time := mkTime (t_ns t + 3) (t_loc t).

Definition sample_env : Env := {|
  cron_parse s := if String.eqb s "@every" then Ok every3 else Err "bad spec";
  load_location l := if String.eqb l "" then Ok "UTC" else Ok l;
  time_string t := pretty (t_ns t);
  loop_fuel := 100 |}.

Lemma every3_advances : advances every3.
Proof. intros t. simpl. lia. Qed.

Definition sample_job (id : Z) : Job :=
  mkJob id 1 "@every" "http://x" "d" "http" time_zero time_zero time_zero "Africa/Lagos" 0 ""
    (mkTime 1 "UTC").
Definition time10 : Time := mkTime 10 "UTC".

Lemma GetNextExecutionTime_first_witness :
  exists k,
    @GetNextExecutionTime sample_env time10 (sample_job 4) =
      Some (Ok (Nat.iter k every3 (mkTime 1 "Africa/Lagos"))) /\
    10 <= t_ns (Nat.iter k every3 (mkTime 1 "Africa/Lagos")) /\
    forall i, (i < k)%nat -> t_ns (Nat.iter i every3 (mkTime 1 "Africa/Lagos")) < 10.
Proof.
  apply (@GetNextExecutionTime_first sample_env time10 (sample_job 4) every3 "Africa/Lagos").
  - reflexivity.
  - apply every3_advances.
  - reflexivity.
  - vm_compute. lia.
Defined.

Definition sample_id : string :=
  match @GetNextExecutionId sample_env time10 (sample_job 4) with Some (Ok i) => i | _ => "" end.

(** The same execution, computed at two times before it. *)
Lemma GetNextExecutionId_separates_witness :
  ProjectID (sample_job 4) = ProjectID (sample_job 4) /\ ID (sample_job 4) = ID (sample_job 4).
Proof.
  apply (@GetNextExecutionId_separates sample_env time10 (mkTime 9 "UTC") (sample_job 4) (sample_job 4)
           sample_id); vm_compute; try discriminate; reflexivity.
Defined.
