(* ===== verification/Batcher.v ===== *)
(** * Batching: pkg/utils/batcher.go and utils.ExpandIdsRange

    [Batch] cuts a slice so that an SQL statement with a fixed number of
    columns per element stays under SQLite's limit of bound variables;
    [BatchByBytes] cuts the payload of an HTTP execution.  Every repository
    sends its rows through [Batch]. *)

From stdpp Require Import base list gmap strings.
From Stdlib Require Import ZArith Lia SpecFloat.
From S2P Require Import Prelude Models.

#[local] Open Scope Z_scope.

Section Batch.
Context {T : Type}.

(** [maxVar]; every caller passes a literal, nonzero number of columns. *)
Definition batch_maxVar (numberOfColumns : Z) : Z :=
  i64_of_f64 (f64 (Z.quot DBMaxVariableSize numberOfColumns)).

(** The loop over [ids], with [batches] and [temp]. *)
Fixpoint batch_loop (maxVar : Z) (ids temp : list T) (batches : list (list T))
    : list (list T) :=
  match ids with
  | [] => match temp with
          | [] => batches
          | _ => batches ++ [temp]
          end
  | x :: ids' =>
      let temp := temp ++ [x] in
      if Z.of_nat (length temp) =? maxVar
      then batch_loop maxVar ids' [] (batches ++ [temp])
      else batch_loop maxVar ids' temp batches
  end.

Definition Batch (ids : list T) (numberOfColumns : Z) : list (list T) :=
  let maxVar := batch_maxVar numberOfColumns in
  if maxVar <? Z.of_nat (length ids)
  then batch_loop maxVar ids [] []
  else [ids].

(** ** Payload batches

    [marshal] is [json.Marshal] of a slice of [T].  The size of a batch is
    computed in double precision. *)

Definition fdiv := SFdiv 53 1024.
Definition fmul := SFmul 53 1024.
Definition fsub := SFsub 53 1024.
Definition float_of_Z (z : Z) : spec_float := binary_normalize 53 1024 z 0 false.

(** [int(math.Floor(x))] of a finite double. *)
Definition floor_int (x : spec_float) : Z :=
  match x with
  | S754_finite s m e =>
      let v := if s then Z.neg m else Z.pos m in
      i64_of_f64 (if 0 <=? e then v * 2 ^ e else v / 2 ^ (- e))
  | S754_zero _ => 0
  | S754_infinity _ | S754_nan => MinInt64
  end.

Definition items_per_batch (firstLength maxBatchSizeMb : Z) : Z :=
  let unitSize := fdiv (float_of_Z firstLength) (float_of_Z 1000000) in
  floor_int (fdiv (fsub (float_of_Z maxBatchSizeMb) (fmul unitSize (float_of_Z 10))) unitSize).

Context {B : Type} (marshal : list T -> list B).

Fixpoint bytes_loop (itemsPerBatch i : Z) (data currentCollection : list T)
    (results : list (list B)) : list (list B) :=
  match data with
  | [] => match currentCollection with
          | [] => results
          | _ => results ++ [marshal currentCollection]
          end
  | x :: data' =>
      if (Z.rem i itemsPerBatch =? 0) && (0 <? i)
      then bytes_loop itemsPerBatch (i + 1) data' ([] ++ [x]) (results ++ [marshal currentCollection])
      else bytes_loop itemsPerBatch (i + 1) data' (currentCollection ++ [x]) results
  end.

(** [None]: no first element to measure, or a division by zero. *)
Definition BatchByBytes (data : list T) (maxBatchSizeMb : Z) : option (list (list B)) :=
  match data with
  | [] => None
  | x :: _ =>
      let itemsPerBatch := items_per_batch (Z.of_nat (length (marshal [x]))) maxBatchSizeMb in
      if itemsPerBatch =? 0 then None
      else Some (bytes_loop itemsPerBatch 0 data [] [])
  end.

End Batch.

(** [ExpandIdsRange(min, max)] for [uint64]: the loop counter wraps, so the
    largest [max] never ends the loop ([None]). *)
Fixpoint expand_loop (fuel : nat) (i max : Z) (results : list Z) : option (list Z) :=
  if i <=? max then
    match fuel with
    | O => None
    | S fuel' => expand_loop fuel' (u64 (i + 1)) max (results ++ [i])
    end
  else Some results.

Definition ExpandIdsRange (min max : Z) : option (list Z) :=
  expand_loop (S (Z.to_nat (max - min + 1))) min max [].

(** ** Lemmas *)

Section BatchFacts.
Context {T : Type}.
Implicit Types (ids temp b : list T).

Lemma batch_maxVar_eq n : 1 <= n -> batch_maxVar n = 32766 / n.
Proof.
  intros. unfold batch_maxVar, DBMaxVariableSize. rewrite Z.quot_div_nonneg by lia.
  pose proof (Z.div_pos 32766 n). pose proof (Z.div_le_upper_bound 32766 n 32766).
  rewrite f64_exact, i64_of_f64_small; go_lia || nia.
Qed.

Lemma batch_loop_concat m ids temp batches :
  concat (batch_loop m ids temp batches) = concat batches ++ temp ++ ids.
Proof.
  revert temp batches. induction ids as [|x ids IH]; intros temp batches; cbn [batch_loop].
  - rewrite app_nil_r. destruct temp; [by rewrite app_nil_r|].
    rewrite concat_app. simpl. by rewrite app_nil_r.
  - case_match; rewrite IH, ?concat_app; simpl; rewrite ?app_nil_r, <- ?app_assoc; done.
Qed.

Lemma batch_loop_Forall m ids temp batches :
  1 <= m -> Z.of_nat (length temp) < m ->
  Forall (fun b => b <> [] /\ Z.of_nat (length b) <= m) batches ->
  Forall (fun b => b <> [] /\ Z.of_nat (length b) <= m) (batch_loop m ids temp batches).
Proof.
  intros Hm. revert temp batches.
  induction ids as [|x ids IH]; intros temp batches Ht Hb; cbn [batch_loop].
  - destruct temp; [done|]. apply Forall_app_2; [done|]. repeat constructor; [done|lia].
  - destruct (Z.eqb_spec (Z.of_nat (length (temp ++ [x]))) m) as [E|E].
    + apply IH; [simpl; lia|]. apply Forall_app_2; [done|]. repeat constructor; [|lia].
      by destruct temp.
    + apply IH; [|done]. rewrite length_app in *. simpl in *. lia.
Qed.

Lemma Batch_concat ids n : concat (Batch ids n) = ids.
Proof.
  unfold Batch. case_match; [apply batch_loop_concat|]. simpl. apply app_nil_r.
Qed.

Lemma Batch_bounded ids n b :
  1 <= n <= DBMaxVariableSize -> b ∈ Batch ids n -> Z.of_nat (length b) * n <= DBMaxVariableSize.
Proof.
  unfold DBMaxVariableSize. intros Hn Hb.
  assert (Z.of_nat (length b) <= 32766 / n).
  { unfold Batch in Hb. rewrite batch_maxVar_eq in Hb by lia.
    assert (1 <= 32766 / n) by (apply Z.div_le_lower_bound; lia).
    destruct (Z.ltb_spec (32766 / n) (Z.of_nat (length ids))).
    - assert (Hf : Forall (fun b => b <> [] /\ Z.of_nat (length b) <= 32766 / n)
                     (batch_loop (32766 / n) ids [] [])).
      { apply batch_loop_Forall; [done| simpl; lia | constructor]. }
      rewrite Forall_forall in Hf. by apply Hf.
    - apply list_elem_of_singleton in Hb as ->. lia. }
  pose proof (Z.mul_div_le 32766 n). nia.
Qed.

Lemma Batch_nonempty ids n b :
  1 <= n <= DBMaxVariableSize -> ids <> [] -> b ∈ Batch ids n -> b <> [].
Proof.
  unfold DBMaxVariableSize, Batch. intros Hn Hne Hb. rewrite batch_maxVar_eq in Hb by lia.
  assert (1 <= 32766 / n) by (apply Z.div_le_lower_bound; lia).
  destruct (Z.ltb_spec (32766 / n) (Z.of_nat (length ids))).
  - assert (Hf : Forall (fun b => b <> [] /\ Z.of_nat (length b) <= 32766 / n)
                   (batch_loop (32766 / n) ids [] [])).
    { apply batch_loop_Forall; [done| simpl; lia | constructor]. }
    rewrite Forall_forall in Hf. by apply Hf.
  - by apply list_elem_of_singleton in Hb as ->.
Qed.

Lemma Batch_nil n : 1 <= n -> Batch (@nil T) n = [[]].
Proof.
  intros. unfold Batch. rewrite batch_maxVar_eq by lia.
  rewrite (proj2 (Z.ltb_ge _ _)); [done|]. simpl. apply Z.div_pos; lia.
Qed.

(** A slice that fits is one batch, as it is. *)
Lemma Batch_small ids n :
  1 <= n -> Z.of_nat (length ids) <= 32766 / n -> Batch ids n = [ids].
Proof.
  intros. unfold Batch. rewrite batch_maxVar_eq by lia. by rewrite (proj2 (Z.ltb_ge _ _)).
Qed.

Lemma elem_of_Batch ids n b x : b ∈ Batch ids n -> x ∈ b -> x ∈ ids.
Proof.
  intros Hb Hx. rewrite <- (Batch_concat ids n). apply list_elem_of_In, in_concat.
  exists b. by split; apply list_elem_of_In.
Qed.

End BatchFacts.

Section BytesFacts.
Context {T B : Type} (marshal : list T -> list B).

(** What [BatchByBytes] encodes: the chunks before marshalling. *)
Lemma bytes_loop_chunks m i data cur results :
  exists chunks, bytes_loop marshal m i data cur results = results ++ (marshal <$> chunks) /\
    concat chunks = cur ++ data.
Proof.
  revert i cur results. induction data as [|x data IH]; intros i cur results; cbn [bytes_loop].
  - destruct cur as [|c cur].
    + exists []. by rewrite app_nil_r.
    + exists [c :: cur]. simpl. by rewrite app_nil_r.
  - case_match.
    + destruct (IH (i + 1) ([] ++ [x]) (results ++ [marshal cur])) as (cs & -> & Hc).
      exists (cur :: cs). simpl. rewrite <- app_assoc, Hc. done.
    + destruct (IH (i + 1) (cur ++ [x]) results) as (cs & -> & Hc).
      exists cs. by rewrite Hc, <- app_assoc.
Qed.

End BytesFacts.

Lemma expand_loop_spec fuel i max results :
  0 <= i -> max < MaxUint64 -> max - i + 1 <= Z.of_nat fuel ->
  expand_loop fuel i max results = Some (results ++ zseq i (Z.to_nat (max - i + 1))).
Proof.
  intros Hi Hmax. revert i results Hi. induction fuel as [|fuel IH]; intros i results Hi Hf;
    simpl; destruct (Z.leb_spec i max); try lia.
  - replace (Z.to_nat (max - i + 1)) with O by lia. by rewrite app_nil_r.
  - rewrite u64_small by go_lia. rewrite IH by lia.
    replace (Z.to_nat (max - i + 1)) with (S (Z.to_nat (max - (i + 1) + 1))) by lia.
    simpl. by rewrite <- app_assoc.
  - replace (Z.to_nat (max - i + 1)) with O by lia. by rewrite app_nil_r.
Qed.

Lemma ExpandIdsRange_eq min max :
  0 <= min -> max < MaxUint64 ->
  ExpandIdsRange min max = Some (zseq min (Z.to_nat (max - min + 1))).
Proof. intros. unfold ExpandIdsRange. rewrite expand_loop_spec by lia. done. Qed.

(** ** Properties *)

(** C35: [Batch] loses, repeats and reorders nothing, no batch of a nonempty
    slice is empty, and a batch times the number of columns stays within the
    bound variables SQLite accepts. *)
Theorem Batch_partitions {T} (ids : list T) n :
  1 <= n <= DBMaxVariableSize ->
  concat (Batch ids n) = ids /\
  forall b, b ∈ Batch ids n ->
    Z.of_nat (length b) * n <= DBMaxVariableSize /\ (ids <> [] -> b <> []).
Proof.
  intros Hn. split; [apply Batch_concat|]. intros b Hb.
  split; [by eapply Batch_bounded|]. intros. by eapply Batch_nonempty.
Qed.

Lemma Batch_partitions_witness :
  concat (Batch [7; 8; 9] 16000) = [7; 8; 9] /\
  forall b, b ∈ Batch [7; 8; 9] 16000 ->
    Z.of_nat (length b) * 16000 <= DBMaxVariableSize /\ ([7; 8; 9] <> [] -> b <> []).
Proof. apply (Batch_partitions [7; 8; 9] 16000). vm_compute. split; discriminate. Defined.

(** When [BatchByBytes] answers, its payloads are the encodings of
    consecutive chunks that together are the data. *)
Theorem BatchByBytes_chunks {T B} (marshal : list T -> list B) data maxMb payloads :
  BatchByBytes marshal data maxMb = Some payloads ->
  exists chunks, payloads = marshal <$> chunks /\ concat chunks = data.
Proof.
  unfold BatchByBytes. destruct data as [|x data]; [done|]. case_match; [done|]. intros [= <-].
  destruct (bytes_loop_chunks marshal (items_per_batch (Z.of_nat (length (marshal [x]))) maxMb) 0
              (x :: data) [] []) as (chunks & Hb & Hc).
  exists chunks. split; [exact Hb|exact Hc].
Qed.

Lemma BatchByBytes_chunks_witness :
  exists payloads chunks,
    BatchByBytes (fun l => l ++ l) [1; 2; 3] 1 = Some payloads /\
    payloads = (fun l => l ++ l) <$> chunks /\ concat chunks = [1; 2; 3].
Proof.
  destruct (BatchByBytes_chunks (fun l => l ++ l) [1; 2; 3] 1
              (default [] (BatchByBytes (fun l => l ++ l) [1; 2; 3] 1))) as (chunks & Hp & Hc).
  - vm_compute. reflexivity.
  - do 2 eexists. split; [|split; [exact Hp|exact Hc]]. vm_compute. reflexivity.
Defined.

(** [ExpandIdsRange] ends and lists every id of the interval once, in
    order, for every upper bound but the greatest [uint64]. *)
Theorem ExpandIdsRange_lists min max :
  0 <= min -> max < MaxUint64 ->
  exists l, ExpandIdsRange min max = Some l /\ NoDup l /\ (forall x, x ∈ l <-> min <= x <= max) /\
    l = zseq min (length l).
Proof.
  intros. rewrite ExpandIdsRange_eq by done. eexists. split; [done|]. split; [apply NoDup_zseq|].
  split; [|by rewrite length_zseq]. intros x. rewrite elem_of_zseq. lia.
Qed.

Lemma ExpandIdsRange_lists_witness :
  exists l, ExpandIdsRange 3 6 = Some l /\ NoDup l /\ (forall x, x ∈ l <-> 3 <= x <= 6) /\
    l = zseq 3 (length l).
Proof. apply (ExpandIdsRange_lists 3 6); vm_compute; [discriminate|reflexivity]. Defined.
