(* ===== verification/Sql.v ===== *)
(** * The relational store: the schema of pkg/db/db.go and the SQL it runs

    The schema is data ([GetSetupSQL]); a statement is the tree of the text
    the repositories build ([stmt], [cond]), and [sql_exec] and [sql_select]
    give it SQL's meaning over tables of rows: AUTOINCREMENT ids, NOT NULL,
    UNIQUE and FOREIGN KEY constraints, ON DELETE CASCADE, and the limit of
    bound variables.  A statement that fails changes nothing. *)

From stdpp Require Import base list gmap strings pretty sorting.
From Stdlib Require Import ZArith Lia.
From S2P Require Import Prelude Models.

#[local] Open Scope Z_scope.

(** ** Values, rows and tables *)

(** [VTime] is a datetime column, as the instant its text denotes. *)
Inductive value :=
| VNull
| VInt (z : Z)
| VText (s : string)
| VTime (t : Z)
| VBool (b : bool).

#[global] Instance value_eq_dec : EqDecision value.
Proof. solve_decision. Defined.

(** A boolean parameter is stored as an integer. *)
Definition store_value (v : value) : value :=
  match v with
  | VBool b => VInt (if b then 1 else 0)
  | _ => v
  end.

Definition row := list (string * value).
Definition col (c : string) (r : row) : value := default VNull (assoc c r).
Definition row_id (r : row) : Z := match col "id" r with VInt z => z | _ => 0 end.

Record table := Table { t_rows : list row; t_seq : Z }.
Definition table_empty : table := Table [] 0.

(** ** Schema *)

Record coldef := Col { c_name : string; c_notnull : bool; c_unique : bool; c_default : value }.
Record tabdef := Tab { td_name : string; td_cols : list coldef; td_fk : option (string * string) }.

Definition col_null (n : string) : coldef := Col n false false VNull.
Definition col_nn (n : string) : coldef := Col n true false VNull.
Definition col_unique (n : string) : coldef := Col n true true VNull.

Definition executions_cols : list coldef :=
  [col_null "unique_id"; col_nn "state"; col_nn "node_id"; col_nn "last_execution_time";
   col_nn "next_execution_time"; col_nn "job_id"; col_nn "date_created";
   col_nn "job_queue_version"; col_nn "execution_version"].
Definition async_tasks_cols : list coldef :=
  [col_nn "request_id"; col_nn "input"; col_null "output"; col_nn "state"; col_nn "service";
   col_nn "date_created"].

(** Every table also has [id INTEGER PRIMARY KEY AUTOINCREMENT]. *)
Definition GetSetupSQL : list tabdef :=
  [Tab "credentials"
     [col_nn "archived"; col_null "api_key"; col_null "api_secret"; col_nn "date_created"] None;
   Tab "projects" [col_unique "name"; col_nn "description"; col_nn "date_created"] None;
   Tab "jobs"
     [col_nn "project_id"; col_nn "spec"; col_null "data"; col_nn "callback_url";
      Col "execution_type" true false (VText "http"); col_nn "date_created"; col_nn "timezone";
      col_nn "timezone_offset"] (Some ("project_id", "projects"));
   Tab "job_executions_committed" executions_cols (Some ("job_id", "jobs"));
   Tab "job_executions_uncommitted" executions_cols (Some ("job_id", "jobs"));
   Tab "job_queues"
     [col_nn "node_id"; col_nn "lower_bound_job_id"; col_nn "upper_bound_job_id"; col_nn "version";
      col_nn "date_created"] None;
   Tab "job_queue_versions" [col_nn "version"; col_nn "number_of_active_nodes"] None;
   Tab "async_tasks_committed" async_tasks_cols None;
   Tab "async_tasks_uncommitted" async_tasks_cols None].

Definition find_tabdef (t : string) : option tabdef :=
  List.find (fun td => String.eqb (td_name td) t) GetSetupSQL.

(** The database of a node: its tables and the connection's last rowid. *)
Record Db := mkDb { db_tabs : gmap string table; db_last : Z }.

(** What the migration leaves: every table, empty. *)
Definition db_empty : Db :=
  mkDb (list_to_map ((fun td => (td_name td, table_empty)) <$> GetSetupSQL)) 0.

Definition db_table (db : Db) (t : string) : table := default table_empty (db_tabs db !! t).
Definition db_rows (db : Db) (t : string) : list row := t_rows (db_table db t).

(** ** Statements that write *)

Inductive stmt :=
| Insert (t : string) (cols : list string) (n : nat)
    (** INSERT INTO t (cols) VALUES (?,..,?), .. ; with n tuples *)
| Update (t : string) (sets : list string) (key : string)
    (** UPDATE t SET c = ?, .. WHERE key = ? *)
| Delete (t : string) (key : string)
    (** DELETE FROM t WHERE key = ? *)
| DeleteIn (t : string) (key : string) (n : nat).
    (** DELETE FROM t WHERE key IN (?,..,?) *)

#[global] Instance stmt_eq_dec : EqDecision stmt.
Proof. solve_decision. Defined.

(** The number of placeholders in the text. *)
Definition placeholders (s : stmt) : nat :=
  match s with
  | Insert _ cols n => length cols * n
  | Update _ sets _ => length sets + 1
  | Delete _ _ => 1
  | DeleteIn _ _ n => n
  end.

Definition tuple_row (td : tabdef) (cols : list string) (id : Z) (vals : list value) : row :=
  ("id", VInt id) ::
  ((fun cd => (c_name cd, match assoc (c_name cd) (zip cols vals) with
                          | Some v => store_value v
                          | None => c_default cd
                          end)) <$> td_cols td).

Definition not_null_ok (td : tabdef) (r : row) : bool :=
  forallb (fun cd => negb (c_notnull cd) || negb (bool_decide (col (c_name cd) r = VNull)))
    (td_cols td).

Definition unique_ok (td : tabdef) (tab : table) (r : row) : bool :=
  forallb (fun cd => negb (c_unique cd) ||
             forallb (fun r' => negb (bool_decide (col (c_name cd) r' = col (c_name cd) r)))
               (t_rows tab))
    (td_cols td).

Definition fk_ok (db : Db) (td : tabdef) (r : row) : bool :=
  match td_fk td with
  | None => true
  | Some (c, parent) =>
      bool_decide (col c r = VNull) ||
      existsb (fun pr => bool_decide (col "id" pr = col c r)) (db_rows db parent)
  end.

(** Add the tuples one after the other; the first that breaks a constraint
    fails the statement. *)
Fixpoint insert_tuples (db : Db) (td : tabdef) (cols : list string) (tab : table)
    (tuples : list (list value)) : result string table :=
  match tuples with
  | [] => Ok tab
  | vals :: rest =>
      let r := tuple_row td cols (t_seq tab + 1) vals in
      if negb (not_null_ok td r) then Err "NOT NULL constraint failed"
      else if negb (unique_ok td tab r) then Err "UNIQUE constraint failed"
      else if negb (fk_ok db td r) then Err "FOREIGN KEY constraint failed"
      else insert_tuples db td cols (Table (t_rows tab ++ [r]) (t_seq tab + 1)) rest
  end.

(** The bound parameters, a tuple of [k] at a time. *)
Fixpoint tuples (k n : nat) (params : list value) : list (list value) :=
  match n with
  | O => []
  | S n' => take k params :: tuples k n' (drop k params)
  end.

Definition set_cols (sets : list string) (vals : list value) (r : row) : row :=
  (fun cv => (fst cv, match assoc (fst cv) (zip sets vals) with
                      | Some v => store_value v
                      | None => snd cv
                      end)) <$> r.

Definition key_is (key : string) (vs : list value) (r : row) : bool :=
  existsb (fun v => bool_decide (col key r = store_value v)) vs.

(** Remove the rows of [t] with these ids, and what refers to them. *)
Fixpoint delete_ids (fuel : nat) (tabs : gmap string table) (t : string) (ids : list Z)
    : gmap string table :=
  match fuel with
  | O => tabs
  | S fuel' =>
      let keep := fun r => negb (bool_decide (row_id r ∈ ids)) in
      let tabs := alter (fun tab => Table (List.filter keep (t_rows tab)) (t_seq tab)) t tabs in
      foldl (fun tabs td =>
               match td_fk td with
               | Some (c, parent) =>
                   if String.eqb parent t then
                     let hit := fun r => existsb (fun i => bool_decide (col c r = VInt i)) ids in
                     let children := row_id <$>
                       List.filter hit (t_rows (default table_empty (tabs !! td_name td))) in
                     delete_ids fuel' tabs (td_name td) children
                   else tabs
               | None => tabs
               end) tabs GetSetupSQL
  end.

(** A chain of references is no longer than the schema. *)
Definition cascade_depth : nat := length GetSetupSQL.

Definition delete_where (db : Db) (t key : string) (vs : list value) : Db * SQLResponse :=
  let ids := row_id <$> List.filter (key_is key vs) (db_rows db t) in
  (mkDb (delete_ids cascade_depth (db_tabs db) t ids) (db_last db),
   mkSQLResponse (Z.of_nat (length ids)) (db_last db)).

Definition sql_exec (db : Db) (s : stmt) (params : list value) : result string (Db * SQLResponse) :=
  if DBMaxVariableSize <? Z.of_nat (placeholders s) then Err "too many SQL variables"
  else if negb (Nat.eqb (length params) (placeholders s)) then Err "not enough args to execute query"
  else
    match s with
    | Insert t cols n =>
        match find_tabdef t with
        | None => Err ("no such table: " +:+ t)
        | Some td =>
            if Nat.eqb n 0 then Err "incomplete input"
            else
              match insert_tuples db td cols (db_table db t) (tuples (length cols) n params) with
              | Err e => Err e
              | Ok tab =>
                  Ok (mkDb (<[t := tab]> (db_tabs db)) (t_seq tab),
                      mkSQLResponse (Z.of_nat n) (t_seq tab))
              end
        end
    | Update t sets key =>
        match find_tabdef t with
        | None => Err ("no such table: " +:+ t)
        | Some td =>
            let vs := take (length sets) params in
            let hit := key_is key (drop (length sets) params) in
            let tab := db_table db t in
            let upd := fun r => if hit r then set_cols sets vs r else r in
            if forallb (fun r => negb (hit r) || not_null_ok td (set_cols sets vs r)) (t_rows tab)
            then Ok (mkDb (<[t := Table (upd <$> t_rows tab) (t_seq tab)]> (db_tabs db)) (db_last db),
                     mkSQLResponse (Z.of_nat (length (List.filter hit (t_rows tab)))) (db_last db))
            else Err "NOT NULL constraint failed"
        end
    | Delete t key => Ok (delete_where db t key params)
    | DeleteIn t key n =>
        if Nat.eqb n 0 then Err "incomplete input" else Ok (delete_where db t key params)
    end.

(** ** Queries *)

Inductive cond :=
| CTrue
| CEq (c : string) (v : value)
| CIn (c : string) (vs : list value)
| CBetween (c : string) (lo hi : Z)
| CAnd (a b : cond).

Fixpoint holds (w : cond) (r : row) : bool :=
  match w with
  | CTrue => true
  | CEq c v => bool_decide (col c r = store_value v)
  | CIn c vs => key_is c vs r
  | CBetween c lo hi => match col c r with VInt z => (lo <=? z) && (z <=? hi) | _ => false end
  | CAnd a b => holds a r && holds b r
  end.

Definition sql_select (w : cond) (rows : list row) : list row := List.filter (holds w) rows.

(** ORDER BY: a stable sort on a datetime or integer column. *)
Definition sort_key (c : string) (r : row) : Z :=
  match col c r with VInt z => z | VTime t => t | _ => 0 end.
Definition key_le (c : string) (a b : row) : Prop := sort_key c a <= sort_key c b.
Definition key_ge (c : string) (a b : row) : Prop := sort_key c b <= sort_key c a.
#[global] Instance key_le_dec c : RelDecision (key_le c).
Proof. intros a b. unfold key_le. apply _. Defined.
#[global] Instance key_ge_dec c : RelDecision (key_ge c).
Proof. intros a b. unfold key_ge. apply _. Defined.
Definition order_asc (c : string) (rows : list row) : list row := merge_sort (key_le c) rows.
Definition order_desc (c : string) (rows : list row) : list row := merge_sort (key_ge c) rows.

(** The column of an ORDER BY clause that ends in DESC. *)
Fixpoint desc_column (clause : string) : option string :=
  if String.eqb clause " DESC" then Some EmptyString
  else match clause with
       | EmptyString => None
       | String a rest => (fun c => String a c) <$> desc_column rest
       end.
Definition order_by (clause : string) (rows : list row) : list row :=
  match desc_column clause with Some c => order_desc c rows | None => order_asc clause rows end.

(** OFFSET and LIMIT *)
Definition page (offset limit : Z) (rows : list row) : list row :=
  take (Z.to_nat limit) (drop (Z.to_nat offset) rows).

(** max(c) and min(c); [None] is SQL's NULL of an empty table. *)
Definition ints_of (c : string) (rows : list row) : list Z :=
  omap (fun r => match col c r with VInt z => Some z | _ => None end) rows.
Definition sql_max (c : string) (rows : list row) : option Z :=
  match ints_of c rows with [] => None | z :: zs => Some (foldl Z.max z zs) end.
Definition sql_min (c : string) (rows : list row) : option Z :=
  match ints_of c rows with [] => None | z :: zs => Some (foldl Z.min z zs) end.

(** The columns of the select list, in its order. *)
Definition project_cols (cols : list string) (r : row) : list value := (fun c => col c r) <$> cols.

(** ** Scanning a column into a Go variable; [None] is a conversion error *)

Definition scan_uint64 (v : value) : option Z :=
  match v with VInt z => if 0 <=? z then Some z else None | _ => None end.
Definition scan_int64 (v : value) : option Z :=
  match v with VInt z => Some z | _ => None end.
Definition scan_string (v : value) : option string :=
  match v with VText s => Some s | VInt z => Some (pretty z) | _ => None end.
(** The driver gives the instant in UTC. *)
Definition scan_time (v : value) : option Time :=
  match v with VTime t => Some (mkTime t "UTC") | _ => None end.
Definition scan_bool (v : value) : option bool :=
  match v with VInt 1 => Some true | VInt 0 => Some false | _ => None end.

(** ** Facts about statements *)

(** The rows a successful INSERT adds after the sequence value [seq]. *)
Fixpoint tuple_rows (td : tabdef) (cols : list string) (seq : Z) (ts : list (list value))
    : list row :=
  match ts with
  | [] => []
  | vals :: rest => tuple_row td cols (seq + 1) vals :: tuple_rows td cols (seq + 1) rest
  end.

Lemma length_tuple_rows td cols seq ts : length (tuple_rows td cols seq ts) = length ts.
Proof. revert seq. induction ts; intros; simpl; auto. Qed.

Lemma tuple_rows_app td cols seq ts1 ts2 :
  tuple_rows td cols seq (ts1 ++ ts2) =
  tuple_rows td cols seq ts1 ++ tuple_rows td cols (seq + Z.of_nat (length ts1)) ts2.
Proof.
  revert seq. induction ts1 as [|v ts1 IH]; intros seq; simpl; f_equal.
  - f_equal. lia.
  - rewrite IH. f_equal. f_equal. lia.
Qed.

Lemma insert_tuples_inv db td cols tab ts tab' :
  insert_tuples db td cols tab ts = Ok tab' ->
  tab' = Table (t_rows tab ++ tuple_rows td cols (t_seq tab) ts)
           (t_seq tab + Z.of_nat (length ts)).
Proof.
  revert tab. induction ts as [|v ts IH]; intros tab; simpl.
  - intros [= <-]. destruct tab. simpl. by rewrite app_nil_r, Z.add_0_r.
  - repeat case_match; try done. intros ->%IH. simpl.
    rewrite <- app_assoc. simpl. f_equal. lia.
Qed.

(** A table without UNIQUE and FOREIGN KEY takes every tuple of non-NULLs. *)
Definition plain_tabdef (td : tabdef) : bool :=
  forallb (fun cd => negb (c_unique cd)) (td_cols td) &&
  match td_fk td with None => true | Some _ => false end.

Lemma unique_ok_plain td tab r : plain_tabdef td = true -> unique_ok td tab r = true.
Proof.
  unfold plain_tabdef, unique_ok. intros [H _]%andb_prop.
  rewrite forallb_forall in H |- *. intros cd Hcd. by rewrite (H cd Hcd).
Qed.

Lemma fk_ok_plain db td r : plain_tabdef td = true -> fk_ok db td r = true.
Proof. unfold plain_tabdef, fk_ok. intros [_ H]%andb_prop. by destruct (td_fk td). Qed.

Lemma insert_tuples_ok db td cols tab ts :
  (forall i vals, vals ∈ ts -> not_null_ok td (tuple_row td cols i vals) = true) ->
  (forall tab i vals, vals ∈ ts -> unique_ok td tab (tuple_row td cols i vals) = true) ->
  (forall i vals, vals ∈ ts -> fk_ok db td (tuple_row td cols i vals) = true) ->
  insert_tuples db td cols tab ts =
  Ok (Table (t_rows tab ++ tuple_rows td cols (t_seq tab) ts)
        (t_seq tab + Z.of_nat (length ts))).
Proof.
  intros Hn Hu Hf.
  assert (exists tab', insert_tuples db td cols tab ts = Ok tab') as [tab' Ht].
  { revert tab Hn Hu Hf. induction ts as [|v ts IH]; intros tab Hn Hu Hf; simpl; [eauto|].
    rewrite Hn, Hu, Hf by set_solver. simpl. apply IH; intros; set_solver. }
  rewrite Ht. f_equal. by apply insert_tuples_inv in Ht.
Qed.

Lemma tuples_concat k (ts : list (list value)) :
  Forall (fun t => length t = k) ts -> tuples k (length ts) (concat ts) = ts.
Proof.
  induction 1 as [|t ts Ht _ IH]; simpl; [done|].
  by rewrite <- Ht, take_app_length, drop_app_length, Ht, IH.
Qed.

Lemma length_concat_const {A} k (ts : list (list A)) :
  Forall (fun t => length t = k) ts -> length (concat ts) = (k * length ts)%nat.
Proof. induction 1; simpl; rewrite ?length_app; lia. Qed.

(** INSERT of [ts] into a table it cannot violate, end to end. *)
Lemma sql_exec_insert db t td cols ts :
  find_tabdef t = Some td -> plain_tabdef td = true ->
  ts <> [] ->
  Forall (fun v => length v = length cols) ts ->
  Z.of_nat (length cols * length ts) <= DBMaxVariableSize ->
  (forall i vals, vals ∈ ts -> not_null_ok td (tuple_row td cols i vals) = true) ->
  let tab := db_table db t in
  let tab' := Table (t_rows tab ++ tuple_rows td cols (t_seq tab) ts)
                (t_seq tab + Z.of_nat (length ts)) in
  sql_exec db (Insert t cols (length ts)) (concat ts) =
  Ok (mkDb (<[t := tab']> (db_tabs db)) (t_seq tab'),
      mkSQLResponse (Z.of_nat (length ts)) (t_seq tab')).
Proof.
  intros Htd Hp Hne Hlen Hmax Hnn tab tab'. unfold sql_exec. cbn [placeholders].
  rewrite (proj2 (Z.ltb_ge _ _)) by done.
  rewrite (length_concat_const (length cols)) by done. rewrite Nat.eqb_refl. cbn [negb].
  rewrite Htd. destruct (Nat.eqb_spec (length ts) 0) as [E|_]; [by destruct ts|].
  rewrite tuples_concat by done. rewrite insert_tuples_ok; [done| done | |];
    intros; by (apply unique_ok_plain || apply fk_ok_plain).
Qed.

Lemma db_table_insert db t tab last : db_table (mkDb (<[t := tab]> (db_tabs db)) last) t = tab.
Proof. unfold db_table. simpl. by rewrite lookup_insert_eq. Qed.

Lemma db_table_insert_ne db t t' tab last :
  t <> t' -> db_table (mkDb (<[t := tab]> (db_tabs db)) last) t' = db_table db t'.
Proof. intros. unfold db_table. simpl. by rewrite lookup_insert_ne. Qed.

Lemma elem_of_sql_select w rows r : r ∈ sql_select w rows <-> holds w r = true /\ r ∈ rows.
Proof.
  unfold sql_select. rewrite !list_elem_of_In, filter_In. tauto.
Qed.

(** Rows that encode the records [xs] answer a query as the records do. *)
Lemma sql_select_enc {A} (enc : A -> row) (w : cond) (p : A -> bool) xs :
  (forall x, x ∈ xs -> holds w (enc x) = p x) ->
  sql_select w (enc <$> xs) = enc <$> List.filter p xs.
Proof.
  unfold sql_select. induction xs as [|x xs IH]; intros H; [done|].
  rewrite fmap_cons. cbn [List.filter]. rewrite H by (by left).
  rewrite IH by (intros; apply H; by right). by destruct (p x).
Qed.

(** Scanning the projected, reordered encodings gives the records back. *)
Lemma mapM_scan_perm {A} (enc : A -> row) (proj : row -> list value) (scan : list value -> option A)
    xs rows :
  (forall x, x ∈ xs -> scan (proj (enc x)) = Some x) ->
  rows ≡ₚ enc <$> xs ->
  exists l, mapM scan (proj <$> rows) = Some l /\ l ≡ₚ xs /\ rows = enc <$> l.
Proof.
  intros Hs Hp. apply Permutation_map_inv in Hp as (ys & -> & Hp).
  exists ys. split; [|split; [by symmetry|done]].
  assert (Hs' : forall x, x ∈ ys -> scan (proj (enc x)) = Some x).
  { intros x Hx. apply Hs. by rewrite Hp. }
  clear Hp Hs. induction ys as [|y ys IH]; [done|].
  cbn. rewrite Hs' by (by left). cbn. rewrite IH by (intros; apply Hs'; by right). done.
Qed.

Lemma order_desc_perm c rows : order_desc c rows ≡ₚ rows.
Proof. apply merge_sort_Permutation. Qed.
Lemma order_asc_perm c rows : order_asc c rows ≡ₚ rows.
Proof. apply merge_sort_Permutation. Qed.

#[export] Hint Rewrite db_table_insert : go_db.
#[export] Hint Rewrite db_table_insert_ne using done : go_db.
