(* ===== verification/Fsm.v ===== *)
(** * The replicated state machine: pkg/fsm/fsm_actions.go, fsm_store.go

    Every write of the cluster is a [Command] in the raft log.  The leader
    hands it to raft ([WriteCommandToRaftLog]); each node's state machine
    unmarshals it and executes its SQL in a transaction ([ApplyRaftLog],
    [dbExecute]), and a successful command announces itself on the
    post-process channel.  hashicorp/raft appears through its contract
    ([raft_Apply]) and protobuf through the class [CommandCodec]. *)

From stdpp Require Import base list gmap strings pretty.
From Stdlib Require Import ZArith Lia.
From S2P Require Import Prelude Models Sql.

#[local] Open Scope Z_scope.

(** ** The state of a node the repositories share *)

(** What the next operation of the SQLite driver reports, when it fails. *)
Inductive fault :=
| NoFault
| FBegin (e : string)
| FExec (e : string)
| FCommit (e : string)
| FLastId (e : string)
| FRowsAffected (e : string)
| FQuery (e : string)
| FScan (e : string)
| FRows (n : nat) (e : string).

(** How raft answers [Apply] and [VerifyLeader]. *)
Inductive RaftStatus := RaftLeader | RaftNotLeader | RaftFailed (e : string).

Record World := mkWorld {
  w_db : Db;                  (* the node's database *)
  w_now : Time;               (* time.Now() *)
  w_raft : RaftStatus;
  w_channel : bool;           (* postProcessChannel is not nil *)
  w_post : list PostProcess;  (* what was sent on it, in order *)
  w_faults : list fault }.    (* outcomes of the next driver operations; then none fails *)

Definition with_db (db : Db) (w : World) : World :=
  mkWorld db (w_now w) (w_raft w) (w_channel w) (w_post w) (w_faults w).
Definition with_post (p : list PostProcess) (w : World) : World :=
  mkWorld (w_db w) (w_now w) (w_raft w) (w_channel w) p (w_faults w).
Definition with_faults (f : list fault) (w : World) : World :=
  mkWorld (w_db w) (w_now w) (w_raft w) (w_channel w) (w_post w) f.

(** The outcome of the driver operation that starts now. *)
Definition next_fault : Go World fault := fun w =>
  match w_faults w with
  | [] => Some (NoFault, w)
  | f :: fs => Some (f, with_faults fs w)
  end.

(** ** Commands *)

(** The JSON text of a parameter list; [None] is text that is no array. *)
Definition json_text := option (list value).

(** [time.Time] marshals only in the years 0 to 9999. *)
Definition json_marshalable (v : value) : bool :=
  match v with
  | VTime t => (-31622400000000000 <=? t) && (t <? 315537897600000000000)
  | _ => true
  end.

Definition json_Marshal (params : list value) : result string json_text :=
  if forallb json_marshalable params then Ok (Some params)
  else Err "Time.MarshalJSON: year outside of range [0,9999]".

(** A JSON number read into an [interface] is a [float64]. *)
Definition json_number (v : value) : value :=
  match v with VInt z => VInt (f64 z) | _ => v end.

Definition json_Unmarshal (t : json_text) : result string (list value) :=
  match t with
  | Some params => Ok (json_number <$> params)
  | None => Err "invalid character in JSON"
  end.

Record Command := mkCommand {
  c_Type : Z;
  c_Sql : stmt;
  c_Data : json_text;
  c_TargetNodes : list Z;
  c_TargetAction : Z }.

(** google.golang.org/protobuf: what [Marshal] writes, [Unmarshal] reads. *)
Class CommandCodec := {
  wire : Type;
  proto_Marshal : Command -> result string wire;
  proto_Unmarshal : wire -> result string Command;
  proto_roundtrip : forall c b, proto_Marshal c = Ok b -> proto_Unmarshal b = Ok c }.

Inductive LogType := LogCommand | LogConfiguration.

Section Fsm.
Context {codec : CommandCodec}.

Record RaftLog := mkRaftLog { l_Index : Z; l_Term : Z; l_Type : LogType; l_Data : wire }.

(** [sql.ErrTxDone], what [Rollback] after [Commit] returns. *)
Definition ErrTxDone : string :=
  "sql: transaction has already been committed or rolled back".

Definition error_response (e : string) : FSMResponse := mkFSMResponse sql_response_zero e.

Definition dbExecute (command : Command) : Go World FSMResponse :=
  match json_Unmarshal (c_Data command) with
  | Err e => mret (error_response e)
  | Ok params =>
      f ← next_fault;
      match f with
      | FBegin e => mret (error_response e)
      | FExec e => mret (error_response e)
      | _ =>
          db ← gets w_db;
          match sql_exec db (c_Sql command) params with
          | Err e => mret (error_response e)
          | Ok (db', res) =>
              match f with
              | FCommit e => mret (error_response e)
              | FLastId _ | FRowsAffected _ =>
                  modify (with_db db');; mret (error_response ErrTxDone)
              | _ => modify (with_db db');; mret (mkFSMResponse res "")
              end
          end
      end
  end.

(** The [switch] on the action: the message a command announces. *)
Definition post_message (command : Command) (data : SQLResponse) : list PostProcess :=
  if c_TargetAction command =? CommandActionQueueJob then
    [mkPostProcess CommandActionQueueJob (c_TargetNodes command) data]
  else if c_TargetAction command =? CommandActionCleanUncommittedExecutionLogs then
    [mkPostProcess CommandActionCleanUncommittedExecutionLogs (c_TargetNodes command) data]
  else if c_TargetAction command =? CommandActionCleanUncommittedAsyncTasksLogs then
    [mkPostProcess CommandActionCleanUncommittedAsyncTasksLogs (c_TargetNodes command) data]
  else [].

(** [None] is Go's [nil] response. *)
Definition ApplyRaftLog (l : RaftLog) (ignorePostProcessChannel : bool)
    : Go World (option FSMResponse) :=
  match l_Type l with
  | LogConfiguration => mret None
  | LogCommand =>
      match proto_Unmarshal (l_Data l) with
      | Err e => mret (Some (error_response e))
      | Ok command =>
          result ← dbExecute command;
          channel ← gets w_channel;
          (if channel && negb ignorePostProcessChannel && String.eqb (f_Error result) "" then
             modify (fun w => with_post (w_post w ++ post_message command (f_Data result)) w)
           else mret tt);;
          mret (Some result)
      end
  end.

(** [store.Apply] and [store.ApplyBatch] *)
Definition Apply (l : RaftLog) : Go World (option FSMResponse) := ApplyRaftLog l false.

Definition ApplyBatch (logs : list RaftLog) : Go World (list (option FSMResponse)) :=
  go_for (fun results l => result ← ApplyRaftLog l false; mret (results ++ [result])) logs [].

(** raft's [Apply]: on the leader the entry is committed and the future's
    response is what the state machine returned; elsewhere it fails. *)
Definition ErrNotLeader : string := "node is not the leader".

Definition raft_Apply (data : wire) : Go World (result string (option FSMResponse)) :=
  status ← gets w_raft;
  match status with
  | RaftLeader => r ← Apply (mkRaftLog 0 0 LogCommand data); mret (Ok r)
  | RaftNotLeader => mret (Err ErrNotLeader)
  | RaftFailed e => mret (Err e)
  end.

Definition WriteCommandToRaftLog (commandType : Z) (sqlString : stmt) (params : list value)
    (nodeIds : list Z) (action : Z) : Go World (result GenericError (option FSMResponse)) :=
  match json_Marshal params with
  | Err e => mret (Err (HTTPGenericError StatusInternalServerError e))
  | Ok data =>
      match proto_Marshal (mkCommand commandType sqlString data nodeIds (u64 action)) with
      | Err e => mret (Err (HTTPGenericError StatusInternalServerError e))
      | Ok commandData =>
          af ← raft_Apply commandData;
          match af with
          | Err e =>
              mret (Err (HTTPGenericError StatusInternalServerError
                           (if String.eqb e ErrNotLeader then "server not raft leader" else e)))
          | Ok None => mret (Ok None)
          | Ok (Some r) =>
              if String.eqb (f_Error r) "" then mret (Ok (Some r))
              else mret (Err (HTTPGenericError StatusInternalServerError (f_Error r)))
          end
      end
  end.

(** ** Reading and writing the local database *)

(** What the loop over the rows of a query gives the caller. *)
Inductive query_result (A : Type) : Type :=
| QRows (l : list A)                        (* every row was scanned *)
| QQueryErr (e : string)                    (* Query failed *)
| QScanErr (e : string)                     (* a Scan failed *)
| QRowsErr (partial : list A) (e : string). (* rows.Err() after the loop *)
Arguments QRows {A}. Arguments QQueryErr {A}. Arguments QScanErr {A}. Arguments QRowsErr {A}.

(** A parameter the driver refuses: a [uint64] with its high bit set. *)
Definition bindable (v : value) : bool :=
  match v with VInt z => z <=? MaxInt64 | _ => true end.

(** [Query] with its bound parameters. *)
Definition query_refused (params : list value) : option string :=
  if DBMaxVariableSize <? Z.of_nat (length params) then Some "too many SQL variables"
  else if negb (forallb bindable params)
  then Some "uint64 values with high bit set are not supported"
  else None.

(** [Query], then [Scan] of every row, leaving at the first that fails. *)
Definition db_query {A} (params : list value) (sel : Db -> list (list value))
    (scan : list value -> option A) : Go World (query_result A) :=
  f ← next_fault;
  db ← gets w_db;
  let rows := sel db in
  match f, query_refused params with
  | FQuery e, _ | _, Some e => mret (QQueryErr e)
  | FScan e, None => mret (match rows with [] => QRows [] | _ => QScanErr e end)
  | FRows n e, None => mret (match mapM scan (take n rows) with
                             | Some l => QRowsErr l e
                             | None => QScanErr "sql: Scan error on column"
                             end)
  | _, None => mret (match mapM scan rows with
                     | Some l => QRows l
                     | None => QScanErr "sql: Scan error on column"
                     end)
  end.

(** The loops that do not look at the error of [Scan]: a row that fails
    counts as [zero], the value of the variables scanned into. *)
Definition db_query_lax {A} (params : list value) (sel : Db -> list (list value)) (zero : A)
    (scan : list value -> option A) : Go World (query_result A) :=
  f ← next_fault;
  db ← gets w_db;
  let read := fun vs => default zero (scan vs) in
  match f, query_refused params with
  | FQuery e, _ | _, Some e => mret (QQueryErr e)
  | FScan _, None => mret (QRows ((fun _ => zero) <$> sel db))
  | FRows n e, None => mret (QRowsErr (read <$> take n (sel db)) e)
  | _, None => mret (QRows (read <$> sel db))
  end.

(** The outcome of a write to the local database.  [ExecLate] is an error
    after the change is durable. *)
Inductive exec_result :=
| ExecOk (r : SQLResponse)
| ExecErr (e : string)
| ExecLate (e : string).

(** [BeginTx], [Exec], [Commit] and [LastInsertId] on the local database. *)
Definition db_exec (s : stmt) (params : list value) : Go World exec_result :=
  f ← next_fault;
  match f with
  | FBegin e | FExec e => mret (ExecErr e)
  | _ =>
      if negb (forallb bindable params)
      then mret (ExecErr "uint64 values with high bit set are not supported")
      else
        db ← gets w_db;
        match sql_exec db s params with
        | Err e => mret (ExecErr e)
        | Ok (db', res) =>
            match f with
            | FCommit e => mret (ExecErr e)
            | FLastId e => modify (with_db db');; mret (ExecLate e)
            | _ => modify (with_db db');; mret (ExecOk res)
            end
        end
  end.

(** [Exec] on the connection, without a transaction of the caller's. *)
Definition conn_exec (s : stmt) (params : list value) : Go World exec_result :=
  f ← next_fault;
  match f with
  | FExec e => mret (ExecErr e)
  | _ =>
      if negb (forallb bindable params)
      then mret (ExecErr "uint64 values with high bit set are not supported")
      else
        db ← gets w_db;
        match sql_exec db s params with
        | Err e => mret (ExecErr e)
        | Ok (db', res) =>
            modify (with_db db');;
            match f with
            | FLastId e => mret (ExecLate e)
            | _ => mret (ExecOk res)
            end
        end
  end.

(** ** Facts *)

(** A node whose driver works, and a leader with one. *)
Definition healthy (w : World) : Prop := w_faults w = [].
Definition quiet (w : World) : Prop := healthy w /\ w_raft w = RaftLeader.

Lemma quiet_healthy w : quiet w -> healthy w.
Proof. by intros []. Qed.
Lemma healthy_with_db db w : healthy w -> healthy (with_db db w).
Proof. done. Qed.
Lemma healthy_with_post p w : healthy w -> healthy (with_post p w).
Proof. done. Qed.
Lemma quiet_with_db db w : quiet w -> quiet (with_db db w).
Proof. done. Qed.
Lemma quiet_with_post p w : quiet w -> quiet (with_post p w).
Proof. done. Qed.
#[local] Hint Resolve quiet_healthy : go.

Lemma next_fault_healthy w : healthy w -> next_fault w = Some (NoFault, w).
Proof. intros Hf. unfold next_fault. by rewrite Hf. Qed.

Lemma with_db_id w : with_db (w_db w) w = w.
Proof. by destruct w. Qed.
Lemma with_post_id w : with_post (w_post w) w = w.
Proof. by destruct w. Qed.

(** The abstract machine a node implements: one SQL statement per command,
    all of it or nothing. *)
Definition fsm_step (db : Db) (c : Command) : Db * FSMResponse :=
  match json_Unmarshal (c_Data c) with
  | Err e => (db, error_response e)
  | Ok params =>
      match sql_exec db (c_Sql c) params with
      | Err e => (db, error_response e)
      | Ok (db', res) => (db', mkFSMResponse res "")
      end
  end.

Lemma dbExecute_healthy c w :
  healthy w -> dbExecute c w = Some (snd (fsm_step (w_db w) c), with_db (fst (fsm_step (w_db w) c)) w).
Proof.
  intros Hq. unfold dbExecute, fsm_step. destruct (json_Unmarshal (c_Data c)) as [ps|e];
    [|cbn; by rewrite with_db_id].
  go_call next_fault_healthy. go_step.
  destruct (sql_exec _ _ _) as [[db' res]|e]; [done|]. by destruct w.
Qed.

(** A command that reports an error left the tables as they were, unless
    the error came after the commit. *)
Lemma dbExecute_error c w r w' :
  dbExecute c w = Some (r, w') -> f_Error r <> "" ->
  w_post w' = w_post w /\ w_channel w' = w_channel w /\
  (w_db w' = w_db w \/ f_Error r = ErrTxDone).
Proof.
  unfold dbExecute. destruct (json_Unmarshal (c_Data c)) as [ps|e];
    [|intros [= <- <-]; auto].
  unfold next_fault. rewrite go_bind_eq.
  destruct (w_faults w) as [|f fs]; [|destruct f]; go_step;
    try destruct (sql_exec _ _ _) as [[db' res]|e0]; intros [= <- <-]; intros; simpl in *; auto; done.
Qed.

Lemma ApplyRaftLog_command l ign c w :
  l_Type l = LogCommand -> proto_Unmarshal (l_Data l) = Ok c -> healthy w ->
  let '(db', r) := fsm_step (w_db w) c in
  ApplyRaftLog l ign w =
  Some (Some r, with_post
          (if w_channel w && negb ign && String.eqb (f_Error r) ""
           then w_post w ++ post_message c (f_Data r) else w_post w) (with_db db' w)).
Proof.
  intros Ht Hc Hq. unfold ApplyRaftLog. rewrite Ht, Hc. go_call dbExecute_healthy.
  destruct (fsm_step (w_db w) c) as [db' r]. cbn [fst snd]. go_step. cbn [w_channel with_db].
  destruct (w_channel w && negb ign && String.eqb (f_Error r) ""); [done|].
  by destruct w.
Qed.

Lemma ApplyRaftLog_healthy l ign w r w' :
  healthy w -> ApplyRaftLog l ign w = Some (r, w') -> healthy w'.
Proof.
  intros Hq. unfold ApplyRaftLog. destruct (l_Type l); [|by intros [= <- <-]].
  destruct (proto_Unmarshal (l_Data l)) as [c|]; [|by intros [= <- <-]].
  go_call dbExecute_healthy. go_step. case_match; intros [= <- <-]; done.
Qed.

(** Parameters whose numbers a double holds exactly. *)
Definition exact_param (v : value) : bool :=
  match v with VInt z => (-9007199254740992 <=? z) && (z <=? 9007199254740992) | _ => true end.

Definition params_ok (ps : list value) : bool :=
  forallb exact_param ps && forallb json_marshalable ps.

Lemma json_roundtrip ps :
  params_ok ps = true ->
  json_Marshal ps = Ok (Some ps) /\ json_Unmarshal (Some ps) = Ok ps.
Proof.
  unfold params_ok, json_Marshal, json_Unmarshal. intros [He ->]%andb_prop. split; [done|].
  f_equal. rewrite forallb_forall in He. induction ps as [|v ps IH]; [done|].
  rewrite fmap_cons, IH by (intros; apply He; by right). f_equal.
  specialize (He v (or_introl eq_refl)). destruct v as [|z| | |]; simpl in *; try done.
  rewrite f64_exact; [done|lia].
Qed.

(** A write on a quiet leader is its SQL statement, then its announcement. *)
Definition raft_effect (s : stmt) (ps : list value) (nodes : list Z) (action : Z) (w : World)
    : result GenericError (option FSMResponse) * World :=
  match sql_exec (w_db w) s ps with
  | Err e => (Err (HTTPGenericError StatusInternalServerError e), w)
  | Ok (db', res) =>
      (Ok (Some (mkFSMResponse res "")),
       with_post (if w_channel w
                  then w_post w ++ post_message (mkCommand 0 s (Some ps) nodes (u64 action)) res
                  else w_post w) (with_db db' w))
  end.

(** The message of a failed statement is never empty. *)
Lemma insert_tuples_error db td cols tab ts e :
  insert_tuples db td cols tab ts = Err e -> e <> "".
Proof. revert tab. induction ts as [|v ts IH]; intros tab; simpl; repeat case_match; naive_solver. Qed.

Lemma sql_exec_error db s ps e : sql_exec db s ps = Err e -> e <> "".
Proof.
  unfold sql_exec. destruct (_ <? _); [by intros [= <-]|]. destruct (negb _); [by intros [= <-]|].
  destruct s; repeat case_match; try (by intros [= <-]); intros; simplify_eq;
    eauto using insert_tuples_error.
Qed.

Lemma WriteCommandToRaftLog_quiet s ps nodes action b w :
  quiet w -> params_ok ps = true ->
  proto_Marshal (mkCommand CommandTypeDbExecute s (Some ps) nodes (u64 action)) = Ok b ->
  WriteCommandToRaftLog CommandTypeDbExecute s ps nodes action w =
  Some (raft_effect s ps nodes action w).
Proof.
  intros Hq Hp Hb. destruct (json_roundtrip ps Hp) as [Hm Hu].
  unfold WriteCommandToRaftLog. rewrite Hm, Hb. unfold raft_Apply.
  go_step. rewrite (proj2 Hq). unfold Apply. go_step.
  pose proof (ApplyRaftLog_command (mkRaftLog 0 0 LogCommand b) false _ w eq_refl
                (proto_roundtrip _ _ Hb) (proj1 Hq)) as HA.
  unfold fsm_step in HA. cbn [c_Data c_Sql] in HA. rewrite Hu in HA. unfold raft_effect.
  destruct (sql_exec (w_db w) s ps) as [[db' res]|e] eqn:E;
    erewrite go_bind_Some by exact HA; go_step;
    cbn [f_Error f_Data error_response negb String.eqb]; rewrite !andb_true_r.
  - done.
  - apply sql_exec_error in E. destruct (String.eqb_spec e ""); [done|].
    rewrite andb_false_r, with_db_id, with_post_id. done.
Qed.

Lemma raft_effect_quiet s ps nodes action w :
  quiet w -> quiet (snd (raft_effect s ps nodes action w)).
Proof. intros. unfold raft_effect. by repeat case_match. Qed.
#[local] Hint Resolve raft_effect_quiet : go.

(** Away from the leader nothing is written. *)
Lemma WriteCommandToRaftLog_follower ct s ps nodes action w :
  w_raft w <> RaftLeader ->
  exists e, WriteCommandToRaftLog ct s ps nodes action w = Some (Err e, w).
Proof.
  intros H. unfold WriteCommandToRaftLog.
  destruct (json_Marshal ps); [|by eexists]. destruct (proto_Marshal _); [|by eexists].
  unfold raft_Apply. go_step. destruct (w_raft w); [done| |]; by eexists.
Qed.

(** A query on a working driver reads every row of its result. *)
Lemma db_query_healthy {A} ps sel (scan : list value -> option A) l w :
  healthy w -> query_refused ps = None -> mapM scan (sel (w_db w)) = Some l ->
  db_query ps sel scan w = Some (QRows l, w).
Proof.
  intros Hw Hr Hl. unfold db_query. go_call next_fault_healthy. go_step. by rewrite Hr, Hl.
Qed.

Lemma db_query_then {A B} ps sel (scan : list value -> option A) l
    (k : query_result A -> Go World B) w :
  healthy w -> query_refused ps = None -> mapM scan (sel (w_db w)) = Some l ->
  (db_query ps sel scan ≫= k) w = k (QRows l) w.
Proof. intros. by erewrite go_bind_Some by (by apply db_query_healthy). Qed.

Lemma db_query_lax_then {A B} ps sel zero (scan : list value -> option A)
    (k : query_result A -> Go World B) w :
  healthy w -> query_refused ps = None ->
  (db_query_lax ps sel zero scan ≫= k) w =
  k (QRows ((fun vs => default zero (scan vs)) <$> sel (w_db w))) w.
Proof.
  intros Hw Hr. unfold db_query_lax. rewrite go_bind_assoc. go_call next_fault_healthy. go_step.
  by rewrite Hr.
Qed.

Lemma query_refused_ok ps :
  Z.of_nat (length ps) <= DBMaxVariableSize -> forallb bindable ps = true -> query_refused ps = None.
Proof. intros H1 H2. unfold query_refused. by rewrite (proj2 (Z.ltb_ge _ _)), H2. Qed.

Lemma bindable_int z : z <= MaxInt64 -> bindable (VInt z) = true.
Proof. apply Z.leb_le. Qed.

End Fsm.

Arguments QRows {A} l.
Arguments QQueryErr {A} e.
Arguments QScanErr {A} e.
Arguments QRowsErr {A} partial e.

#[export] Hint Resolve quiet_healthy healthy_with_db healthy_with_post quiet_with_db quiet_with_post
  raft_effect_quiet : go.
#[export] Hint Rewrite @with_db_id @with_post_id : go_db.
