(* ===== verification/Replication.v ===== *)
(** * Replication: what the raft log guarantees across nodes

    Two tables are local to a node (the uncommitted executions and async
    tasks); all others change only through the raft log.  [rep_eq] is
    agreement on the replicated tables; every command the repositories send
    respects it, so nodes that apply the same log agree. *)

From stdpp Require Import base list gmap strings pretty.
From Stdlib Require Import ZArith Lia.
From S2P Require Import Prelude Models Sql Fsm.

#[local] Open Scope Z_scope.

Definition local_table (t : string) : bool :=
  String.eqb t "job_executions_uncommitted" || String.eqb t "async_tasks_uncommitted".

Definition tabs_eq (a b : gmap string table) : Prop :=
  forall t, local_table t = false -> a !! t = b !! t.

#[global] Instance tabs_eq_equiv : Equivalence tabs_eq.
Proof.
  split; [by intros ? ? ? | intros a b H t Ht; symmetry; by apply H |].
  intros a b c H1 H2 t Ht. by rewrite (H1 t Ht), (H2 t Ht).
Qed.

Definition rep_eq (a b : Db) : Prop := tabs_eq (db_tabs a) (db_tabs b).

#[global] Instance rep_eq_equiv : Equivalence rep_eq.
Proof.
  unfold rep_eq. split; [by intros a | by intros a b ?; symmetry |].
  intros a b c ? ?. by transitivity (db_tabs b).
Qed.

(** The table a statement writes. *)
Definition stmt_table (s : stmt) : string :=
  match s with
  | Insert t _ _ => t | Update t _ _ => t | Delete t _ => t | DeleteIn t _ _ => t
  end.
Definition replicated_stmt (s : stmt) : bool := negb (local_table (stmt_table s)).

Lemma rep_eq_table a b t : rep_eq a b -> local_table t = false -> db_table a t = db_table b t.
Proof. intros H Ht. unfold db_table. by rewrite (H t Ht). Qed.

Lemma rep_eq_rows a b t : rep_eq a b -> local_table t = false -> db_rows a t = db_rows b t.
Proof. intros. unfold db_rows. by erewrite rep_eq_table. Qed.

(** ** Deletes *)

(** Nothing refers to a local table, and parents are replicated. *)
Lemma local_no_children :
  forallb (fun td => match td_fk td with Some (_, p) => negb (local_table p) | None => true end)
    GetSetupSQL = true.
Proof. reflexivity. Qed.

Lemma parent_replicated td c p :
  td ∈ GetSetupSQL -> td_fk td = Some (c, p) -> local_table p = false.
Proof.
  intros Hin Hfk. pose proof local_no_children as H. rewrite forallb_forall in H.
  specialize (H td). rewrite Hfk in H. apply negb_true_iff, H. by apply list_elem_of_In.
Qed.

Lemma tabs_eq_alter_local f t tabs : local_table t = true -> tabs_eq (alter f t tabs) tabs.
Proof.
  intros Hl u Hu. rewrite lookup_alter_ne; [done|]. intros ->. by rewrite Hl in Hu.
Qed.

#[global] Instance alter_tabs_proper f t : Proper (tabs_eq ==> tabs_eq) (alter f t).
Proof.
  intros a b H u Hu. destruct (decide (t = u)) as [->|].
  - rewrite !lookup_alter_eq. by rewrite (H u Hu).
  - rewrite !lookup_alter_ne by done. by apply H.
Qed.

(** A fold over the schema respects an equivalence its steps respect. *)
Lemma foldl_tabs_eq (f : gmap string table -> tabdef -> gmap string table) l a b :
  (forall td a b, td ∈ l -> tabs_eq a b -> tabs_eq (f a td) (f b td)) ->
  tabs_eq a b -> tabs_eq (foldl f a l) (foldl f b l).
Proof.
  revert a b. induction l as [|td l IH]; intros a b Hf Hab; simpl; [done|].
  apply IH; [|by apply Hf; [left|]]. intros. apply Hf; [by right|done].
Qed.

Lemma foldl_id {A} (f : gmap string table -> A -> gmap string table) l tabs :
  (forall a td, td ∈ l -> f a td = a) -> foldl f tabs l = tabs.
Proof.
  revert tabs. induction l as [|x l IH]; intros tabs Hf; simpl; [done|].
  rewrite Hf by (by left). apply IH. intros. apply Hf. by right.
Qed.

Lemma delete_ids_local fuel tabs t ids :
  local_table t = true -> tabs_eq (delete_ids fuel tabs t ids) tabs.
Proof.
  intros Hl. destruct fuel as [|fuel]; [done|]. cbn [delete_ids].
  rewrite foldl_id.
  - by apply tabs_eq_alter_local.
  - intros a td Htd. destruct (td_fk td) as [[c p]|] eqn:E; [|done].
    destruct (String.eqb_spec p t) as [->|]; [|done].
    by rewrite (parent_replicated td c t Htd E) in Hl.
Qed.

Lemma delete_ids_rep fuel a b t ids :
  tabs_eq a b -> tabs_eq (delete_ids fuel a t ids) (delete_ids fuel b t ids).
Proof.
  revert a b t ids. induction fuel as [|fuel IH]; intros a b t ids Hab; [done|].
  cbn [delete_ids].
  apply foldl_tabs_eq; [|by apply alter_tabs_proper].
  intros td a' b' Htd Hab'. destruct (td_fk td) as [[c p]|]; [|done].
  destruct (String.eqb p t); [|done].
  destruct (local_table (td_name td)) eqn:Hl.
  - by rewrite !delete_ids_local.
  - rewrite (Hab' _ Hl). by apply IH.
Qed.

(** ** Statements *)

Lemma find_tabdef_elem t td : find_tabdef t = Some td -> td ∈ GetSetupSQL /\ td_name td = t.
Proof.
  unfold find_tabdef. intros [H1 H2]%find_some. split; [by apply list_elem_of_In|].
  by apply String.eqb_eq.
Qed.

Lemma fk_ok_rep a b td r : td ∈ GetSetupSQL -> rep_eq a b -> fk_ok a td r = fk_ok b td r.
Proof.
  intros Htd Hab. unfold fk_ok. destruct (td_fk td) as [[c p]|] eqn:E; [|done].
  rewrite (rep_eq_rows a b p Hab); [done|]. by eapply parent_replicated.
Qed.

Lemma insert_tuples_rep a b td cols tab ts :
  td ∈ GetSetupSQL -> rep_eq a b ->
  insert_tuples a td cols tab ts = insert_tuples b td cols tab ts.
Proof.
  intros Htd Hab. revert tab. induction ts as [|v ts IH]; intros tab; simpl; [done|].
  rewrite (fk_ok_rep a b td _ Htd Hab). by rewrite IH.
Qed.

(** Both fail with the same message, or both succeed and still agree. *)
Definition exec_agree (x y : result string (Db * SQLResponse)) : Prop :=
  match x, y with
  | Ok (a, ra), Ok (b, rb) => rep_eq a b /\ RowsAffected ra = RowsAffected rb
  | Err e, Err e' => e = e'
  | _, _ => False
  end.

Lemma rep_eq_insert a b t tab la lb :
  rep_eq a b -> rep_eq (mkDb (<[t := tab]> (db_tabs a)) la) (mkDb (<[t := tab]> (db_tabs b)) lb).
Proof.
  intros Hab u Hu. cbn. destruct (decide (t = u)) as [->|].
  - by rewrite !lookup_insert_eq.
  - rewrite !lookup_insert_ne by done. by apply Hab.
Qed.

Lemma delete_where_rep a b t key vs :
  rep_eq a b -> local_table t = false ->
  exec_agree (Ok (delete_where a t key vs)) (Ok (delete_where b t key vs)).
Proof.
  intros Hab Hl. unfold delete_where, exec_agree. rewrite (rep_eq_rows a b t Hab Hl).
  split; [|done]. unfold rep_eq. cbn [db_tabs]. by apply delete_ids_rep.
Qed.

Lemma sql_exec_rep a b s ps :
  rep_eq a b -> replicated_stmt s = true -> exec_agree (sql_exec a s ps) (sql_exec b s ps).
Proof.
  intros Hab Hr%negb_true_iff. unfold sql_exec.
  destruct (_ <? _); [done|]. destruct (negb _); [done|].
  destruct s as [t cols n|t sets key|t key|t key n]; cbn [stmt_table] in Hr.
  - destruct (find_tabdef t) as [td|] eqn:Ht; [|done]. destruct (Nat.eqb n 0); [done|].
    apply find_tabdef_elem in Ht as [Htd _].
    rewrite (rep_eq_table a b t Hab Hr), (insert_tuples_rep a b td _ _ _ Htd Hab).
    destruct (insert_tuples b td _ _ _) as [tab|]; [|done].
    split; [by apply rep_eq_insert|done].
  - destruct (find_tabdef t) as [td|]; [|done].
    rewrite (rep_eq_table a b t Hab Hr). case_match; [|done].
    split; [by apply rep_eq_insert|done].
  - by apply delete_where_rep.
  - destruct (Nat.eqb n 0); [done|]. by apply delete_where_rep.
Qed.

#[global] Instance sql_exec_proper s :
  replicated_stmt s = true ->
  Proper (rep_eq ==> eq ==> exec_agree) (fun db ps => sql_exec db s ps).
Proof. intros Hs a b Hab ps ? <-. by apply sql_exec_rep. Qed.

(** ** Logs *)

Section Logs.
Context {codec : CommandCodec}.

(** An entry whose command, if it has one, writes a replicated table. *)
Definition log_ok (l : RaftLog) : bool :=
  match l_Type l, proto_Unmarshal (l_Data l) with
  | LogCommand, Ok c => replicated_stmt (c_Sql c)
  | _, _ => true
  end.

(** Answers the nodes must agree on; the last rowid is each connection's own. *)
Definition answer_agree (x y : option FSMResponse) : Prop :=
  match x, y with
  | Some a, Some b => f_Error a = f_Error b /\ RowsAffected (f_Data a) = RowsAffected (f_Data b)
  | None, None => True
  | _, _ => False
  end.

Lemma fsm_step_rep a b c :
  rep_eq a b -> replicated_stmt (c_Sql c) = true ->
  rep_eq (fst (fsm_step a c)) (fst (fsm_step b c)) /\
  answer_agree (Some (snd (fsm_step a c))) (Some (snd (fsm_step b c))).
Proof.
  intros Hab Hc. unfold fsm_step. destruct (json_Unmarshal (c_Data c)) as [ps|]; [|done].
  pose proof (sql_exec_rep a b (c_Sql c) ps Hab Hc) as Hx. unfold exec_agree in Hx.
  destruct (sql_exec a _ ps) as [[a' ra]|]; destruct (sql_exec b _ ps) as [[b' rb]|]; simpl in *;
    [tauto | done | done | by subst].
Qed.

Lemma Apply_rep l ign1 ign2 w1 w2 :
  healthy w1 -> healthy w2 -> rep_eq (w_db w1) (w_db w2) -> log_ok l = true ->
  exists r1 w1' r2 w2',
    ApplyRaftLog l ign1 w1 = Some (r1, w1') /\ ApplyRaftLog l ign2 w2 = Some (r2, w2') /\
    healthy w1' /\ healthy w2' /\ rep_eq (w_db w1') (w_db w2') /\ answer_agree r1 r2.
Proof.
  intros H1 H2 Hab Hl. unfold log_ok in Hl.
  destruct (l_Type l) eqn:Ht; [|unfold ApplyRaftLog; rewrite Ht; by do 4 eexists; repeat split].
  destruct (proto_Unmarshal (l_Data l)) as [c|e] eqn:Hc;
    [|unfold ApplyRaftLog; rewrite Ht, Hc; by do 4 eexists; repeat split].
  pose proof (ApplyRaftLog_command l ign1 c w1 Ht Hc H1) as A1.
  pose proof (ApplyRaftLog_command l ign2 c w2 Ht Hc H2) as A2.
  pose proof (fsm_step_rep (w_db w1) (w_db w2) c Hab Hl) as [Hd Ha].
  destruct (fsm_step (w_db w1) c) as [d1 r1], (fsm_step (w_db w2) c) as [d2 r2].
  do 4 eexists. split; [exact A1|]. split; [exact A2|]. by split_and!.
Qed.

(** The loop of [ApplyBatch], from any accumulator. *)
Lemma ApplyBatch_loop_rep logs w1 w2 acc1 acc2 :
  let loop := go_for (fun results l => result ← ApplyRaftLog l false; mret (results ++ [result])) in
  healthy w1 -> healthy w2 -> rep_eq (w_db w1) (w_db w2) -> forallb log_ok logs = true ->
  Forall2 answer_agree acc1 acc2 ->
  exists r1 w1' r2 w2',
    loop logs acc1 w1 = Some (r1, w1') /\ loop logs acc2 w2 = Some (r2, w2') /\
    rep_eq (w_db w1') (w_db w2') /\ Forall2 answer_agree r1 r2.
Proof.
  intros loop. revert w1 w2 acc1 acc2.
  induction logs as [|l logs IH]; intros w1 w2 acc1 acc2 H1 H2 Hab Hl Hacc.
  - by do 4 eexists; repeat split.
  - apply andb_prop in Hl as [Hl Hls].
    destruct (Apply_rep l false false w1 w2 H1 H2 Hab Hl) as (r1 & w1' & r2 & w2' & A1 & A2 & ? & ? & ? & ?).
    destruct (IH w1' w2' (acc1 ++ [r1]) (acc2 ++ [r2])) as (? & ? & ? & ? & L1 & L2 & ?);
      [done..| |].
    { apply Forall2_app; [done|]. by repeat constructor. }
    do 4 eexists. split; [|split; [|done]]; cbn [loop go_for]; rewrite go_bind_assoc.
    + erewrite go_bind_Some by done. exact L1.
    + erewrite go_bind_Some by done. exact L2.
Qed.



(** C34: A command whose answer carries an error changed no table and announced
    nothing, whatever the driver did, unless the driver failed after the
    commit (the one error that is reported for a durable change). *)
Theorem ApplyRaftLog_error_atomic l ign w r w' :
  ApplyRaftLog l ign w = Some (Some r, w') -> f_Error r <> "" ->
  w_post w' = w_post w /\ (w_db w' = w_db w \/ f_Error r = ErrTxDone).
Proof.
  unfold ApplyRaftLog. destruct (l_Type l); [|done].
  destruct (proto_Unmarshal (l_Data l)) as [c|e]; [|intros [= <- <-]; auto].
  intros (r0 & w1 & Hd & H)%go_bind_inv Hr.
  revert H. go_step. destruct (String.eqb_spec (f_Error r0) "") as [E|E].
  - case_match; intros [= <- <-]; done.
  - rewrite andb_false_r. intros [= <- <-].
    destruct (dbExecute_error c w r0 w1 Hd E) as (? & _ & ?). auto.
Qed.

(** A node that is not the leader cannot write: the call is refused with
    an error and its world is untouched. *)
Theorem WriteCommandToRaftLog_leader_only ct s ps nodes action w r w' :
  w_raft w <> RaftLeader ->
  WriteCommandToRaftLog ct s ps nodes action w = Some (r, w') ->
  w' = w /\ exists e, r = Err e /\ Type_ e = StatusInternalServerError.
Proof.
  intros Hr. unfold WriteCommandToRaftLog.
  destruct (json_Marshal ps); [|intros [= <- <-]; eauto].
  destruct (proto_Marshal _); [|intros [= <- <-]; eauto].
  unfold raft_Apply. go_step. destruct (w_raft w); [done| |]; intros [= <- <-]; eauto.
Qed.

End Logs.

(** ** A codec for concrete runs: the command is its own encoding *)

Definition plain_codec : CommandCodec.
Proof. refine {| wire := Command; proto_Marshal := Ok; proto_Unmarshal := Ok |}. by intros c b [= <-]. Defined.

Definition world_of (db : Db) (faults : list fault) (r : RaftStatus) : World :=
  mkWorld db (mkTime 1700000000000000000 "UTC") r true [] faults.

Definition sample_insert : stmt :=
  Insert "job_queues" ["node_id"; "lower_bound_job_id"; "upper_bound_job_id"; "version"; "date_created"] 1.
Definition sample_params : list value := [VInt 2; VInt 1; VInt 9; VInt 1; VTime 5].
Definition sample_command : Command := mkCommand 0 sample_insert (Some sample_params) [2] 0.
Definition sample_log : @RaftLog plain_codec := @mkRaftLog plain_codec 1 1 LogCommand sample_command.
Definition bad_command : Command :=
  mkCommand 0 (Insert "projects" ["name"] 1) (Some [VText "p"]) [] 0.
Definition bad_log : @RaftLog plain_codec := @mkRaftLog plain_codec 2 1 LogCommand bad_command.

(** Two nodes with different local tables. *)
Definition db_other : Db :=
  mkDb (<["job_executions_uncommitted" := Table [[("id", VInt 7)]] 7]> (db_tabs db_empty)) 7.

Lemma db_other_rep : rep_eq db_empty db_other.
Proof.
  intros t Ht. unfold db_other. cbn [db_tabs]. rewrite lookup_insert_ne; [done|].
  intros <-. by vm_compute in Ht.
Qed.



Lemma ApplyRaftLog_error_atomic_witness :
  exists r w', @ApplyRaftLog plain_codec bad_log false (world_of db_empty [] RaftLeader)
               = Some (Some r, w') /\
    w_post w' = [] /\ (w_db w' = db_empty \/ f_Error r = ErrTxDone).
Proof.
  do 2 eexists. split; [vm_compute; reflexivity|].
  apply (@ApplyRaftLog_error_atomic plain_codec bad_log false (world_of db_empty [] RaftLeader)).
  - vm_compute. reflexivity.
  - vm_compute. discriminate.
Defined.

Lemma WriteCommandToRaftLog_leader_only_witness :
  exists r w', @WriteCommandToRaftLog plain_codec 0 sample_insert sample_params [2] 0
                 (world_of db_empty [] RaftNotLeader) = Some (r, w') /\
    w' = world_of db_empty [] RaftNotLeader /\
    exists e, r = Err e /\ Type_ e = StatusInternalServerError.
Proof.
  do 2 eexists. split; [vm_compute; reflexivity|].
  apply (@WriteCommandToRaftLog_leader_only plain_codec 0 sample_insert sample_params [2] 0).
  - discriminate.
  - vm_compute. reflexivity.
Defined.
