(* ===== verification/Inserts.v ===== *)
(** * Batched inserts through the raft log

    Every repository that inserts many rows cuts them with [Batch], builds
    one INSERT per batch and sends it to the raft log.  These lemmas give the
    effect of the whole loop on a leader whose driver works: the rows are
    appended to the table in order, with consecutive ids. *)

From stdpp Require Import base list gmap strings pretty.
From Stdlib Require Import ZArith Lia.
From S2P Require Import Prelude Models Batcher Sql Fsm Replication.

#[local] Open Scope Z_scope.

(** The database after the tuples [ts] went into table [t]. *)
Definition db_append (t : string) (td : tabdef) (cols : list string) (ts : list (list value))
    (db : Db) : Db :=
  let tab := db_table db t in
  let seq := t_seq tab + Z.of_nat (length ts) in
  mkDb (<[t := Table (t_rows tab ++ tuple_rows td cols (t_seq tab) ts) seq]> (db_tabs db)) seq.

Lemma db_append_app t td cols ts1 ts2 db :
  db_append t td cols (ts1 ++ ts2) db = db_append t td cols ts2 (db_append t td cols ts1 db).
Proof.
  unfold db_append. cbn zeta. rewrite db_table_insert. cbn [t_rows t_seq db_tabs].
  rewrite insert_insert_eq, tuple_rows_app, length_app, <- app_assoc.
  replace (t_seq (db_table db t) + Z.of_nat (length ts1 + length ts2))
    with (t_seq (db_table db t) + Z.of_nat (length ts1) + Z.of_nat (length ts2)) by lia.
  done.
Qed.

Lemma db_append_table t td cols ts db :
  db_table (db_append t td cols ts db) t =
  Table (t_rows (db_table db t) ++ tuple_rows td cols (t_seq (db_table db t)) ts)
    (t_seq (db_table db t) + Z.of_nat (length ts)).
Proof. unfold db_append. by rewrite db_table_insert. Qed.

Lemma db_append_other t t' td cols ts db :
  t <> t' -> db_table (db_append t td cols ts db) t' = db_table db t'.
Proof. intros. unfold db_append. by rewrite db_table_insert_ne. Qed.

(** ** Tuples a table accepts whatever else it holds *)

Definition no_unique (td : tabdef) : bool := forallb (fun cd => negb (c_unique cd)) (td_cols td).
Definition fk_foreign (td : tabdef) : bool :=
  match td_fk td with Some (_, p) => negb (String.eqb p (td_name td)) | None => true end.

Definition storable (db : Db) (td : tabdef) (cols : list string) (vals : list value) : bool :=
  Nat.eqb (length vals) (length cols) &&
  not_null_ok td (tuple_row td cols 0 vals) && fk_ok db td (tuple_row td cols 0 vals).

(** The same, for values that also survive the raft log. *)
Definition acceptable (db : Db) (td : tabdef) (cols : list string) (vals : list value) : bool :=
  params_ok vals && storable db td cols vals.

Lemma acceptable_storable db td cols ts :
  forallb (acceptable db td cols) ts = true -> forallb (storable db td cols) ts = true.
Proof. rewrite !forallb_forall. intros H v Hv. by apply H, andb_prop in Hv as [_ ?]. Qed.

Lemma col_tuple_row c td cols i j vals :
  c <> "id" -> col c (tuple_row td cols i vals) = col c (tuple_row td cols j vals).
Proof. intros Hc. unfold col, tuple_row. simpl. by destruct (String.eqb_spec c "id"). Qed.

(** No column of the schema is called id. *)
Lemma schema_cols td : td ∈ GetSetupSQL -> Forall (fun cd => c_name cd <> "id") (td_cols td).
Proof.
  intros Htd. assert (H : forallb (fun td => forallb (fun cd => negb (String.eqb (c_name cd) "id"))
                                       (td_cols td)) GetSetupSQL = true) by reflexivity.
  rewrite forallb_forall in H. specialize (H td (proj1 (list_elem_of_In _ _) Htd)).
  rewrite forallb_forall in H. apply Forall_forall. intros cd Hcd.
  specialize (H cd (proj1 (list_elem_of_In _ _) Hcd)). by destruct (String.eqb_spec (c_name cd) "id").
Qed.

Lemma schema_fk td c p : td ∈ GetSetupSQL -> td_fk td = Some (c, p) -> c <> "id".
Proof.
  intros Htd Hfk. assert (H : forallb (fun td => match td_fk td with
      Some (c, _) => negb (String.eqb c "id") | None => true end) GetSetupSQL = true) by reflexivity.
  rewrite forallb_forall in H. specialize (H td (proj1 (list_elem_of_In _ _) Htd)).
  rewrite Hfk in H. by destruct (String.eqb_spec c "id").
Qed.

Lemma not_null_ok_id td cols i j vals :
  td ∈ GetSetupSQL ->
  not_null_ok td (tuple_row td cols i vals) = not_null_ok td (tuple_row td cols j vals).
Proof.
  intros Htd%schema_cols. unfold not_null_ok.
  generalize (tuple_row td cols i vals) (tuple_row td cols j vals)
    (fun c => col_tuple_row c td cols i j vals). intros r r' Hc.
  induction Htd as [|cd cds Hcd _ IH]; [done|]. simpl. by rewrite IH, (Hc _ Hcd).
Qed.

Lemma fk_ok_id db td cols i j vals :
  td ∈ GetSetupSQL -> fk_ok db td (tuple_row td cols i vals) = fk_ok db td (tuple_row td cols j vals).
Proof.
  intros Htd. unfold fk_ok. destruct (td_fk td) as [[c p]|] eqn:E; [|done].
  by rewrite (col_tuple_row c td cols i j vals (schema_fk td c p Htd E)).
Qed.

Lemma unique_ok_no_unique td tab r : no_unique td = true -> unique_ok td tab r = true.
Proof.
  unfold no_unique, unique_ok. rewrite !forallb_forall. intros H cd Hcd. by rewrite (H cd Hcd).
Qed.

Lemma storable_append db t td cols ts vals :
  find_tabdef t = Some td -> fk_foreign td = true ->
  storable (db_append t td cols ts db) td cols vals = storable db td cols vals.
Proof.
  intros [_ Hn]%find_tabdef_elem Hf. unfold storable, fk_ok, fk_foreign in *.
  destruct (td_fk td) as [[c p]|]; [|done].
  unfold db_rows. rewrite db_append_other; [done|].
  intros ->. rewrite Hn in Hf. by rewrite String.eqb_refl in Hf.
Qed.

Lemma acceptable_append db t td cols ts vals :
  find_tabdef t = Some td -> fk_foreign td = true ->
  acceptable (db_append t td cols ts db) td cols vals = acceptable db td cols vals.
Proof. intros. unfold acceptable. by rewrite storable_append. Qed.

(** ** One statement *)

Lemma forallb_concat {A} (f : A -> bool) (ls : list (list A)) :
  forallb f (concat ls) = forallb (forallb f) ls.
Proof. induction ls as [|l ls IH]; simpl; [done|]. by rewrite forallb_app, IH. Qed.

Lemma params_ok_concat ts : forallb params_ok ts = true -> params_ok (concat ts) = true.
Proof.
  unfold params_ok. rewrite !forallb_concat. rewrite forallb_forall. intros H.
  apply andb_true_intro; split; apply forallb_forall; intros x Hx;
    apply H, andb_prop in Hx; tauto.
Qed.

Lemma sql_exec_append db t td cols ts :
  find_tabdef t = Some td -> no_unique td = true -> ts <> [] ->
  Z.of_nat (length cols * length ts) <= DBMaxVariableSize ->
  forallb (storable db td cols) ts = true ->
  sql_exec db (Insert t cols (length ts)) (concat ts) =
  Ok (db_append t td cols ts db,
      mkSQLResponse (Z.of_nat (length ts)) (t_seq (db_table db t) + Z.of_nat (length ts))).
Proof.
  intros Ht Hu Hne Hmax Hacc. rewrite forallb_forall in Hacc.
  assert (Hlen : Forall (fun v => length v = length cols) ts).
  { apply Forall_forall. intros v Hv. specialize (Hacc v (proj1 (list_elem_of_In _ _) Hv)).
    unfold storable in Hacc. rewrite !andb_true_iff in Hacc. apply Nat.eqb_eq. tauto. }
  pose proof (find_tabdef_elem t td Ht) as [Htd _].
  unfold sql_exec. cbn [placeholders]. rewrite (proj2 (Z.ltb_ge _ _)) by done.
  rewrite (length_concat_const (length cols)) by done. rewrite Nat.eqb_refl. cbn [negb].
  rewrite Ht. destruct (Nat.eqb_spec (length ts) 0) as [E|_]; [by destruct ts|].
  rewrite tuples_concat by done. rewrite insert_tuples_ok; [done| | |];
    intros; try (by apply unique_ok_no_unique);
    [erewrite (not_null_ok_id td cols _ 0) by done | erewrite (fk_ok_id db td cols _ 0) by done];
    match goal with H : ?v ∈ ts |- _ => specialize (Hacc v (proj1 (list_elem_of_In _ _) H)) end;
    unfold storable in Hacc; rewrite !andb_true_iff in Hacc; tauto.
Qed.

Section Raft.
Context {codec : CommandCodec}.

(** protobuf encodes every command the repositories build. *)
Definition codec_total : Prop := forall c, exists b, proto_Marshal c = Ok b.

(** The message one batch announces. *)
Definition batch_message (t : string) (cols : list string) (ts : list (list value))
    (nodes : list Z) (action : Z) (seq : Z) : list PostProcess :=
  post_message (mkCommand 0 (Insert t cols (length ts)) (Some (concat ts)) nodes (u64 action))
    (mkSQLResponse (Z.of_nat (length ts)) (seq + Z.of_nat (length ts))).

Lemma raft_insert t td cols ts nodes action w :
  quiet w -> codec_total ->
  find_tabdef t = Some td -> no_unique td = true -> ts <> [] ->
  Z.of_nat (length cols * length ts) <= DBMaxVariableSize ->
  forallb (acceptable (w_db w) td cols) ts = true ->
  let seq := t_seq (db_table (w_db w) t) in
  WriteCommandToRaftLog CommandTypeDbExecute (Insert t cols (length ts)) (concat ts) nodes action w =
  Some (Ok (Some (mkFSMResponse (mkSQLResponse (Z.of_nat (length ts))
                                   (seq + Z.of_nat (length ts))) "")),
        with_post (w_post w ++ if w_channel w then batch_message t cols ts nodes action seq else [])
          (with_db (db_append t td cols ts (w_db w)) w)).
Proof.
  intros Hq Hc Ht Hu Hne Hmax Hacc seq.
  destruct (Hc (mkCommand CommandTypeDbExecute (Insert t cols (length ts)) (Some (concat ts)) nodes
                  (u64 action))) as [b Hb].
  rewrite (WriteCommandToRaftLog_quiet _ _ _ _ b); [| done | | done].
  - unfold raft_effect. erewrite sql_exec_append by (done || by apply acceptable_storable). do 3 f_equal.
    destruct (w_channel w); [done|]. by rewrite app_nil_r.
  - apply params_ok_concat. rewrite forallb_forall in Hacc |- *. intros v Hv.
    specialize (Hacc v Hv). unfold acceptable in Hacc. rewrite !andb_true_iff in Hacc. tauto.
Qed.

(** ** The loop over batches *)

Section Loop.
Context {A : Type} (t : string) (td : tabdef) (cols : list string).
Context (params : A -> list value) (nodes : list A -> list Z) (action : Z).
Context (Ht : find_tabdef t = Some td) (Hu : no_unique td = true) (Hf : fk_foreign td = true).

Fixpoint batches_messages (bs : list (list A)) (seq : Z) : list PostProcess :=
  match bs with
  | [] => []
  | b :: bs' => batch_message t cols (params <$> b) (nodes b) action seq ++
                batches_messages bs' (seq + Z.of_nat (length b))
  end.

Definition insert_batch (_ : unit) (batch : list A) : Go World unit :=
  WriteCommandToRaftLog CommandTypeDbExecute (Insert t cols (length batch))
    (concat (params <$> batch)) (nodes batch) action;;
  mret tt.

Definition db_append_batches (bs : list (list A)) (db : Db) : Db :=
  foldl (fun db b => db_append t td cols (params <$> b) db) db bs.

Lemma db_append_batches_concat bs db :
  bs <> [] -> db_append_batches bs db = db_append t td cols (params <$> concat bs) db.
Proof.
  intros Hne. unfold db_append_batches. revert db. induction bs as [|b bs IH]; intros db; [done|].
  cbn [foldl concat]. rewrite fmap_app, db_append_app.
  destruct bs as [|b' bs]; [|by apply IH].
  cbn [foldl concat]. rewrite fmap_nil. unfold db_append at 2. cbn zeta.
  rewrite db_append_table. cbn [t_rows t_seq length tuple_rows]. rewrite app_nil_r, Z.add_0_r.
  unfold db_append. cbn [db_tabs]. by rewrite insert_insert_eq.
Qed.

Lemma raft_insert_loop bs w :
  quiet w -> codec_total ->
  Forall (fun b => b <> [] /\ Z.of_nat (length cols * length b) <= DBMaxVariableSize) bs ->
  forallb (acceptable (w_db w) td cols) (params <$> concat bs) = true ->
  go_for insert_batch bs tt w =
  Some (tt, with_post (w_post w ++ if w_channel w
                                   then batches_messages bs (t_seq (db_table (w_db w) t)) else [])
              (with_db (db_append_batches bs (w_db w)) w)).
Proof.
  intros Hq Hc Hb. revert w Hq. induction Hb as [|b bs [Hne Hmax] _ IH]; intros w Hq Hacc.
  - destruct w as [? ? ? [] ? ?]; cbn; by rewrite app_nil_r.
  - cbn [concat] in Hacc. rewrite fmap_app, forallb_app in Hacc. apply andb_prop in Hacc as [H1 H2].
    cbn [go_for]. unfold insert_batch at 2. rewrite go_bind_assoc.
    pose proof (raft_insert t td cols (params <$> b) (nodes b) action w Hq Hc Ht Hu) as HW.
    rewrite length_fmap in HW. erewrite go_bind_Some by (apply HW; [by destruct b|done|done]).
    rewrite go_bind_mret, IH; clear IH HW; [| by auto with go |].
    + cbn [w_db w_post w_channel with_post with_db batches_messages]. rewrite db_append_table.
      cbn [t_seq]. rewrite length_fmap, <- app_assoc. unfold db_append_batches. cbn [foldl].
      by destruct (w_channel w).
    + cbn [w_db with_post with_db]. rewrite forallb_forall in H2 |- *. intros v Hv.
      rewrite acceptable_append by done. by apply H2.
Qed.

(** The same for a loop that also collects what [f] reads from each answer;
    [inserted b w] is the world after the batch. *)
Definition inserted (b : list A) (w : World) : World :=
  with_post (w_post w ++ if w_channel w
                         then batch_message t cols (params <$> b) (nodes b) action
                                (t_seq (db_table (w_db w) t)) else [])
    (with_db (db_append t td cols (params <$> b) (w_db w)) w).

(** The answer raft gives for the batch. *)
Definition insert_answer (b : list A) (w : World) : FSMResponse :=
  mkFSMResponse (mkSQLResponse (Z.of_nat (length b))
                   (t_seq (db_table (w_db w) t) + Z.of_nat (length b))) "".

Definition insertable_batch (db : Db) (b : list A) : Prop :=
  b <> [] /\ Z.of_nat (length cols * length b) <= DBMaxVariableSize /\
  forallb (acceptable db td cols) (params <$> b) = true.

Lemma raft_insert_one b w :
  quiet w -> codec_total -> insertable_batch (w_db w) b ->
  WriteCommandToRaftLog CommandTypeDbExecute (Insert t cols (length b)) (concat (params <$> b))
    (nodes b) action w = Some (Ok (Some (insert_answer b w)), inserted b w).
Proof.
  intros Hq Hc (Hne & Hmax & Hacc).
  pose proof (raft_insert t td cols (params <$> b) (nodes b) action w Hq Hc Ht Hu) as HW.
  rewrite length_fmap in HW. apply HW; [by destruct b|done|done].
Qed.

Fixpoint collect {B} (f : list A -> World -> list B) (bs : list (list A)) (w : World) : list B :=
  match bs with
  | [] => []
  | b :: bs' => f b w ++ collect f bs' (inserted b w)
  end.

Lemma raft_insert_collect {B R} (f : list A -> World -> list B)
    (body : list B -> list A -> Go World (list B + R)) bs acc w :
  quiet w ->
  (forall acc b w, quiet w -> b ∈ bs -> insertable_batch (w_db w) b ->
     body acc b w = Some (inl (acc ++ f b w), inserted b w)) ->
  Forall (insertable_batch (w_db w)) bs ->
  exists w', go_for_ret body bs acc w = Some (inl (acc ++ collect f bs w), w') /\ quiet w' /\
    w_db w' = db_append_batches bs (w_db w) /\ w_now w' = w_now w.
Proof.
  intros Hq Hbody. revert acc w Hq. induction bs as [|b bs IH]; intros acc w Hq HF.
  { exists w. cbn. by rewrite app_nil_r. }
  apply Forall_cons in HF as [Hb HF].
  destruct (IH ltac:(intros; apply Hbody; [done|by right|done]) (acc ++ f b w) (inserted b w))
    as (w' & Hl & Hq' & Hdb & Hnow); [by auto with go| |].
  { eapply Forall_impl; [exact HF|]. intros x (? & ? & Hacc). split_and!; [done|done|].
    rewrite forallb_forall in Hacc |- *. intros v Hv. cbn [w_db with_post with_db inserted].
    rewrite acceptable_append by done. by apply Hacc. }
  exists w'. cbn [go_for_ret collect]. erewrite go_bind_Some by (by apply Hbody; [|left|]).
  cbn iota. rewrite Hl, <- app_assoc. by split_and!.
Qed.

End Loop.

(** The loop over [Batch ids n], [n] columns per element. *)
Lemma Batch_insertable {A} (ids : list A) (cols : list string) n :
  ids <> [] -> 1 <= n <= DBMaxVariableSize -> Z.of_nat (length cols) <= n ->
  Forall (fun b => b <> [] /\ Z.of_nat (length cols * length b) <= DBMaxVariableSize) (Batch ids n).
Proof.
  intros Hne Hn Hc. apply Forall_forall. intros b Hb. split; [by eapply Batch_nonempty|].
  pose proof (Batch_bounded ids n b Hn Hb). nia.
Qed.

Lemma Batch_ne_nil {A} (ids : list A) n : ids <> [] -> Batch ids n <> [].
Proof. intros Hne HB. apply Hne. rewrite <- (Batch_concat ids n), HB. done. Qed.

Lemma Batch_insertable_batches {A} (td : tabdef) (cols : list string) (params : A -> list value)
    (ids : list A) n db :
  ids <> [] -> 1 <= n <= DBMaxVariableSize -> Z.of_nat (length cols) <= n ->
  forallb (acceptable db td cols) (params <$> ids) = true ->
  Forall (insertable_batch td cols params db) (Batch ids n).
Proof.
  intros Hne Hn Hc Hacc. pose proof (Batch_insertable ids cols n Hne Hn Hc) as HF.
  rewrite Forall_forall in HF |- *. intros b Hb. destruct (HF b Hb) as [? ?]. split_and!; [done|done|].
  rewrite forallb_forall in Hacc |- *. intros v. rewrite in_map_iff. intros (x & <- & Hx). apply Hacc.
  apply in_map_iff. exists x. split; [done|]. rewrite <- (Batch_concat ids n). apply in_concat. exists b.
  by rewrite <- list_elem_of_In.
Qed.

Lemma raft_insert_Batch {A} t td cols (params : A -> list value) nodes action ids n w :
  quiet w -> codec_total ->
  find_tabdef t = Some td -> no_unique td = true -> fk_foreign td = true ->
  ids <> [] -> 1 <= n <= DBMaxVariableSize -> Z.of_nat (length cols) <= n ->
  forallb (acceptable (w_db w) td cols) (params <$> ids) = true ->
  go_for (insert_batch t cols params nodes action) (Batch ids n) tt w =
  Some (tt, with_post
              (w_post w ++ if w_channel w
                           then batches_messages t cols params nodes action (Batch ids n)
                                  (t_seq (db_table (w_db w) t)) else [])
              (with_db (db_append t td cols (params <$> ids) (w_db w)) w)).
Proof.
  intros. erewrite raft_insert_loop; [ | eauto using Batch_insertable.. |].
  - by rewrite db_append_batches_concat, Batch_concat by (by apply Batch_ne_nil).
  - by rewrite Batch_concat.
Qed.

End Raft.

(** ** The node's own database *)

Lemma db_exec_healthy s ps w :
  healthy w -> forallb bindable ps = true ->
  db_exec s ps w = Some (match sql_exec (w_db w) s ps with
                         | Ok (db', res) => (ExecOk res, with_db db' w)
                         | Err e => (ExecErr e, w)
                         end).
Proof.
  intros Hw Hb. unfold db_exec. go_call next_fault_healthy. rewrite Hb. cbn [negb].
  rewrite go_bind_gets. by destruct (sql_exec _ _ _) as [[]|].
Qed.

Lemma db_exec_append t td cols ts w :
  healthy w -> find_tabdef t = Some td -> no_unique td = true -> ts <> [] ->
  Z.of_nat (length cols * length ts) <= DBMaxVariableSize ->
  forallb (storable (w_db w) td cols) ts = true -> forallb (forallb bindable) ts = true ->
  db_exec (Insert t cols (length ts)) (concat ts) w =
  Some (ExecOk (mkSQLResponse (Z.of_nat (length ts))
                  (t_seq (db_table (w_db w) t) + Z.of_nat (length ts))),
        with_db (db_append t td cols ts (w_db w)) w).
Proof.
  intros. rewrite db_exec_healthy by (done || by rewrite forallb_concat).
  by erewrite sql_exec_append.
Qed.

(** The loop over the batches, whatever each turn leaves behind. *)
Lemma local_insert_loop {A R} t td cols (params : A -> list value)
    (body : unit -> list A -> Go World (unit + R)) bs w :
  healthy w -> find_tabdef t = Some td -> no_unique td = true -> fk_foreign td = true ->
  (forall b w, b ∈ bs -> healthy w -> forallb (storable (w_db w) td cols) (params <$> b) = true ->
     body tt b w = Some (inl tt, with_db (db_append t td cols (params <$> b) (w_db w)) w)) ->
  forallb (storable (w_db w) td cols) (params <$> concat bs) = true ->
  go_for_ret body bs tt w = Some (inl tt, with_db (db_append_batches t td cols params bs (w_db w)) w).
Proof.
  intros Hw Ht Hu Hf Hbody. revert w Hw. induction bs as [|b bs IH]; intros w Hw Hacc.
  - cbn. by rewrite with_db_id.
  - cbn [concat] in Hacc. rewrite fmap_app, forallb_app in Hacc. apply andb_prop in Hacc as [H1 H2].
    cbn [go_for_ret]. erewrite go_bind_Some by (by apply Hbody; [left|..]). cbn iota.
    rewrite IH; [done| |by apply healthy_with_db|].
    + intros b' w' Hb'. apply Hbody. by right.
    + rewrite forallb_forall in H2 |- *. intros v Hv. cbn [w_db with_db].
      rewrite storable_append by done. by apply H2.
Qed.

(** The same for a whole slice cut by [Batch]. *)
Lemma local_insert_Batch {A R} t td cols (params : A -> list value)
    (body : unit -> list A -> Go World (unit + R)) ids n w :
  healthy w -> find_tabdef t = Some td -> no_unique td = true -> fk_foreign td = true -> ids <> [] ->
  (forall b w, b ∈ Batch ids n -> healthy w ->
     forallb (storable (w_db w) td cols) (params <$> b) = true ->
     body tt b w = Some (inl tt, with_db (db_append t td cols (params <$> b) (w_db w)) w)) ->
  forallb (storable (w_db w) td cols) (params <$> ids) = true ->
  go_for_ret body (Batch ids n) tt w =
  Some (inl tt, with_db (db_append t td cols (params <$> ids) (w_db w)) w).
Proof.
  intros. erewrite local_insert_loop; [|done..|by rewrite Batch_concat].
  by rewrite db_append_batches_concat, Batch_concat by (by apply Batch_ne_nil).
Qed.

Lemma conn_exec_healthy s ps w :
  healthy w -> forallb bindable ps = true ->
  conn_exec s ps w = Some (match sql_exec (w_db w) s ps with
                           | Ok (db', res) => (ExecOk res, with_db db' w)
                           | Err e => (ExecErr e, w)
                           end).
Proof.
  intros Hw Hb. unfold conn_exec. go_call next_fault_healthy. rewrite Hb. cbn [negb].
  rewrite go_bind_gets. by destruct (sql_exec _ _ _) as [[]|].
Qed.

(** An UPDATE of the rows that encode [xs]: the ones [hit] selects become
    the encoding of their [upd]. *)
Lemma sql_exec_update {A} t td sets key (enc : A -> row) (hit : A -> bool) (upd : A -> A) xs vals k db :
  find_tabdef t = Some td -> length sets = length vals ->
  Z.of_nat (S (length sets)) <= DBMaxVariableSize -> db_rows db t = enc <$> xs ->
  (forall x, x ∈ xs -> key_is key [k] (enc x) = hit x) ->
  (forall x, x ∈ xs -> hit x = true ->
     set_cols sets vals (enc x) = enc (upd x) /\ not_null_ok td (enc (upd x)) = true) ->
  exists db', sql_exec db (Update t sets key) (vals ++ [k]) =
      Ok (db', mkSQLResponse (Z.of_nat (length (List.filter hit xs))) (db_last db)) /\
    db_rows db' t = enc <$> ((fun x => if hit x then upd x else x) <$> xs) /\
    forall t', t' <> t -> db_table db' t' = db_table db t'.
Proof.
  intros Ht Hl Hmax Hr Hk Hset. unfold db_rows in Hr. eexists. split_and!.
  - unfold sql_exec. cbn [placeholders]. rewrite (proj2 (Z.ltb_ge _ _)) by lia.
    rewrite length_app, Hl. cbn [length]. rewrite (Nat.add_comm _ 1), Nat.eqb_refl. cbn [negb].
    rewrite Ht, take_app_length, drop_app_length, Hr.
    rewrite (proj2 (forallb_forall _ _)).
    + do 4 f_equal. rewrite <- (length_fmap enc). f_equal.
      apply (sql_select_enc enc (CIn key [k])). exact Hk.
    + intros r. rewrite in_map_iff. intros (x & <- & Hx%list_elem_of_In). rewrite Hk by done.
      destruct (hit x) eqn:E; [|done]. by destruct (Hset x Hx E) as [-> ->].
  - unfold db_rows. rewrite db_table_insert. cbn [t_rows]. rewrite <- !list_fmap_compose.
    apply list_fmap_ext. intros i x Hx%list_elem_of_lookup_2. unfold compose. rewrite Hk by done.
    destruct (hit x) eqn:E; [|done]. by destruct (Hset x Hx E) as [-> _].
  - intros t' Hne. by rewrite db_table_insert_ne.
Qed.

Lemma plain_codec_total : @codec_total plain_codec.
Proof. intros c. by exists c. Qed.
