(* ===== verification/Reads.v ===== *)
(** * Batched reads by id

    The repositories that read a whole table cut an interval of ids with
    [Batch] and send one SELECT .. WHERE id IN (..) per batch.  These lemmas
    say that the loop reads every record whose id is in the interval exactly
    once. *)

From stdpp Require Import base list gmap strings pretty.
From Stdlib Require Import ZArith Lia.
From S2P Require Import Prelude Models Batcher Sql Fsm.

#[local] Open Scope Z_scope.

(** A loop that only collects what each turn reads. *)
Lemma go_for_ret_collect {W A B R} (body : list B -> A -> Go W (list B + R)) (f : A -> list B) l acc w :
  (forall acc a, a ∈ l -> body acc a w = Some (inl (acc ++ f a), w)) ->
  go_for_ret body l acc w = Some (inl (acc ++ concat (f <$> l)), w).
Proof.
  revert acc. induction l as [|a l IH]; intros acc H.
  - cbn. by rewrite app_nil_r.
  - cbn [go_for_ret]. erewrite go_bind_Some by (apply H; by left). cbn iota.
    rewrite IH by (intros; apply H; by right). by rewrite fmap_cons, <- app_assoc.
Qed.

(** The same, when a turn may read its rows in another order. *)
Lemma go_for_ret_perm {W A B R} (body : list B -> A -> Go W (list B + R)) (f : A -> list B) l acc w :
  (forall acc a, a ∈ l -> exists x, body acc a w = Some (inl (acc ++ x), w) /\ x ≡ₚ f a) ->
  exists x, go_for_ret body l acc w = Some (inl (acc ++ x), w) /\ x ≡ₚ concat (f <$> l).
Proof.
  revert acc. induction l as [|a l IH]; intros acc H.
  - exists []. cbn. by rewrite app_nil_r.
  - destruct (H acc a) as (x & Hx & Hp); [by left|].
    destruct (IH (acc ++ x)) as (y & Hy & Hq); [intros; apply H; by right|].
    exists (x ++ y). cbn [go_for_ret]. erewrite go_bind_Some by exact Hx. cbn iota.
    rewrite app_assoc. split; [done|]. rewrite fmap_cons. cbn [concat]. by rewrite Hp, Hq.
Qed.

Lemma bool_decide_VInt_in z (ids : list Z) :
  existsb (fun v => bool_decide (VInt z = store_value v)) (VInt <$> ids) = bool_decide (z ∈ ids).
Proof.
  induction ids as [|i ids IH]; [done|]. rewrite fmap_cons. cbn [existsb]. rewrite IH.
  cbn [store_value]. destruct (decide (z = i)) as [->|Hne].
  - rewrite (bool_decide_eq_true_2 (VInt i = VInt i)), (bool_decide_eq_true_2 (i ∈ i :: ids)); [done|by left|done].
  - rewrite (bool_decide_eq_false_2 (VInt z = VInt i)) by congruence. cbn [orb].
    apply bool_decide_ext. set_solver.
Qed.

(** Splitting a list by a test is a permutation. *)
Lemma filter_split_perm {A} (p : A -> bool) l :
  List.filter p l ++ List.filter (fun x => negb (p x)) l ≡ₚ l.
Proof.
  induction l as [|x l IH]; [done|]. cbn [List.filter]. destruct (p x); cbn [negb app].
  - by rewrite IH.
  - rewrite <- Permutation_middle. by rewrite IH.
Qed.

Section Reads.
Context {A : Type} (enc : A -> row) (key : A -> Z).
Context (Hkey : forall x, col "id" (enc x) = VInt (key x)).

Definition keyed (ids : list Z) (x : A) : bool := bool_decide (key x ∈ ids).

Lemma select_ids ids xs :
  sql_select (CIn "id" (VInt <$> ids)) (enc <$> xs) = enc <$> List.filter (keyed ids) xs.
Proof.
  apply sql_select_enc. intros x _. cbn [holds]. unfold key_is. rewrite Hkey.
  apply bool_decide_VInt_in.
Qed.

(** Batches that share no id and cover all of them read every record once. *)
Lemma filter_batches bs xs :
  NoDup (concat bs) -> (forall x, x ∈ xs -> key x ∈ concat bs) ->
  concat ((fun b => List.filter (keyed b) xs) <$> bs) ≡ₚ xs.
Proof.
  revert xs. induction bs as [|b bs IH]; intros xs Hnd Hall.
  - destruct xs as [|x xs]; [done|]. exfalso. eapply not_elem_of_nil, (Hall x). by left.
  - rewrite fmap_cons. cbn [concat] in *. apply NoDup_app in Hnd as (_ & Hd & Hnd).
    etransitivity; [|apply (filter_split_perm (keyed b) xs)]. apply Permutation_app; [done|].
    rewrite <- (IH (List.filter (fun x => negb (keyed b x)) xs) Hnd).
    + match goal with |- ?a ≡ₚ ?b => cut (a = b); [intros ->; done|] end. f_equal. apply list_fmap_ext. intros i b' Hb'.
      apply list_elem_of_lookup_2 in Hb'.
      assert (Hin : forall x, keyed b' x = true -> keyed b x = false).
      { intros x Hx%bool_decide_eq_true. apply bool_decide_eq_false. intros Hb. apply (Hd _ Hb).
        apply list_elem_of_In, in_concat. exists b'. by rewrite <- !list_elem_of_In. }
      clear - Hin. induction xs as [|x xs IHx]; [done|]. cbn [List.filter].
      destruct (keyed b x) eqn:Eb, (keyed b' x) eqn:Eb'; cbn [negb]; cbn [List.filter];
        rewrite ?Eb', ?IHx; try done. by rewrite Hin in Eb.
    + intros x [Hx Hk]%list_elem_of_In%filter_In. apply negb_true_iff, bool_decide_eq_false in Hk.
      specialize (Hall x). rewrite <- list_elem_of_In in Hx. apply Hall, elem_of_app in Hx. tauto.
Qed.

(** What one SELECT of a batch scans. *)
Lemma mapM_scan_ids {B} (proj : row -> list value) (scan : list value -> option B) (dec : A -> B) ids xs :
  (forall x, x ∈ xs -> scan (proj (enc x)) = Some (dec x)) ->
  mapM scan (proj <$> sql_select (CIn "id" (VInt <$> ids)) (enc <$> xs)) =
  Some (dec <$> List.filter (keyed ids) xs).
Proof.
  intros Hs. rewrite select_ids.
  assert (forall x, x ∈ List.filter (keyed ids) xs -> scan (proj (enc x)) = Some (dec x)) as H.
  { intros x [Hx _]%list_elem_of_In%filter_In. apply Hs. by apply list_elem_of_In. }
  clear Hs. induction (List.filter (keyed ids) xs) as [|x l IH]; [done|]. rewrite !fmap_cons. cbn.
  rewrite H by (by left). cbn. rewrite IH by (intros; apply H; by right). done.
Qed.

Lemma concat_fmap_fmap {B C D} (f : C -> D) (g : B -> list C) l :
  concat ((fun b => f <$> g b) <$> l) = f <$> concat (g <$> l).
Proof. induction l as [|b l IH]; [done|]. rewrite !fmap_cons. cbn [concat]. by rewrite IH, fmap_app. Qed.

(** The whole loop: every record of the interval, once. *)
Lemma read_batches {B R} (dec : A -> B) (body : list B -> list Z -> Go World (list B + R))
    lo n k xs w :
  (forall acc b, b ∈ Batch (zseq lo n) k ->
     exists l, body acc b w = Some (inl (acc ++ l), w) /\ l ≡ₚ dec <$> List.filter (keyed b) xs) ->
  (forall x, x ∈ xs -> lo <= key x < lo + Z.of_nat n) ->
  exists l, go_for_ret body (Batch (zseq lo n) k) [] w = Some (inl l, w) /\ l ≡ₚ dec <$> xs.
Proof.
  intros Hbody Hin.
  destruct (go_for_ret_perm body (fun b => dec <$> List.filter (keyed b) xs) _ [] w Hbody)
    as (l & Hl & Hp). exists l. split; [done|]. rewrite Hp.
  rewrite concat_fmap_fmap. apply fmap_Permutation, filter_batches.
  - rewrite Batch_concat. apply NoDup_zseq.
  - intros x Hx. rewrite Batch_concat. by apply elem_of_zseq, Hin.
Qed.

(** An id selects at most one record. *)
Lemma length_keyed ids xs : NoDup (key <$> xs) -> (length (List.filter (keyed ids) xs) <= length ids)%nat.
Proof.
  intros Hnd. rewrite <- (length_fmap key). apply submseteq_length, NoDup_submseteq.
  - induction xs as [|x xs IH]; [constructor|]. rewrite fmap_cons in Hnd.
    apply NoDup_cons in Hnd as [Hx Hnd]. cbn [List.filter]. case_match; [|by apply IH].
    rewrite fmap_cons. constructor; [|by apply IH].
    intros (y & Hy & [Hin _]%list_elem_of_In%filter_In)%list_elem_of_fmap.
    apply Hx. rewrite Hy. by apply list_elem_of_fmap_2, list_elem_of_In.
  - intros k (x & -> & [_ Hk]%list_elem_of_In%filter_In)%list_elem_of_fmap.
    by apply bool_decide_eq_true in Hk.
Qed.

(** What a batch of an interval of ids is. *)
Lemma batch_ids lo n k b :
  1 <= k <= DBMaxVariableSize -> (0 < n)%nat -> b ∈ Batch (zseq lo n) k ->
  b <> [] /\ Z.of_nat (length b) * k <= DBMaxVariableSize /\
  Forall (fun i => lo <= i < lo + Z.of_nat n) b.
Proof.
  intros Hk Hn Hb. split_and!; [|by eapply Batch_bounded|].
  - eapply Batch_nonempty; [done| |done]. destruct n; [lia|done].
  - apply Forall_forall. intros i Hi. apply elem_of_zseq. rewrite <- (Batch_concat (zseq lo n) k).
    apply list_elem_of_In, in_concat. exists b. by rewrite <- !list_elem_of_In.
Qed.

Lemma bindable_ids (ids : list Z) :
  Forall (fun i => i <= MaxInt64) ids -> forallb bindable (VInt <$> ids) = true.
Proof. induction 1; [done|]. rewrite fmap_cons. cbn [forallb]. by rewrite bindable_int. Qed.

(** The least and greatest id bound every record. *)
Lemma ints_of_enc xs : ints_of "id" (enc <$> xs) = key <$> xs.
Proof.
  unfold ints_of. induction xs as [|x xs IH]; [done|]. rewrite !fmap_cons. cbn [omap list_omap].
  rewrite Hkey. by f_equal.
Qed.

Lemma foldl_max_ge z zs : z <= foldl Z.max z zs /\ forall x, x ∈ zs -> x <= foldl Z.max z zs.
Proof.
  revert z. induction zs as [|y zs IH]; intros z; cbn [foldl]; [split; [lia|set_solver]|].
  destruct (IH (Z.max z y)) as [H1 H2]. split; [lia|]. intros x [->|Hx]%elem_of_cons; [lia|auto].
Qed.

Lemma foldl_min_le z zs : foldl Z.min z zs <= z /\ forall x, x ∈ zs -> foldl Z.min z zs <= x.
Proof.
  revert z. induction zs as [|y zs IH]; intros z; cbn [foldl]; [split; [lia|set_solver]|].
  destruct (IH (Z.min z y)) as [H1 H2]. split; [lia|]. intros x [->|Hx]%elem_of_cons; [lia|auto].
Qed.

Lemma foldl_max_elem z zs : foldl Z.max z zs ∈ z :: zs.
Proof.
  revert z. induction zs as [|y zs IH]; intros z; cbn [foldl]; [by left|].
  specialize (IH (Z.max z y)). apply elem_of_cons in IH as [H|H]; [|set_solver].
  rewrite H. destruct (Z.max_spec z y) as [[_ ->]|[_ ->]]; set_solver.
Qed.

Lemma foldl_min_elem z zs : foldl Z.min z zs ∈ z :: zs.
Proof.
  revert z. induction zs as [|y zs IH]; intros z; cbn [foldl]; [by left|].
  specialize (IH (Z.min z y)). apply elem_of_cons in IH as [H|H]; [|set_solver].
  rewrite H. destruct (Z.min_spec z y) as [[_ ->]|[_ ->]]; set_solver.
Qed.

Lemma min_max_enc xs :
  xs <> [] ->
  exists lo hi, sql_min "id" (enc <$> xs) = Some lo /\ sql_max "id" (enc <$> xs) = Some hi /\
    (forall x, x ∈ xs -> lo <= key x <= hi) /\ lo ∈ key <$> xs /\ hi ∈ key <$> xs.
Proof.
  intros Hne. unfold sql_min, sql_max. rewrite ints_of_enc.
  destruct xs as [|x xs]; [done|]. rewrite fmap_cons.
  do 2 eexists. split_and!; [done|done| |apply foldl_min_elem|apply foldl_max_elem].
  destruct (foldl_max_ge (key x) (key <$> xs)), (foldl_min_le (key x) (key <$> xs)).
  intros y [->|Hy]%elem_of_cons; [done|].
  assert (key y ∈ key <$> xs) by (by apply list_elem_of_fmap_2). auto.
Qed.

End Reads.
