(* ===== verification/JobQueueRepo.v ===== *)
(** * The job queue repository: pkg/repository/job_queue/job_queues.go

    The queue's table holds, per version, the ranges of job ids given to
    each node.  Writes go through the raft log and wake the target nodes. *)

From stdpp Require Import base list gmap strings pretty.
From Stdlib Require Import ZArith Lia.
From S2P Require Import Prelude Models Batcher Sql Fsm Replication Inserts.

#[local] Open Scope Z_scope.

Definition JobQueuesTableName : string := "job_queues".
Definition JobQueuesVersionTableName : string := "job_queue_versions".

(** The select list, and the [Scan] that reads it back. *)
Definition job_queue_select : list string :=
  ["id"; "node_id"; "lower_bound_job_id"; "upper_bound_job_id"; "version"; "date_created"].

Definition scan_job_queue_log (vs : list value) : option JobQueueLog :=
  match vs with
  | [id; node; lo; hi; ver; created] =>
      id ← scan_uint64 id; node ← scan_uint64 node; lo ← scan_uint64 lo; hi ← scan_uint64 hi;
      ver ← scan_uint64 ver; created ← scan_time created;
      Some (mkJobQueueLog id node lo hi ver created)
  | _ => None
  end.

(** A query on the queue's table, newest first. *)
Definition select_job_queues (c : cond) (db : Db) : list (list value) :=
  project_cols job_queue_select <$>
    order_desc "date_created" (sql_select c (db_rows db JobQueuesTableName)).

Section JobQueueRepo.
Context {codec : CommandCodec}.

(** [nil] and an empty slice are the same to every caller. *)
Definition GetLastJobQueueLogForNode (nodeId version : Z) : Go World (list JobQueueLog) :=
  q ← db_query [VInt nodeId; VInt version]
        (select_job_queues (CAnd (CEq "node_id" (VInt nodeId)) (CEq "version" (VInt version))))
        scan_job_queue_log;
  match q with
  | QRows l => mret l
  | QQueryErr _ => crash
  | QScanErr _ => mret []
  | QRowsErr _ _ => mret []
  end.

(** [MAX] gives one row, NULL on an empty table, which scans as nil. *)
Definition getLastVersion : Go World Z :=
  q ← db_query []
        (fun db => [[match sql_max "version" (db_rows db JobQueuesVersionTableName) with
                     | Some z => VInt z
                     | None => VNull
                     end]])
        (fun vs => match vs with
                   | [VNull] => Some None
                   | [v] => Some <$> scan_uint64 v
                   | _ => None
                   end);
  match q with
  | QRows l => mret (default 0 (foldl (fun _ v => v) None l))
  | QQueryErr _ | QScanErr _ | QRowsErr _ _ => crash
  end.

Definition GetLastVersion : Go World Z := getLastVersion.

Definition IncrementQueueVersion (numberOfServer : Z) : Go World unit :=
  lastVersion ← getLastVersion;
  r ← WriteCommandToRaftLog CommandTypeDbExecute
        (Insert JobQueuesVersionTableName ["version"; "number_of_active_nodes"] 1)
        [VInt (u64 (lastVersion + 1)); VInt numberOfServer] [] 0;
  match r with
  | Ok _ => mret tt
  | Err _ => crash
  end.

Definition job_queue_insert_cols : list string :=
  ["node_id"; "lower_bound_job_id"; "upper_bound_job_id"; "version"; "date_created"].

Definition job_queue_params (now : Time) (l : JobQueueLog) : list value :=
  [VInt (q_NodeId l); VInt (q_LowerBoundJobId l); VInt (q_UpperBoundJobId l); VInt (q_Version l);
   VTime (t_ns now)].

(** An error of the raft log is only logged; the next batch goes on. *)
Definition InsertJobQueueLogs (logs : list JobQueueLog) : Go World unit :=
  now ← gets w_now;
  go_for (fun _ batch =>
            WriteCommandToRaftLog CommandTypeDbExecute
              (Insert JobQueuesTableName job_queue_insert_cols (length batch))
              (concat (job_queue_params now <$> batch)) (q_NodeId <$> batch)
              CommandActionQueueJob;;
            mret tt)
    (Batch logs 5) tt.

Definition GetJobQueueByLastInsertedAndRowsAffected (lastInsertedId rowsAffected : Z)
    : Go World (list JobQueueLog) :=
  let lo := i64 (lastInsertedId - rowsAffected) in
  q ← db_query [VInt lo; VInt lastInsertedId]
        (select_job_queues (CBetween "id" lo lastInsertedId)) scan_job_queue_log;
  match q with
  | QRows l => mret l
  | QQueryErr _ => crash
  | QScanErr _ => mret []
  | QRowsErr l _ => mret l
  end.

End JobQueueRepo.

(** ** What the table means: a list of logs *)

Definition queue_row (l : JobQueueLog) : row :=
  [("id", VInt (q_Id l)); ("node_id", VInt (q_NodeId l));
   ("lower_bound_job_id", VInt (q_LowerBoundJobId l));
   ("upper_bound_job_id", VInt (q_UpperBoundJobId l)); ("version", VInt (q_Version l));
   ("date_created", VTime (t_ns (q_DateCreated l)))].

Definition queue_log_wf (l : JobQueueLog) : Prop :=
  0 <= q_Id l /\ 0 <= q_NodeId l /\ 0 <= q_LowerBoundJobId l /\ 0 <= q_UpperBoundJobId l /\
  0 <= q_Version l /\ t_loc (q_DateCreated l) = "UTC".

(** The table holds [logs], and ids above them are free. *)
Definition queue_abs (db : Db) (logs : list JobQueueLog) : Prop :=
  db_rows db JobQueuesTableName = queue_row <$> logs /\ Forall queue_log_wf logs /\
  0 <= t_seq (db_table db JobQueuesTableName).

(** The logs as stored: numbered after [seq], stamped with the time. *)
Fixpoint stamp (now : Time) (seq : Z) (logs : list JobQueueLog) : list JobQueueLog :=
  match logs with
  | [] => []
  | l :: ls => mkJobQueueLog (seq + 1) (q_NodeId l) (q_LowerBoundJobId l) (q_UpperBoundJobId l)
                 (q_Version l) (mkTime (t_ns now) "UTC") :: stamp now (seq + 1) ls
  end.

(** Numbers that survive the trip through JSON. *)
Definition small (z : Z) : Prop := 0 <= z <= 9007199254740992.
Definition queue_log_small (l : JobQueueLog) : Prop :=
  small (q_NodeId l) /\ small (q_LowerBoundJobId l) /\ small (q_UpperBoundJobId l) /\
  small (q_Version l).

Definition job_queues_td : tabdef := default (Tab "" [] None) (find_tabdef JobQueuesTableName).

Lemma stamp_wf now seq logs :
  0 <= seq -> Forall queue_log_small logs -> Forall queue_log_wf (stamp now seq logs).
Proof.
  unfold queue_log_small, small. intros Hs H. revert seq Hs.
  induction H as [|l ls Hl _ IH]; intros seq Hs; [constructor|].
  cbn [stamp]. constructor; [unfold queue_log_wf; simpl; lia || intuition lia|]. apply IH. lia.
Qed.

Lemma tuple_rows_stamp now seq logs :
  tuple_rows job_queues_td job_queue_insert_cols seq (job_queue_params now <$> logs) =
  queue_row <$> stamp now seq logs.
Proof.
  revert seq. induction logs as [|l ls IH]; intros seq; [done|].
  rewrite fmap_cons. cbn [tuple_rows stamp]. rewrite fmap_cons, IH. done.
Qed.

Lemma scan_queue_row l :
  queue_log_wf l -> scan_job_queue_log (project_cols job_queue_select (queue_row l)) = Some l.
Proof.
  intros (H1 & H2 & H3 & H4 & H5 & H6). cbn. unfold scan_uint64.
  repeat (rewrite (proj2 (Z.leb_le _ _)) by done; cbn). destruct l as [? ? ? ? ? [ns loc]].
  cbn in H6 |- *. by subst.
Qed.

Lemma queue_acceptable db now logs :
  json_marshalable (VTime (t_ns now)) = true -> Forall queue_log_small logs ->
  forallb (acceptable db job_queues_td job_queue_insert_cols) (job_queue_params now <$> logs) = true.
Proof.
  intros Hnow H. apply forallb_forall. intros v. rewrite in_map_iff.
  intros (l & <- & Hl). rewrite Forall_forall in H. apply list_elem_of_In, H in Hl.
  unfold queue_log_small, small in Hl. unfold acceptable.
  assert (params_ok (job_queue_params now l) = true) as ->.
  { unfold params_ok, job_queue_params. simpl forallb. unfold json_marshalable in Hnow.
    rewrite Hnow. unfold exact_param.
    repeat rewrite (proj2 (Z.leb_le _ _)) by lia. done. }
  done.
Qed.

Section Facts.
Context {codec : CommandCodec}.

Lemma InsertJobQueueLogs_quiet logs w :
  quiet w -> codec_total -> logs <> [] ->
  json_marshalable (VTime (t_ns (w_now w))) = true -> Forall queue_log_small logs ->
  InsertJobQueueLogs logs w =
  Some (tt, with_post
              (w_post w ++ if w_channel w
                           then batches_messages JobQueuesTableName job_queue_insert_cols
                                  (job_queue_params (w_now w)) (fun b => q_NodeId <$> b)
                                  CommandActionQueueJob (Batch logs 5)
                                  (t_seq (db_table (w_db w) JobQueuesTableName)) else [])
              (with_db (db_append JobQueuesTableName job_queues_td job_queue_insert_cols
                          (job_queue_params (w_now w) <$> logs) (w_db w)) w)).
Proof.
  intros Hq Hc Hne Hnow Hs. unfold InsertJobQueueLogs. go_step.
  apply (raft_insert_Batch JobQueuesTableName job_queues_td job_queue_insert_cols
           (job_queue_params (w_now w)) (fun b => q_NodeId <$> b) CommandActionQueueJob logs 5 w);
    try done. by apply queue_acceptable.
Qed.

Lemma queue_abs_append now logs old db :
  queue_abs db old -> Forall queue_log_small logs ->
  queue_abs (db_append JobQueuesTableName job_queues_td job_queue_insert_cols
               (job_queue_params now <$> logs) db)
    (old ++ stamp now (t_seq (db_table db JobQueuesTableName)) logs).
Proof.
  intros (Hr & Hwf & Hseq) Hs. unfold queue_abs, db_rows in *. rewrite db_append_table.
  cbn [t_rows t_seq]. rewrite tuple_rows_stamp, fmap_app, Hr. split; [done|]. split; [|lia].
  apply Forall_app_2; [done|]. by apply stamp_wf.
Qed.

(** A query on the queue's table answers from the list. *)
Lemma select_job_queues_abs c p db logs :
  queue_abs db logs -> (forall l, holds c (queue_row l) = p l) ->
  exists l, mapM scan_job_queue_log (select_job_queues c db) = Some l /\ l ≡ₚ List.filter p logs.
Proof.
  intros (Hr & Hwf & _) Hp. unfold select_job_queues. rewrite Hr.
  rewrite (sql_select_enc queue_row c p) by auto.
  destruct (mapM_scan_perm queue_row (project_cols job_queue_select) scan_job_queue_log
              (List.filter p logs) (order_desc "date_created" (queue_row <$> List.filter p logs)))
    as (l & Hl & Hperm & _); [| by rewrite order_desc_perm | eauto].
  intros x [Hx _]%list_elem_of_In%filter_In. apply scan_queue_row.
  rewrite Forall_forall in Hwf. apply Hwf. by apply list_elem_of_In.
Qed.

Definition log_of (nodeId version : Z) (l : JobQueueLog) : bool :=
  (q_NodeId l =? nodeId) && (q_Version l =? version).

Lemma bool_decide_VInt a b : bool_decide (VInt a = VInt b) = (a =? b).
Proof. destruct (Z.eqb_spec a b) as [->|]; [by apply bool_decide_eq_true_2|]. apply bool_decide_eq_false_2. congruence. Qed.

Lemma GetLastJobQueueLogForNode_abs nodeId version w logs :
  healthy w -> queue_abs (w_db w) logs -> nodeId <= MaxInt64 -> version <= MaxInt64 ->
  exists l, GetLastJobQueueLogForNode nodeId version w = Some (l, w) /\
    l ≡ₚ List.filter (log_of nodeId version) logs.
Proof.
  intros Hw Ha Hn Hv. unfold GetLastJobQueueLogForNode.
  destruct (select_job_queues_abs
              (CAnd (CEq "node_id" (VInt nodeId)) (CEq "version" (VInt version)))
              (log_of nodeId version) (w_db w) logs Ha) as (l & Hl & Hp).
  { intros x. cbn. by rewrite !bool_decide_VInt. }
  exists l. split; [|done]. erewrite db_query_then; [done|done| |done].
  apply query_refused_ok; [done|]. cbn [forallb]. by rewrite !bindable_int.
Qed.

(** ** Versions *)

Definition versions (db : Db) : list Z := ints_of "version" (db_rows db JobQueuesVersionTableName).
Definition max_version (vs : list Z) : Z :=
  match vs with [] => 0 | v :: vs => foldl Z.max v vs end.

Lemma foldl_max_app v vs x : foldl Z.max v (vs ++ [x]) = Z.max (foldl Z.max v vs) x.
Proof. by rewrite foldl_app. Qed.

Lemma max_version_app vs x : max_version vs <= x -> 0 <= x -> max_version (vs ++ [x]) = x.
Proof. destruct vs as [|v vs]; simpl; [done|]. rewrite foldl_max_app. lia. Qed.

Lemma getLastVersion_healthy w :
  healthy w -> 0 <= max_version (versions (w_db w)) ->
  getLastVersion w = Some (max_version (versions (w_db w)), w).
Proof.
  intros Hw H0. unfold getLastVersion. unfold versions, sql_max, max_version in *.
  destruct (ints_of "version" (db_rows (w_db w) JobQueuesVersionTableName)) as [|z zs] eqn:E.
  - erewrite (db_query_then _ _ _ [None]); [done|done|done|]. cbn. unfold sql_max. by rewrite E.
  - erewrite (db_query_then _ _ _ [Some (foldl Z.max z zs)]); [done|done|done|].
    cbn. unfold sql_max. rewrite E. cbn. by rewrite (proj2 (Z.leb_le _ _)).
Qed.

Definition queue_versions_td : tabdef :=
  default (Tab "" [] None) (find_tabdef JobQueuesVersionTableName).

Lemma versions_append db v n :
  versions (db_append JobQueuesVersionTableName queue_versions_td
              ["version"; "number_of_active_nodes"] [[VInt v; VInt n]] db) = versions db ++ [v].
Proof.
  unfold versions, db_rows. rewrite db_append_table. cbn [t_rows].
  unfold ints_of. by rewrite omap_app.
Qed.

(** ** Announcements *)

Lemma stamp_ids now seq logs l :
  l ∈ stamp now seq logs -> seq < q_Id l <= seq + Z.of_nat (length logs).
Proof.
  revert seq. induction logs as [|x logs IH]; intros seq; cbn [stamp]; [by intros ?%elem_of_nil|].
  intros [->|Hl]%elem_of_cons; [cbn; lia|]. apply IH in Hl. cbn [length]. lia.
Qed.

Lemma announced_filter now seq logs old :
  Forall (fun l => q_Id l <= seq) old ->
  List.filter (fun x => (seq <=? q_Id x) && (q_Id x <=? seq + Z.of_nat (length logs)))
    (old ++ stamp now seq logs) =
  List.filter (fun x => q_Id x =? seq) old ++ stamp now seq logs.
Proof.
  intros Hold. rewrite List.filter_app. f_equal.
  - induction Hold as [|x old Hx _ IH]; [done|]. cbn [List.filter]. rewrite IH.
    destruct (Z.leb_spec seq (q_Id x)), (Z.eqb_spec (q_Id x) seq); try lia; [|done].
    by rewrite (proj2 (Z.leb_le _ _)) by lia.
  - apply filter_all. intros x Hx%stamp_ids. rewrite !(proj2 (Z.leb_le _ _)); [done|lia..].
Qed.

(** ** Properties *)

(** C11: What the leader queues is what each node reads.  After
    [InsertJobQueueLogs] of a nonempty list on a leader, a node asking for its
    logs of a version gets the ones the table had and its own new ones,
    numbered after the old and stamped with the time: none lost in batching,
    none duplicated, none of another node or version. *)
Theorem InsertJobQueueLogs_Get logs old w nodeId version :
  quiet w -> codec_total -> logs <> [] ->
  json_marshalable (VTime (t_ns (w_now w))) = true -> Forall queue_log_small logs ->
  queue_abs (w_db w) old -> nodeId <= MaxInt64 -> version <= MaxInt64 ->
  exists w' l,
    InsertJobQueueLogs logs w = Some (tt, w') /\
    GetLastJobQueueLogForNode nodeId version w' = Some (l, w') /\
    l ≡ₚ List.filter (log_of nodeId version)
           (old ++ stamp (w_now w) (t_seq (db_table (w_db w) JobQueuesTableName)) logs).
Proof.
  intros Hq Hc Hne Hnow Hs Ha Hn Hv. rewrite InsertJobQueueLogs_quiet by done.
  edestruct (GetLastJobQueueLogForNode_abs nodeId version) as (l & Hl & Hp);
    [..|do 2 eexists; split; [reflexivity|]; split; [exact Hl|exact Hp]]; [|by apply queue_abs_append|done|done].
  auto with go.
Qed.

Lemma IncrementQueueVersion_quiet n w :
  quiet w -> codec_total -> small n ->
  0 <= max_version (versions (w_db w)) < 9007199254740992 ->
  exists added, Forall (fun p => pp_TargetNodes p = []) added /\
  IncrementQueueVersion n w =
    Some (tt, with_post (w_post w ++ added) (with_db (db_append JobQueuesVersionTableName queue_versions_td
      ["version"; "number_of_active_nodes"]
      [[VInt (max_version (versions (w_db w)) + 1); VInt n]] (w_db w)) w)).
Proof.
  intros Hq Hc Hn Hv. set (v := max_version (versions (w_db w))) in *.
  assert (Hacc : forallb (acceptable (w_db w) queue_versions_td ["version"; "number_of_active_nodes"])
                   [[VInt (v + 1); VInt n]] = true).
  { unfold small in Hn. unfold acceptable, params_ok. cbn.
    repeat rewrite (proj2 (Z.leb_le _ _)) by lia. done. }
  pose proof (raft_insert JobQueuesVersionTableName queue_versions_td
    ["version"; "number_of_active_nodes"] [[VInt (v + 1); VInt n]] [] 0 w Hq Hc eq_refl eq_refl
    ltac:(done) ltac:(done) Hacc) as HW.
  eexists. split; cycle 1.
  { unfold IncrementQueueVersion.
    erewrite go_bind_Some by (apply getLastVersion_healthy; [by auto with go | fold v; lia]). fold v.
    rewrite u64_small by go_lia. erewrite go_bind_Some by exact HW. reflexivity. }
  destruct (w_channel w); by repeat constructor.
Qed.

Lemma max_version_append v n db :
  max_version (versions db) <= v -> 0 <= v ->
  max_version (versions (db_append JobQueuesVersionTableName queue_versions_td
    ["version"; "number_of_active_nodes"] [[VInt v; VInt n]] db)) = v.
Proof. intros. by rewrite versions_append, max_version_app. Qed.

(** [IncrementQueueVersion] raises the version every node reads by one. *)
Theorem IncrementQueueVersion_Get n w :
  quiet w -> codec_total -> small n ->
  0 <= max_version (versions (w_db w)) < 9007199254740992 ->
  exists w', IncrementQueueVersion n w = Some (tt, w') /\
    GetLastVersion w = Some (max_version (versions (w_db w)), w) /\
    GetLastVersion w' = Some (max_version (versions (w_db w)) + 1, w').
Proof.
  intros Hq Hc Hn Hv. destruct (IncrementQueueVersion_quiet n w Hq Hc Hn Hv) as (p & _ & Hi).
  eexists. split; [exact Hi|]. split.
  - apply getLastVersion_healthy; auto with go. lia.
  - unfold GetLastVersion. rewrite getLastVersion_healthy; cbn [w_db with_post with_db];
      rewrite ?max_version_append by lia; auto with go. lia.
Qed.

(** The rows any node with the same tables looks up from an announcement are
    the announced rows and the one stored just before them: the BETWEEN
    starts one id early. *)
Theorem announced_rows logs old w :
  quiet w -> codec_total -> logs <> [] -> Z.of_nat (length logs) <= 6553 ->
  json_marshalable (VTime (t_ns (w_now w))) = true -> Forall queue_log_small logs ->
  queue_abs (w_db w) old ->
  let seq := t_seq (db_table (w_db w) JobQueuesTableName) in
  Forall (fun l => q_Id l <= seq) old -> seq + 6553 <= MaxInt64 -> w_channel w = true ->
  exists w' l data,
    InsertJobQueueLogs logs w = Some (tt, w') /\
    w_post w' = w_post w ++ [mkPostProcess CommandActionQueueJob (q_NodeId <$> logs) data] /\
    (forall wn, healthy wn -> w_db wn = w_db w' ->
       GetJobQueueByLastInsertedAndRowsAffected (LastInsertedId data) (RowsAffected data) wn = Some (l, wn)) /\
    l ≡ₚ List.filter (fun x => q_Id x =? seq) old ++ stamp (w_now w) seq logs.
Proof.
  intros Hq Hc Hne Hlen Hnow Hs Ha seq Hold Hseq Hch.
  pose proof (queue_abs_append (w_now w) logs old (w_db w) Ha Hs) as Ha'. fold seq in Ha'.
  set (n := Z.of_nat (length logs)) in *.
  destruct (select_job_queues_abs (CBetween "id" (i64 (seq + n - n)) (seq + n))
    (fun x => (i64 (seq + n - n) <=? q_Id x) && (q_Id x <=? seq + n)) _ _ Ha') as (l & Hl & Hp);
    [done|].
  rewrite InsertJobQueueLogs_quiet, Hch by done. rewrite Batch_small by done.
  eexists _, l, (mkSQLResponse n (seq + n)). split; [reflexivity|]. split; [|split].
  - cbn -[Z.of_nat]. unfold batch_message. rewrite length_fmap. done.
  - intros wn Hwn Hdb. unfold GetJobQueueByLastInsertedAndRowsAffected. cbn [LastInsertedId RowsAffected].
    erewrite db_query_then; [reflexivity|done| |rewrite Hdb; exact Hl].
    destruct Ha as (_ & _ & H0). fold seq in H0.
    apply query_refused_ok; [done|]. cbn [forallb]. rewrite !bindable_int; [done|lia|].
    apply i64_range.
  - rewrite Hp. destruct Ha as (_ & _ & H0). fold seq in H0.
    rewrite i64_small by go_lia. replace (seq + n - n) with seq by lia.
    unfold n. by rewrite announced_filter.
Qed.

End Facts.

(** ** Concrete runs *)

Definition sample_now : Time := mkTime 63800000000000000000 "UTC".
Definition sample_world : World := mkWorld db_empty sample_now RaftLeader true [] [].
Definition sample_logs : list JobQueueLog :=
  [mkJobQueueLog 0 2 1 5 3 time_zero; mkJobQueueLog 0 3 6 9 3 time_zero].

Lemma queue_abs_empty : queue_abs db_empty [].
Proof. split; [reflexivity|]. split; [constructor|]. vm_compute. discriminate. Qed.

Lemma sample_logs_small : Forall queue_log_small sample_logs.
Proof. repeat constructor; vm_compute; discriminate. Qed.

Lemma InsertJobQueueLogs_Get_witness :
  exists w' l,
    @InsertJobQueueLogs plain_codec sample_logs sample_world = Some (tt, w') /\
    GetLastJobQueueLogForNode 3 3 w' = Some (l, w') /\
    l ≡ₚ [mkJobQueueLog 2 3 6 9 3 sample_now].
Proof.
  apply (@InsertJobQueueLogs_Get plain_codec sample_logs [] sample_world 3 3).
  - by split.
  - apply plain_codec_total.
  - discriminate.
  - reflexivity.
  - apply sample_logs_small.
  - apply queue_abs_empty.
  - vm_compute. discriminate.
  - vm_compute. discriminate.
Defined.

Lemma IncrementQueueVersion_Get_witness :
  exists w', @IncrementQueueVersion plain_codec 3 sample_world = Some (tt, w') /\
    GetLastVersion sample_world = Some (0, sample_world) /\ GetLastVersion w' = Some (1, w').
Proof.
  apply (@IncrementQueueVersion_Get plain_codec 3 sample_world).
  - by split.
  - apply plain_codec_total.
  - vm_compute. split; discriminate.
  - vm_compute. split; [discriminate|reflexivity].
Defined.

(** A table that already holds one log, of an older version. *)
Definition prev_log : JobQueueLog := mkJobQueueLog 1 2 1 4 2 sample_now.
Definition sample_world1 : World :=
  mkWorld (mkDb (<[JobQueuesTableName := Table [queue_row prev_log] 1]> (db_tabs db_empty)) 1)
    sample_now RaftLeader true [] [].

Lemma announced_rows_witness :
  exists w' l data,
    @InsertJobQueueLogs plain_codec sample_logs sample_world1 = Some (tt, w') /\
    w_post w' = [mkPostProcess CommandActionQueueJob [2; 3] data] /\
    (forall wn, healthy wn -> w_db wn = w_db w' ->
       GetJobQueueByLastInsertedAndRowsAffected (LastInsertedId data) (RowsAffected data) wn = Some (l, wn)) /\
    l ≡ₚ [prev_log; mkJobQueueLog 2 2 1 5 3 sample_now; mkJobQueueLog 3 3 6 9 3 sample_now].
Proof.
  apply (@announced_rows plain_codec sample_logs [prev_log] sample_world1).
  - by split.
  - apply plain_codec_total.
  - discriminate.
  - vm_compute. discriminate.
  - reflexivity.
  - apply sample_logs_small.
  - split; [reflexivity|]. split; [|vm_compute; discriminate].
    constructor; [|constructor]. vm_compute. repeat split; discriminate.
  - constructor; [vm_compute; discriminate|constructor].
  - vm_compute. discriminate.
  - reflexivity.
Defined.
