(* ===== verification/Queue.v ===== *)
(** * The job queue service: pkg/service/queue/queue.go

    The leader spreads a range of job ids over the other nodes.  The service
    sees its repository and the raft store through the interface
    [JobQueuesRepo]; [JobQueuesRepoLaws] is what it relies on, and the
    repository of JobQueueRepo.v discharges it. *)

From stdpp Require Import base list gmap strings pretty.
From Stdlib Require Import ZArith Lia.
From S2P Require Import Prelude Models Batcher Sql Fsm Replication Inserts JobQueueRepo.

#[local] Open Scope Z_scope.

(** ** The interface *)

Class JobQueuesRepo (W : Type) := {
  jq_VerifyLeader : Go W bool;
  jq_IncrementQueueVersion : Z -> Go W unit;
  jq_GetLastVersion : Go W Z;
  jq_InsertJobQueueLogs : list JobQueueLog -> Go W unit }.

Class JobQueuesRepoLaws (W : Type) `{JobQueuesRepo W} := {
  jq_ready : W -> Prop;
  jq_version : W -> Z;
  jq_clock : W -> Time;
  jq_next_id : W -> Z;
  jq_stores : W -> list JobQueueLog -> Prop;
  (** everything but the queue is as it was *)
  jq_rest : W -> W -> Prop;
  jq_leader_law w : jq_ready w -> jq_VerifyLeader w = Some (true, w);
  jq_version_law w : jq_ready w -> jq_GetLastVersion w = Some (jq_version w, w);
  jq_version_small w : jq_ready w -> small (jq_version w);
  jq_insert_law logs old w :
    jq_ready w -> jq_stores w old -> logs <> [] -> Forall queue_log_small logs ->
    exists w', jq_InsertJobQueueLogs logs w = Some (tt, w') /\ jq_ready w' /\
      jq_version w' = jq_version w /\ jq_rest w w' /\
      jq_stores w' (old ++ stamp (jq_clock w) (jq_next_id w) logs);
  jq_increment_law n old w :
    jq_ready w -> jq_stores w old -> small n -> jq_version w < 9007199254740992 ->
    exists w', jq_IncrementQueueVersion n w = Some (tt, w') /\ jq_ready w' /\
      jq_version w' = jq_version w + 1 /\ jq_rest w w' /\ jq_stores w' old }.

(** Go's [range] over a map gives the entries in an order that may change
    with every loop: [map_order j] is the order of the [j]-th. *)
Class MapOrder := {
  map_order : nat -> gmap Z Z -> list (Z * Z);
  map_order_perm j m : map_order j m ≡ₚ map_to_list m }.

(** ** State and operations *)

Record jobQueue := mkJobQueue {
  singleNodeMode : bool;
  allocations : gmap Z Z;
  minId : Z;
  maxId : Z }.

Definition NewJobQueue : jobQueue := mkJobQueue false ∅ MaxInt64 MinInt64.

Definition with_allocations (m : gmap Z Z) (q : jobQueue) : jobQueue :=
  mkJobQueue (singleNodeMode q) m (minId q) (maxId q).
Definition with_minmax (lo hi : Z) (q : jobQueue) : jobQueue :=
  mkJobQueue (singleNodeMode q) (allocations q) lo hi.

Definition AddServers (nodeIds : list Z) (q : jobQueue) : jobQueue :=
  with_allocations (foldl (fun m nodeId => <[nodeId := 0]> m) (allocations q) nodeIds) q.

Definition RemoveServers (nodeIds : list Z) (q : jobQueue) : jobQueue :=
  with_allocations (foldl (fun m nodeId => delete nodeId m) (allocations q) nodeIds) q.

Definition GetJobAllocations (q : jobQueue) : gmap Z Z := allocations q.
Definition SetSingleNodeMode (b : bool) (q : jobQueue) : jobQueue :=
  mkJobQueue b (allocations q) (minId q) (maxId q).
Definition GetSingleNodeMode (q : jobQueue) : bool := singleNodeMode q.

(** [serverAllocations[i] = append(serverAllocations[i], x, y)] after the
    test that appends a missing slice. *)
Definition put_range (i : nat) (lo hi : Z) (ranges : list (list Z)) : list (list Z) :=
  let ranges := if (length ranges <=? i)%nat then ranges ++ [[]] else ranges in
  alter (fun r => r ++ [u64 lo; u64 hi]) i ranges.

(** The [for epoc <= maxId] loop; [None] when the fuel is out. *)
Fixpoint assign_loop (fuel : nat) (numberOfServers cycle maxId epoc : Z) (currentServer : nat)
    (ranges : list (list Z)) : option (list (list Z)) :=
  if epoc <=? maxId then
    match fuel with
    | O => None
    | S fuel' =>
        let lowerBound := epoc in
        let upperBound := i64_of_f64 (Z.min (f64 (i64 (epoc + cycle))) (f64 maxId)) in
        let ranges := put_range currentServer lowerBound upperBound ranges in
        let epoc := i64 (upperBound + 1) in
        let currentServer := S currentServer in
        let currentServer := if Z.of_nat currentServer =? numberOfServers then O else currentServer in
        assign_loop fuel' numberOfServers cycle maxId epoc currentServer ranges
    end
  else Some ranges.

Definition assignJobRangeToServers (m : gmap Z Z) (minId maxId : Z) : option (list (list Z)) :=
  let numberOfServers := Z.of_nat (size m) - 1 in
  let serverAllocations := if numberOfServers =? 0 then [[u64 minId; u64 maxId]] else [] in
  if 0 <? numberOfServers then
    let cycle := i64_of_f64 (f64 (Z.quot (i64 (maxId - minId)) numberOfServers)) in
    assign_loop (S (Z.to_nat (maxId - minId + 1))) numberOfServers cycle maxId minId 0
      serverAllocations
  else Some serverAllocations.

Section Service.
Context {W : Type} `{JobQueuesRepo W} {mo : MapOrder}.
(** [configs.NodeId], the node this service runs on. *)
Context (NodeId : Z).

(** The loop over [allocations] in the order [entries]. *)
Definition min_step (acc entry : Z * Z) : Z * Z :=
  let '(minAllocation, minServer) := acc in
  let '(server, allocation) := entry in
  if (allocation <? minAllocation) && negb (server =? NodeId)
  then (allocation, server) else (minAllocation, minServer).

Definition min_server (entries : list (Z * Z)) : Z := snd (foldl min_step (MaxInt64, 0) entries).

Definition getNextServerToQueue (j : nat) (m : gmap Z Z) : Z := min_server (map_order j m).

(** [for j < len(serverAllocations)]; [None] is an index out of range. *)
Fixpoint queue_loop (lastVersion : Z) (j : nat) (m : gmap Z Z) (ranges : list (list Z))
    (logs : list JobQueueLog) : option (list JobQueueLog * gmap Z Z) :=
  match ranges with
  | [] => Some (logs, m)
  | (lo :: hi :: _) :: ranges' =>
      let server := getNextServerToQueue j m in
      queue_loop lastVersion (S j) (<[server := u64 (default 0 (m !! server) + u64 (hi - lo))]> m)
        ranges' (logs ++ [mkJobQueueLog 0 server lo hi lastVersion time_zero])
  | _ => None
  end.

Definition queue (minId maxId : Z) : Go (W * jobQueue) unit :=
  leader ← on_fst jq_VerifyLeader;
  if negb leader then mret tt
  else
    q ← gets snd;
    serverAllocations ← lift_opt (assignJobRangeToServers (allocations q) minId maxId);
    lastVersion ← on_fst jq_GetLastVersion;
    if singleNodeMode q then
      on_fst (jq_InsertJobQueueLogs
                [mkJobQueueLog 0 NodeId (u64 minId) (u64 maxId) lastVersion time_zero])
    else
      lm ← lift_opt (queue_loop lastVersion 0 (allocations q) serverAllocations []);
      modify (fun '(w, q) => (w, with_allocations (snd lm) q));;
      on_fst (jq_InsertJobQueueLogs (fst lm)).

(** The loop over the jobs, on [minId] and [maxId]. *)
Definition min_max_ids (jobs : list Job) (lo hi : Z) : Z * Z :=
  foldl (fun '(lo, hi) job =>
           (if i64 (ID job) <? lo then i64 (ID job) else lo,
            if hi <? i64 (ID job) then i64 (ID job) else hi)) (lo, hi) jobs.

Definition Queue (jobs : list Job) : Go (W * jobQueue) unit :=
  match jobs with
  | [] => mret tt
  | _ =>
      q ← gets snd;
      let '(lo, hi) := min_max_ids jobs (minId q) (maxId q) in
      modify (fun '(w, q) => (w, with_minmax lo hi q));;
      queue lo hi;;
      modify (fun '(w, q) => (w, with_minmax MaxInt64 MinInt16 q))
  end.

Definition IncrementQueueVersion_service : Go (W * jobQueue) unit :=
  q ← gets snd;
  on_fst (jq_IncrementQueueVersion (Z.of_nat (size (allocations q)))).

End Service.

(** ** The ranges tile the interval *)

(** The ids a range stands for. *)
Definition expand (r : list Z) : list Z :=
  match r with
  | [lo; hi] => zseq lo (Z.to_nat (hi - lo + 1))
  | _ => []
  end.

(** A proper range inside [lo, hi]. *)
Definition range_in (lo hi : Z) (r : list Z) : Prop :=
  exists a b, r = [a; b] /\ lo <= a <= b /\ b <= hi.

(** Ids whose sums a double holds exactly. *)
Definition max_exact_id : Z := 4503599627370496.

Lemma assign_loop_done fuel n c max epoc k rs :
  max < epoc -> assign_loop fuel n c max epoc k rs = Some rs.
Proof. intros. destruct fuel; simpl; by rewrite (proj2 (Z.leb_gt _ _)). Qed.

Lemma put_range_new lo hi rs :
  0 <= lo <= MaxUint64 -> 0 <= hi <= MaxUint64 ->
  put_range (length rs) lo hi rs = rs ++ [[lo; hi]].
Proof.
  intros. unfold put_range. rewrite Nat.leb_refl, !u64_small by done.
  induction rs as [|r rs IH]; [done|]. cbn. by rewrite IH.
Qed.

Lemma range_bound epoc c max :
  0 <= epoc <= max -> 0 <= c <= max_exact_id -> max <= max_exact_id ->
  i64_of_f64 (Z.min (f64 (i64 (epoc + c))) (f64 max)) = Z.min (epoc + c) max.
Proof.
  unfold max_exact_id. intros. rewrite i64_small by go_lia.
  rewrite !f64_exact by lia. apply i64_of_f64_small. go_lia.
Qed.

Lemma zseq_split epoc u max :
  epoc <= u + 1 -> u <= max ->
  zseq epoc (Z.to_nat (max - epoc + 1)) =
  zseq epoc (Z.to_nat (u - epoc + 1)) ++ zseq (u + 1) (Z.to_nat (max - (u + 1) + 1)).
Proof.
  intros. replace (Z.to_nat (max - epoc + 1))
    with (Z.to_nat (u - epoc + 1) + Z.to_nat (max - (u + 1) + 1))%nat by lia.
  rewrite zseq_app. do 2 f_equal. lia.
Qed.

Lemma assign_loop_tiles fuel n c max epoc rs :
  0 <= epoc <= max + 1 -> 0 <= c <= max_exact_id -> max <= max_exact_id ->
  max + 1 - epoc <= (n - Z.of_nat (length rs)) * (c + 1) ->
  max + 1 - epoc <= Z.of_nat fuel ->
  exists rs', assign_loop fuel n c max epoc (length rs) rs = Some (rs ++ rs') /\
    concat (expand <$> rs') = zseq epoc (Z.to_nat (max - epoc + 1)) /\
    (epoc <= max -> Z.of_nat (length rs') <= n - Z.of_nat (length rs)) /\
    Forall (range_in epoc max) rs' /\ (max < epoc -> rs' = []).
Proof.
  revert epoc rs. induction fuel as [|fuel IH]; intros epoc rs He Hc Hm Hn Hf.
  { rewrite assign_loop_done by lia. exists []. rewrite app_nil_r.
    replace (Z.to_nat (max - epoc + 1)) with O by lia. split_and!; try done. lia. }
  destruct (Z.leb_spec epoc max) as [Hle|Hgt].
  2:{ rewrite assign_loop_done by lia. exists []. rewrite app_nil_r.
      replace (Z.to_nat (max - epoc + 1)) with O by lia. split_and!; try done. lia. }
  cbn [assign_loop]. rewrite (proj2 (Z.leb_le _ _)) by done. cbn zeta.
  rewrite range_bound by lia. set (u := Z.min (epoc + c) max).
  rewrite put_range_new by (unfold max_exact_id in *; go_lia).
  rewrite i64_small by (unfold max_exact_id in *; go_lia).
  assert (Hr : range_in epoc max [epoc; u]) by (exists epoc, u; split; [done|lia]).
  destruct (decide (u = max)) as [Hu|Hu].
  - rewrite assign_loop_done by lia. exists [[epoc; u]]. cbn. rewrite app_nil_r, Hu.
    split_and!; try done; try lia; [nia|].
    constructor; [|constructor]. exists epoc, max. split; [done|lia].
  - rewrite (proj2 (Z.eqb_neq _ _)) by nia.
    replace (S (length rs)) with (length (rs ++ [[epoc; u]])) by (rewrite length_app; simpl; lia).
    destruct (IH (u + 1) (rs ++ [[epoc; u]])) as (rs' & -> & Ht & Hl & HF & _);
      [lia|done|done|rewrite length_app; simpl; nia|lia|].
    rewrite length_app in Hl. cbn [length] in Hl.
    exists ([epoc; u] :: rs'). rewrite <- app_assoc. split; [done|]. split.
    { rewrite fmap_cons. cbn [concat expand]. rewrite Ht. symmetry. apply zseq_split; lia. }
    split_and!; [cbn [length]; intros; lia| |lia]. constructor; [done|].
    eapply Forall_impl; [exact HF|]. intros r (a & b & -> & ? & ?). exists a, b. split; [done|lia].
Qed.

Lemma assignJobRange_tiles m lo hi :
  0 <= lo <= hi -> hi <= max_exact_id -> (1 <= size m)%nat ->
  exists ranges, assignJobRangeToServers m lo hi = Some ranges /\
    concat (expand <$> ranges) = zseq lo (Z.to_nat (hi - lo + 1)) /\
    (length ranges <= max 1 (size m - 1))%nat /\
    Forall (range_in lo hi) ranges.
Proof.
  intros Hlo Hhi Hm. unfold assignJobRangeToServers. set (n := Z.of_nat (size m) - 1).
  assert (Hb : forall z, 0 <= z <= hi -> u64 z = z).
  { intros. apply u64_small. unfold max_exact_id in *. go_lia. }
  destruct (Z.eqb_spec n 0) as [Hn|Hn].
  - rewrite (proj2 (Z.ltb_ge _ _)), !Hb by lia. exists [[lo; hi]]. cbn. rewrite app_nil_r.
    split_and!; [done|done|lia|]. constructor; [|constructor]. exists lo, hi. split; [done|lia].
  - rewrite (proj2 (Z.ltb_lt _ _)) by lia.
    unfold max_exact_id in *. rewrite i64_small, Z.quot_div_nonneg by go_lia.
    pose proof (Z.div_pos (hi - lo) n). pose proof (Z.mul_succ_div_gt (hi - lo) n).
    assert ((hi - lo) / n <= hi - lo) by (apply Z.div_le_upper_bound; nia).
    rewrite f64_exact, i64_of_f64_small by go_lia.
    destruct (assign_loop_tiles (S (Z.to_nat (hi - lo + 1))) n ((hi - lo) / n) hi lo [])
      as (rs & Hrs & Ht & Hl & HF & _); unfold max_exact_id; cbn [length]; [nia..|].
    exists rs. cbn [length] in Hl. split_and!; [exact Hrs|done|lia|done].
Qed.

(** ** Choosing a server *)

Lemma min_step_cases NodeId a0 s0 s a :
  min_step NodeId (a0, s0) (s, a) = (a, s) /\ a < a0 /\ s <> NodeId \/
  min_step NodeId (a0, s0) (s, a) = (a0, s0) /\ (s = NodeId \/ a0 <= a).
Proof.
  unfold min_step. destruct (Z.ltb_spec a a0), (Z.eqb_spec s NodeId); cbn [andb negb]; tauto.
Qed.

Lemma min_fold_spec NodeId es a0 s0 :
  let r := foldl (min_step NodeId) (a0, s0) es in
  (r = (a0, s0) \/ (snd r, fst r) ∈ es /\ snd r <> NodeId /\ fst r < a0) /\ fst r <= a0 /\
  forall s' a', (s', a') ∈ es -> s' <> NodeId -> fst r <= a'.
Proof.
  revert a0 s0. induction es as [|[s a] es IH]; intros a0 s0; cbn [foldl].
  - split; [by left|]. split; [cbn; lia|]. by intros ? ? ?%elem_of_nil.
  - destruct (min_step_cases NodeId a0 s0 s a) as [(-> & Ha & Hs)|(-> & Ha)];
      [destruct (IH a s) as (Hr & Hle & Hmin)|destruct (IH a0 s0) as (Hr & Hle & Hmin)]; cbn zeta.
    + split; [right|split; [lia|]].
      * destruct Hr as [Hr|(? & ? & ?)]; [rewrite Hr; split; [left|done]|split_and!; [by right|done|lia]].
      * intros s' a' [[= -> ->]|Hin]%elem_of_cons Hs'; [done|by eapply Hmin].
    + split; [|split; [done|]].
      * destruct Hr as [Hr|(? & ? & ?)]; [by left|right; split_and!; [by right|done|done]].
      * intros s' a' [[= -> ->]|Hin]%elem_of_cons Hs'; [|by eapply Hmin].
        destruct Ha as [->|]; [done|lia].
Qed.

Lemma min_server_spec NodeId entries :
  (exists s a, (s, a) ∈ entries /\ s <> NodeId /\ a < MaxInt64) ->
  exists a, (min_server NodeId entries, a) ∈ entries /\ min_server NodeId entries <> NodeId /\
    forall s' a', (s', a') ∈ entries -> s' <> NodeId -> a <= a'.
Proof.
  intros (s & a & Hin & Hs & Ha). unfold min_server.
  destruct (min_fold_spec NodeId entries MaxInt64 0) as (Hr & _ & Hmin).
  pose proof (Hmin s a Hin Hs) as Hle.
  destruct Hr as [Hr|(H1 & H2 & _)]; [rewrite Hr in Hle; cbn in Hle; lia|]. eauto.
Qed.

Section Spread.
Context {mo : MapOrder} (NodeId : Z).

Lemma elem_of_map_order j m s a : (s, a) ∈ map_order j m <-> m !! s = Some a.
Proof. by rewrite map_order_perm, elem_of_map_to_list. Qed.

(** Another server than this one, with a counter that can still be the least. *)
Definition has_worker (m : gmap Z Z) : Prop :=
  exists s a, m !! s = Some a /\ s <> NodeId /\ a < MaxInt64.

Lemma getNextServer_spec j m :
  has_worker m ->
  exists a, m !! getNextServerToQueue NodeId j m = Some a /\ getNextServerToQueue NodeId j m <> NodeId /\
    forall s' a', m !! s' = Some a' -> s' <> NodeId -> a <= a'.
Proof.
  intros (s & a & Hm & Hs & Ha). unfold getNextServerToQueue.
  destruct (min_server_spec NodeId (map_order j m)) as (a0 & H1 & H2 & H3).
  { exists s, a. split; [|done]. by apply elem_of_map_order. }
  exists a0. apply elem_of_map_order in H1. split_and!; [done..|].
  intros s' a' Hm'. apply H3. by apply elem_of_map_order.
Qed.

(** Whatever order the map is visited in, the next server is one of the
    cluster, never the node itself, and no other worker has a lower count. *)
Theorem getNextServerToQueue_least j m :
  has_worker m ->
  exists a, m !! getNextServerToQueue NodeId j m = Some a /\
    getNextServerToQueue NodeId j m <> NodeId /\
    forall s' a', m !! s' = Some a' -> s' <> NodeId -> a <= a'.
Proof. apply getNextServer_spec. Qed.

(** A log of this version for a worker of [m]. *)
Definition log_for (m : gmap Z Z) (version : Z) (l : JobQueueLog) : Prop :=
  q_NodeId l ∈ dom m /\ q_NodeId l <> NodeId /\ q_Version l = version.

Definition log_ids (l : JobQueueLog) : list Z :=
  zseq (q_LowerBoundJobId l) (Z.to_nat (q_UpperBoundJobId l - q_LowerBoundJobId l + 1)).

Definition counters_below (b : Z) (m : gmap Z Z) : Prop := map_Forall (fun _ a => 0 <= a <= b) m.

Lemma counters_worker m b :
  counters_below b m -> b < MaxInt64 -> (exists s, s ∈ dom m /\ s <> NodeId) -> has_worker m.
Proof.
  intros Hb Hlt (s & [a Ha]%elem_of_dom & Hs). exists s, a. split_and!; [done..|].
  specialize (Hb s a Ha). simpl in Hb. lia.
Qed.

Lemma queue_loop_spec version ranges j m logs b lo hi :
  Forall (range_in lo hi) ranges -> 0 <= lo ->
  counters_below b m -> b + Z.of_nat (length (concat (expand <$> ranges))) < MaxInt64 ->
  0 <= b -> (exists s, s ∈ dom m /\ s <> NodeId) ->
  exists logs' m', queue_loop NodeId version j m ranges logs = Some (logs ++ logs', m') /\
    concat (log_ids <$> logs') = concat (expand <$> ranges) /\
    length logs' = length ranges /\ dom m' = dom m /\
    counters_below (b + Z.of_nat (length (concat (expand <$> ranges)))) m' /\
    Forall (log_for m version) logs' /\
    Forall (fun l => lo <= q_LowerBoundJobId l <= q_UpperBoundJobId l /\ q_UpperBoundJobId l <= hi) logs'.
Proof.
  intros HF Hlo. revert j m logs b.
  induction HF as [|r ranges (x & y & -> & Hx & Hy) _ IH]; intros j m logs b Hb Hsum Hb0 Hs.
  { exists [], m. rewrite app_nil_r, Z.add_0_r. by split_and!. }
  cbn [queue_loop]. set (server := getNextServerToQueue NodeId j m).
  rewrite fmap_cons in Hsum. cbn [concat expand] in Hsum. rewrite length_app, length_zseq in Hsum.
  destruct (getNextServer_spec j m) as (a & Ha & Hne & _);
    [apply (counters_worker m b); [done|lia|done]|]. fold server in Ha, Hne.
  pose proof (Hb server a Ha) as Hab. cbn in Hab. rewrite Ha. cbn [default from_option id].
  rewrite (u64_small (y - x)), u64_small by go_lia.
  assert (Hdom : dom (<[server:=a + (y - x)]> m) = dom m).
  { rewrite dom_insert_L. apply elem_of_dom_2 in Ha. set_solver. }
  edestruct (IH (S j) (<[server := a + (y - x)]> m)
    (logs ++ [mkJobQueueLog 0 server x y version time_zero]) (b + (y - x)))
    as (logs' & m' & Hl & Hc & Hlen & Hd & Hcb & HF1 & HF2);
    [|lia|lia|by rewrite Hdom|].
  { intros s c. rewrite lookup_insert. case_decide; intros; simplify_eq; [lia|].
    specialize (Hb s c ltac:(done)). simpl in Hb. lia. }
  eexists (_ :: logs'), m'. rewrite Hl, <- app_assoc. split; [done|].
  rewrite !fmap_cons. cbn [concat log_ids expand q_LowerBoundJobId q_UpperBoundJobId length].
  split_and!; [by rewrite Hc|by rewrite Hlen|by rewrite Hd, Hdom| | |].
  - intros s c Hs'. specialize (Hcb s c Hs'). cbn beta in Hcb. rewrite length_app, length_zseq. lia.
  - constructor; [split; [by apply elem_of_dom_2 in Ha|done]|].
    eapply Forall_impl; [exact HF1|]. unfold log_for. by rewrite Hdom.
  - constructor; [cbn; lia|done].
Qed.

End Spread.

(** ** Least and greatest id *)

Lemma min_max_ids_spec jobs lo hi :
  Forall (fun job => 0 <= ID job <= MaxInt64) jobs ->
  let '(lo', hi') := min_max_ids jobs lo hi in
  lo' <= lo /\ hi <= hi' /\
  Forall (fun job => lo' <= ID job <= hi') jobs /\
  (lo' = lo \/ lo' ∈ ID <$> jobs) /\ (hi' = hi \/ hi' ∈ ID <$> jobs).
Proof.
  unfold min_max_ids. intros HF. revert lo hi.
  induction HF as [|job jobs Hj _ IH]; intros lo hi; cbn [foldl]; [by split_and!; auto; lia|].
  rewrite i64_small by go_lia.
  specialize (IH (if ID job <? lo then ID job else lo) (if hi <? ID job then ID job else hi)).
  destruct (foldl _ _ jobs) as [lo' hi']. destruct IH as (H1 & H2 & H3 & H4 & H5).
  rewrite fmap_cons. revert H1 H2 H4 H5.
  destruct (Z.ltb_spec (ID job) lo), (Z.ltb_spec hi (ID job)); intros;
    (split_and!; [lia|lia|constructor; [lia|done]| |]); set_solver.
Qed.

Lemma min_max_ids_fresh jobs lo hi :
  jobs <> [] -> Forall (fun job => 0 <= ID job <= max_exact_id) jobs ->
  lo = MaxInt64 -> hi < 0 ->
  let '(lo', hi') := min_max_ids jobs lo hi in
  lo' ∈ ID <$> jobs /\ hi' ∈ ID <$> jobs /\ Forall (fun job => lo' <= ID job <= hi') jobs /\
  0 <= lo' <= hi' /\ hi' <= max_exact_id.
Proof.
  intros Hne HF -> Hhi. pose proof (min_max_ids_spec jobs MaxInt64 hi) as Hs.
  destruct (min_max_ids jobs MaxInt64 hi) as [lo' hi'].
  destruct Hs as (_ & _ & Hall & Hlo & Hh).
  { eapply Forall_impl; [exact HF|]. cbn. unfold max_exact_id. go_lia. }
  destruct jobs as [|job jobs]; [done|]. pose proof (Forall_inv Hall) as H1.
  pose proof (Forall_inv HF) as H2. unfold max_exact_id in *. cbn beta in H1, H2.
  assert (lo' ∈ ID <$> job :: jobs) as Hlo' by (destruct Hlo; [go_lia|done]).
  assert (hi' ∈ ID <$> job :: jobs) as Hhi' by (destruct Hh; [lia|done]).
  split_and!; try done; try lia.
  - apply list_elem_of_fmap in Hlo' as (k & -> & Hk). rewrite Forall_forall in HF. apply HF in Hk. lia.
  - apply list_elem_of_fmap in Hhi' as (k & -> & Hk). rewrite Forall_forall in HF. apply HF in Hk. lia.
Qed.

(** ** Properties *)

Section Props.
Context {W : Type} `{JobQueuesRepoLaws W} {mo : MapOrder} (NodeId : Z).

(** A service between two calls, on a node of a cluster with a worker;
    [b] bounds what any node was allocated. *)
Record queue_ready (b : Z) (q : jobQueue) : Prop := {
  qr_multi : singleNodeMode q = false;
  qr_min : minId q = MaxInt64;
  qr_max : maxId q < 0;
  qr_worker : exists s, s ∈ dom (allocations q) /\ s <> NodeId;
  qr_ids : set_Forall small (dom (allocations q));
  qr_counters : counters_below b (allocations q) }.

Lemma queue_ready_mono b b' q : queue_ready b q -> b <= b' -> queue_ready b' q.
Proof.
  intros [? ? ? ? ? Hc] Hb. split; try done. intros s a Hs. specialize (Hc s a Hs). cbn in Hc. lia.
Qed.

(** What one call writes: ranges that tile the interval of the ids. *)
Record queued (jobs : list Job) (m : gmap Z Z) (version lo hi : Z) (logs : list JobQueueLog) : Prop := {
  qd_lo : lo ∈ ID <$> jobs;
  qd_hi : hi ∈ ID <$> jobs;
  qd_all : Forall (fun job => lo <= ID job <= hi) jobs;
  qd_tile : concat (log_ids <$> logs) = zseq lo (Z.to_nat (hi - lo + 1));
  qd_logs : Forall (log_for NodeId m version) logs;
  qd_within : Forall (fun l => lo <= q_LowerBoundJobId l <= q_UpperBoundJobId l /\ q_UpperBoundJobId l <= hi) logs;
  qd_len : (length logs <= max 1 (size m - 1))%nat }.

Lemma Queue_spec (jobs : list Job) old b w q :
  jq_ready w -> jq_stores w old -> queue_ready b q -> 0 <= b <= 4611686018427387904 ->
  jobs <> [] -> Forall (fun job => 0 <= ID job <= max_exact_id) jobs ->
  exists w' q' logs lo hi,
    Queue NodeId jobs (w, q) = Some (tt, (w', q')) /\ jq_ready w' /\ jq_version w' = jq_version w /\
    jq_rest w w' /\ jq_stores w' (old ++ stamp (jq_clock w) (jq_next_id w) logs) /\
    queued jobs (allocations q) (jq_version w) lo hi logs /\
    queue_ready (b + (hi - lo + 1)) q' /\ dom (allocations q') = dom (allocations q).
Proof.
  intros Hr Hst [Hmul Hmin Hmax Hwk Hids Hcnt] Hb Hne HF.
  unfold Queue. destruct jobs as [|job jobs]; [done|]. go_step. cbn [snd].
  pose proof (min_max_ids_fresh (job :: jobs) (minId q) (maxId q) Hne HF Hmin Hmax) as Hmm.
  destruct (min_max_ids (job :: jobs) (minId q) (maxId q)) as [lo hi].
  destruct Hmm as (Hlo & Hhi & Hall & Hle & Hex). go_step.
  destruct (assignJobRange_tiles (allocations q) lo hi) as (ranges & Hrs & Htile & Hlen & Hin);
    [done|done| |].
  { destruct Hwk as (s & Hs & _). destruct (decide (size (allocations q) = O)) as [E|]; [|lia].
    apply map_size_empty_inv in E. rewrite E, dom_empty in Hs. by apply elem_of_empty in Hs. }
  assert (Hsum : b + Z.of_nat (length (concat (expand <$> ranges))) < MaxInt64).
  { rewrite Htile, length_zseq. unfold max_exact_id in Hex. go_lia. }
  destruct (queue_loop_spec NodeId (jq_version w) ranges 0 (allocations q) [] _ lo hi Hin
              ltac:(lia) Hcnt Hsum ltac:(lia) Hwk) as (logs & m' & Hq & Hc & Hl & Hd & Hcb & Hf & Hbd).
  destruct (jq_insert_law logs old w Hr Hst) as (w' & Hw' & Hr' & Hv' & Hrest & Hst').
  { intros ->. rewrite Htile in Hc. apply (f_equal length) in Hc. rewrite length_zseq in Hc.
    cbn in Hc. lia. }
  { apply Forall_forall. intros l Hl'. rewrite Forall_forall in Hbd, Hf.
    destruct (Hf l Hl') as (H1 & _ & Hv). destruct (Hbd l Hl') as (H2 & H3).
    unfold queue_log_small, max_exact_id in *. rewrite Hv.
    split_and!; [by apply Hids|unfold small; lia..|by apply jq_version_small]. }
  eexists w', _, logs, lo, hi. split.
  { unfold queue. rewrite !go_bind_assoc. erewrite go_bind_on_fst by (by apply jq_leader_law).
    cbn [negb]. go_step. cbn [snd with_minmax allocations singleNodeMode].
    rewrite Hrs. unfold lift_opt at 1. rewrite go_bind_eq. cbn. rewrite !go_bind_assoc.
    erewrite go_bind_on_fst by (by apply jq_version_law). rewrite Hmul.
    unfold lift_opt. rewrite Hq. rewrite !go_bind_assoc, go_bind_eq. cbn.
    go_step. erewrite go_bind_on_fst by exact Hw'. reflexivity. }
  rewrite Htile, length_zseq in Hcb.
  cbn. split_and!; try done.
  - split; try done; [congruence|by rewrite Hl].
  - split; cbn; try done; [by rewrite Hd|by rewrite Hd|].
    intros s a Hs. specialize (Hcb s a Hs). cbn beta in Hcb. lia.
Qed.

(** C10: [Queue] on the leader of a cluster writes logs whose ranges are, in
    order, a partition of the interval from the least to the greatest id of
    the jobs: no id is given to two nodes and none is left out.  Every range
    goes to a worker, never to the leader itself, under the current version,
    there are no more ranges than workers, and the service is back in a state
    where the next call starts afresh. *)
Theorem Queue_partitions (jobs : list Job) old b w q :
  jq_ready w -> jq_stores w old -> queue_ready b q -> 0 <= b <= 4611686018427387904 ->
  jobs <> [] -> Forall (fun job => 0 <= ID job <= max_exact_id) jobs ->
  exists w' q' logs lo hi,
    Queue NodeId jobs (w, q) = Some (tt, (w', q')) /\
    jq_stores w' (old ++ stamp (jq_clock w) (jq_next_id w) logs) /\
    (lo ∈ ID <$> jobs /\ hi ∈ ID <$> jobs /\ Forall (fun job => lo <= ID job <= hi) jobs) /\
    concat (log_ids <$> logs) = zseq lo (Z.to_nat (hi - lo + 1)) /\
    Forall (log_for NodeId (allocations q) (jq_version w)) logs /\
    (length logs <= max 1 (size (allocations q) - 1))%nat /\
    queue_ready (b + (hi - lo + 1)) q' /\ dom (allocations q') = dom (allocations q).
Proof.
  intros. destruct (Queue_spec jobs old b w q) as (w' & q' & logs & lo & hi & ? & _ & _ & _ & ? & [] & ? & ?);
    [done..|]. exists w', q', logs, lo, hi. by split_and!.
Qed.

(** A node alone in the cluster inserts one log, of the interval of the ids,
    for itself. *)
Lemma Queue_single_inserts (jobs : list Job) w q :
  jq_ready w -> singleNodeMode q = true ->
  minId q = MaxInt64 -> maxId q < 0 -> dom (allocations q) = {[ NodeId ]} ->
  jobs <> [] -> Forall (fun job => 0 <= ID job <= max_exact_id) jobs ->
  exists q' l,
    (forall w', jq_InsertJobQueueLogs [l] w = Some (tt, w') -> Queue NodeId jobs (w, q) = Some (tt, (w', q'))) /\
    q_NodeId l = NodeId /\ q_Version l = jq_version w /\
    q_LowerBoundJobId l ∈ ID <$> jobs /\ q_UpperBoundJobId l ∈ ID <$> jobs /\
    Forall (fun job => q_LowerBoundJobId l <= ID job <= q_UpperBoundJobId l) jobs /\
    0 <= q_LowerBoundJobId l <= q_UpperBoundJobId l /\ q_UpperBoundJobId l <= max_exact_id /\
    allocations q' = allocations q.
Proof.
  intros Hr Hsingle Hmin Hmax Hdom Hne HF.
  unfold Queue. destruct jobs as [|job jobs]; [done|].
  pose proof (min_max_ids_fresh (job :: jobs) (minId q) (maxId q) Hne HF Hmin Hmax) as Hmm.
  destruct (min_max_ids (job :: jobs) (minId q) (maxId q)) as [lo hi] eqn:Emm.
  destruct Hmm as (Hlo & Hhi & Hall & Hle & Hex).
  destruct (assignJobRange_tiles (allocations q) lo hi) as (ranges & Hrs & _);
    [done|done| |].
  { rewrite <- size_dom, Hdom, size_singleton. lia. }
  eexists _, (mkJobQueueLog 0 NodeId lo hi (jq_version w) time_zero). split.
  { intros w' Hw'. go_step. cbn [snd]. rewrite Emm. go_step.
    unfold queue. rewrite !go_bind_assoc. erewrite go_bind_on_fst by (by apply jq_leader_law).
    cbn [negb]. go_step. cbn [snd with_minmax allocations singleNodeMode].
    rewrite Hrs. unfold lift_opt at 1. rewrite go_bind_eq. cbn. rewrite !go_bind_assoc.
    erewrite go_bind_on_fst by (by apply jq_version_law). rewrite Hsingle.
    unfold max_exact_id in Hex. rewrite !u64_small by go_lia.
    erewrite go_bind_on_fst by exact Hw'. reflexivity. }
  cbn [q_NodeId q_Version q_LowerBoundJobId q_UpperBoundJobId]. split_and!; try done; lia.
Qed.

(** In single-node mode the node queues the whole interval to itself. *)
Theorem Queue_single_node (jobs : list Job) old w q :
  jq_ready w -> jq_stores w old -> singleNodeMode q = true ->
  minId q = MaxInt64 -> maxId q < 0 -> dom (allocations q) = {[ NodeId ]} -> small NodeId ->
  jobs <> [] -> Forall (fun job => 0 <= ID job <= max_exact_id) jobs ->
  exists w' q' l,
    Queue NodeId jobs (w, q) = Some (tt, (w', q')) /\
    jq_stores w' (old ++ stamp (jq_clock w) (jq_next_id w) [l]) /\
    q_NodeId l = NodeId /\ q_Version l = jq_version w /\
    q_LowerBoundJobId l ∈ ID <$> jobs /\ q_UpperBoundJobId l ∈ ID <$> jobs /\
    Forall (fun job => q_LowerBoundJobId l <= ID job <= q_UpperBoundJobId l) jobs /\
    allocations q' = allocations q.
Proof.
  intros Hr Hst Hsingle Hmin Hmax Hdom Hsm Hne HF.
  destruct (Queue_single_inserts jobs w q) as (q' & l & HQ & Hn & Hv & Hlo & Hhi & Hall & Hle & Hex & Hal);
    [done..|].
  destruct (jq_insert_law [l] old w Hr Hst) as (w' & Hw' & Hr' & _ & _ & Hst'); [done| |].
  { constructor; [|constructor]. pose proof (jq_version_small w Hr).
    unfold queue_log_small, max_exact_id in *. rewrite Hn, Hv. split_and!; try done; unfold small; lia. }
  exists w', q', l. split; [by apply HQ|]. by split_and!.
Qed.

End Props.

(** ** The repository discharges the interface *)

Section Implementation.
Context {codec : CommandCodec} (total : codec_total).

(** [VerifyLeader] of the raft store *)
Definition VerifyLeader : Go World bool :=
  gets (fun w => match w_raft w with RaftLeader => true | _ => false end).

#[local] Instance world_repo : JobQueuesRepo World := {|
  jq_VerifyLeader := VerifyLeader;
  jq_IncrementQueueVersion := IncrementQueueVersion;
  jq_GetLastVersion := GetLastVersion;
  jq_InsertJobQueueLogs := InsertJobQueueLogs |}.

Definition world_ready (w : World) : Prop :=
  quiet w /\ json_marshalable (VTime (t_ns (w_now w))) = true /\
  small (max_version (versions (w_db w))).

(** The other tables, the clock and the roles stay. *)
Definition world_rest (w w' : World) : Prop :=
  w_now w' = w_now w /\ w_channel w' = w_channel w /\
  forall t, t <> JobQueuesTableName -> t <> JobQueuesVersionTableName ->
    db_table (w_db w') t = db_table (w_db w) t.

#[global] Instance world_rest_preorder : PreOrder world_rest.
Proof.
  split; [by intros w|]. intros a b c (? & ? & H1) (? & ? & H2). split_and!; [congruence..|].
  intros t ? ?. by rewrite H2, H1.
Qed.

Lemma world_insert_law logs old w :
  world_ready w -> queue_abs (w_db w) old -> logs <> [] -> Forall queue_log_small logs ->
  exists w', InsertJobQueueLogs logs w = Some (tt, w') /\ world_ready w' /\
    max_version (versions (w_db w')) = max_version (versions (w_db w)) /\ world_rest w w' /\
    queue_abs (w_db w') (old ++ stamp (w_now w) (t_seq (db_table (w_db w) JobQueuesTableName)) logs).
Proof using total.
  intros (Hq & Hn & Hv) Ha Hne Hs. rewrite InsertJobQueueLogs_quiet by done. eexists.
  assert (Hver : versions (db_append JobQueuesTableName job_queues_td job_queue_insert_cols
                    (job_queue_params (w_now w) <$> logs) (w_db w)) = versions (w_db w)).
  { unfold versions, db_rows. by rewrite db_append_other. }
  split; [reflexivity|]. cbn [w_db with_post with_db]. rewrite Hver. split_and!; [|done| |].
  - split; [by auto with go|]. split; [done|]. cbn [w_db with_post with_db]. by rewrite Hver.
  - split_and!; [done..|]. intros t Ht _. cbn [w_db with_post with_db]. by rewrite db_append_other.
  - cbn [w_db with_post with_db]. by apply queue_abs_append.
Qed.

Lemma world_increment_law n old w :
  world_ready w -> queue_abs (w_db w) old -> small n ->
  max_version (versions (w_db w)) < 9007199254740992 ->
  exists w', IncrementQueueVersion n w = Some (tt, w') /\ world_ready w' /\
    max_version (versions (w_db w')) = max_version (versions (w_db w)) + 1 /\ world_rest w w' /\
    queue_abs (w_db w') old.
Proof using total.
  intros (Hq & Hn & Hv) (Hr & Hwf & Hs) Hsm Hlt. unfold small in Hv.
  destruct (IncrementQueueVersion_quiet n w Hq total Hsm ltac:(lia)) as (p & _ & Hi).
  eexists. split; [exact Hi|]. cbn [w_db with_post with_db].
  rewrite max_version_append by lia. split_and!.
  - split; [by auto with go|]. split; [done|]. cbn [w_db with_post with_db].
    rewrite max_version_append by lia. unfold small. lia.
  - done.
  - split_and!; [done..|]. intros t _ Ht. cbn [w_db with_post with_db]. by rewrite db_append_other.
  - unfold queue_abs, db_rows in *. by rewrite db_append_other.
Qed.

#[local] Program Instance world_repo_laws : JobQueuesRepoLaws World := {|
  jq_ready := world_ready;
  jq_version w := max_version (versions (w_db w));
  jq_clock := w_now;
  jq_next_id w := t_seq (db_table (w_db w) JobQueuesTableName);
  jq_stores w logs := queue_abs (w_db w) logs;
  jq_rest := world_rest |}.
Next Obligation. intros w ((? & H) & _). cbn. unfold VerifyLeader, gets. by rewrite H. Qed.
Next Obligation.
  intros w (Hq & _ & Hs). apply getLastVersion_healthy; [by auto with go|]. unfold small in Hs. lia.
Qed.
Next Obligation. by intros w (_ & _ & ?). Qed.
Next Obligation. intros logs old w. apply world_insert_law. Qed.
Next Obligation. intros n old w. apply world_increment_law. Qed.

End Implementation.

(** ** Concrete runs *)

#[global] Program Instance natural_order : MapOrder := {| map_order _ m := map_to_list m |}.
Next Obligation. done. Qed.

Definition cluster : jobQueue := AddServers [1; 2; 3] NewJobQueue.
Definition job_of (id : Z) : Job := set_ID id job_zero.

Lemma sample_world_ready : world_ready sample_world.
Proof. split; [by split|]. split; [reflexivity|]. vm_compute. split; discriminate. Qed.

Lemma cluster_ready : queue_ready 1 0 cluster.
Proof.
  split; try reflexivity.
  - exists 2. split; [|discriminate]. apply elem_of_dom. by exists 0.
  - assert (dom (allocations cluster) = {[1; 2; 3]}) as -> by (vm_compute; reflexivity).
    intros x Hx. assert (x = 1 \/ x = 2 \/ x = 3) as Hx' by set_solver. unfold small. lia.
  - intros s a Hs. assert (a = 0) as ->; [|lia]. revert Hs. unfold cluster, AddServers. cbn.
    rewrite !lookup_insert. by repeat case_decide; intros [= <-] || done.
Qed.

Lemma getNextServerToQueue_least_witness :
  exists a, ({[1 := 0; 2 := 5; 3 := 4]} : gmap Z Z) !! getNextServerToQueue 1 0 {[1 := 0; 2 := 5; 3 := 4]}
            = Some a /\
    getNextServerToQueue 1 0 {[1 := 0; 2 := 5; 3 := 4]} <> 1 /\
    forall s' a', ({[1 := 0; 2 := 5; 3 := 4]} : gmap Z Z) !! s' = Some a' -> s' <> 1 -> a <= a'.
Proof.
  apply (getNextServerToQueue_least 1 0 {[1 := 0; 2 := 5; 3 := 4]}).
  exists 2, 5. split_and!; [reflexivity|discriminate|vm_compute; reflexivity].
Defined.

Lemma Queue_partitions_witness :
  exists w' q' logs lo hi,
    @Queue World (@world_repo plain_codec) _ 1 (job_of <$> [7; 4; 9]) (sample_world, cluster)
      = Some (tt, (w', q')) /\
    queue_abs (w_db w') (stamp sample_now 0 logs) /\
    (lo ∈ ID <$> (job_of <$> [7; 4; 9]) /\ hi ∈ ID <$> (job_of <$> [7; 4; 9]) /\
     Forall (fun job => lo <= ID job <= hi) (job_of <$> [7; 4; 9])) /\
    concat (log_ids <$> logs) = zseq lo (Z.to_nat (hi - lo + 1)) /\
    Forall (log_for 1 (allocations cluster) 0) logs /\
    (length logs <= max 1 (size (allocations cluster) - 1))%nat /\
    queue_ready 1 (0 + (hi - lo + 1)) q' /\ dom (allocations q') = dom (allocations cluster).
Proof.
  apply (@Queue_partitions World (@world_repo plain_codec)
           (@world_repo_laws plain_codec plain_codec_total) _ 1 (job_of <$> [7; 4; 9]) [] 0
           sample_world cluster).
  - apply sample_world_ready.
  - apply queue_abs_empty.
  - apply cluster_ready.
  - vm_compute. split; discriminate.
  - discriminate.
  - repeat constructor; vm_compute; discriminate.
Defined.

Definition single : jobQueue := SetSingleNodeMode true (AddServers [1] NewJobQueue).

Lemma Queue_single_node_witness :
  exists w' q' l,
    @Queue World (@world_repo plain_codec) _ 1 (job_of <$> [7; 4; 9]) (sample_world, single)
      = Some (tt, (w', q')) /\
    queue_abs (w_db w') (stamp sample_now 0 [l]) /\
    q_NodeId l = 1 /\ q_Version l = 0 /\
    q_LowerBoundJobId l ∈ ID <$> (job_of <$> [7; 4; 9]) /\
    q_UpperBoundJobId l ∈ ID <$> (job_of <$> [7; 4; 9]) /\
    Forall (fun job => q_LowerBoundJobId l <= ID job <= q_UpperBoundJobId l) (job_of <$> [7; 4; 9]) /\
    allocations q' = allocations single.
Proof.
  apply (@Queue_single_node World (@world_repo plain_codec)
           (@world_repo_laws plain_codec plain_codec_total) _ 1 (job_of <$> [7; 4; 9]) []
           sample_world single).
  - apply sample_world_ready.
  - apply queue_abs_empty.
  - reflexivity.
  - reflexivity.
  - reflexivity.
  - vm_compute. reflexivity.
  - vm_compute. split; discriminate.
  - discriminate.
  - repeat constructor; vm_compute; discriminate.
Defined.
