(* ===== verification/JobRepo.v ===== *)
(** * The job repository: pkg/repository/job/job.go

    Jobs live in a replicated table.  Reads go to the local database, writes
    to the raft log. *)

From stdpp Require Import base list gmap strings pretty.
From Stdlib Require Import ZArith Lia.
From S2P Require Import Prelude Models Batcher Sql Fsm Replication Inserts.

#[local] Open Scope Z_scope.

Definition JobsTableName : string := "jobs".

Definition internal_error (e : string) : GenericError := HTTPGenericError StatusInternalServerError e.

Definition job_select : list string :=
  ["id"; "project_id"; "spec"; "callback_url"; "execution_type"; "date_created"; "timezone";
   "timezone_offset"; "data"].

(** [rows.Scan] into the fields of [job]. *)
Definition scan_job (job : Job) (vs : list value) : option Job :=
  match vs with
  | [id; pid; spec; url; ty; created; tz; off; data] =>
      id ← scan_uint64 id; pid ← scan_uint64 pid; spec ← scan_string spec; url ← scan_string url;
      ty ← scan_string ty; created ← scan_time created; tz ← scan_string tz;
      off ← scan_int64 off; data ← scan_string data;
      Some (mkJob id pid spec url data ty (StartDate job) (EndDate job) (LastExecutionDate job)
              tz off (ExecutionId job) created)
  | _ => None
  end.

Definition select_jobs (c : cond) (db : Db) : list row := sql_select c (db_rows db JobsTableName).
Definition job_rows (c : cond) (db : Db) : list (list value) := project_cols job_select <$> select_jobs c db.

Section JobRepo.
Context {codec : CommandCodec}.

(** The scans fill the caller's job, one row after the other. *)
Definition GetOneByID (jobModel : Job) : Go World (result GenericError Job) :=
  q ← db_query [VInt (ID jobModel)] (job_rows (CEq "id" (VInt (ID jobModel)))) (scan_job jobModel);
  match q with
  | QQueryErr e | QScanErr e => mret (Err (internal_error e))
  | QRowsErr _ _ => crash
  | QRows l =>
      match last l with
      | None => mret (Err (HTTPGenericError StatusNotFound "job cannot be found"))
      | Some job => mret (Ok job)
      end
  end.

Definition BatchGetJobsByID (jobIDs : list Z) : Go World (result GenericError (list Job)) :=
  r ← go_for_ret (fun jobs batch =>
         let ids := VInt <$> batch in
         q ← db_query ids (job_rows (CIn "id" ids)) (scan_job job_zero);
         match q with
         | QQueryErr e | QScanErr e | QRowsErr _ e => mret (inr (internal_error e))
         | QRows l => mret (inl (jobs ++ l))
         end)
       (Batch jobIDs 1) [];
  match r with
  | inl jobs => mret (Ok jobs)
  | inr e => mret (Err e)
  end.

Definition BatchGetJobsWithIDRange (lowerBound upperBound : Z)
    : Go World (result GenericError (list Job)) :=
  q ← db_query [VInt lowerBound; VInt upperBound]
        (job_rows (CBetween "id" lowerBound upperBound)) (scan_job job_zero);
  match q with
  | QQueryErr e | QScanErr e | QRowsErr _ e => mret (Err (internal_error e))
  | QRows l => mret (Ok l)
  end.

Definition GetAllByProjectID (projectID offset limit : Z) (orderBy : string)
    : Go World (result GenericError (list Job)) :=
  q ← db_query [VInt projectID]
        (fun db => project_cols job_select <$>
           page offset limit (order_asc orderBy (select_jobs (CEq "project_id" (VInt projectID)) db)))
        (scan_job job_zero);
  match q with
  | QQueryErr e | QScanErr e => mret (Err (internal_error e))
  | QRowsErr _ _ => crash
  | QRows l => mret (Ok l)
  end.

(** The answer of a raft write whose own error is not looked at. *)
Definition rows_or_unavailable (r : result GenericError (option FSMResponse))
    : result GenericError Z :=
  match r with
  | Ok (Some res) => Ok (u64 (RowsAffected (f_Data res)))
  | _ => Err (HTTPGenericError StatusServiceUnavailable "service is unavailable")
  end.

Definition job_update_sets : list string :=
  ["callback_url"; "execution_type"; "timezone"; "timezone_offset"; "data"].

Definition UpdateOneByID (jobModel : Job) : Go World (result GenericError Z) :=
  p ← GetOneByID (set_ID (ID jobModel) job_zero);
  match p with
  | Err e => mret (Err e)
  | Ok jobPlaceholder =>
      if negb (String.eqb (Spec jobPlaceholder) (Spec jobModel)) && negb (String.eqb (Spec jobModel) "")
      then mret (Err (HTTPGenericError StatusBadRequest "cannot update cron spec"))
      else
        r ← WriteCommandToRaftLog CommandTypeDbExecute (Update JobsTableName job_update_sets "id")
              [VText (CallbackUrl jobModel); VText (ExecutionType jobModel); VText (Timezone jobModel);
               VInt (TimezoneOffset jobModel); VText (Data jobModel); VInt (ID jobModel)] [] 0;
        mret (rows_or_unavailable r)
  end.

Definition DeleteOneByID (jobModel : Job) : Go World (result GenericError Z) :=
  r ← WriteCommandToRaftLog CommandTypeDbExecute (Delete JobsTableName "id")
        [VInt (ID jobModel)] [] 0;
  mret (rows_or_unavailable r).

(** [select count( * )]: one row with the number. *)
Definition count_rows (rows : Db -> list row) (db : Db) : list (list value) :=
  [[VInt (Z.of_nat (length (rows db)))]].
Definition scan_count (vs : list value) : option Z :=
  match vs with [v] => scan_int64 v | _ => None end.

Definition GetJobsTotalCount : Go World (result GenericError Z) :=
  q ← db_query [] (count_rows (select_jobs CTrue)) scan_count;
  match q with
  | QQueryErr e | QScanErr e => mret (Err (HTTPGenericError 500 e))
  | QRowsErr l _ | QRows l => mret (Ok (u64 (default 0 (last l))))
  end.

Definition GetJobsTotalCountByProjectID (projectID : Z) : Go World (result GenericError Z) :=
  q ← db_query [VInt projectID] (count_rows (select_jobs (CEq "project_id" (VInt projectID)))) scan_count;
  match q with
  | QQueryErr e | QScanErr e | QRowsErr _ e => mret (Err (internal_error e))
  | QRows l => mret (Ok (u64 (default 0 (last l))))
  end.

(** The jobs, the count beside them, and the error. *)
Definition GetJobsPaginated (projectID offset limit : Z)
    : Go World (list Job * Z * option GenericError) :=
  t ← GetJobsTotalCountByProjectID projectID;
  match t with
  | Err e => mret ([], 0, Some e)
  | Ok total =>
      r ← GetAllByProjectID projectID offset limit "date_created";
      match r with
      | Err e => mret ([], total, Some e)
      | Ok jobs => mret (jobs, Z.of_nat (length jobs), None)
      end
  end.

Definition job_insert_cols : list string :=
  ["project_id"; "spec"; "callback_url"; "execution_type"; "date_created"; "timezone";
   "timezone_offset"; "data"].

Definition job_params (now : Time) (job : Job) : list value :=
  [VInt (ProjectID job); VText (Spec job); VText (CallbackUrl job); VText (ExecutionType job);
   VTime (t_ns now); VText (Timezone job); VInt (TimezoneOffset job); VText (Data job)].

Definition BatchInsertJobs (jobs : list Job) : Go World (result GenericError (list Z)) :=
  now ← gets w_now;
  r ← go_for_ret (fun returningIds batch =>
         r ← WriteCommandToRaftLog CommandTypeDbExecute
               (Insert JobsTableName job_insert_cols (length batch))
               (concat (job_params now <$> batch)) [] 0;
         match r with
         | Err applyErr => mret (inr applyErr)
         | Ok None => crash
         | Ok (Some res) =>
             let lastInsertedId := u64 (RowsAffected (f_Data res)) in
             ids ← lift_opt (ExpandIdsRange (u64 (lastInsertedId - Z.of_nat (length batch) + 1))
                               lastInsertedId);
             mret (inl (returningIds ++ ids))
         end)
       (Batch jobs 8) [];
  match r with
  | inl returningIds => mret (Ok returningIds)
  | inr e => mret (Err e)
  end.

End JobRepo.
