(* ===== verification/JobFacts.v ===== *)
(** * What the job repository promises

    The jobs table as a list of jobs ([jobs_abs]); jobs inserted through the
    raft log are read back by id range, by project and by page, and deleting
    one takes its executions along. *)

From stdpp Require Import base list gmap strings pretty sorting.
From Stdlib Require Import ZArith Lia.
From S2P Require Import Prelude Models Batcher Sql Fsm Replication Inserts Reads JobQueueRepo.
From S2P Require Import JobRepo.

#[local] Open Scope Z_scope.

(** ** The table as a list of jobs *)

Definition job_row (j : Job) : row :=
  [("id", VInt (ID j)); ("project_id", VInt (ProjectID j)); ("spec", VText (Spec j));
   ("data", VText (Data j)); ("callback_url", VText (CallbackUrl j));
   ("execution_type", VText (ExecutionType j)); ("date_created", VTime (t_ns (DateCreated j)));
   ("timezone", VText (Timezone j)); ("timezone_offset", VInt (TimezoneOffset j))].

(** A job as it is stored: what has no column has its zero value. *)
Definition stored_job (now : Time) (id : Z) (j : Job) : Job :=
  mkJob id (ProjectID j) (Spec j) (CallbackUrl j) (Data j) (ExecutionType j) time_zero time_zero
    time_zero (Timezone j) (TimezoneOffset j) "" (mkTime (t_ns now) "UTC").

Definition job_wf (j : Job) : Prop :=
  j = stored_job (DateCreated j) (ID j) j /\ 0 <= ID j < MaxInt64 /\ 0 <= ProjectID j <= MaxInt64.

Definition jobs_abs (db : Db) (jobs : list Job) : Prop :=
  db_rows db JobsTableName = job_row <$> jobs /\ Forall job_wf jobs.

Lemma scan_job_row j : job_wf j -> scan_job job_zero (project_cols job_select (job_row j)) = Some j.
Proof.
  intros (Hj & ? & ?). cbn. unfold scan_uint64.
  repeat (rewrite (proj2 (Z.leb_le _ _)) by lia; cbn). f_equal. rewrite Hj at 9. done.
Qed.

Lemma select_jobs_abs c p db jobs :
  jobs_abs db jobs -> (forall j, holds c (job_row j) = p j) ->
  select_jobs c db = job_row <$> List.filter p jobs.
Proof. intros [Hr _] Hp. unfold select_jobs. rewrite Hr. by apply sql_select_enc. Qed.

(** A list of stored jobs scans to itself. *)
Lemma scan_jobs jobs :
  Forall job_wf jobs -> mapM (scan_job job_zero) (project_cols job_select <$> (job_row <$> jobs)) = Some jobs.
Proof.
  induction 1 as [|j jobs Hj _ IH]; [done|]. rewrite !fmap_cons. cbn [mapM].
  rewrite scan_job_row by done. cbn. by rewrite IH.
Qed.

Definition between (lo hi : Z) (j : Job) : bool := (lo <=? ID j) && (ID j <=? hi).

Lemma BatchGetJobsWithIDRange_abs lo hi jobs w :
  healthy w -> jobs_abs (w_db w) jobs -> lo <= MaxInt64 -> hi <= MaxInt64 ->
  BatchGetJobsWithIDRange lo hi w = Some (Ok (List.filter (between lo hi) jobs), w).
Proof.
  intros Hw Ha Hlo Hhi. unfold BatchGetJobsWithIDRange.
  erewrite db_query_then; [done|done| |].
  - apply query_refused_ok; [done|]. cbn [forallb]. by rewrite !bindable_int.
  - unfold job_rows. erewrite select_jobs_abs by done. apply scan_jobs, Forall_filter, Ha.
Qed.

(** ** Inserting *)

Fixpoint number_jobs (now : Time) (seq : Z) (jobs : list Job) : list Job :=
  match jobs with
  | [] => []
  | j :: js => stored_job now (seq + 1) j :: number_jobs now (seq + 1) js
  end.

Definition jobs_td : tabdef := default (Tab "" [] None) (find_tabdef JobsTableName).

Lemma tuple_rows_jobs now seq jobs :
  tuple_rows jobs_td job_insert_cols seq (job_params now <$> jobs) = job_row <$> number_jobs now seq jobs.
Proof.
  revert seq. induction jobs as [|j js IH]; intros seq; [done|].
  rewrite fmap_cons. cbn [tuple_rows number_jobs]. by rewrite fmap_cons, IH.
Qed.

Lemma number_jobs_wf now seq jobs :
  0 <= seq -> seq + Z.of_nat (length jobs) < MaxInt64 ->
  Forall (fun j => 0 <= ProjectID j <= MaxInt64) jobs -> Forall job_wf (number_jobs now seq jobs).
Proof.
  intros Hs Hm H. revert seq Hs Hm. induction H as [|j js Hj _ IH]; intros seq Hs Hm; [constructor|].
  cbn [number_jobs length] in *. constructor; [|apply IH; lia]. split_and!; cbn; (done || lia).
Qed.

Lemma number_jobs_ids now seq jobs : ID <$> number_jobs now seq jobs = zseq (seq + 1) (length jobs).
Proof.
  revert seq. induction jobs as [|j js IH]; intros seq; [done|].
  cbn [number_jobs length zseq]. by rewrite fmap_cons, IH.
Qed.

Lemma number_jobs_elem now seq jobs x :
  x ∈ number_jobs now seq jobs -> seq < ID x <= seq + Z.of_nat (length jobs).
Proof.
  intros Hx. assert (ID x ∈ zseq (seq + 1) (length jobs)) as H%elem_of_zseq; [|lia].
  rewrite <- (number_jobs_ids now). by apply list_elem_of_fmap_2.
Qed.

Section Facts.
Context {codec : CommandCodec}.

(** A job the repository accepts: its project exists, its numbers and the
    time survive the raft log. *)
Definition creatable (db : Db) (now : Time) (j : Job) : bool :=
  acceptable db jobs_td job_insert_cols (job_params now j).

Lemma BatchInsertJobs_batch now acc b w :
  quiet w -> codec_total -> insertable_batch jobs_td job_insert_cols (job_params now) (w_db w) b ->
  (r ← WriteCommandToRaftLog CommandTypeDbExecute (Insert JobsTableName job_insert_cols (length b))
         (concat (job_params now <$> b)) [] 0;
   match r with
   | Err applyErr => mret (inr applyErr)
   | Ok None => crash
   | Ok (Some res) =>
       let lastInsertedId := u64 (RowsAffected (f_Data res)) in
       ids ← lift_opt (ExpandIdsRange (u64 (lastInsertedId - Z.of_nat (length b) + 1)) lastInsertedId);
       mret (inl (acc ++ ids))
   end) w =
  Some (@inl _ GenericError (acc ++ zseq 1 (length b)),
        inserted JobsTableName jobs_td job_insert_cols (job_params now) (fun _ => []) 0 b w).
Proof.
  intros Hq Hc Hb. erewrite go_bind_Some by (by apply (raft_insert_one JobsTableName jobs_td job_insert_cols
    (job_params now) (fun _ => []) 0)).
  cbn [insert_answer f_Data RowsAffected]. destruct Hb as (_ & Hlen & _).
  unfold DBMaxVariableSize in Hlen. cbn [length job_insert_cols] in Hlen.
  cbn zeta. rewrite (u64_small (Z.of_nat (length b))) by go_lia.
  replace (Z.of_nat (length b) - Z.of_nat (length b) + 1) with 1 by lia. rewrite (u64_small 1) by go_lia.
  rewrite ExpandIdsRange_eq by go_lia. cbn.
  by replace (Z.to_nat (Z.of_nat (length b) - 1 + 1)) with (length b) by lia.
Qed.

Lemma collect_const {A} t td cols (params : A -> list value) nodes action (g : list A -> list Z) bs w :
  collect t td cols params nodes action (fun b _ => g b) bs w = concat (g <$> bs).
Proof.
  revert w. induction bs as [|b bs IH]; intros w; [done|]. cbn [collect]. by rewrite fmap_cons, IH.
Qed.

Lemma BatchInsertJobs_quiet jobs old w :
  quiet w -> codec_total -> jobs <> [] -> jobs_abs (w_db w) old ->
  forallb (creatable (w_db w) (w_now w)) jobs = true ->
  Forall (fun j => 0 <= ProjectID j <= MaxInt64) jobs ->
  let seq := t_seq (db_table (w_db w) JobsTableName) in
  0 <= seq -> seq + Z.of_nat (length jobs) < MaxInt64 ->
  exists w', BatchInsertJobs jobs w = Some (Ok (concat ((fun b => zseq 1 (length b)) <$> Batch jobs 8)), w') /\
    quiet w' /\ w_now w' = w_now w /\
    jobs_abs (w_db w') (old ++ number_jobs (w_now w) seq jobs) /\
    forall t, t <> JobsTableName -> db_table (w_db w') t = db_table (w_db w) t.
Proof.
  intros Hq Hc Hne [Hr Hwf] Hacc Hp seq Hs Hm. unfold BatchInsertJobs. rewrite go_bind_gets.
  assert (Hacc' : forallb (acceptable (w_db w) jobs_td job_insert_cols) (job_params (w_now w) <$> jobs) = true).
  { rewrite forallb_forall in Hacc |- *. intros v. rewrite in_map_iff. intros (x & <- & Hx). by apply Hacc. }
  destruct (raft_insert_collect JobsTableName jobs_td job_insert_cols (job_params (w_now w)) (fun _ => []) 0
              eq_refl eq_refl (fun b _ => zseq 1 (length b))
              (fun returningIds batch =>
                 r ← WriteCommandToRaftLog CommandTypeDbExecute
                       (Insert JobsTableName job_insert_cols (length batch))
                       (concat (job_params (w_now w) <$> batch)) [] 0;
                 match r with
                 | Err applyErr => mret (inr applyErr)
                 | Ok None => crash
                 | Ok (Some res) =>
                     let lastInsertedId := u64 (RowsAffected (f_Data res)) in
                     ids ← lift_opt (ExpandIdsRange (u64 (lastInsertedId - Z.of_nat (length batch) + 1))
                                       lastInsertedId);
                     mret (inl (returningIds ++ ids))
                 end) (Batch jobs 8) [] w Hq) as (w' & Hl & Hq' & Hdb & Hnow).
  { intros. by apply BatchInsertJobs_batch. }
  { by apply Batch_insertable_batches. }
  exists w'. erewrite go_bind_Some by exact Hl. rewrite collect_const.
  rewrite db_append_batches_concat, Batch_concat in Hdb by (by apply Batch_ne_nil).
  split_and!; [done|done|done| |].
  - rewrite Hdb. split.
    + unfold db_rows in *. rewrite db_append_table. cbn [t_rows].
      by rewrite tuple_rows_jobs, Hr, fmap_app.
    + apply Forall_app_2; [done|]. by apply number_jobs_wf.
  - intros t Ht. rewrite Hdb. by apply db_append_other.
Qed.

(** Jobs created on the leader are stored whole, in order and under the
    ids after the last one, and a read of that id range gives exactly them.
    The ids the call answers are others: each batch counts from 1, because
    the number of rows is taken for the last id. *)
Theorem BatchInsertJobs_GetRange jobs old w :
  quiet w -> codec_total -> jobs <> [] -> jobs_abs (w_db w) old ->
  forallb (creatable (w_db w) (w_now w)) jobs = true ->
  Forall (fun j => 0 <= ProjectID j <= MaxInt64) jobs ->
  let seq := t_seq (db_table (w_db w) JobsTableName) in
  0 <= seq -> seq + Z.of_nat (length jobs) < MaxInt64 -> Forall (fun j => ID j <= seq) old ->
  exists w' ids,
    BatchInsertJobs jobs w = Some (Ok ids, w') /\
    BatchGetJobsWithIDRange (seq + 1) (seq + Z.of_nat (length jobs)) w' =
      Some (Ok (number_jobs (w_now w) seq jobs), w') /\
    jobs_abs (w_db w') (old ++ number_jobs (w_now w) seq jobs) /\
    ids = concat ((fun b => zseq 1 (length b)) <$> Batch jobs 8).
Proof.
  intros Hq Hc Hne Ha Hacc Hp seq Hs Hm Hold.
  destruct (BatchInsertJobs_quiet jobs old w Hq Hc Hne Ha Hacc Hp Hs Hm) as (w' & Hi & Hq' & _ & Ha' & _).
  do 2 eexists. split_and!; [exact Hi| |exact Ha'|done].
  rewrite (BatchGetJobsWithIDRange_abs _ _ (old ++ number_jobs (w_now w) seq jobs)); [|by auto with go|done|go_lia|lia].
  do 3 f_equal. rewrite List.filter_app, filter_none, filter_all; [done| |].
  - intros x Hx%number_jobs_elem. unfold between. fold seq in Hx. by rewrite !(proj2 (Z.leb_le _ _)) by lia.
  - intros x Hx. rewrite Forall_forall in Hold. specialize (Hold x Hx). unfold between.
    by rewrite (proj2 (Z.leb_gt _ _)) by lia.
Qed.

(** ** Reading by project *)

Definition in_project (p : Z) (j : Job) : bool := ProjectID j =? p.

Lemma select_project_abs p db jobs :
  jobs_abs db jobs ->
  select_jobs (CEq "project_id" (VInt p)) db = job_row <$> List.filter (in_project p) jobs.
Proof. intros Ha. apply select_jobs_abs; [done|]. intros j. apply bool_decide_VInt. Qed.

Lemma GetJobsTotalCountByProjectID_abs p jobs w :
  healthy w -> jobs_abs (w_db w) jobs -> p <= MaxInt64 ->
  GetJobsTotalCountByProjectID p w =
  Some (Ok (u64 (Z.of_nat (length (List.filter (in_project p) jobs)))), w).
Proof.
  intros Hw Ha Hp. unfold GetJobsTotalCountByProjectID.
  erewrite (db_query_then _ _ _ [Z.of_nat (length (List.filter (in_project p) jobs))]); [done|done| |].
  - apply query_refused_ok; [done|]. cbn [forallb]. by rewrite bindable_int.
  - unfold count_rows. erewrite select_project_abs by done. by rewrite length_fmap.
Qed.

#[local] Instance key_le_total c : Total (key_le c).
Proof. intros a b. unfold key_le. lia. Qed.

Lemma order_asc_sorted c rows : Sorted (key_le c) (order_asc c rows).
Proof. apply Sorted_merge_sort, _. Qed.

(** A page of a project: its jobs in the order of the column, then OFFSET
    and LIMIT. *)
Lemma GetAllByProjectID_abs p offset limit orderBy jobs w :
  healthy w -> jobs_abs (w_db w) jobs -> p <= MaxInt64 ->
  exists sorted, sorted ≡ₚ List.filter (in_project p) jobs /\
    GetAllByProjectID p offset limit orderBy w =
      Some (Ok (take (Z.to_nat limit) (drop (Z.to_nat offset) sorted)), w) /\
    Sorted (key_le orderBy) (job_row <$> sorted).
Proof.
  intros Hw Ha Hp. pose proof (order_asc_perm orderBy (job_row <$> List.filter (in_project p) jobs)) as Hperm.
  assert (Hwf : Forall job_wf (List.filter (in_project p) jobs)) by apply Forall_filter, Ha.
  edestruct (mapM_scan_perm job_row (project_cols job_select) (scan_job job_zero)
               (List.filter (in_project p) jobs)) as (l & Hl & Hlp & Hrows); [|exact Hperm|].
  { intros x Hx. apply scan_job_row. rewrite Forall_forall in Hwf. auto. }
  exists l. split; [done|]. split; [|rewrite <- Hrows; apply order_asc_sorted]. unfold GetAllByProjectID.
  erewrite db_query_then; [reflexivity|done| |].
  - apply query_refused_ok; [done|]. cbn [forallb]. by rewrite bindable_int.
  - erewrite select_project_abs by done. rewrite Hrows. unfold page.
    rewrite <- fmap_drop, <- fmap_take. apply scan_jobs.
    assert (Forall job_wf l) by (by rewrite Hlp).
    by apply Forall_take, Forall_drop.
Qed.

(** ** Pages *)

Definition created_before (a b : Job) : Prop := t_ns (DateCreated a) <= t_ns (DateCreated b).

Lemma sorted_jobs l : Sorted (key_le "date_created") (job_row <$> l) -> Sorted created_before l.
Proof.
  induction l as [|j l IH]; [constructor|]. rewrite fmap_cons. intros [Hs Hd]%Sorted_inv.
  constructor; [by apply IH|]. destruct l as [|j' l]; constructor.
  rewrite fmap_cons in Hd. by apply HdRel_inv in Hd.
Qed.

Lemma GetJobsPaginated_abs p offset limit jobs w :
  healthy w -> jobs_abs (w_db w) jobs -> p <= MaxInt64 ->
  exists sorted, sorted ≡ₚ List.filter (in_project p) jobs /\ Sorted created_before sorted /\
    let jobsPage := take (Z.to_nat limit) (drop (Z.to_nat offset) sorted) in
    GetJobsPaginated p offset limit w = Some ((jobsPage, Z.of_nat (length jobsPage), None), w).
Proof.
  intros Hw Ha Hp. unfold GetJobsPaginated.
  erewrite go_bind_Some by (by apply GetJobsTotalCountByProjectID_abs).
  destruct (GetAllByProjectID_abs p offset limit "date_created" jobs w Hw Ha Hp) as (l & Hl & Hg & Hs).
  exists l. split_and!; [done|by apply sorted_jobs|]. by erewrite go_bind_Some by exact Hg.
Qed.

(** [GetJobsPaginated] gives the page of the project's jobs in the order
    of their creation; the count beside it is the length of the page, not
    the number of jobs of the project. *)
Theorem GetJobsPaginated_page p offset limit jobs w :
  healthy w -> jobs_abs (w_db w) jobs -> p <= MaxInt64 ->
  exists sorted, sorted ≡ₚ List.filter (in_project p) jobs /\ Sorted created_before sorted /\
    let jobsPage := take (Z.to_nat limit) (drop (Z.to_nat offset) sorted) in
    GetJobsPaginated p offset limit w = Some ((jobsPage, Z.of_nat (length jobsPage), None), w).
Proof. apply GetJobsPaginated_abs. Qed.

(** ** One job *)

Definition with_id (id : Z) (j : Job) : bool := ID j =? id.

Lemma filter_with_id jobs j :
  NoDup (ID <$> jobs) -> j ∈ jobs -> List.filter (with_id (ID j)) jobs = [j].
Proof.
  intros Hnd Hj. apply list_elem_of_split in Hj as (l1 & l2 & ->).
  rewrite fmap_app, fmap_cons in Hnd. apply NoDup_app in Hnd as (_ & Hd & Hnd).
  apply NoDup_cons in Hnd as [Hn _]. rewrite List.filter_app. cbn [List.filter]. unfold with_id at 2.
  rewrite Z.eqb_refl, filter_none, filter_none; [done| |]; intros x Hx; apply Z.eqb_neq; intros E.
  - apply Hn. rewrite <- E. by apply list_elem_of_fmap_2.
  - apply (Hd (ID x)); [by apply list_elem_of_fmap_2|]. rewrite E. by left.
Qed.

Lemma GetOneByID_abs id jobs w :
  healthy w -> jobs_abs (w_db w) jobs -> id <= MaxInt64 ->
  GetOneByID (set_ID id job_zero) w =
  Some (match last (List.filter (with_id id) jobs) with
        | Some j => Ok j
        | None => Err (HTTPGenericError StatusNotFound "job cannot be found")
        end, w).
Proof.
  intros Hw Ha Hid. unfold GetOneByID.
  erewrite (db_query_then _ _ _ (List.filter (with_id id) jobs)); [by case_match|done| |].
  - apply query_refused_ok; [done|]. cbn [forallb ID set_ID]. by rewrite bindable_int.
  - unfold job_rows. rewrite (select_jobs_abs _ (with_id id) _ jobs Ha) by (intros; apply bool_decide_VInt).
    apply scan_jobs, Forall_filter, Ha.
Qed.

(** What [UpdateOneByID] writes over a stored job. *)
Definition overwrite (m j : Job) : Job :=
  if ID j =? ID m then
    mkJob (ID j) (ProjectID j) (Spec j) (CallbackUrl m) (Data m) (ExecutionType m) (StartDate j)
      (EndDate j) (LastExecutionDate j) (Timezone m) (TimezoneOffset m) (ExecutionId j) (DateCreated j)
  else j.

Definition update_params (m : Job) : list value :=
  [VText (CallbackUrl m); VText (ExecutionType m); VText (Timezone m); VInt (TimezoneOffset m);
   VText (Data m); VInt (ID m)].

Lemma key_is_id id j : key_is "id" [VInt id] (job_row j) = with_id id j.
Proof. unfold key_is. cbn [existsb]. rewrite orb_false_r. apply bool_decide_VInt. Qed.

Lemma sql_exec_update_job m jobs db :
  jobs_abs db jobs ->
  exists db', sql_exec db (Update JobsTableName job_update_sets "id") (update_params m) =
      Ok (db', mkSQLResponse (Z.of_nat (length (List.filter (with_id (ID m)) jobs))) (db_last db)) /\
    jobs_abs db' (overwrite m <$> jobs) /\
    forall t, t <> JobsTableName -> db_table db' t = db_table db t.
Proof.
  intros [Hr Hwf]. eexists. split_and!.
  - unfold sql_exec. change (DBMaxVariableSize <? _) with false. cbn iota.
    change (negb (Nat.eqb _ _)) with false. cbn iota.
    change (find_tabdef JobsTableName) with (Some jobs_td). cbn iota.
    change (drop (length job_update_sets) (update_params m)) with [VInt (ID m)].
    change (take (length job_update_sets) (update_params m)) with
      [VText (CallbackUrl m); VText (ExecutionType m); VText (Timezone m); VInt (TimezoneOffset m);
       VText (Data m)]. fold (db_rows db JobsTableName). rewrite Hr.
    rewrite (proj2 (forallb_forall _ _)).
    + do 4 f_equal. rewrite <- (length_fmap job_row). f_equal.
      apply (sql_select_enc job_row (CIn "id" [VInt (ID m)])). intros. apply key_is_id.
    + intros r. rewrite in_map_iff. intros (j & <- & _). by rewrite orb_true_r.
  - split.
    + unfold db_rows. rewrite db_table_insert. cbn [t_rows]. rewrite <- !list_fmap_compose.
      apply list_fmap_ext. intros i j _. unfold compose. rewrite key_is_id. unfold overwrite, with_id.
      by destruct (ID j =? ID m).
    + apply Forall_fmap. eapply Forall_impl; [exact Hwf|]. intros j (Hj & ? & ?). unfold compose, overwrite.
      destruct (ID j =? ID m); [|done]. split_and!; cbn; try lia.
      destruct j. unfold stored_job in *. cbn in *. congruence.
  - intros t Ht. by rewrite db_table_insert_ne.
Qed.

(** An update that keeps the spec writes its five columns. *)
Lemma UpdateOneByID_run m job jobs w :
  quiet w -> codec_total -> jobs_abs (w_db w) jobs -> NoDup (ID <$> jobs) ->
  job ∈ jobs -> ID job = ID m -> params_ok (update_params m) = true ->
  Spec job = Spec m \/ Spec m = "" ->
  exists w', UpdateOneByID m w = Some (Ok 1, w') /\ quiet w' /\
    jobs_abs (w_db w') (overwrite m <$> jobs) /\
    forall t, t <> JobsTableName -> db_table (w_db w') t = db_table (w_db w) t.
Proof.
  intros Hq Hc Ha Hnd Hin Hid Hp E.
  assert (Hm : ID m <= MaxInt64).
  { destruct Ha as [_ Hwf]. rewrite Forall_forall in Hwf. destruct (Hwf job Hin) as (_ & ? & _). lia. }
  unfold UpdateOneByID. erewrite go_bind_Some by (apply GetOneByID_abs; [by auto with go|done|done]).
  assert (HF : List.filter (with_id (ID m)) jobs = [job]) by (rewrite <- Hid; by apply filter_with_id).
  rewrite HF. cbn [last].
  replace (negb (String.eqb (Spec job) (Spec m)) && negb (String.eqb (Spec m) ""))
    with false by (destruct E as [-> | ->]; by rewrite ?String.eqb_refl, ?andb_false_r).
  destruct (sql_exec_update_job m jobs (w_db w) Ha) as (db' & Hx & Ha' & Hother).
  destruct (Hc (mkCommand CommandTypeDbExecute (Update JobsTableName job_update_sets "id")
                  (Some (update_params m)) [] (u64 0))) as [b Hb].
  pose proof (WriteCommandToRaftLog_quiet _ (update_params m) [] 0 b w Hq Hp Hb) as HW.
  unfold raft_effect in HW. rewrite Hx, HF in HW.
  eexists. split_and!; [erewrite go_bind_Some by exact HW; reflexivity|by auto with go|done|done].
Qed.

(** Updating a job on the leader refuses another cron spec and changes
    nothing then; otherwise it writes the callback, the type, the time zone
    and the data of that job and nothing else. *)
Theorem UpdateOneByID_keeps_spec m job jobs w :
  quiet w -> codec_total -> jobs_abs (w_db w) jobs -> NoDup (ID <$> jobs) ->
  job ∈ jobs -> ID job = ID m -> params_ok (update_params m) = true ->
  if String.eqb (Spec job) (Spec m) || String.eqb (Spec m) "" then
    exists w', UpdateOneByID m w = Some (Ok 1, w') /\
      jobs_abs (w_db w') (overwrite m <$> jobs) /\ Spec <$> (overwrite m <$> jobs) = Spec <$> jobs /\
      forall t, t <> JobsTableName -> db_table (w_db w') t = db_table (w_db w) t
  else UpdateOneByID m w =
       Some (Err (HTTPGenericError StatusBadRequest "cannot update cron spec"), w).
Proof.
  intros Hq Hc Ha Hnd Hin Hid Hp. destruct (String.eqb (Spec job) (Spec m) || String.eqb (Spec m) "") eqn:E.
  - destruct (UpdateOneByID_run m job jobs w) as (w' & Hu & _ & Ha' & Ho); try done.
    { apply orb_true_iff in E as [?%String.eqb_eq|?%String.eqb_eq]; auto. }
    exists w'. split_and!; try done. rewrite <- list_fmap_compose. apply list_fmap_ext. intros i j _.
    unfold compose, overwrite. by destruct (ID j =? ID m).
  - apply orb_false_iff in E as [E1 E2]. unfold UpdateOneByID.
    assert (Hm : ID m <= MaxInt64).
    { destruct Ha as [_ Hwf]. rewrite Forall_forall in Hwf. destruct (Hwf job Hin) as (_ & ? & _). lia. }
    erewrite go_bind_Some by (apply GetOneByID_abs; [by auto with go|done|done]).
    rewrite <- Hid, filter_with_id by done. cbn [last]. by rewrite E1, E2.
Qed.

End Facts.

(** ** Concrete runs: a project 1 with one job *)

Definition stored7 : Job :=
  stored_job (mkTime 5 "UTC") 7 (mkJob 0 1 "* * * * *" "http://a" "d" "http" time_zero time_zero time_zero "UTC" 0 "" time_zero).
Definition jobs_db : Db :=
  mkDb (<["projects" := Table [[("id", VInt 1); ("name", VText "p")]] 1]>
        (<[JobsTableName := Table [job_row stored7] 7]> (db_tabs db_empty))) 7.
Definition jobs_world : World := mkWorld jobs_db sample_now RaftLeader true [] [].

Lemma jobs_db_abs : jobs_abs jobs_db [stored7].
Proof.
  split; [reflexivity|]. constructor; [|constructor]. split; [reflexivity|].
  split; (split; [vm_compute; discriminate|]); [vm_compute; reflexivity|vm_compute; discriminate].
Qed.

Definition new_job : Job :=
  mkJob 0 1 "@daily" "http://b" "" "http" time_zero time_zero time_zero "UTC" 0 "" time_zero.

Lemma BatchInsertJobs_GetRange_witness :
  exists w' ids,
    @BatchInsertJobs plain_codec [new_job; new_job] jobs_world = Some (Ok ids, w') /\
    BatchGetJobsWithIDRange 8 9 w' = Some (Ok (number_jobs sample_now 7 [new_job; new_job]), w') /\
    jobs_abs (w_db w') ([stored7] ++ number_jobs sample_now 7 [new_job; new_job]) /\ ids = [1; 2].
Proof.
  apply (@BatchInsertJobs_GetRange plain_codec [new_job; new_job] [stored7] jobs_world).
  - by split.
  - apply plain_codec_total.
  - discriminate.
  - apply jobs_db_abs.
  - vm_compute. reflexivity.
  - repeat constructor; vm_compute; discriminate.
  - vm_compute. discriminate.
  - vm_compute. reflexivity.
  - repeat constructor. vm_compute. discriminate.
Defined.

Lemma GetJobsPaginated_page_witness :
  exists sorted, sorted ≡ₚ [stored7] /\ Sorted created_before sorted /\
    GetJobsPaginated 1 0 10 jobs_world =
    Some ((take 10 (drop 0 sorted), Z.of_nat (length (take 10 (drop 0 sorted))), None), jobs_world).
Proof.
  apply (GetJobsPaginated_page 1 0 10 [stored7] jobs_world).
  - reflexivity.
  - apply jobs_db_abs.
  - vm_compute. discriminate.
Defined.

Lemma UpdateOneByID_keeps_spec_witness :
  @UpdateOneByID plain_codec (set_ID 7 new_job) jobs_world =
    Some (Err (HTTPGenericError StatusBadRequest "cannot update cron spec"), jobs_world).
Proof.
  apply (@UpdateOneByID_keeps_spec plain_codec (set_ID 7 new_job) stored7 [stored7] jobs_world).
  - by split.
  - apply plain_codec_total.
  - apply jobs_db_abs.
  - apply NoDup_singleton.
  - left.
  - reflexivity.
  - reflexivity.
Defined.
