(* ===== verification/ExecutionsRepo.v ===== *)
(** * The execution log repository: pkg/repository/job_execution/job_executions.go

    A node writes its own executions to a local, uncommitted table; the
    leader commits them to the replicated one through the raft log. *)

From stdpp Require Import base list gmap strings pretty sorting.
From Stdlib Require Import ZArith Lia.
From S2P Require Import Prelude Models Batcher Sql Fsm Replication Inserts JobRepo.

#[local] Open Scope Z_scope.

Definition ExecutionsCommittedTableName : string := "job_executions_committed".
Definition ExecutionsUnCommittedTableName : string := "job_executions_uncommitted".

Definition execution_insert_cols : list string :=
  ["unique_id"; "state"; "node_id"; "last_execution_time"; "next_execution_time"; "job_id";
   "job_queue_version"; "date_created"; "execution_version"].

Section ExecutionsRepo.
Context {codec : CommandCodec} {env : Env}.

(** *** BatchInsert: the node's own log *)

(** The parameters of one job; [None] is the nil schedule of a spec that
    does not parse.  [jobs[i]] is the caller's slice at the batch's index. *)
Definition batch_insert_params (jobs : list Job) (nodeId state jobQueueVersion : Z)
    (jobExecutionVersions : gmap Z Z) (now : Time) (i : nat) (job : Job) : option (list value) :=
  match cron_parse (Spec job), jobs !! i with
  | Ok next, Some job_i =>
      let executionVersion := i64 (default 0 (jobExecutionVersions !! ID job)) in
      let executionTime := next (LastExecutionDate job_i) in
      Some [VText (ExecutionId job); VInt state; VInt nodeId; VTime (t_ns (LastExecutionDate job));
            VTime (t_ns executionTime); VInt (ID job); VInt jobQueueVersion; VTime (t_ns now);
            VInt executionVersion]
  | _, _ => None
  end.

(** The loop over the batch with its index. *)
Fixpoint batch_params (f : nat -> Job -> option (list value)) (i : nat) (batch : list Job)
    : option (list value) :=
  match batch with
  | [] => Some []
  | job :: batch' =>
      ps ← f i job;
      rest ← batch_params f (S i) batch';
      Some (ps ++ rest)
  end.

Definition BatchInsert (jobs : list Job) (nodeId state jobQueueVersion : Z)
    (jobExecutionVersions : gmap Z Z) : Go World unit :=
  match jobs with
  | [] => mret tt
  | _ =>
      now ← gets w_now;
      go_for_ret (fun (_ : unit) batch =>
         params ← lift_opt (batch_params
                    (batch_insert_params jobs nodeId state jobQueueVersion jobExecutionVersions now)
                    0 batch);
         r ← db_exec (Insert ExecutionsUnCommittedTableName execution_insert_cols (length batch)) params;
         match r with
         | ExecOk _ => mret (inl tt)
         | ExecErr _ | ExecLate _ => mret (inr tt)
         end)
        (Batch jobs 9) tt;;
      mret tt
  end.

(** *** Reading *)

Definition scan_log_last (vs : list value) : option JobExecutionLog :=
  match vs with
  | [ver; st; id; uid; node; lt; nt; job; created; qver] =>
      ver ← scan_uint64 ver; st ← scan_uint64 st; id ← scan_uint64 id; uid ← scan_string uid;
      node ← scan_uint64 node; lt ← scan_time lt; nt ← scan_time nt; job ← scan_uint64 job;
      created ← scan_time created; qver ← scan_uint64 qver;
      Some (mkJobExecutionLog id uid st node lt nt job qver ver created)
  | _ => None
  end.

Definition last_select : list string :=
  ["execution_version"; "state"; "id"; "unique_id"; "node_id"; "last_execution_time";
   "next_execution_time"; "job_id"; "date_created"; "job_queue_version"].

(** [partition by job_id order by execution_version desc, state desc] *)
Definition newer (a b : row) : bool :=
  (sort_key "execution_version" b <? sort_key "execution_version" a) ||
  ((sort_key "execution_version" a =? sort_key "execution_version" b) &&
   (sort_key "state" b <? sort_key "state" a)).

(** The first row of each partition, partitions in the order they appear. *)
Fixpoint first_of_partitions (rows : list row) (acc : list row) : list row :=
  match rows with
  | [] => acc
  | r :: rows' =>
      let same := fun x => bool_decide (col "job_id" x = col "job_id" r) in
      first_of_partitions rows'
        (if existsb same acc
         then (fun x => if same x && newer r x then r else x) <$> acc
         else acc ++ [r])
  end.

Definition all_executions (db : Db) : list row :=
  db_rows db ExecutionsCommittedTableName ++ db_rows db ExecutionsUnCommittedTableName.

Definition last_rows (ids : list value) (db : Db) : list (list value) :=
  project_cols last_select <$>
    first_of_partitions (sql_select (CIn "job_id" ids) (all_executions db)) [].

Definition getLastExecutionLogForJobIds (jobIds : list Z) : Go World (list JobExecutionLog) :=
  match jobIds with
  | [] => mret []
  | _ =>
      r ← go_for_ret (fun results batch =>
             let ids := VInt <$> batch in
             q ← db_query_lax ids (last_rows ids) execution_log_zero scan_log_last;
             match q with
             | QRows l => mret (inl (results ++ l))
             | QQueryErr _ | QScanErr _ | QRowsErr _ _ => mret (inr tt)
             end)
           (Batch jobIds 1) [];
      match r with
      | inl results => mret results
      | inr _ => mret []
      end
  end.

(** The inner [if]s over one log. *)
Definition known_step (jobId : Z) (m : gmap Z JobExecutionLog) (l : JobExecutionLog)
    : gmap Z JobExecutionLog :=
  if el_JobId l =? jobId then
    match m !! jobId with
    | None => <[jobId := l]> m
    | Some known =>
        if el_ExecutionVersion known <? el_ExecutionVersion l then <[jobId := l]> m
        else if el_State known <? el_State l then <[jobId := l]> m
        else m
    end
  else m.

Definition GetLastExecutionLogForJobIds (jobIds : list Z) : Go World (gmap Z JobExecutionLog) :=
  lastCommittedExecutionLogs ← getLastExecutionLogForJobIds jobIds;
  mret (foldl (fun m jobId => foldl (known_step jobId) m lastCommittedExecutionLogs) ∅ jobIds).

Definition failed_cond (jobId nodeId executionVersion : Z) : cond :=
  CAnd (CEq "job_id" (VInt jobId))
    (CAnd (CEq "execution_version" (VInt executionVersion))
       (CAnd (CEq "node_id" (VInt nodeId)) (CEq "state" (VInt ExecutionLogFailedState)))).

Definition CountLastFailedExecutionLogs (jobId nodeId executionVersion : Z) : Go World Z :=
  q ← db_query_lax [VInt jobId; VInt executionVersion; VInt nodeId; VInt ExecutionLogFailedState]
        (count_rows (fun db => sql_select (failed_cond jobId nodeId executionVersion) (all_executions db)))
        0 scan_count;
  match q with
  | QQueryErr _ => crash
  | QScanErr _ | QRowsErr _ _ => mret 0
  | QRows l => mret (default 0 (last l))
  end.

Definition executions_table (committed : bool) : string :=
  if committed then ExecutionsCommittedTableName else ExecutionsUnCommittedTableName.

Definition CountExecutionLogs (committed : bool) : Go World Z :=
  q ← db_query_lax [] (count_rows (fun db => db_rows db (executions_table committed))) 0 scan_count;
  match q with
  | QQueryErr _ => crash
  | QScanErr _ | QRowsErr _ _ => mret 0
  | QRows l => mret (default 0 (last l))
  end.

(** NULL, on an empty table, does not scan, and the error is not looked at. *)
Definition getUncommittedExecutionsLogsMinMaxIds (committed : bool) : Go World (Z * Z) :=
  q ← db_query_lax []
        (fun db => let rows := db_rows db (executions_table committed) in
                   [match sql_min "id" rows, sql_max "id" rows with
                    | Some lo, Some hi => [VInt lo; VInt hi]
                    | _, _ => [VNull; VNull]
                    end])
        (0, 0)
        (fun vs => match vs with
                   | [lo; hi] => lo ← scan_uint64 lo; hi ← scan_uint64 hi; Some (lo, hi)
                   | _ => None
                   end);
  match q with
  | QQueryErr _ => crash
  | QScanErr _ | QRowsErr _ _ => mret (0, 0)
  | QRows l => mret (default (0, 0) (last l))
  end.

Definition uncommitted_select : list string :=
  ["id"; "unique_id"; "state"; "node_id"; "last_execution_time"; "next_execution_time"; "job_id";
   "date_created"; "job_queue_version"; "execution_version"].

Definition scan_log (vs : list value) : option JobExecutionLog :=
  match vs with
  | [id; uid; st; node; lt; nt; job; created; qver; ver] =>
      id ← scan_uint64 id; uid ← scan_string uid; st ← scan_uint64 st; node ← scan_uint64 node;
      lt ← scan_time lt; nt ← scan_time nt; job ← scan_uint64 job; created ← scan_time created;
      qver ← scan_uint64 qver; ver ← scan_uint64 ver;
      Some (mkJobExecutionLog id uid st node lt nt job qver ver created)
  | _ => None
  end.

Definition GetUncommittedExecutionsLogForNode (nodeId : Z) : Go World (list JobExecutionLog) :=
  mm ← getUncommittedExecutionsLogsMinMaxIds false;
  ids ← lift_opt (ExpandIdsRange (fst mm) (snd mm));
  r ← go_for_ret (fun results batch =>
         match batch with
         | [] => crash
         | _ =>
             let vs := VInt <$> batch in
             q ← db_query (VInt nodeId :: vs)
                   (fun db => project_cols uncommitted_select <$>
                      take (Z.to_nat JobExecutionLogMaxBatchSize)
                        (order_desc "next_execution_time"
                           (sql_select (CAnd (CEq "node_id" (VInt nodeId)) (CIn "id" vs))
                              (db_rows db ExecutionsUnCommittedTableName))))
                   scan_log;
             match q with
             | QRows l => mret (inl (results ++ l))
             | QQueryErr _ | QScanErr _ | QRowsErr _ _ => mret (inr tt)
             end
         end)
       (Batch ids 10) [];
  match r with
  | inl results => mret results
  | inr _ => mret []
  end.

(** *** Committing through the raft log *)

Definition execution_params (l : JobExecutionLog) : list value :=
  [VText (el_UniqueId l); VInt (el_State l); VInt (el_NodeId l);
   VTime (t_ns (el_LastExecutionDatetime l)); VTime (t_ns (el_NextExecutionDatetime l));
   VInt (el_JobId l); VInt (el_JobQueueVersion l); VTime (t_ns (el_DataCreated l));
   VInt (el_ExecutionVersion l)].

Definition RaftInsertExecutionLogs (executionLogs : list JobExecutionLog) (nodeId : Z)
    : Go World unit :=
  match executionLogs with
  | [] => mret tt
  | _ =>
      go_for (fun _ batch =>
                WriteCommandToRaftLog CommandTypeDbExecute
                  (Insert ExecutionsCommittedTableName execution_insert_cols (length batch))
                  (concat (execution_params <$> batch)) [nodeId]
                  CommandActionCleanUncommittedExecutionLogs;;
                mret tt)
        (Batch executionLogs 9) tt
  end.

Definition LogJobExecutionStateInRaft (jobs : list Job) (state : Z) (executionVersions : gmap Z Z)
    (lastVersion nodeId : Z) : Go World unit :=
  executionLogs ← go_for (fun logs job =>
      now ← gets w_now;
      t ← lift_opt (GetNextExecutionTime now job);
      match t with
      | Err _ => mret logs
      | Ok executionTime =>
          mret (logs ++ [mkJobExecutionLog 0 (ExecutionId job) state nodeId (LastExecutionDate job)
                           executionTime (ID job) lastVersion
                           (default 0 (executionVersions !! ID job)) now])
      end) jobs [];
  RaftInsertExecutionLogs executionLogs nodeId.

End ExecutionsRepo.
