(* ===== verification/ExecutionsFacts.v ===== *)
(** * What the execution log repository promises

    The two tables of executions as lists of logs ([execs_abs]); a node
    reads back every uncommitted log of its own, and the last execution of a
    job is its newest log in either table. *)

From stdpp Require Import base list gmap strings pretty sorting.
From Stdlib Require Import ZArith Lia.
From S2P Require Import Prelude Models JobTime Batcher Sql Fsm Replication Inserts Reads.
From S2P Require Import JobQueueRepo JobRepo ExecutionsRepo.

#[local] Open Scope Z_scope.

(** ** The tables as lists of logs *)

Definition exec_row (l : JobExecutionLog) : row :=
  [("id", VInt (el_Id l)); ("unique_id", VText (el_UniqueId l)); ("state", VInt (el_State l));
   ("node_id", VInt (el_NodeId l));
   ("last_execution_time", VTime (t_ns (el_LastExecutionDatetime l)));
   ("next_execution_time", VTime (t_ns (el_NextExecutionDatetime l)));
   ("job_id", VInt (el_JobId l)); ("date_created", VTime (t_ns (el_DataCreated l)));
   ("job_queue_version", VInt (el_JobQueueVersion l));
   ("execution_version", VInt (el_ExecutionVersion l))].

(** A log as the driver gives it: numbers in range, times in UTC. *)
Definition exec_wf (l : JobExecutionLog) : Prop :=
  0 <= el_Id l < MaxInt64 /\ 0 <= el_State l /\ 0 <= el_NodeId l /\ 0 <= el_JobId l /\
  0 <= el_JobQueueVersion l /\ 0 <= el_ExecutionVersion l /\
  t_loc (el_LastExecutionDatetime l) = "UTC" /\ t_loc (el_NextExecutionDatetime l) = "UTC" /\
  t_loc (el_DataCreated l) = "UTC".

Definition execs_abs (db : Db) (committed : bool) (logs : list JobExecutionLog) : Prop :=
  db_rows db (executions_table committed) = exec_row <$> logs /\ Forall exec_wf logs.

Lemma exec_row_id l : col "id" (exec_row l) = VInt (el_Id l).
Proof. done. Qed.

(** Close the scan of an encoded log. *)
Ltac scan_exec :=
  intros (? & ? & ? & ? & ? & ? & ? & ? & ?); cbn; unfold scan_uint64;
  repeat (rewrite (proj2 (Z.leb_le _ _)) by lia; cbn);
  match goal with l : JobExecutionLog |- _ => destruct l as [? ? ? ? [] [] ? ? ? []] end;
  cbn in *; by subst.

Lemma scan_log_row l : exec_wf l -> scan_log (project_cols uncommitted_select (exec_row l)) = Some l.
Proof. scan_exec. Qed.

Lemma scan_log_last_row l : exec_wf l -> scan_log_last (project_cols last_select (exec_row l)) = Some l.
Proof. scan_exec. Qed.

(** ** The newest log of a job *)

(** Older or as old: by version, then by state. *)
Definition not_newer (a b : JobExecutionLog) : Prop :=
  el_ExecutionVersion a < el_ExecutionVersion b \/
  el_ExecutionVersion a = el_ExecutionVersion b /\ el_State a <= el_State b.

Lemma newer_spec a b : newer (exec_row a) (exec_row b) = false <-> not_newer a b.
Proof.
  unfold newer, not_newer, sort_key. cbn [col assoc exec_row default String.eqb].
  change (sort_key "state" (exec_row a)) with (el_State a).
  cbn. destruct (Z.ltb_spec (el_ExecutionVersion b) (el_ExecutionVersion a));
    destruct (Z.eqb_spec (el_ExecutionVersion a) (el_ExecutionVersion b));
    destruct (Z.ltb_spec (el_State b) (el_State a)); cbn; split; intros; (done || lia).
Qed.

Lemma not_newer_trans a b c : not_newer a b -> not_newer b c -> not_newer a c.
Proof. unfold not_newer. lia. Qed.

Lemma not_newer_total a b : not_newer a b \/ not_newer b a.
Proof. unfold not_newer. lia. Qed.

(** [acc] holds the newest of the logs [seen] for every job among them. *)
Definition newest_of (seen acc : list JobExecutionLog) : Prop :=
  acc ⊆ seen /\ NoDup (el_JobId <$> acc) /\
  forall l, l ∈ seen -> exists x, x ∈ acc /\ el_JobId x = el_JobId l /\ not_newer l x.

Definition same_job (l x : JobExecutionLog) : bool := el_JobId x =? el_JobId l.

Lemma same_row l x :
  bool_decide (col "job_id" (exec_row x) = col "job_id" (exec_row l)) = same_job l x.
Proof. apply bool_decide_VInt. Qed.

(** One turn of the partition scan, on logs. *)
Definition keep_newest (acc : list JobExecutionLog) (l : JobExecutionLog) : list JobExecutionLog :=
  if existsb (same_job l) acc
  then (fun x => if same_job l x && newer (exec_row l) (exec_row x) then l else x) <$> acc
  else acc ++ [l].

Lemma existsb_same_row l acc :
  existsb (fun x => bool_decide (col "job_id" x = col "job_id" (exec_row l))) (exec_row <$> acc) =
  existsb (same_job l) acc.
Proof.
  induction acc as [|x acc IH]; [done|]. rewrite fmap_cons. cbn [existsb]. by rewrite same_row, IH.
Qed.

Lemma first_of_partitions_logs logs acc :
  first_of_partitions (exec_row <$> logs) (exec_row <$> acc) = exec_row <$> foldl keep_newest acc logs.
Proof.
  revert acc. induction logs as [|l logs IH]; intros acc; [done|].
  rewrite fmap_cons. cbn [first_of_partitions foldl]. rewrite <- IH. f_equal.
  rewrite existsb_same_row. unfold keep_newest. destruct (existsb (same_job l) acc).
  - rewrite <- !list_fmap_compose. apply list_fmap_ext. intros i x _. cbn [compose].
    rewrite same_row. unfold compose. by destruct (same_job l x && newer (exec_row l) (exec_row x)).
  - by rewrite fmap_app.
Qed.

Lemma keep_newest_jobs l acc :
  existsb (same_job l) acc = true ->
  el_JobId <$> keep_newest acc l = el_JobId <$> acc.
Proof.
  intros H. unfold keep_newest. rewrite H. rewrite <- list_fmap_compose.
  apply list_fmap_ext. intros i x _. unfold compose, same_job. cbn [compose].
  destruct (Z.eqb_spec (el_JobId x) (el_JobId l)); cbn [andb]; [|done]. by case_match.
Qed.

Lemma keep_newest_replace l acc x :
  existsb (same_job l) acc = true -> x ∈ acc -> el_JobId x = el_JobId l ->
  exists y, y ∈ keep_newest acc l /\ el_JobId y = el_JobId l /\ not_newer x y /\ not_newer l y.
Proof.
  intros He Hx Hj. unfold keep_newest. rewrite He.
  exists (if same_job l x && newer (exec_row l) (exec_row x) then l else x).
  split; [apply list_elem_of_fmap; eauto|]. unfold same_job. rewrite Hj, Z.eqb_refl. cbn [andb].
  destruct (newer (exec_row l) (exec_row x)) eqn:E.
  - split; [done|]. assert (~ not_newer l x) by (intros ?%newer_spec; congruence).
    destruct (not_newer_total l x); [done|]. split; [done|]. unfold not_newer. lia.
  - split; [done|]. split; [unfold not_newer; lia|]. by apply newer_spec.
Qed.

Lemma keep_newest_other l acc x :
  x ∈ acc -> el_JobId x <> el_JobId l -> x ∈ keep_newest acc l.
Proof.
  intros Hx Hj. unfold keep_newest. case_match; [|set_solver].
  apply list_elem_of_fmap. exists x. split; [|done]. unfold same_job. cbn beta.
  by rewrite (proj2 (Z.eqb_neq _ _) Hj).
Qed.

Lemma keep_newest_sub l acc x : x ∈ keep_newest acc l -> x = l \/ x ∈ acc.
Proof.
  unfold keep_newest. case_match; [|set_solver].
  intros (y & -> & Hy)%list_elem_of_fmap. case_match; auto.
Qed.

Lemma existsb_same_false l acc x :
  existsb (same_job l) acc = false -> x ∈ acc -> el_JobId x <> el_JobId l.
Proof.
  intros He Hx Hj. assert (existsb (same_job l) acc = true); [|congruence].
  apply existsb_exists. exists x. split; [by apply list_elem_of_In|]. by apply Z.eqb_eq.
Qed.

Lemma newest_of_step seen acc l : newest_of seen acc -> newest_of (seen ++ [l]) (keep_newest acc l).
Proof.
  intros (Hsub & Hnd & Hmax). split_and!.
  - intros x [->|Hx]%keep_newest_sub; set_solver.
  - destruct (existsb (same_job l) acc) eqn:E; [by rewrite keep_newest_jobs|].
    unfold keep_newest. rewrite E, fmap_app. apply NoDup_app. split_and!; [done| |apply NoDup_singleton].
    intros j (x & -> & Hx)%list_elem_of_fmap. intros Hj%list_elem_of_singleton.
    by apply (existsb_same_false l acc x).
  - intros l' [Hl'| ->%list_elem_of_singleton]%elem_of_app.
    + destruct (Hmax l' Hl') as (x & Hx & Hj & Hn).
      destruct (decide (el_JobId x = el_JobId l)) as [Hjl|]; [|exists x; auto using keep_newest_other].
      assert (existsb (same_job l) acc = true) as E.
      { apply existsb_exists. exists x. split; [by apply list_elem_of_In|]. by apply Z.eqb_eq. }
      destruct (keep_newest_replace l acc x E Hx Hjl) as (y & Hy & Hjy & Hn' & _).
      exists y. split; [done|]. split; [congruence|]. by eapply not_newer_trans.
    + destruct (existsb (same_job l) acc) eqn:E.
      * pose proof E as (x & Hx%list_elem_of_In & Hj%Z.eqb_eq)%existsb_exists.
        destruct (keep_newest_replace l acc x E Hx Hj) as (y & ? & ? & _ & ?). eauto.
      * exists l. unfold keep_newest. rewrite E. split; [set_solver|]. split; [done|].
        unfold not_newer. lia.
Qed.

Lemma newest_of_logs seen acc logs :
  newest_of seen acc -> newest_of (seen ++ logs) (foldl keep_newest acc logs).
Proof.
  revert seen acc. induction logs as [|l logs IH]; intros seen acc H; [by rewrite app_nil_r|].
  cbn [foldl]. replace (seen ++ l :: logs) with ((seen ++ [l]) ++ logs) by (by rewrite <- app_assoc).
  by apply IH, newest_of_step.
Qed.

Definition newest (logs : list JobExecutionLog) : list JobExecutionLog := foldl keep_newest [] logs.

Lemma newest_spec logs : newest_of logs (newest logs).
Proof. apply (newest_of_logs [] []). split_and!; [done|constructor|set_solver]. Qed.

(** ** Reading the last executions *)

Definition of_jobs (ids : list Z) (l : JobExecutionLog) : bool := bool_decide (el_JobId l ∈ ids).

Lemma select_job_ids ids logs :
  sql_select (CIn "job_id" (VInt <$> ids)) (exec_row <$> logs) =
  exec_row <$> List.filter (of_jobs ids) logs.
Proof. apply sql_select_enc. intros l _. apply bool_decide_VInt_in. Qed.

Lemma all_executions_abs db com unc :
  execs_abs db true com -> execs_abs db false unc ->
  all_executions db = exec_row <$> (com ++ unc) /\ Forall exec_wf (com ++ unc).
Proof.
  intros [H1 W1] [H2 W2]. unfold all_executions. split; [|by apply Forall_app].
  rewrite fmap_app. by f_equal.
Qed.

Lemma read_last_rows ids logs :
  Forall exec_wf logs ->
  (fun vs => default execution_log_zero (scan_log_last vs)) <$>
    (project_cols last_select <$>
       first_of_partitions (sql_select (CIn "job_id" (VInt <$> ids)) (exec_row <$> logs)) []) =
  newest (List.filter (of_jobs ids) logs).
Proof.
  intros Hwf. rewrite select_job_ids, (first_of_partitions_logs _ []). fold (newest (List.filter (of_jobs ids) logs)).
  destruct (newest_spec (List.filter (of_jobs ids) logs)) as [Hsub _].
  rewrite <- !list_fmap_compose. induction (newest _) as [|l ls IH]; [done|].
  rewrite fmap_cons. f_equal; [|apply IH; set_solver].
  unfold compose. rewrite scan_log_last_row; [done|]. rewrite Forall_forall in Hwf. apply Hwf.
  eapply elem_of_filter_bool, Hsub. by left.
Qed.

Lemma filter_of_no_job logs : List.filter (of_jobs []) logs = [].
Proof. by induction logs. Qed.

Lemma getLast_abs jobIds com unc w :
  healthy w -> execs_abs (w_db w) true com -> execs_abs (w_db w) false unc ->
  Forall (fun j => j <= MaxInt64) jobIds ->
  getLastExecutionLogForJobIds jobIds w =
  Some (concat ((fun b => newest (List.filter (of_jobs b) (com ++ unc))) <$> Batch jobIds 1), w).
Proof.
  intros Hw H1 H2 Hids. destruct (all_executions_abs _ com unc H1 H2) as [Hall Hwf].
  destruct jobIds as [|j js].
  { change (Batch (@nil Z) 1) with [@nil Z]. rewrite fmap_cons. by rewrite filter_of_no_job. }
  unfold getLastExecutionLogForJobIds. cbn iota. set (ids := j :: js) in *. rewrite go_bind_eq.
  erewrite (go_for_ret_collect _ (fun b => newest (List.filter (of_jobs b) (com ++ unc)))).
  - by rewrite app_nil_l.
  - intros acc b Hb. rewrite db_query_lax_then; [|done|].
    + unfold last_rows. by rewrite Hall, read_last_rows.
    + apply query_refused_ok.
      * rewrite length_fmap. pose proof (Batch_bounded ids 1 b) as HB. unfold DBMaxVariableSize in *.
        specialize (HB ltac:(lia) Hb). lia.
      * apply forallb_forall. intros v. rewrite in_map_iff. intros (i & <- & Hi%list_elem_of_In).
        apply bindable_int. rewrite Forall_forall in Hids. apply Hids.
        rewrite <- (Batch_concat ids 1). apply list_elem_of_In, in_concat. exists b.
        by rewrite <- !list_elem_of_In.
Qed.

(** The map the caller builds, when no two logs are of the same job. *)
Lemma known_step_other j k m l : k <> j -> known_step j m l !! k = m !! k.
Proof. intros. unfold known_step. repeat case_match; by rewrite ?lookup_insert_ne. Qed.

Lemma known_steps_other j k m ls : k <> j -> foldl (known_step j) m ls !! k = m !! k.
Proof.
  intros Hk. revert m. induction ls as [|l ls IH]; intros m; [done|]. cbn [foldl].
  by rewrite IH, known_step_other.
Qed.

Lemma known_steps_none j m ls :
  (forall l, l ∈ ls -> el_JobId l <> j) -> foldl (known_step j) m ls !! j = m !! j.
Proof.
  revert m. induction ls as [|l ls IH]; intros m H; [done|]. cbn [foldl].
  rewrite IH by (intros; apply H; by right). unfold known_step.
  by rewrite (proj2 (Z.eqb_neq _ _)) by (apply H; by left).
Qed.

Lemma known_steps_one j m ls l :
  NoDup (el_JobId <$> ls) -> l ∈ ls -> el_JobId l = j -> m !! j = None ->
  foldl (known_step j) m ls !! j = Some l.
Proof.
  intros Hnd Hl Hj Hm. apply list_elem_of_split in Hl as (l1 & l2 & ->).
  rewrite fmap_app, fmap_cons in Hnd. apply NoDup_app in Hnd as (_ & Hd & Hnd).
  apply NoDup_cons in Hnd as [Hn _]. rewrite foldl_app. cbn [foldl].
  rewrite known_steps_none.
  - unfold known_step at 1. rewrite Hj, Z.eqb_refl. rewrite known_steps_none, Hm.
    + by rewrite lookup_insert_eq.
    + intros x Hx Hxj. eapply (Hd (el_JobId x)); [by apply list_elem_of_fmap_2|].
      rewrite Hxj, <- Hj. by left.
  - intros x Hx Hxj. apply Hn. rewrite Hj, <- Hxj. by apply list_elem_of_fmap_2.
Qed.

Definition known_map (ls : list JobExecutionLog) (jobIds : list Z) : gmap Z JobExecutionLog :=
  foldl (fun m jobId => foldl (known_step jobId) m ls) ∅ jobIds.

Lemma known_map_snoc ls jobIds j :
  known_map ls (jobIds ++ [j]) = foldl (known_step j) (known_map ls jobIds) ls.
Proof. unfold known_map. by rewrite foldl_app. Qed.

Lemma known_map_spec ls jobIds j :
  NoDup (el_JobId <$> ls) -> NoDup jobIds ->
  match known_map ls jobIds !! j with
  | Some l => j ∈ jobIds /\ l ∈ ls /\ el_JobId l = j
  | None => j ∈ jobIds -> forall l, l ∈ ls -> el_JobId l <> j
  end.
Proof.
  intros Hls. induction jobIds as [|i ids IH] using rev_ind; intros Hids.
  - unfold known_map. cbn [foldl]. rewrite lookup_empty. set_solver.
  - apply NoDup_app in Hids as (Hids & Hi & _). rewrite known_map_snoc. specialize (IH Hids).
    destruct (decide (j = i)) as [->|Hne].
    + assert (known_map ls ids !! i = None) as Hnone.
      { destruct (known_map ls ids !! i); [|done]. destruct IH as [Hin _]. exfalso.
        apply (Hi _ Hin). by left. }
      destruct (decide (Exists (fun l => el_JobId l = i) ls)) as [[l [Hl Hj]]%Exists_exists|Hno].
      * erewrite known_steps_one by done. split_and!; [set_solver|done|done].
      * rewrite known_steps_none, Hnone; intros;
          intros ?; apply Hno, Exists_exists; eauto.
    + rewrite known_steps_other by done. case_match; [set_solver|].
      intros [Hj| ->%list_elem_of_singleton]%elem_of_app; [auto|done].
Qed.

(** The logs read for disjoint batches of jobs are of different jobs. *)
Lemma newest_batches_nodup bs logs :
  NoDup (concat bs) ->
  NoDup (el_JobId <$> concat ((fun b => newest (List.filter (of_jobs b) logs)) <$> bs)).
Proof.
  assert (Hin : forall b l, l ∈ newest (List.filter (of_jobs b) logs) -> el_JobId l ∈ b).
  { intros b l Hl. destruct (newest_spec (List.filter (of_jobs b) logs)) as [Hs _].
    apply Hs, elem_of_filter_bool in Hl as [_ Hl]. by apply bool_decide_eq_true in Hl. }
  induction bs as [|b bs IH]; intros Hnd; [constructor|]. rewrite fmap_cons. cbn [concat] in *.
  apply NoDup_app in Hnd as (_ & Hd & Hnd). rewrite fmap_app. apply NoDup_app.
  split_and!; [apply newest_spec| |by apply IH].
  intros j (l & -> & Hl)%list_elem_of_fmap (l' & Hj & Hl')%list_elem_of_fmap.
  apply elem_of_concat in Hl' as (? & (b' & -> & Hb')%list_elem_of_fmap & Hl').
  apply (Hd (el_JobId l)); [by apply Hin|]. apply elem_of_concat. exists b'. split; [done|].
  rewrite Hj. by apply Hin.
Qed.

Lemma GetLastExecutionLogForJobIds_abs jobIds com unc w :
  healthy w -> execs_abs (w_db w) true com -> execs_abs (w_db w) false unc ->
  Forall (fun j => j <= MaxInt64) jobIds -> NoDup jobIds ->
  exists m, GetLastExecutionLogForJobIds jobIds w = Some (m, w) /\
    forall j, match m !! j with
      | Some l => j ∈ jobIds /\ l ∈ com ++ unc /\ el_JobId l = j /\
          forall l', l' ∈ com ++ unc -> el_JobId l' = j -> not_newer l' l
      | None => j ∈ jobIds -> forall l, l ∈ com ++ unc -> el_JobId l <> j
      end.
Proof.
  intros Hw H1 H2 Hids Hnd. unfold GetLastExecutionLogForJobIds.
  erewrite go_bind_Some by (by apply getLast_abs).
  set (logs := com ++ unc). set (ls := concat _). exists (known_map ls jobIds). split; [done|].
  assert (Hls : NoDup (el_JobId <$> ls)) by (apply newest_batches_nodup; by rewrite Batch_concat).
  assert (Hnew : forall j l, j ∈ jobIds -> l ∈ logs -> el_JobId l = j ->
            exists x, x ∈ ls /\ x ∈ logs /\ el_JobId x = j /\ not_newer l x).
  { intros j l Hj Hl Hlj. rewrite <- (Batch_concat jobIds 1) in Hj.
    apply elem_of_concat in Hj as (b & Hb & Hjb).
    destruct (newest_spec (List.filter (of_jobs b) logs)) as (Hs & _ & Hm).
    destruct (Hm l) as (x & Hx & Hxj & Hn).
    { apply elem_of_filter_bool. split; [done|]. apply bool_decide_eq_true. by rewrite Hlj. }
    exists x. split_and!; [|by eapply elem_of_filter_bool, Hs|congruence|done].
    apply elem_of_concat. eexists. split; [by apply (list_elem_of_fmap_2 _ _ b)|done]. }
  intros j. pose proof (known_map_spec ls jobIds j Hls Hnd) as Hk.
  destruct (known_map ls jobIds !! j) as [l|].
  - destruct Hk as (Hj & Hl & Hlj).
    assert (Hsame : forall x, x ∈ ls -> el_JobId x = j -> x = l).
    { intros x Hx Hxj. apply (NoDup_fmap_inj el_JobId ls); [done..|congruence]. }
    assert (Hlog : l ∈ logs).
    { apply elem_of_concat in Hl as (? & (b & -> & _)%list_elem_of_fmap & Hl).
      destruct (newest_spec (List.filter (of_jobs b) logs)) as (Hs & _ & _).
      by eapply elem_of_filter_bool, Hs. }
    split_and!; [done..|]. intros l' Hl' Hj'. destruct (Hnew j l' Hj Hl' Hj') as (x & Hx & _ & Hxj & Hn).
    by rewrite (Hsame x Hx Hxj) in Hn.
  - intros Hj l Hl Hlj. destruct (Hnew j l Hj Hl Hlj) as (x & Hx & _ & Hxj & _). by eapply Hk.
Qed.

(** [GetLastExecutionLogForJobIds] maps each requested job to its newest
    log, by version and then by state, among the committed and uncommitted
    ones; a job it does not map has no log at all. *)
Theorem GetLastExecutionLogForJobIds_newest jobIds com unc w :
  healthy w -> execs_abs (w_db w) true com -> execs_abs (w_db w) false unc ->
  Forall (fun j => j <= MaxInt64) jobIds -> NoDup jobIds ->
  exists m, GetLastExecutionLogForJobIds jobIds w = Some (m, w) /\
    forall j, match m !! j with
      | Some l => j ∈ jobIds /\ l ∈ com ++ unc /\ el_JobId l = j /\
          forall l', l' ∈ com ++ unc -> el_JobId l' = j -> not_newer l' l
      | None => j ∈ jobIds -> forall l, l ∈ com ++ unc -> el_JobId l <> j
      end.
Proof. apply GetLastExecutionLogForJobIds_abs. Qed.

(** ** Reading the uncommitted executions *)

Lemma minMaxIds_abs db committed logs w :
  healthy w -> w_db w = db -> execs_abs db committed logs ->
  exists lo hi, getUncommittedExecutionsLogsMinMaxIds committed w = Some ((lo, hi), w) /\
    0 <= lo /\ hi < MaxInt64 /\ (forall l, l ∈ logs -> lo <= el_Id l <= hi) /\ lo <= hi.
Proof.
  intros Hw <- [Hr Hwf]. unfold getUncommittedExecutionsLogsMinMaxIds.
  rewrite db_query_lax_then by done. cbn [fmap list_fmap last default].
  rewrite Hr. destruct (decide (logs = [])) as [->|Hne].
  - exists 0, 0. split_and!; try done; set_solver.
  - destruct (min_max_enc exec_row el_Id exec_row_id logs Hne) as (lo & hi & -> & -> & Hb & Hlo & Hhi).
    rewrite Forall_forall in Hwf. assert (lo <= hi).
    { destruct logs as [|x logs]; [done|]. specialize (Hb x ltac:(by left)). lia. }
    assert (0 <= lo) by (apply list_elem_of_fmap in Hlo as (x & -> & Hx); by apply Hwf in Hx as [? _]; lia).
    assert (0 <= hi < MaxInt64) by (apply list_elem_of_fmap in Hhi as (x & -> & Hx); by apply Hwf in Hx as [? _]).
    exists lo, hi. cbn. unfold scan_uint64. rewrite !(proj2 (Z.leb_le _ _)) by lia. cbn.
    split_and!; [done|lia|lia|done|done].
Qed.

Definition of_node (nodeId : Z) (l : JobExecutionLog) : bool := el_NodeId l =? nodeId.

Lemma select_node_ids nodeId ids logs :
  sql_select (CAnd (CEq "node_id" (VInt nodeId)) (CIn "id" (VInt <$> ids))) (exec_row <$> logs) =
  exec_row <$> List.filter (keyed el_Id ids) (List.filter (of_node nodeId) logs).
Proof.
  rewrite (sql_select_enc exec_row _ (fun l => of_node nodeId l && keyed el_Id ids l)).
  - f_equal. induction logs as [|l logs IH]; [done|]. cbn [List.filter].
    destruct (of_node nodeId l); cbn [andb]; cbn [List.filter]; by rewrite IH.
  - intros l _. cbn [holds store_value]. f_equal; [apply bool_decide_VInt|].
    apply bool_decide_VInt_in.
Qed.

(** One batch of [GetUncommittedExecutionsLogForNode]: the LIMIT cuts nothing. *)
Lemma uncommitted_batch nodeId ids logs :
  Forall exec_wf logs -> NoDup (el_Id <$> logs) ->
  Z.of_nat (length ids) <= JobExecutionLogMaxBatchSize ->
  exists l, mapM scan_log (project_cols uncommitted_select <$>
      take (Z.to_nat JobExecutionLogMaxBatchSize) (order_desc "next_execution_time"
        (sql_select (CAnd (CEq "node_id" (VInt nodeId)) (CIn "id" (VInt <$> ids))) (exec_row <$> logs)))) =
    Some l /\ l ≡ₚ List.filter (keyed el_Id ids) (List.filter (of_node nodeId) logs).
Proof.
  intros Hwf Hnd Hlen. rewrite select_node_ids. set (xs := List.filter (keyed el_Id ids) _).
  pose proof (order_desc_perm "next_execution_time" (exec_row <$> xs)) as Hperm.
  rewrite take_ge.
  - edestruct (mapM_scan_perm exec_row (project_cols uncommitted_select) scan_log xs)
      as (l & Hl & Hp & _); [|exact Hperm|eauto].
    intros x [[Hx _]%elem_of_filter_bool _]%elem_of_filter_bool. apply scan_log_row.
    rewrite Forall_forall in Hwf. auto.
  - rewrite (Permutation_length Hperm), length_fmap.
    pose proof (length_keyed el_Id ids (List.filter (of_node nodeId) logs)
                  (NoDup_fmap_filter _ _ _ Hnd)). subst xs. lia.
Qed.

Lemma GetUncommittedExecutionsLogForNode_abs nodeId logs w :
  healthy w -> execs_abs (w_db w) false logs -> NoDup (el_Id <$> logs) -> nodeId <= MaxInt64 ->
  exists l, GetUncommittedExecutionsLogForNode nodeId w = Some (l, w) /\
    l ≡ₚ List.filter (of_node nodeId) logs.
Proof.
  intros Hw Habs Hnd Hn. unfold GetUncommittedExecutionsLogForNode.
  destruct (minMaxIds_abs _ false logs w Hw eq_refl Habs) as (lo & hi & Hmm & Hlo & Hhi & Hin & Hle).
  erewrite go_bind_Some by exact Hmm. cbn [fst snd].
  rewrite ExpandIdsRange_eq by go_lia. rewrite go_bind_eq. cbn [lift_opt].
  change (lift_opt (Some ?x) w) with (Some (x, w)). cbn iota beta. rewrite go_bind_eq.
  match goal with |- context [go_for_ret ?body _ _ _] =>
    destruct (read_batches el_Id id body lo (Z.to_nat (hi - lo + 1)) 10
                (List.filter (of_node nodeId) logs) w) as (l & Hl & Hp) end.
  - intros acc b Hb. destruct (batch_ids lo (Z.to_nat (hi - lo + 1)) 10 b) as (Hne & Hlen & Hr);
      [done|lia|done|]. unfold DBMaxVariableSize in Hlen.
    destruct (uncommitted_batch nodeId b logs (proj2 Habs) Hnd) as (l & Hl & Hp).
    { unfold JobExecutionLogMaxBatchSize. lia. }
    exists l. rewrite list_fmap_id. split; [|exact Hp]. destruct b as [|i b]; [done|].
    erewrite db_query_then; [done|done| |by change ExecutionsUnCommittedTableName
      with (executions_table false); rewrite (proj1 Habs)].
    apply query_refused_ok; [cbn [length]; rewrite length_fmap; unfold DBMaxVariableSize; lia|].
    cbn [forallb]. rewrite bindable_int, bindable_ids; [done| |done].
    eapply Forall_impl; [exact Hr|]. cbn beta. intros. go_lia.
  - intros x [Hx _]%elem_of_filter_bool. apply Hin in Hx. lia.
  - rewrite Hl. exists l. split; [done|]. by rewrite list_fmap_id in Hp.
Qed.

(** [GetUncommittedExecutionsLogForNode] gives a node every uncommitted
    log of its own, each once, and no other. *)
Theorem GetUncommittedExecutionsLogForNode_complete nodeId logs w :
  healthy w -> execs_abs (w_db w) false logs -> NoDup (el_Id <$> logs) -> nodeId <= MaxInt64 ->
  exists l, GetUncommittedExecutionsLogForNode nodeId w = Some (l, w) /\
    l ≡ₚ List.filter (fun x => el_NodeId x =? nodeId) logs.
Proof. apply GetUncommittedExecutionsLogForNode_abs. Qed.

(** ** Committing executions *)

(** A log as stored: numbered, its times in UTC. *)
Definition stored (id : Z) (l : JobExecutionLog) : JobExecutionLog :=
  mkJobExecutionLog id (el_UniqueId l) (el_State l) (el_NodeId l)
    (mkTime (t_ns (el_LastExecutionDatetime l)) "UTC")
    (mkTime (t_ns (el_NextExecutionDatetime l)) "UTC") (el_JobId l) (el_JobQueueVersion l)
    (el_ExecutionVersion l) (mkTime (t_ns (el_DataCreated l)) "UTC").

Fixpoint number (seq : Z) (logs : list JobExecutionLog) : list JobExecutionLog :=
  match logs with
  | [] => []
  | l :: ls => stored (seq + 1) l :: number (seq + 1) ls
  end.

Definition executions_td (committed : bool) : tabdef :=
  default (Tab "" [] None) (find_tabdef (executions_table committed)).

(** The values of a log, in range. *)
Definition exec_vals (l : JobExecutionLog) : Prop :=
  0 <= el_State l /\ 0 <= el_NodeId l /\ 0 <= el_JobId l /\ 0 <= el_JobQueueVersion l /\
  0 <= el_ExecutionVersion l.

Lemma number_wf seq logs :
  0 <= seq -> seq + Z.of_nat (length logs) < MaxInt64 -> Forall exec_vals logs ->
  Forall exec_wf (number seq logs).
Proof.
  intros Hs Hm H. revert seq Hs Hm. induction H as [|l ls (? & ? & ? & ? & ?) _ IH]; intros seq Hs Hm;
    cbn [number]; constructor.
  - cbn [length] in Hm. unfold exec_wf, stored; cbn. split_and!; (done || lia).
  - cbn [length] in Hm. apply IH; lia.
Qed.

(** Both column orders the writers use give the same row. *)
Lemma tuple_rows_number committed cols (params : JobExecutionLog -> list value) seq logs :
  (forall i l, tuple_row (executions_td committed) cols i (params l) = exec_row (stored i l)) ->
  tuple_rows (executions_td committed) cols seq (params <$> logs) = exec_row <$> number seq logs.
Proof.
  intros Hp. revert seq. induction logs as [|l ls IH]; intros seq; [done|].
  rewrite fmap_cons. cbn [tuple_rows number]. by rewrite fmap_cons, IH, Hp.
Qed.

Lemma execs_abs_append db committed cols params old logs :
  (forall i l, tuple_row (executions_td committed) cols i (params l) = exec_row (stored i l)) ->
  execs_abs db committed old -> Forall exec_vals logs ->
  let seq := t_seq (db_table db (executions_table committed)) in
  0 <= seq -> seq + Z.of_nat (length logs) < MaxInt64 ->
  execs_abs (db_append (executions_table committed) (executions_td committed) cols (params <$> logs) db)
    committed (old ++ number seq logs).
Proof.
  intros Hp [Hr Hwf] Hv seq Hs Hm. unfold execs_abs, db_rows in *. rewrite db_append_table.
  cbn [t_rows]. rewrite tuple_rows_number by done. rewrite Hr, fmap_app. split; [done|].
  apply Forall_app_2; [done|]. by apply number_wf.
Qed.

Lemma execution_row committed i l :
  tuple_row (executions_td committed) execution_insert_cols i (execution_params l) =
  exec_row (stored i l).
Proof. by destruct committed. Qed.

Lemma executions_find committed :
  find_tabdef (executions_table committed) = Some (executions_td committed).
Proof. by destruct committed. Qed.

(** A log whose job exists, with numbers and times the raft log carries. *)
Definition committable (db : Db) (l : JobExecutionLog) : bool :=
  acceptable db (executions_td true) execution_insert_cols (execution_params l).

Definition clean_message (nodeId seq : Z) (b : list JobExecutionLog) : PostProcess :=
  mkPostProcess CommandActionCleanUncommittedExecutionLogs [nodeId]
    (mkSQLResponse (Z.of_nat (length b)) (seq + Z.of_nat (length b))).

Fixpoint clean_messages (nodeId seq : Z) (bs : list (list JobExecutionLog)) : list PostProcess :=
  match bs with
  | [] => []
  | b :: bs' => clean_message nodeId seq b :: clean_messages nodeId (seq + Z.of_nat (length b)) bs'
  end.

Section Commit.
Context {codec : CommandCodec}.

Lemma batches_clean_messages nodeId seq bs :
  batches_messages ExecutionsCommittedTableName execution_insert_cols execution_params
    (fun _ => [nodeId]) CommandActionCleanUncommittedExecutionLogs bs seq =
  clean_messages nodeId seq bs.
Proof.
  revert seq. induction bs as [|b bs IH]; intros seq; [done|].
  cbn [batches_messages clean_messages]. rewrite IH. unfold batch_message, clean_message.
  by rewrite length_fmap.
Qed.

Lemma RaftInsertExecutionLogs_run logs nodeId com unc w :
  quiet w -> codec_total ->
  execs_abs (w_db w) true com -> execs_abs (w_db w) false unc ->
  Forall exec_vals logs -> forallb (committable (w_db w)) logs = true ->
  let seq := t_seq (db_table (w_db w) ExecutionsCommittedTableName) in
  0 <= seq -> seq + Z.of_nat (length logs) < MaxInt64 ->
  exists w', RaftInsertExecutionLogs logs nodeId w = Some (tt, w') /\
    execs_abs (w_db w') true (com ++ number seq logs) /\ execs_abs (w_db w') false unc /\
    w_post w' = w_post w ++ (if w_channel w then
      match logs with [] => [] | _ => clean_messages nodeId seq (Batch logs 9) end else []) /\
    w_now w' = w_now w /\ quiet w' /\
    (forall t, t <> ExecutionsCommittedTableName -> db_table (w_db w') t = db_table (w_db w) t).
Proof.
  intros Hq Hc H1 H2 Hv Hacc seq Hs Hm. destruct logs as [|l ls].
  { exists w. rewrite !app_nil_r. destruct (w_channel w); rewrite ?app_nil_r; by split_and!. }
  eexists. split; [|split_and!].
  - apply (raft_insert_Batch ExecutionsCommittedTableName (executions_td true) execution_insert_cols
             execution_params (fun _ => [nodeId]) CommandActionCleanUncommittedExecutionLogs
             (l :: ls) 9 w); try done.
    rewrite forallb_forall in Hacc |- *. intros v. rewrite in_map_iff. intros (x & <- & Hx). by apply (Hacc x).
  - by apply (execs_abs_append _ true).
  - destruct H2 as [H2 ?]. split; [|done]. rewrite <- H2. unfold db_rows. cbn [w_db with_post with_db].
    by rewrite db_append_other.
  - cbn [w_post with_post]. destruct (w_channel w); [by rewrite batches_clean_messages|done].
  - done.
  - done.
  - intros t Ht. cbn [w_db with_post with_db]. by rewrite db_append_other.
Qed.


(** Committing executions on the leader appends them all to the
    replicated table, in order and numbered, leaves the uncommitted table
    alone, and announces each batch to the node the logs came from. *)
Theorem RaftInsertExecutionLogs_commits logs nodeId com unc w :
  quiet w -> codec_total -> w_channel w = true ->
  execs_abs (w_db w) true com -> execs_abs (w_db w) false unc ->
  Forall exec_vals logs -> forallb (committable (w_db w)) logs = true ->
  let seq := t_seq (db_table (w_db w) ExecutionsCommittedTableName) in
  0 <= seq -> seq + Z.of_nat (length logs) < MaxInt64 ->
  exists w', RaftInsertExecutionLogs logs nodeId w = Some (tt, w') /\
    execs_abs (w_db w') true (com ++ number seq logs) /\ execs_abs (w_db w') false unc /\
    w_post w' = w_post w ++ match logs with [] => [] | _ => clean_messages nodeId seq (Batch logs 9) end.
Proof.
  intros Hq Hc Hch H1 H2 Hv Hacc seq Hs Hm.
  destruct (RaftInsertExecutionLogs_run logs nodeId com unc w Hq Hc H1 H2 Hv Hacc Hs Hm)
    as (w' & Hr & Hcom & Hunc & Hpost & _).
  exists w'. rewrite Hch in Hpost. by split_and!.
Qed.

End Commit.

(** ** Concrete runs *)

Definition sample_exec (id uid state job ver : Z) : JobExecutionLog :=
  mkJobExecutionLog id (pretty uid) state 2 (mkTime 5 "UTC") (mkTime 9 "UTC") job 1 ver (mkTime 4 "UTC").

Definition sample_com : list JobExecutionLog := [sample_exec 1 1 0 4 1; sample_exec 2 2 1 4 1].
Definition sample_unc : list JobExecutionLog := [sample_exec 3 3 0 4 2; sample_exec 7 4 0 5 1].

(** A job 4 of project 1, and executions in both tables. *)
Definition exec_db : Db :=
  mkDb (<["jobs" := Table [[("id", VInt 4); ("project_id", VInt 1)]] 4]>
        (<[ExecutionsCommittedTableName := Table (exec_row <$> sample_com) 2]>
         (<[ExecutionsUnCommittedTableName := Table (exec_row <$> sample_unc) 7]> (db_tabs db_empty)))) 7.
Definition exec_sample : World := mkWorld exec_db sample_now RaftLeader true [] [].

Lemma exec_sample_com : execs_abs exec_db true sample_com.
Proof. split; [reflexivity|]. repeat constructor; vm_compute; discriminate. Qed.
Lemma exec_sample_unc : execs_abs exec_db false sample_unc.
Proof. split; [reflexivity|]. repeat constructor; vm_compute; discriminate. Qed.

Lemma GetLastExecutionLogForJobIds_newest_witness :
  exists m, GetLastExecutionLogForJobIds [4; 6] exec_sample = Some (m, exec_sample) /\
    forall j, match m !! j with
      | Some l => j ∈ [4; 6] /\ l ∈ sample_com ++ sample_unc /\ el_JobId l = j /\
          forall l', l' ∈ sample_com ++ sample_unc -> el_JobId l' = j -> not_newer l' l
      | None => j ∈ [4; 6] -> forall l, l ∈ sample_com ++ sample_unc -> el_JobId l <> j
      end.
Proof.
  apply (GetLastExecutionLogForJobIds_newest [4; 6] sample_com sample_unc exec_sample).
  - reflexivity.
  - apply exec_sample_com.
  - apply exec_sample_unc.
  - repeat constructor; vm_compute; discriminate.
  - apply (bool_decide_unpack _). vm_compute. exact I.
Defined.

Lemma GetUncommittedExecutionsLogForNode_complete_witness :
  exists l, GetUncommittedExecutionsLogForNode 2 exec_sample = Some (l, exec_sample) /\
    l ≡ₚ List.filter (fun x => el_NodeId x =? 2) sample_unc.
Proof.
  apply (GetUncommittedExecutionsLogForNode_complete 2 sample_unc exec_sample).
  - reflexivity.
  - apply exec_sample_unc.
  - apply (bool_decide_unpack _). vm_compute. exact I.
  - vm_compute. discriminate.
Defined.

Lemma RaftInsertExecutionLogs_commits_witness :
  exists w', @RaftInsertExecutionLogs plain_codec [sample_exec 3 3 0 4 2] 2 exec_sample = Some (tt, w') /\
    execs_abs (w_db w') true (sample_com ++ number 2 [sample_exec 3 3 0 4 2]) /\
    execs_abs (w_db w') false sample_unc /\
    w_post w' = [mkPostProcess CommandActionCleanUncommittedExecutionLogs [2] (mkSQLResponse 1 3)].
Proof.
  apply (@RaftInsertExecutionLogs_commits plain_codec [sample_exec 3 3 0 4 2] 2 sample_com sample_unc
           exec_sample).
  - by split.
  - apply plain_codec_total.
  - reflexivity.
  - apply exec_sample_com.
  - apply exec_sample_unc.
  - repeat constructor; vm_compute; discriminate.
  - vm_compute. reflexivity.
  - vm_compute. discriminate.
  - vm_compute. reflexivity.
Defined.
