(* ===== verification/AsyncRepo.v ===== *)
(** * The async task repository: pkg/repository/async_task/async_tasks.go

    Like executions, async tasks have a local, uncommitted table and a
    replicated, committed one. *)

From stdpp Require Import base list gmap strings pretty.
From Stdlib Require Import ZArith Lia.
From S2P Require Import Prelude Models Batcher Sql Fsm Replication Inserts JobRepo.

#[local] Open Scope Z_scope.

Definition CommittedAsyncTableName : string := "async_tasks_committed".
Definition UnCommittedAsyncTableName : string := "async_tasks_uncommitted".
Definition async_table (committed : bool) : string :=
  if negb committed then UnCommittedAsyncTableName else CommittedAsyncTableName.

Definition async_insert_cols : list string :=
  ["request_id"; "input"; "output"; "state"; "service"; "date_created"].
Definition async_select : list string :=
  ["id"; "request_id"; "input"; "output"; "state"; "service"; "date_created"].

(** The state of a new task is 0 whatever the caller's says. *)
Definition async_params (now : Time) (task : AsyncTask) : list value :=
  [VText (at_RequestId task); VText (at_Input task); VText (at_Output task); VInt 0;
   VText (at_Service task); VTime (t_ns now)].

Definition scan_async_task (vs : list value) : option AsyncTask :=
  match vs with
  | [id; req; inp; out; st; svc; created] =>
      id ← scan_uint64 id; req ← scan_string req; inp ← scan_string inp; out ← scan_string out;
      st ← scan_uint64 st; svc ← scan_string svc; created ← scan_time created;
      Some (mkAsyncTask id req inp out svc st created)
  | _ => None
  end.

Definition async_task_zero : AsyncTask := mkAsyncTask 0 "" "" "" "" 0 time_zero.

(** The order in which SQLite returns the rows of a UNION. *)
Class UnionOrder := {
  union_order : list (list value) -> list (list value);
  union_order_perm l : union_order l ≡ₚ l }.

Section AsyncRepo.
Context {codec : CommandCodec} {uo : UnionOrder}.

(** [batch[0]] on an empty batch is out of range. *)
Definition AsyncBatchInsert (tasks : list AsyncTask) (committed : bool)
    : Go World (result GenericError (list Z)) :=
  now ← gets w_now;
  r ← go_for_ret (fun results batch =>
         match batch with
         | [] => crash
         | _ =>
             r ← conn_exec (Insert (async_table committed) async_insert_cols (length batch))
                   (concat (async_params now <$> batch));
             match r with
             | ExecErr e | ExecLate e => mret (inr (internal_error e))
             | ExecOk res =>
                 mret (inl (results ++
                   (u64 <$> zseq (LastInsertedId res - Z.of_nat (length batch) + 1) (length batch))))
             end
         end)
       (Batch tasks 5) [];
  match r with
  | inl results => mret (Ok results)
  | inr e => mret (Err e)
  end.

Definition RaftBatchInsert (tasks : list AsyncTask) (fromNodeId : Z)
    : Go World (result GenericError (list Z)) :=
  now ← gets w_now;
  r ← go_for_ret (fun results batch =>
         match batch with
         | [] => crash
         | _ =>
             r ← WriteCommandToRaftLog CommandTypeDbExecute
                   (Insert CommittedAsyncTableName async_insert_cols (length batch))
                   (concat (async_params now <$> batch)) [fromNodeId] CommandActionQueueJob;
             match r with
             | Err applyErr => mret (inr applyErr)
             | Ok None =>
                 mret (inr (HTTPGenericError StatusServiceUnavailable "service is unavailable"))
             | Ok (Some res) =>
                 let lastInsertedId := u64 (LastInsertedId (f_Data res)) in
                 ids ← lift_opt (ExpandIdsRange
                                   (u64 (lastInsertedId - Z.of_nat (length batch) + 1)) lastInsertedId);
                 mret (inl (results ++ ids))
             end
         end)
       (Batch tasks 6) [];
  match r with
  | inl results => mret (Ok results)
  | inr e => mret (Err e)
  end.

(** Both updates test the error of building the query, never that of
    running it, so they answer nil. *)
Definition RaftUpdateTaskState (task : AsyncTask) (state : AsyncTaskState) (output : string)
    : Go World (option GenericError) :=
  WriteCommandToRaftLog CommandTypeDbExecute (Update CommittedAsyncTableName ["state"; "output"] "id")
    [VInt (AsyncTaskState_num state); VText output; VInt (at_Id task)] [] 0;;
  mret None.

Definition UpdateTaskState (task : AsyncTask) (state : AsyncTaskState) (output : string)
    : Go World (option GenericError) :=
  conn_exec (Update UnCommittedAsyncTableName ["state"; "output"] "id")
    [VInt (AsyncTaskState_num state); VText output; VInt (at_Id task)];;
  mret None.

(** UNION drops duplicates; the scans overwrite one another, so the last row
    is the answer, and no row is the zero task. *)
Definition GetTask (taskId : Z) : Go World (result GenericError AsyncTask) :=
  q ← db_query [VInt taskId; VInt taskId]
        (fun db => union_order (remove_dups (project_cols async_select <$>
                     (sql_select (CEq "id" (VInt taskId)) (db_rows db CommittedAsyncTableName) ++
                      sql_select (CEq "id" (VInt taskId)) (db_rows db UnCommittedAsyncTableName)))))
        scan_async_task;
  match q with
  | QQueryErr e | QScanErr e | QRowsErr _ e => mret (Err (internal_error e))
  | QRows l => mret (Ok (default async_task_zero (last l)))
  end.

Definition countAsyncTasks (committed : bool) : Go World Z :=
  q ← db_query_lax [] (count_rows (fun db => db_rows db (async_table committed))) 0 scan_count;
  match q with
  | QRows l => mret (default 0 (last l))
  | QQueryErr _ | QScanErr _ | QRowsErr _ _ => mret 0
  end.

Definition getAsyncTasksMinMaxIds (committed : bool) : Go World (Z * Z) :=
  q ← db_query_lax []
        (fun db => let rows := db_rows db (async_table committed) in
                   [match sql_min "id" rows, sql_max "id" rows with
                    | Some lo, Some hi => [VInt lo; VInt hi]
                    | _, _ => [VNull; VNull]
                    end])
        (0, 0)
        (fun vs => match vs with
                   | [lo; hi] => lo ← scan_uint64 lo; hi ← scan_uint64 hi; Some (lo, hi)
                   | _ => None
                   end);
  match q with
  | QRows l => mret (default (0, 0) (last l))
  | QQueryErr _ | QScanErr _ | QRowsErr _ _ => mret (0, 0)
  end.

Definition GetAllTasks (committed : bool) : Go World (result GenericError (list AsyncTask)) :=
  mm ← getAsyncTasksMinMaxIds committed;
  countAsyncTasks committed;;
  expandedIds ← lift_opt (ExpandIdsRange (fst mm) (snd mm));
  r ← go_for_ret (fun results batch =>
         match batch with
         | [] => crash
         | _ =>
             let vs := VInt <$> batch in
             q ← db_query vs
                   (fun db => project_cols async_select <$>
                      sql_select (CIn "id" vs) (db_rows db (async_table committed)))
                   scan_async_task;
             match q with
             | QRows l => mret (inl (results ++ l))
             | QQueryErr e | QScanErr e | QRowsErr _ e => mret (inr (internal_error e))
             end
         end)
       (Batch expandedIds 7) [];
  match r with
  | inl results => mret (Ok results)
  | inr e => mret (Err e)
  end.

End AsyncRepo.
