(* ===== verification/AccountRepos.v ===== *)
(** * Projects and credentials: pkg/repository/project/project.go and
    pkg/repository/credential/credential.go

    A function that takes a pointer returns what it leaves there beside its
    error. *)

From stdpp Require Import base list gmap strings pretty.
From Stdlib Require Import ZArith Lia.
From S2P Require Import Prelude Models Batcher Sql Fsm Replication Inserts JobRepo.

#[local] Open Scope Z_scope.

(** ** Projects *)

Module ProjectRepo.
Section ProjectRepo.
Context {codec : CommandCodec}.

Definition ProjectsTableName : string := "projects".
Definition project_select : list string := ["id"; "name"; "description"; "date_created"].

Definition scan_project (vs : list value) : option Project :=
  match vs with
  | [id; name; desc; created] =>
      id ← scan_uint64 id; name ← scan_string name; desc ← scan_string desc;
      created ← scan_time created;
      Some (mkProject id name desc created)
  | _ => None
  end.

Definition project_rows (c : cond) (db : Db) : list (list value) :=
  project_cols project_select <$> sql_select c (db_rows db ProjectsTableName).

(** The loop both lookups share, with their message for no row. *)
Definition read_project (project : Project) (notFound : string) (q : query_result Project)
    : Go World (Project * option GenericError) :=
  match q with
  | QQueryErr e | QScanErr e => mret (project, Some (internal_error e))
  | QRowsErr _ _ => crash
  | QRows l =>
      match last l with
      | None => mret (project, Some (HTTPGenericError StatusNotFound notFound))
      | Some p => mret (p, None)
      end
  end.

Definition GetOneByName (project : Project) : Go World (Project * option GenericError) :=
  q ← db_query [VText (p_Name project)] (project_rows (CEq "name" (VText (p_Name project)))) scan_project;
  read_project project ("project with name : " +:+ p_Name project +:+ " does not exist") q.

Definition GetOneByID (project : Project) : Go World (Project * option GenericError) :=
  q ← db_query [VInt (p_ID project)] (project_rows (CEq "id" (VInt (p_ID project)))) scan_project;
  read_project project "project does not exist" q.

(** The lookup by name goes to [project] itself, and [projectWithName] keeps
    its id of 0, so the test on it never holds. *)
Definition CreateOne (project : Project) : Go World (Project * result GenericError Z) :=
  if Nat.ltb (String.length (p_Name project)) 1
  then mret (project, Err (HTTPGenericError StatusBadRequest "name field is required"))
  else if Nat.ltb (String.length (p_Description project)) 1
  then mret (project, Err (HTTPGenericError StatusBadRequest "description field is required"))
  else
    let projectWithName := mkProject 0 (p_Name project) "" time_zero in
    pe ← GetOneByName project;
    let project := fst pe in
    if 0 <? p_ID projectWithName
    then mret (project, Err (HTTPGenericError StatusBadRequest
           ("another project exist with the same name, project with id " +:+
            pretty (p_ID projectWithName) +:+ " has the same name")))
    else
      now ← gets w_now;
      r ← WriteCommandToRaftLog CommandTypeDbExecute
            (Insert ProjectsTableName ["name"; "description"; "date_created"] 1)
            [VText (p_Name project); VText (p_Description project); VTime (t_ns now)] [] 0;
      match r with
      | Err applyErr => mret (project, Err (internal_error (ErrorString applyErr)))
      | Ok None =>
          mret (project, Err (HTTPGenericError StatusServiceUnavailable "service is unavailable"))
      | Ok (Some res) =>
          let insertedId := LastInsertedId (f_Data res) in
          pe ← GetOneByID (mkProject (u64 insertedId) (p_Name project) (p_Description project)
                             (p_DateCreated project));
          match snd pe with
          | Some getErr => mret (fst pe, Err (internal_error (ErrorString getErr)))
          | None => mret (fst pe, Ok (u64 insertedId))
          end
      end.

(** The ids without duplicates; the order, that of a map, does not matter to
    IN. *)
Definition GetBatchProjectsByIDs (projectIds : list Z) : Go World (result GenericError (list Project)) :=
  match projectIds with
  | [] => mret (Ok [])
  | _ =>
      let ids := VInt <$> remove_dups projectIds in
      q ← db_query ids (project_rows (CIn "id" ids)) scan_project;
      match q with
      | QQueryErr _ | QRowsErr _ _ => crash
      | QScanErr e => mret (Err (internal_error e))
      | QRows l => mret (Ok l)
      end
  end.

Definition List_ (offset limit : Z) : Go World (result GenericError (list Project)) :=
  q ← db_query [] (fun db => project_cols project_select <$>
                     page offset limit (db_rows db ProjectsTableName)) scan_project;
  match q with
  | QQueryErr _ => crash
  | QScanErr e | QRowsErr _ e => mret (Err (internal_error e))
  | QRows l => mret (Ok l)
  end.

Definition Count : Go World (result GenericError Z) :=
  q ← db_query [] (count_rows (fun db => db_rows db ProjectsTableName)) scan_count;
  match q with
  | QQueryErr _ => crash
  | QScanErr e => mret (Err (HTTPGenericError 500 e))
  | QRowsErr l _ | QRows l => mret (Ok (u64 (default 0 (last l))))
  end.

Definition UpdateOneByID (project : Project) : Go World (result GenericError Z) :=
  r ← WriteCommandToRaftLog CommandTypeDbExecute (Update ProjectsTableName ["description"] "id")
        [VText (p_Description project); VInt (p_ID project)] [] 0;
  match r with
  | Err applyErr => mret (Err (internal_error (ErrorString applyErr)))
  | Ok None => mret (Err (HTTPGenericError StatusServiceUnavailable "service is unavailable"))
  | Ok (Some res) => mret (Ok (u64 (RowsAffected (f_Data res))))
  end.

Definition DeleteOneByID (project : Project) : Go World (result GenericError Z) :=
  jobs ← GetAllByProjectID (p_ID project) 0 1 "id";
  match jobs with
  | Err getAllErr => mret (Err (internal_error (ErrorString getAllErr)))
  | Ok (_ :: _) => mret (Err (HTTPGenericError StatusBadRequest "cannot delete project with jobs"))
  | Ok [] =>
      r ← WriteCommandToRaftLog CommandTypeDbExecute (Delete ProjectsTableName "id")
            [VInt (p_ID project)] [] 0;
      match r with
      | Err applyErr => mret (Err applyErr)
      | Ok None => mret (Err (HTTPGenericError StatusServiceUnavailable "service is unavailable"))
      | Ok (Some res) => mret (Ok (u64 (RowsAffected (f_Data res))))
      end
  end.

End ProjectRepo.
End ProjectRepo.

(** ** Credentials *)

Module CredentialRepo.
Section CredentialRepo.
Context {codec : CommandCodec}.

Definition CredentialTableName : string := "credentials".
Definition credential_select : list string :=
  ["id"; "archived"; "api_key"; "api_secret"; "date_created"].

Definition scan_credential (vs : list value) : option Credential :=
  match vs with
  | [id; arch; key; secret; created] =>
      id ← scan_uint64 id; arch ← scan_bool arch; key ← scan_string key;
      secret ← scan_string secret; created ← scan_time created;
      Some (mkCredential id arch key secret created)
  | _ => None
  end.

Definition credential_rows (c : cond) (db : Db) : list (list value) :=
  project_cols credential_select <$> sql_select c (db_rows db CredentialTableName).

(** The error of the raft log is not looked at: without an answer the
    service is unavailable. *)
Definition CreateOne (credential : Credential) : Go World (result GenericError Z) :=
  now ← gets w_now;
  r ← WriteCommandToRaftLog CommandTypeDbExecute
        (Insert CredentialTableName ["archived"; "api_key"; "api_secret"; "date_created"] 1)
        [VBool (cr_Archived credential); VText (cr_ApiKey credential); VText (cr_ApiSecret credential);
         VTime (t_ns now)] [] 0;
  match r with
  | Ok (Some res) => mret (Ok (u64 (LastInsertedId (f_Data res))))
  | _ => mret (Err (HTTPGenericError StatusServiceUnavailable "service is unavailable"))
  end.

(** An [error] of this function is a driver error's text or a
    [GenericError]; [rows.Err()] is answered with the nil of [Query]. *)
Definition GetOneID (credential : Credential)
    : Go World (Credential * option (string + GenericError)) :=
  q ← db_query [VInt (cr_ID credential)] (credential_rows (CEq "id" (VInt (cr_ID credential))))
        scan_credential;
  match q with
  | QQueryErr e | QScanErr e => mret (credential, Some (inl e))
  | QRowsErr l _ => mret (default credential (last l), None)
  | QRows l =>
      match last l with
      | None => mret (credential, Some (inr (HTTPGenericError StatusNotFound "credential not found")))
      | Some c => mret (c, None)
      end
  end.

Definition GetByAPIKey (credential : Credential) : Go World (Credential * option GenericError) :=
  q ← db_query [VText (cr_ApiKey credential)]
        (credential_rows (CEq "api_key" (VText (cr_ApiKey credential)))) scan_credential;
  match q with
  | QQueryErr e => mret (credential, Some (HTTPGenericError 404 e))
  | QScanErr _ | QRowsErr _ _ => crash
  | QRows l =>
      match last l with
      | None => mret (credential, Some (HTTPGenericError StatusNotFound "credential doesn't exist"))
      | Some c => mret (c, None)
      end
  end.

Definition Count : Go World (result GenericError Z) :=
  q ← db_query [] (count_rows (fun db => db_rows db CredentialTableName)) scan_count;
  match q with
  | QQueryErr e | QScanErr e => mret (Err (HTTPGenericError 500 e))
  | QRowsErr l _ | QRows l => mret (Ok (u64 (default 0 (last l))))
  end.

Definition List_ (offset limit : Z) (orderBy : string) : Go World (result GenericError (list Credential)) :=
  q ← db_query [] (fun db => project_cols credential_select <$>
                     page offset limit (order_by orderBy (db_rows db CredentialTableName)))
        scan_credential;
  match q with
  | QQueryErr e => mret (Err (HTTPGenericError 404 e))
  | QScanErr e => mret (Err (HTTPGenericError 500 e))
  | QRowsErr _ _ => crash
  | QRows l => mret (Ok l)
  end.

Definition UpdateOneByID (credential : Credential) : Go World (result GenericError Z) :=
  r ← WriteCommandToRaftLog CommandTypeDbExecute
        (Update CredentialTableName ["archived"; "api_key"; "api_secret"] "id")
        [VBool (cr_Archived credential); VText (cr_ApiKey credential); VText (cr_ApiSecret credential);
         VInt (cr_ID credential)] [] 0;
  mret (rows_or_unavailable r).

Definition DeleteOneByID (credential : Credential) : Go World (result GenericError Z) :=
  r ← WriteCommandToRaftLog CommandTypeDbExecute (Delete CredentialTableName "id")
        [VInt (cr_ID credential)] [] 0;
  mret (rows_or_unavailable r).

End CredentialRepo.
End CredentialRepo.
