(* ===== verification/SharedRepo.v ===== *)
(** * The shared repository: pkg/shared_repo/shared_repo.go

    Bulk reads, inserts and deletes of execution logs and async tasks, on the
    node's database or on the one it recovers.  Here a [World] stands for the
    database handed in. *)

From stdpp Require Import base list gmap strings pretty.
From Stdlib Require Import ZArith Lia.
From S2P Require Import Prelude Models Batcher Sql Fsm Replication Inserts JobRepo.
From S2P Require Import ExecutionsRepo AsyncRepo.

#[local] Open Scope Z_scope.

Definition shared_select : list string :=
  ["unique_id"; "state"; "node_id"; "last_execution_time"; "next_execution_time"; "job_id";
   "job_queue_version"; "execution_version"; "date_created"].

(** The select list has no id: the log keeps its zero. *)
Definition scan_shared_log (vs : list value) : option JobExecutionLog :=
  match vs with
  | [uid; st; node; lt; nt; job; qver; ver; created] =>
      uid ← scan_string uid; st ← scan_uint64 st; node ← scan_uint64 node; lt ← scan_time lt;
      nt ← scan_time nt; job ← scan_uint64 job; qver ← scan_uint64 qver; ver ← scan_uint64 ver;
      created ← scan_time created;
      Some (mkJobExecutionLog 0 uid st node lt nt job qver ver created)
  | _ => None
  end.

Section SharedRepo.

(** The first query binds two arguments to a text without placeholders: the
    driver ignores them.  The second one is opened before the count is
    looked at. *)
Definition GetExecutionLogs (committed : bool) : Go World (result string (list JobExecutionLog)) :=
  let table := executions_table committed in
  q ← db_query [] (count_rows (fun db => db_rows db table)) scan_count;
  match q with
  | QQueryErr e | QScanErr e | QRowsErr _ e => mret (Err e)
  | QRows l =>
      let count := default 0 (last l) in
      q ← db_query_lax []
            (fun db => let rows := db_rows db table in
                       [match sql_max "id" rows, sql_min "id" rows with
                        | Some hi, Some lo => [VInt hi; VInt lo]
                        | _, _ => [VNull; VNull]
                        end])
            None
            (fun vs => match vs with
                       | [hi; lo] => hi ← scan_int64 hi; lo ← scan_int64 lo; Some (Some (hi, lo))
                       | _ => None
                       end);
      match q with
      | QQueryErr e => mret (Err e)
      | QScanErr _ => crash
      | QRowsErr _ e => if count <? 1 then mret (Ok []) else mret (Err e)
      | QRows l =>
          if count <? 1 then mret (Ok [])
          else
            match last l with
            | Some None => mret (Err "sql: Scan error on column")
            | mm =>
                let '(maxId, minId) := default (0, 0) (default None mm) in
                let ids := zseq minId (Z.to_nat (maxId - minId + 1)) in
                r ← go_for_ret (fun executionLogs batch =>
                       match batch with
                       | [] => crash
                       | _ =>
                           let vs := VInt <$> batch in
                           q ← db_query vs
                                 (fun db => project_cols shared_select <$>
                                    sql_select (CIn "id" vs) (db_rows db table))
                                 scan_shared_log;
                           match q with
                           | QQueryErr e | QScanErr e => mret (inr e)
                           | QRowsErr l _ | QRows l => mret (inl (executionLogs ++ l))
                           end
                       end)
                     (Batch ids 7) [];
                match r with
                | inl executionLogs => mret (Ok executionLogs)
                | inr e => mret (Err e)
                end
            end
      end
  end.

(** Not implemented in the source: no tasks, no error. *)
Definition GetAsyncTasksLogs (committed : bool) : Go World (result string (list AsyncTask)) :=
  mret (Ok []).

(** The loop of the writers: the first error leaves, and [batch[0]] of an
    empty batch is out of range. *)
Definition each_batch {A} (exec : list A -> Go World exec_result) (batches : list (list A))
    : Go World (option string) :=
  r ← go_for_ret (fun (_ : unit) batch =>
         match batch with
         | [] => crash
         | _ =>
             r ← exec batch;
             match r with
             | ExecErr e => mret (inr e)
             | ExecOk _ | ExecLate _ => mret (inl tt)
             end
         end) batches tt;
  match r with
  | inl _ => mret None
  | inr e => mret (Some e)
  end.

Definition shared_insert_cols : list string :=
  ["unique_id"; "state"; "node_id"; "last_execution_time"; "next_execution_time"; "job_id";
   "date_created"; "job_queue_version"; "execution_version"].

Definition shared_params (l : JobExecutionLog) : list value :=
  [VText (el_UniqueId l); VInt (el_State l); VInt (el_NodeId l);
   VTime (t_ns (el_LastExecutionDatetime l)); VTime (t_ns (el_NextExecutionDatetime l));
   VInt (el_JobId l); VTime (t_ns (el_DataCreated l)); VInt (el_JobQueueVersion l);
   VInt (el_ExecutionVersion l)].

Definition InsertExecutionLogs (committed : bool) (jobExecutionLogs : list JobExecutionLog)
    : Go World (option string) :=
  each_batch (fun batch =>
      db_exec (Insert (executions_table committed) shared_insert_cols (length batch))
        (concat (shared_params <$> batch)))
    (Batch jobExecutionLogs 9).

Definition DeleteExecutionLogs (committed : bool) (jobExecutionLogs : list JobExecutionLog)
    : Go World (option string) :=
  each_batch (fun batch =>
      db_exec (DeleteIn (executions_table committed) "unique_id" (length batch))
        ((fun l => VText (el_UniqueId l)) <$> batch))
    (Batch jobExecutionLogs 1).

Definition shared_async_params (t : AsyncTask) : list value :=
  [VText (at_RequestId t); VText (at_Input t); VText (at_Output t); VInt (at_State t);
   VText (at_Service t); VTime (t_ns (at_DateCreated t))].

Definition InsertAsyncTasksLogs (committed : bool) (asyncTasks : list AsyncTask)
    : Go World (option string) :=
  each_batch (fun batch =>
      conn_exec (Insert (async_table committed) async_insert_cols (length batch))
        (concat (shared_async_params <$> batch)))
    (Batch asyncTasks 6).

Definition DeleteAsyncTasksLogs (committed : bool) (asyncTasks : list AsyncTask)
    : Go World (option string) :=
  each_batch (fun batch =>
      db_exec (DeleteIn (async_table committed) "request_id" (length batch))
        ((fun t => VText (at_RequestId t)) <$> batch))
    (Batch asyncTasks 1).

End SharedRepo.
