(* ===== verification/SharedFacts.v ===== *)
(** * What the shared repository promises

    Execution logs written to a table of a node's database are the ones read
    back, and deleting them by their unique ids leaves the others. *)

From stdpp Require Import base list gmap strings pretty sorting.
From Stdlib Require Import ZArith Lia.
From S2P Require Import Prelude Models Batcher Sql Fsm Replication Inserts Reads JobQueueRepo.
From S2P Require Import JobRepo ExecutionsRepo ExecutionsFacts AsyncRepo SharedRepo.

#[local] Open Scope Z_scope.

(** ** Reading *)

(** The select list of [GetExecutionLogs] leaves the id out. *)
Definition forget_id (l : JobExecutionLog) : JobExecutionLog :=
  mkJobExecutionLog 0 (el_UniqueId l) (el_State l) (el_NodeId l) (el_LastExecutionDatetime l)
    (el_NextExecutionDatetime l) (el_JobId l) (el_JobQueueVersion l) (el_ExecutionVersion l)
    (el_DataCreated l).

Lemma scan_shared_row l :
  exec_wf l -> scan_shared_log (project_cols shared_select (exec_row l)) = Some (forget_id l).
Proof. scan_exec. Qed.

Lemma GetExecutionLogs_abs committed logs w :
  healthy w -> execs_abs (w_db w) committed logs ->
  exists l, GetExecutionLogs committed w = Some (Ok l, w) /\ l ≡ₚ forget_id <$> logs.
Proof.
  intros Hw [Hr Hwf]. unfold GetExecutionLogs.
  erewrite (db_query_then _ _ _ [Z.of_nat (length logs)]); [|done|done|].
  2: { unfold count_rows. rewrite Hr, length_fmap. done. }
  cbn beta iota. rewrite db_query_lax_then by done. cbn [last default from_option].
  destruct (decide (logs = [])) as [->|Hne]; [by exists []|].
  assert (1 <= Z.of_nat (length logs)) by (destruct logs; [done|cbn [length]; lia]).
  rewrite Hr.
  destruct (min_max_enc exec_row el_Id exec_row_id logs Hne) as (lo & hi & -> & -> & Hb & Hlo & Hhi).
  rewrite Forall_forall in Hwf.
  assert (hi < MaxInt64) by (apply list_elem_of_fmap in Hhi as (x & -> & Hx); by apply Hwf in Hx as [[_ ?] _]).
  assert (lo <= hi) by (destruct logs as [|x logs]; [done|]; specialize (Hb x ltac:(by left)); lia).
  cbn. rewrite (proj2 (Z.ltb_ge _ _)) by done. rewrite go_bind_eq.
  match goal with |- context [go_for_ret ?body _ _ _] =>
    destruct (read_batches el_Id forget_id body lo (Z.to_nat (hi - lo + 1)) 7 logs w) as (l & Hl & Hp) end.
  - intros acc b Hb'. destruct (batch_ids lo (Z.to_nat (hi - lo + 1)) 7 b) as (Hnb & Hlen & Hrng);
      [done|lia|done|]. unfold DBMaxVariableSize in Hlen.
    eexists. split; [|reflexivity]. destruct b as [|i b]; [done|].
    erewrite db_query_then; [done|done| |].
    + apply query_refused_ok; [rewrite length_fmap; unfold DBMaxVariableSize; lia|].
      apply bindable_ids. eapply Forall_impl; [exact Hrng|]. cbn beta. intros. go_lia.
    + rewrite Hr. apply (mapM_scan_ids exec_row el_Id exec_row_id). intros x Hx.
      apply scan_shared_row. auto.
  - intros x Hx%Hb. lia.
  - rewrite Hl. by exists l.
Qed.

(** ** Writing *)

Lemma shared_row committed i l :
  tuple_row (executions_td committed) shared_insert_cols i (shared_params l) = exec_row (stored i l).
Proof. by destruct committed. Qed.

(** A log whose job exists, with numbers the driver binds. *)
Definition insertable (db : Db) (committed : bool) (l : JobExecutionLog) : bool :=
  storable db (executions_td committed) shared_insert_cols (shared_params l) &&
  forallb bindable (shared_params l).

Lemma InsertExecutionLogs_healthy committed logs w :
  healthy w -> logs <> [] -> forallb (insertable (w_db w) committed) logs = true ->
  InsertExecutionLogs committed logs w =
  Some (None, with_db (db_append (executions_table committed) (executions_td committed)
                         shared_insert_cols (shared_params <$> logs) (w_db w)) w).
Proof.
  intros Hw Hne Hi. unfold InsertExecutionLogs, each_batch. rewrite go_bind_eq.
  rewrite forallb_forall in Hi.
  erewrite (local_insert_Batch (executions_table committed) (executions_td committed)
              shared_insert_cols shared_params); try done; try (by destruct committed).
  - intros b w' Hb Hw' Hst.
    destruct b as [|x b]; [by apply Batch_nonempty in Hb|]. set (bb := x :: b) in *.
    rewrite go_bind_eq. rewrite <- (length_fmap shared_params).
    erewrite (db_exec_append _ (executions_td committed)); try done; try (by destruct committed).
    + rewrite length_fmap. pose proof (Batch_bounded logs 9 bb ltac:(done) Hb).
      unfold DBMaxVariableSize in *. cbn [length shared_insert_cols]. lia.
    + apply forallb_forall. intros v. rewrite in_map_iff. intros (y & <- & Hy).
      assert (In y logs) as Hy'%Hi%andb_prop; [|tauto].
      rewrite <- (Batch_concat logs 9). apply in_concat. exists bb. by rewrite <- list_elem_of_In.
  - apply forallb_forall. intros v. rewrite in_map_iff. intros (y & <- & Hy).
    by apply Hi, andb_prop in Hy as [? _].
Qed.

(** What [InsertExecutionLogs] writes to either table of a database,
    [GetExecutionLogs] reads back after what was there, whatever the number
    of batches: nothing lost, nothing twice. *)
Theorem InsertExecutionLogs_GetExecutionLogs committed old logs w :
  healthy w -> execs_abs (w_db w) committed old -> logs <> [] ->
  Forall exec_vals logs -> forallb (insertable (w_db w) committed) logs = true ->
  let seq := t_seq (db_table (w_db w) (executions_table committed)) in
  0 <= seq -> seq + Z.of_nat (length logs) < MaxInt64 ->
  exists w' l,
    InsertExecutionLogs committed logs w = Some (None, w') /\
    GetExecutionLogs committed w' = Some (Ok l, w') /\
    l ≡ₚ forget_id <$> (old ++ number seq logs).
Proof.
  intros Hw Ha Hne Hv Hi seq Hs Hm. rewrite InsertExecutionLogs_healthy by done.
  edestruct (GetExecutionLogs_abs committed (old ++ number seq logs)) as (l & Hl & Hp);
    [| |do 2 eexists; split; [done|]; split; [exact Hl|exact Hp]]; [done|].
  apply execs_abs_append; try done. apply shared_row.
Qed.

(** ** Deleting *)

(** Nothing refers to the executions: the cascade stops at once. *)
Lemma delete_ids_leaf fuel tabs t ids :
  forallb (fun td => match td_fk td with Some (_, p) => negb (String.eqb p t) | None => true end)
    GetSetupSQL = true ->
  delete_ids (S fuel) tabs t ids =
  alter (fun tab => Table (List.filter (fun r => negb (bool_decide (row_id r ∈ ids))) (t_rows tab))
                      (t_seq tab)) t tabs.
Proof.
  intros Hleaf. cbn [delete_ids]. apply foldl_id. intros a td Htd.
  rewrite forallb_forall in Hleaf. specialize (Hleaf td (proj1 (list_elem_of_In _ _) Htd)).
  destruct (td_fk td) as [[c p]|]; [|done]. by destruct (String.eqb p t).
Qed.

Lemma db_rows_alter db t f last :
  f [] = [] ->
  db_rows (mkDb (alter (fun tab => Table (f (t_rows tab)) (t_seq tab)) t (db_tabs db)) last) t =
  f (db_rows db t).
Proof.
  intros Hf. unfold db_rows, db_table. cbn [db_tabs]. rewrite lookup_alter_eq.
  by destruct (db_tabs db !! t).
Qed.

Definition has_uid (uids : list string) (l : JobExecutionLog) : bool :=
  bool_decide (el_UniqueId l ∈ uids).

Lemma key_is_uid uids l : key_is "unique_id" (VText <$> uids) (exec_row l) = has_uid uids l.
Proof.
  unfold key_is, has_uid. change (col "unique_id" (exec_row l)) with (VText (el_UniqueId l)).
  induction uids as [|u uids IH]; [done|]. rewrite fmap_cons. cbn [existsb]. rewrite IH.
  cbn [store_value]. destruct (decide (el_UniqueId l = u)) as [->|Hne].
  - rewrite (bool_decide_eq_true_2 (VText u = VText u)) by done. symmetry.
    apply bool_decide_eq_true_2. by left.
  - rewrite (bool_decide_eq_false_2 (VText _ = VText u)) by congruence. cbn [orb].
    apply bool_decide_ext. set_solver.
Qed.

Lemma filter_key_uid uids logs :
  List.filter (key_is "unique_id" (VText <$> uids)) (exec_row <$> logs) =
  exec_row <$> List.filter (has_uid uids) logs.
Proof.
  apply (sql_select_enc exec_row (CIn "unique_id" (VText <$> uids))). intros l _. apply key_is_uid.
Qed.

(** Deleting the ids of the rows a test hits leaves the rows it misses. *)
Lemma filter_ids_out (p : JobExecutionLog -> bool) logs :
  NoDup (el_Id <$> logs) ->
  List.filter (fun r => negb (bool_decide (row_id r ∈ row_id <$> (exec_row <$> List.filter p logs))))
    (exec_row <$> logs) = exec_row <$> List.filter (fun l => negb (p l)) logs.
Proof.
  intros Hnd. assert (Hid : row_id <$> (exec_row <$> List.filter p logs) = el_Id <$> List.filter p logs).
  { rewrite <- list_fmap_compose. by apply list_fmap_ext. }
  rewrite Hid. clear Hid.
  assert (H : forall l, l ∈ logs -> bool_decide (el_Id l ∈ el_Id <$> List.filter p logs) = p l).
  { intros l Hl. destruct (p l) eqn:E.
    - apply bool_decide_eq_true_2, list_elem_of_fmap_2. by apply elem_of_filter_bool.
    - apply bool_decide_eq_false_2. intros (x & Hx & [Hin Hp]%elem_of_filter_bool)%list_elem_of_fmap.
      assert (x = l) by (by apply (NoDup_fmap_inj el_Id logs)). congruence. }
  revert H. generalize (el_Id <$> List.filter p logs) as ids. clear Hnd. intros ids H.
  induction logs as [|l logs IH]; [done|]. rewrite fmap_cons. cbn [List.filter].
  change (row_id (exec_row l)) with (el_Id l). rewrite H by (by left).
  rewrite IH by (intros; apply H; by right). by destruct (p l).
Qed.

Definition drop_uids (uids : list string) (logs : list JobExecutionLog) : list JobExecutionLog :=
  List.filter (fun l => negb (has_uid uids l)) logs.

Lemma delete_where_uids db committed uids logs :
  execs_abs db committed logs -> NoDup (el_Id <$> logs) ->
  execs_abs (fst (delete_where db (executions_table committed) "unique_id" (VText <$> uids))) committed
    (drop_uids uids logs).
Proof.
  intros [Hr Hwf] Hnd. split.
  - unfold delete_where. cbn [fst]. rewrite Hr, filter_key_uid.
    change cascade_depth with (S 8). rewrite delete_ids_leaf by (by destruct committed).
    rewrite (db_rows_alter db _ (List.filter _)) by done. by rewrite Hr, filter_ids_out.
  - rewrite Forall_forall in Hwf |- *. intros l [Hl _]%elem_of_filter_bool. auto.
Qed.

Lemma drop_uids_app u v logs : drop_uids (u ++ v) logs = drop_uids v (drop_uids u logs).
Proof.
  unfold drop_uids, has_uid. induction logs as [|l logs IH]; [done|]. cbn [List.filter].
  destruct (decide (el_UniqueId l ∈ u)) as [Hu|Hu].
  - rewrite (bool_decide_eq_true_2 _ Hu), bool_decide_eq_true_2 by set_solver. done.
  - rewrite (bool_decide_eq_false_2 _ Hu). cbn [negb List.filter]. rewrite IH.
    by rewrite (bool_decide_ext (el_UniqueId l ∈ u ++ v) (el_UniqueId l ∈ v)) by set_solver.
Qed.

Lemma db_exec_delete_uids committed b logs w :
  healthy w -> execs_abs (w_db w) committed logs -> NoDup (el_Id <$> logs) -> b <> [] ->
  Z.of_nat (length b) <= DBMaxVariableSize ->
  exists res db', db_exec (DeleteIn (executions_table committed) "unique_id" (length b)) (VText <$> b) w =
    Some (ExecOk res, with_db db' w) /\ execs_abs db' committed (drop_uids b logs).
Proof.
  intros Hw Ha Hnd Hne Hlen. rewrite db_exec_healthy; [|done|].
  - unfold sql_exec. cbn [placeholders]. rewrite (proj2 (Z.ltb_ge _ _)) by done.
    rewrite length_fmap, Nat.eqb_refl. cbn [negb]. destruct (Nat.eqb_spec (length b) 0) as [E|_];
      [by destruct b|].
    pose proof (delete_where_uids (w_db w) committed b logs Ha Hnd) as Hd.
    destruct (delete_where _ _ _ _) as [db' res]. by exists res, db'.
  - apply forallb_forall. intros v. rewrite in_map_iff. by intros (x & <- & _).
Qed.

Lemma each_batch_delete committed (bs : list (list JobExecutionLog)) old w :
  healthy w -> execs_abs (w_db w) committed old -> NoDup (el_Id <$> old) ->
  Forall (fun b => b <> [] /\ Z.of_nat (length b) <= DBMaxVariableSize) bs ->
  exists w', each_batch (fun batch =>
        db_exec (DeleteIn (executions_table committed) "unique_id" (length batch))
          ((fun l => VText (el_UniqueId l)) <$> batch)) bs w = Some (None, w') /\ healthy w' /\
    execs_abs (w_db w') committed (drop_uids (el_UniqueId <$> concat bs) old).
Proof.
  intros Hw Ha Hnd Hb. revert old w Hw Ha Hnd.
  induction Hb as [|b bs [Hbne Hblen] _ IH]; intros old w Hw Ha Hnd.
  - exists w. split; [done|]. split; [done|]. unfold drop_uids. by rewrite filter_all.
  - destruct (db_exec_delete_uids committed (el_UniqueId <$> b) old w Hw Ha Hnd) as (res & db' & He & Ha').
    { by destruct b. } { by rewrite length_fmap. }
    destruct (IH (drop_uids (el_UniqueId <$> b) old) (with_db db' w)) as (w' & Hw' & Hh & Hd);
      [done|done|by apply NoDup_fmap_filter|].
    exists w'. cbn [concat]. rewrite fmap_app, drop_uids_app. split_and!; [|done|done].
    destruct b as [|x b]; [done|]. unfold each_batch. cbn [go_for_ret]. rewrite !go_bind_assoc.
    rewrite length_fmap in He. rewrite <- list_fmap_compose in He.
    erewrite go_bind_Some by exact He. exact Hw'.
Qed.

(** [DeleteExecutionLogs] removes from the table exactly the rows whose
    unique id is one of the given logs', whatever the number of batches. *)
Theorem DeleteExecutionLogs_removes committed logs old w :
  healthy w -> execs_abs (w_db w) committed old -> NoDup (el_Id <$> old) -> logs <> [] ->
  exists w', DeleteExecutionLogs committed logs w = Some (None, w') /\ healthy w' /\
    execs_abs (w_db w') committed
      (List.filter (fun l => negb (bool_decide (el_UniqueId l ∈ el_UniqueId <$> logs))) old).
Proof.
  intros Hw Ha Hnd Hne. destruct (each_batch_delete committed (Batch logs 1) old w Hw Ha Hnd)
    as (w' & Hw' & Hh & Hd); [|by rewrite Batch_concat in Hd; exists w'].
  apply Forall_forall. intros b Hb. split; [by eapply Batch_nonempty|].
  pose proof (Batch_bounded logs 1 b ltac:(done) Hb). lia.
Qed.

(** ** Concrete runs *)

Lemma InsertExecutionLogs_GetExecutionLogs_witness :
  exists w' l,
    InsertExecutionLogs false [sample_exec 0 9 1 4 3] exec_sample = Some (None, w') /\
    GetExecutionLogs false w' = Some (Ok l, w') /\
    l ≡ₚ forget_id <$> (sample_unc ++ number 7 [sample_exec 0 9 1 4 3]).
Proof.
  apply (InsertExecutionLogs_GetExecutionLogs false sample_unc [sample_exec 0 9 1 4 3] exec_sample).
  - reflexivity.
  - apply exec_sample_unc.
  - discriminate.
  - repeat constructor; vm_compute; discriminate.
  - vm_compute. reflexivity.
  - vm_compute. discriminate.
  - vm_compute. reflexivity.
Defined.

Lemma DeleteExecutionLogs_removes_witness :
  exists w', DeleteExecutionLogs false [sample_exec 0 3 0 4 2] exec_sample = Some (None, w') /\
    healthy w' /\ execs_abs (w_db w') false [sample_exec 7 4 0 5 1].
Proof.
  apply (DeleteExecutionLogs_removes false [sample_exec 0 3 0 4 2] sample_unc exec_sample).
  - reflexivity.
  - apply exec_sample_unc.
  - apply (bool_decide_unpack _). vm_compute. exact I.
  - discriminate.
Defined.
