(* ===== verification/Cascade.v ===== *)
(** * Deleting a job deletes its executions

    The foreign keys of the schema are ON DELETE CASCADE: [DeleteOneByID] of
    a job leaves no execution of it in either table, and no other row is
    touched. *)

From stdpp Require Import base list gmap strings pretty sorting.
From Stdlib Require Import ZArith Lia.
From S2P Require Import Prelude Models Batcher Sql Fsm Replication Inserts Reads JobQueueRepo.
From S2P Require Import JobRepo JobFacts ExecutionsRepo ExecutionsFacts AsyncRepo SharedRepo.
From S2P Require Import SharedFacts.

#[local] Open Scope Z_scope.

Definition keep_rows (ids : list Z) (tab : table) : table :=
  Table (List.filter (fun r => negb (bool_decide (row_id r ∈ ids))) (t_rows tab)) (t_seq tab).

(** The ids of the rows of [t] that refer to one of [ids]. *)
Definition referring (tabs : gmap string table) (t c : string) (ids : list Z) : list Z :=
  row_id <$> List.filter (fun r => existsb (fun i => bool_decide (col c r = VInt i)) ids)
    (t_rows (default table_empty (tabs !! t))).

Lemma delete_ids_jobs fuel tabs ids :
  delete_ids (S (S fuel)) tabs JobsTableName ids =
  let tabs1 := alter (keep_rows ids) JobsTableName tabs in
  let tabs2 := alter (keep_rows (referring tabs1 ExecutionsCommittedTableName "job_id" ids))
                 ExecutionsCommittedTableName tabs1 in
  alter (keep_rows (referring tabs2 ExecutionsUnCommittedTableName "job_id" ids))
    ExecutionsUnCommittedTableName tabs2.
Proof.
  remember (S fuel) as fuel'. cbn [delete_ids]. unfold GetSetupSQL. cbn [foldl td_fk td_name].
  change (String.eqb "projects" JobsTableName) with false.
  change (String.eqb "jobs" JobsTableName) with true. cbn iota. subst fuel'.
  rewrite !delete_ids_leaf by reflexivity. reflexivity.
Qed.

Lemma db_rows_alter_eq tabs last t ids :
  db_rows (mkDb (alter (keep_rows ids) t tabs) last) t =
  List.filter (fun r => negb (bool_decide (row_id r ∈ ids))) (t_rows (default table_empty (tabs !! t))).
Proof.
  unfold db_rows, db_table. cbn [db_tabs]. rewrite lookup_alter_eq. by destruct (tabs !! t).
Qed.

Lemma default_alter_ne (f : table -> table) t t' (tabs : gmap string table) :
  t <> t' -> default table_empty (alter f t tabs !! t') = default table_empty (tabs !! t').
Proof. intros. by rewrite lookup_alter_ne. Qed.

Definition not_of_job (id : Z) (l : JobExecutionLog) : bool := negb (el_JobId l =? id).

(** Executions referring to the one id, by their row ids. *)
Lemma referring_execs tabs last committed logs id :
  execs_abs (mkDb tabs last) committed logs ->
  referring tabs (executions_table committed) "job_id" [id] =
  row_id <$> (exec_row <$> List.filter (fun l => el_JobId l =? id) logs).
Proof.
  intros [Hr _]. unfold referring. unfold db_rows, db_table in Hr. cbn [db_tabs] in Hr. rewrite Hr.
  f_equal. apply (sql_select_enc exec_row (CIn "job_id" [VInt id])). intros l _.
  cbn [holds]. unfold key_is. cbn [existsb store_value]. rewrite orb_false_r. apply bool_decide_VInt.
Qed.

Lemma execs_abs_tabs tabs tabs' last last' committed logs :
  default table_empty (tabs !! executions_table committed) =
  default table_empty (tabs' !! executions_table committed) ->
  execs_abs (mkDb tabs last) committed logs -> execs_abs (mkDb tabs' last') committed logs.
Proof.
  intros E [Hr Hwf]. split; [|done]. unfold db_rows, db_table in *. cbn [db_tabs] in *. by rewrite <- E.
Qed.

(** The cascade into one of the tables. *)
Lemma delete_referring tabs last last' committed logs id :
  execs_abs (mkDb tabs last) committed logs -> NoDup (el_Id <$> logs) ->
  execs_abs (mkDb (alter (keep_rows (referring tabs (executions_table committed) "job_id" [id]))
                     (executions_table committed) tabs) last') committed
    (List.filter (not_of_job id) logs).
Proof.
  intros Ha Hnd. split; [|apply Forall_filter, Ha].
  rewrite db_rows_alter_eq, (referring_execs tabs last committed logs id Ha).
  destruct Ha as [Hr _]. unfold db_rows, db_table in Hr. cbn [db_tabs] in Hr. rewrite Hr.
  by apply filter_ids_out.
Qed.

Lemma delete_where_job db jobs com unc id :
  jobs_abs db jobs -> execs_abs db true com -> execs_abs db false unc ->
  NoDup (ID <$> jobs) -> NoDup (el_Id <$> com) -> NoDup (el_Id <$> unc) -> id ∈ ID <$> jobs ->
  let r := delete_where db JobsTableName "id" [VInt id] in
  RowsAffected (snd r) = 1 /\
  jobs_abs (fst r) (List.filter (fun j => negb (ID j =? id)) jobs) /\
  execs_abs (fst r) true (List.filter (not_of_job id) com) /\
  execs_abs (fst r) false (List.filter (not_of_job id) unc).
Proof.
  intros [Hr Hwf] Hcom Hunc Hj Hc Hu (j & -> & Hin)%list_elem_of_fmap.
  assert (Hids : row_id <$> List.filter (key_is "id" [VInt (ID j)]) (db_rows db JobsTableName) = [ID j]).
  { rewrite Hr. replace (List.filter _ _) with (job_row <$> List.filter (with_id (ID j)) jobs).
    - by rewrite filter_with_id.
    - symmetry. apply (sql_select_enc job_row (CIn "id" [VInt (ID j)])). intros. apply key_is_id. }
  unfold delete_where. rewrite Hids. cbn [fst snd RowsAffected length]. split; [done|].
  change cascade_depth with (S (S 7)). rewrite delete_ids_jobs. cbn zeta.
  set (tabs1 := alter (keep_rows [ID j]) JobsTableName (db_tabs db)).
  assert (Hcom1 : execs_abs (mkDb tabs1 0) true com).
  { destruct db. eapply execs_abs_tabs; [|exact Hcom]. symmetry. by apply default_alter_ne. }
  set (tabs2 := alter _ ExecutionsCommittedTableName tabs1).
  assert (Hunc2 : execs_abs (mkDb tabs2 0) false unc).
  { destruct db. eapply execs_abs_tabs; [|exact Hunc]. unfold tabs2. symmetry.
    rewrite default_alter_ne by done. by apply default_alter_ne. }
  split_and!.
  - split.
    + unfold db_rows, db_table. cbn [db_tabs]. unfold tabs2. rewrite !default_alter_ne by done.
      unfold tabs1. rewrite lookup_alter_eq. unfold db_rows, db_table in Hr.
      destruct (db_tabs db !! JobsTableName) as [tab|]; cbn in Hr |- *; [|by destruct jobs].
      rewrite Hr. clear. induction jobs as [|x jobs IH]; [done|]. rewrite fmap_cons. cbn [List.filter].
      rewrite IH. change (row_id (job_row x)) with (ID x).
      rewrite (bool_decide_ext (ID x ∈ [ID j]) (ID x = ID j)) by (by rewrite list_elem_of_singleton).
      destruct (Z.eqb_spec (ID x) (ID j)) as [->|Hne]; [by rewrite bool_decide_eq_true_2|].
      by rewrite bool_decide_eq_false_2.
    + by apply Forall_filter.
  - eapply execs_abs_tabs; [|apply (delete_referring tabs1 0 0 true com (ID j) Hcom1 Hc)].
    symmetry. by apply default_alter_ne.
  - apply (delete_referring tabs2 0 _ false unc (ID j) Hunc2 Hu).
Qed.

Section Delete.
Context {codec : CommandCodec}.

(** C37: Deleting a job on the leader removes it and every execution of it,
    committed or not, and no other job or execution. *)
Theorem DeleteOneByID_cascades job jobs com unc w :
  quiet w -> codec_total -> params_ok [VInt (ID job)] = true ->
  jobs_abs (w_db w) jobs -> execs_abs (w_db w) true com -> execs_abs (w_db w) false unc ->
  NoDup (ID <$> jobs) -> NoDup (el_Id <$> com) -> NoDup (el_Id <$> unc) -> ID job ∈ ID <$> jobs ->
  exists w', DeleteOneByID job w = Some (Ok 1, w') /\
    jobs_abs (w_db w') (List.filter (fun j => negb (ID j =? ID job)) jobs) /\
    execs_abs (w_db w') true (List.filter (fun l => negb (el_JobId l =? ID job)) com) /\
    execs_abs (w_db w') false (List.filter (fun l => negb (el_JobId l =? ID job)) unc).
Proof.
  intros Hq Hc Hp Hj Hcom Hunc H1 H2 H3 Hin.
  destruct (delete_where_job (w_db w) jobs com unc (ID job) Hj Hcom Hunc H1 H2 H3 Hin) as (Hn & Hr).
  destruct (Hc (mkCommand CommandTypeDbExecute (Delete JobsTableName "id") (Some [VInt (ID job)]) [] (u64 0)))
    as [b Hb].
  pose proof (WriteCommandToRaftLog_quiet _ [VInt (ID job)] [] 0 b w Hq Hp Hb) as HW.
  unfold raft_effect, sql_exec in HW. change (DBMaxVariableSize <? _) with false in HW.
  change (negb (Nat.eqb _ _)) with false in HW. cbn iota in HW.
  destruct (delete_where (w_db w) JobsTableName "id" [VInt (ID job)]) as [db' res].
  cbn [fst snd] in Hn, Hr. eexists. split.
  - unfold DeleteOneByID. erewrite go_bind_Some by exact HW. cbn [rows_or_unavailable f_Data].
    by rewrite Hn.
  - exact Hr.
Qed.

End Delete.

(** ** Concrete runs *)

Definition cascade_db : Db :=
  mkDb (<[ExecutionsCommittedTableName := Table (exec_row <$> [sample_exec 1 1 0 7 1; sample_exec 2 2 0 8 1]) 2]>
        (<[ExecutionsUnCommittedTableName := Table (exec_row <$> [sample_exec 1 3 1 7 2]) 1]> (db_tabs jobs_db))) 7.
Definition cascade_world : World := mkWorld cascade_db sample_now RaftLeader true [] [].

Lemma DeleteOneByID_cascades_witness :
  exists w', @DeleteOneByID plain_codec stored7 cascade_world = Some (Ok 1, w') /\
    jobs_abs (w_db w') [] /\ execs_abs (w_db w') true [sample_exec 2 2 0 8 1] /\
    execs_abs (w_db w') false [].
Proof.
  apply (@DeleteOneByID_cascades plain_codec stored7 [stored7]
           [sample_exec 1 1 0 7 1; sample_exec 2 2 0 8 1] [sample_exec 1 3 1 7 2] cascade_world).
  - by split.
  - apply plain_codec_total.
  - reflexivity.
  - apply jobs_db_abs.
  - split; [reflexivity|]. repeat constructor; vm_compute; discriminate.
  - split; [reflexivity|]. repeat constructor; vm_compute; discriminate.
  - apply NoDup_singleton.
  - apply (bool_decide_unpack _). vm_compute. exact I.
  - apply NoDup_singleton.
  - left.
Defined.
