(* ===== verification/Snapshot.v ===== *)
(** * Snapshots: pkg/fsm/fsm_snapshot.go and the decoder in pkg/utils/misc.go

    A snapshot is a marker, the size of the compressed database and the
    compressed bytes.  [Persist] writes it to raft's sink, [BytesFromSnapshot]
    reads it back.  compress/gzip is the class [Gzip]. *)

From stdpp Require Import base list gmap strings pretty.
From Stdlib Require Import ZArith Lia.
From S2P Require Import Prelude Models.

#[local] Open Scope Z_scope.

(** A byte is a [Z] from 0 to 255. *)
Definition bytes := list Z.

Class Gzip := {
  gz_compress : bytes -> bytes;
  gz_uncompress : bytes -> result string bytes;
  (** what the writer wrote, the reader reads *)
  gz_roundtrip b : gz_uncompress (gz_compress b) = Ok b;
  (** a gzip stream starts with a header *)
  gz_header b : gz_compress b <> [] }.

(** ** 64-bit integers, least significant byte first *)

Fixpoint le_bytes (n : nat) (v : Z) : bytes :=
  match n with
  | O => []
  | S n' => v mod 256 :: le_bytes n' (v / 256)
  end.

Definition WriteUint64 (v : Z) : bytes := le_bytes 8 v.

Fixpoint le_value (b : bytes) : Z :=
  match b with
  | [] => 0
  | x :: b' => x + 256 * le_value b'
  end.

(** [binary.Read] wants eight bytes. *)
Definition ReadUint64 (b : bytes) : result string Z :=
  if (length b <? 8)%nat then Err (if (length b =? 0)%nat then "EOF" else "unexpected EOF")
  else Ok (le_value (take 8 b)).

Section Snapshot.
Context {gz : Gzip}.
(** The capacity of the slice [ioutil.ReadAll] returns for a length. *)
Context (cap : nat -> nat).

(** [b[i:j]]: up to the capacity, where the bytes are zero; [None] is a
    panic. *)
Definition reslice (b : bytes) (i j : Z) : option bytes :=
  if (0 <=? i) && (i <=? j) && (j <=? Z.of_nat (cap (length b))) then
    Some (take (Z.to_nat (j - i)) (drop (Z.to_nat i) (b ++ replicate (cap (length b) - length b) 0)))
  else None.

(** The size and the check for compression: whether the database is
    compressed, its size and where it starts. *)
Definition snapshot_header (b : bytes) : option (result string (bool * Z * Z)) :=
  let inc := 8 in
  let offset := 0 in
  h ← reslice b offset (offset + inc);
  match ReadUint64 h with
  | Err e => Some (Err ("read compression check: " +:+ e))
  | Ok sz =>
      let offset := offset + inc in
      if sz =? MaxUint64 then
        h ← reslice b offset (offset + inc);
        match ReadUint64 h with
        | Err e => Some (Err ("read compressed size: " +:+ e))
        | Ok sz => Some (Ok (true, sz, offset + inc))
        end
      else Some (Ok (false, sz, offset))
  end.

(** [rc] is what [ReadAll] gives; the outer [None] is a panic.  A [nil]
    database is the empty one. *)
Definition BytesFromSnapshot (rc : result string bytes) : option (result string bytes) :=
  match rc with
  | Err e => Some (Err ("readall: " +:+ e))
  | Ok b =>
      match snapshot_header b with
      | None => None
      | Some (Err e) => Some (Err e)
      | Some (Ok (compressed, sz, offset)) =>
          if 0 <? sz then
            if compressed then
              c ← reslice b offset (i64 (offset + i64 sz));
              match gz_uncompress c with
              | Err e => Some (Err e)
              | Ok database => Some (Ok database)
              end
            else if Z.of_nat (length b) <? i64 (offset + i64 sz)
            then Some (Err "invalid compressed bytes")
            else Ok <$> reslice b offset (i64 (offset + i64 sz))
          else Some (Ok [])
      end
  end.

(** ** The sink *)

Inductive sink_state := SinkOpen | SinkClosed | SinkCancelled.

(** raft's [SnapshotSink]: what was written, and the outcomes of the next
    writes and of the close; [None] is success. *)
Record Sink := mkSink {
  s_bytes : bytes;
  s_state : sink_state;
  s_faults : list (option string) }.

Definition sink_fault : Go Sink (option string) := fun s =>
  match s_faults s with
  | [] => Some (None, s)
  | f :: fs => Some (f, mkSink (s_bytes s) (s_state s) fs)
  end.

Definition sink_Write (b : bytes) : Go Sink (option string) :=
  f ← sink_fault;
  match f with
  | Some e => mret (Some e)
  | None => modify (fun s => mkSink (s_bytes s ++ b) (s_state s) (s_faults s));; mret None
  end.

(** Closing a sink that is closed or cancelled does nothing. *)
Definition sink_Close : Go Sink (option string) :=
  state ← gets s_state;
  match state with
  | SinkOpen =>
      f ← sink_fault;
      match f with
      | Some e => mret (Some e)
      | None => modify (fun s => mkSink (s_bytes s) SinkClosed (s_faults s));; mret None
      end
  | _ => mret None
  end.

Definition sink_Cancel : Go Sink unit :=
  modify (fun s => mkSink (s_bytes s) SinkCancelled (s_faults s)).

(** [dbSerialized] is the database file; the buffers never fail. *)
Definition Persist (dbSerialized : bytes) : Go Sink (option string) :=
  err ← (e ← sink_Write (WriteUint64 MaxUint64);
         match e with
         | Some e => mret (Some e)
         | None =>
             let compressedDbBytes := gz_compress dbSerialized in
             e ← sink_Write (WriteUint64 (u64 (Z.of_nat (length compressedDbBytes))));
             match e with
             | Some e => mret (Some e)
             | None =>
                 e ← sink_Write compressedDbBytes;
                 match e with
                 | Some e => mret (Some e)
                 | None => sink_Close
                 end
             end
         end);
  match err with
  | Some e => sink_Cancel;; mret (Some e)
  | None => mret None
  end.

(** ** Facts *)

Lemma length_le_bytes n v : length (le_bytes n v) = n.
Proof. revert v. induction n; intros; cbn; auto. Qed.

Lemma le_value_bytes n v : 0 <= v < 256 ^ Z.of_nat n -> le_value (le_bytes n v) = v.
Proof.
  revert v. induction n as [|n IH]; intros v Hv; cbn [le_bytes le_value].
  - cbn in Hv. lia.
  - rewrite Nat2Z.inj_succ, Z.pow_succ_r in Hv by lia.
    rewrite IH; [|split; [apply Z.div_pos; lia|apply Z.div_lt_upper_bound; lia]].
    pose proof (Z.div_mod v 256). lia.
Qed.

Lemma uint64_roundtrip v : 0 <= v <= MaxUint64 -> ReadUint64 (WriteUint64 v) = Ok v.
Proof.
  intros Hv. unfold ReadUint64, WriteUint64. rewrite length_le_bytes. cbn [Nat.ltb Nat.leb].
  rewrite take_ge by (by rewrite length_le_bytes). rewrite le_value_bytes; [done|].
  change (256 ^ Z.of_nat 8) with 18446744073709551616. go_lia.
Qed.

Lemma length_WriteUint64 v : length (WriteUint64 v) = 8%nat.
Proof. apply length_le_bytes. Qed.

(** A slice inside the length is the bytes it names. *)
Lemma reslice_in (pre mid post : bytes) i j :
  (forall n, (n <= cap n)%nat) ->
  i = Z.of_nat (length pre) -> j = i + Z.of_nat (length mid) ->
  reslice (pre ++ mid ++ post) i j = Some mid.
Proof.
  intros Hcap -> ->. unfold reslice. pose proof (Hcap (length (pre ++ mid ++ post))) as Hc.
  rewrite !length_app in *. rewrite !(proj2 (Z.leb_le _ _)) by lia. cbn [andb].
  rewrite <- !app_assoc, Nat2Z.id, drop_app_length.
  replace (Z.to_nat (Z.of_nat (length pre) + Z.of_nat (length mid) - Z.of_nat (length pre)))
    with (length mid) by lia.
  by rewrite take_app_length.
Qed.

(** What a snapshot of [db] is. *)
Definition snapshot_bytes (db : bytes) : bytes :=
  WriteUint64 MaxUint64 ++ WriteUint64 (Z.of_nat (length (gz_compress db))) ++ gz_compress db.

Lemma Persist_ok db s :
  s_state s = SinkOpen -> s_faults s = [] -> Z.of_nat (length (gz_compress db)) <= MaxUint64 ->
  Persist db s = Some (None, mkSink (s_bytes s ++ snapshot_bytes db) SinkClosed []).
Proof.
  intros Ho Hf Hlen. destruct s as [b st fs]. cbn in Ho, Hf. subst st fs. unfold Persist.
  rewrite u64_small by go_lia. unfold snapshot_bytes. cbn -[WriteUint64 app].
  unfold sink_Write, sink_Close, sink_fault. cbn -[WriteUint64 app]. by rewrite !app_assoc.
Qed.

Lemma BytesFromSnapshot_snapshot db :
  (forall n, (n <= cap n)%nat) ->
  Z.of_nat (length (gz_compress db)) + 16 <= MaxInt64 ->
  BytesFromSnapshot (Ok (snapshot_bytes db)) = Some (Ok db).
Proof.
  intros Hcap Hlen. unfold BytesFromSnapshot, snapshot_header, snapshot_bytes.
  set (z := gz_compress db) in *. set (n := Z.of_nat (length z)) in *.
  set (b := WriteUint64 MaxUint64 ++ WriteUint64 n ++ z). cbn zeta.
  assert (R1 : reslice b 0 (0 + 8) = Some (WriteUint64 MaxUint64)).
  { apply (reslice_in [] (WriteUint64 MaxUint64) (WriteUint64 n ++ z)); [assumption|done|].
    by rewrite length_WriteUint64. }
  assert (R2 : reslice b (0 + 8) (0 + 8 + 8) = Some (WriteUint64 n)).
  { apply (reslice_in (WriteUint64 MaxUint64) (WriteUint64 n) z);
      [assumption|by rewrite length_WriteUint64..]. }
  assert (R3 : reslice b 16 (16 + n) = Some z).
  { unfold b. replace (WriteUint64 MaxUint64 ++ WriteUint64 n ++ z)
      with ((WriteUint64 MaxUint64 ++ WriteUint64 n) ++ z ++ []) by (by rewrite app_nil_r, <- app_assoc).
    apply reslice_in; [assumption|by rewrite length_app, !length_WriteUint64|done]. }
  rewrite R1. cbn [mbind option_bind]. rewrite uint64_roundtrip by go_lia. rewrite Z.eqb_refl, R2.
  cbn [mbind option_bind]. rewrite uint64_roundtrip by go_lia.
  assert (Hz : 0 < n).
  { pose proof (gz_header db) as Hh. fold z in Hh. unfold n. destruct z; [done|]. cbn. lia. }
  rewrite (proj2 (Z.ltb_lt _ _)) by done. rewrite (i64_small n), i64_small by go_lia.
  change (0 + 8 + 8) with 16. rewrite R3. cbn [mbind option_bind]. unfold z. by rewrite gz_roundtrip.
Qed.

Lemma sink_fault_state s f s' : sink_fault s = Some (f, s') -> s_state s' = s_state s.
Proof. unfold sink_fault. by case_match; intros [= <- <-]. Qed.

Lemma sink_Write_state b s r s' : sink_Write b s = Some (r, s') -> s_state s' = s_state s.
Proof.
  unfold sink_Write. intros (f & s1 & H1%sink_fault_state & H2)%go_bind_inv.
  destruct f; injection H2 as <- <-; done.
Qed.

Lemma sink_Close_ok s s' :
  s_state s = SinkOpen -> sink_Close s = Some (None, s') -> s_state s' = SinkClosed.
Proof.
  intros Ho. unfold sink_Close. rewrite go_bind_gets, Ho.
  intros (f & s1 & _ & H2)%go_bind_inv. destruct f; [done|]. by injection H2 as <-.
Qed.

(** ** Properties *)

(** C28: A snapshot restores the database it was taken of: what [Persist]
    writes to the sink, [BytesFromSnapshot] decodes to the same bytes. *)
Theorem snapshot_roundtrip db s :
  (forall n, (n <= cap n)%nat) ->
  s_bytes s = [] -> s_state s = SinkOpen -> s_faults s = [] -> Z.of_nat (length (gz_compress db)) + 16 <= MaxInt64 ->
  exists s', Persist db s = Some (None, s') /\ s_state s' = SinkClosed /\
    BytesFromSnapshot (Ok (s_bytes s')) = Some (Ok db).
Proof.
  intros Hcap Hb Ho Hf Hlen. rewrite Persist_ok by (done || go_lia). eexists. split; [done|].
  split; [done|]. cbn [s_bytes]. rewrite Hb. by apply BytesFromSnapshot_snapshot.
Qed.

(** On an open sink, whatever write or close fails, [Persist] reports it
    and cancels the snapshot; it leaves the sink closed exactly when it reports success. *)
Theorem Persist_closes_or_cancels db s r s' :
  s_state s = SinkOpen -> Persist db s = Some (r, s') ->
  match r with
  | None => s_state s' = SinkClosed
  | Some _ => s_state s' = SinkCancelled
  end.
Proof.
  intros Ho. unfold Persist. intros (err & s1 & H1 & H2)%go_bind_inv.
  destruct err as [e|]; injection H2 as <- <-; [done|].
  do 3 (apply go_bind_inv in H1 as (? & ? & ?%sink_Write_state & H1); case_match; [done|]).
  eapply sink_Close_ok; [|done]. congruence.
Qed.

End Snapshot.

(** ** Concrete runs: a stream that is its content behind a header byte *)

Definition plain_gzip : Gzip.
Proof.
  refine {| gz_compress b := 31 :: b;
            gz_uncompress b := match b with 31 :: b' => Ok b' | _ => Err "gzip: invalid header" end |};
    done.
Defined.

Lemma snapshot_roundtrip_witness :
  exists s', @Persist plain_gzip [83; 81; 76] (mkSink [] SinkOpen []) = Some (None, s') /\
    s_state s' = SinkClosed /\
    @BytesFromSnapshot plain_gzip (fun n => n) (Ok (s_bytes s')) = Some (Ok [83; 81; 76]).
Proof.
  apply (@snapshot_roundtrip plain_gzip (fun n => n) [83; 81; 76] (mkSink [] SinkOpen [])).
  - intros n. constructor.
  - reflexivity.
  - reflexivity.
  - reflexivity.
  - vm_compute. discriminate.
Defined.

(** The third write fails. *)
Lemma Persist_closes_or_cancels_witness :
  exists s', @Persist plain_gzip [83] (mkSink [] SinkOpen [None; None; Some "disk full"])
             = Some (Some "disk full", s') /\ s_state s' = SinkCancelled.
Proof.
  eexists. split; [vm_compute; reflexivity|].
  apply (@Persist_closes_or_cancels plain_gzip [83]
           (mkSink [] SinkOpen [None; None; Some "disk full"]) (Some "disk full")).
  - reflexivity.
  - vm_compute. reflexivity.
Defined.
