(* ===== verification/Recovery.v ===== *)
(** * Recovery and restore: pkg/fsm/fsm_store.go

    A node that starts with a state on disk rebuilds its database
    ([RecoverRaftState]): it opens the newest snapshot, replays the raft log
    after it, adds the executions its own database has not committed, and
    leaves the result as a new snapshot, which raft hands to [Restore].
    SQLite's file format is the class [DbFile], raft's stores the record
    [RaftDisk].  A file operation that fails ends the process, like a panic. *)

From stdpp Require Import base list gmap strings pretty.
From Stdlib Require Import ZArith Lia.
From S2P Require Import Prelude Models Batcher Sql Fsm Replication Inserts Reads JobQueueRepo.
From S2P Require Import JobRepo ExecutionsRepo ExecutionsFacts AsyncRepo SharedRepo SharedFacts.
From S2P Require Import Snapshot.

#[local] Open Scope Z_scope.

(** The file of a database, and opening one: a new connection has inserted
    nothing, and an empty file is a database without tables. *)
Class DbFile := {
  db_bytes : Db -> bytes;
  db_open : bytes -> result string Db;
  db_open_bytes db : db_open (db_bytes db) = Ok (mkDb (db_tabs db) 0);
  db_open_nil : db_open [] = Ok (mkDb ∅ 0) }.

(** CREATE TABLE IF NOT EXISTS for every table of the schema. *)
Definition create_if_missing (tabs : gmap string table) (td : tabdef) : gmap string table :=
  match tabs !! td_name td with
  | Some _ => tabs
  | None => <[td_name td := table_empty]> tabs
  end.
Definition run_setup (db : Db) : Db := mkDb (foldl create_if_missing (db_tabs db) GetSetupSQL) (db_last db).

(** A snapshot of the store: [Open] fails, or gives what reading and
    closing the source give. *)
Record SnapshotMeta := mkSnapshotMeta {
  sm_Index : Z;
  sm_Term : Z;
  sm_Source : result string (result string bytes * option string) }.

Section Recovery.
Context {codec : CommandCodec} {gz : Gzip} {file : DbFile} (cap : nat -> nat).

(** What a node finds on its disk.  [rd_Created] is the snapshot the
    recovery leaves: index, term and bytes. *)
Record RaftDisk := mkRaftDisk {
  rd_Snapshots : result string (list SnapshotMeta);
  rd_FirstIndex : result string Z;
  rd_LastIndex : result string Z;
  rd_Logs : gmap Z RaftLog;
  rd_Main : World;                      (* the database file of the node *)
  rd_RecoveryFaults : list fault;       (* of the driver, on the recovery file *)
  rd_SinkFaults : list (option string);
  rd_Created : option (Z * Z * bytes) }.

(** The loop over the snapshots: one that cannot be opened is skipped, the
    first that can is taken, whatever its decoding said. *)
Fixpoint pick_snapshot (snapshots : list SnapshotMeta) : option (bytes * Z * Z) :=
  match snapshots with
  | [] => Some ([], 0, 0)
  | s :: rest =>
      match sm_Source s with
      | Err _ => pick_snapshot rest
      | Ok (content, closeErr) =>
          match BytesFromSnapshot cap content, closeErr with
          | None, _ => None
          | Some _, Some _ => None
          | Some (Ok b), None => Some (b, sm_Index s, sm_Term s)
          | Some (Err _), None => Some ([], sm_Index s, sm_Term s)
          end
      end
  end.

(** The entries after the snapshot, applied in silence. *)
Definition replay (logs : gmap Z RaftLog) (indices : list Z) (last : Z * Z) : Go World (Z * Z) :=
  go_for (fun _ index =>
      match logs !! index with
      | None => crash
      | Some entry => ApplyRaftLog entry true;; mret (l_Index entry, l_Term entry)
      end) indices last.

(** The executions and tasks of the node's own tables, if there are any. *)
Definition reinsert (executionLogs : list JobExecutionLog) (tasks : list AsyncTask) : Go World unit :=
  e ← (if Nat.ltb 0 (length executionLogs) then InsertExecutionLogs false executionLogs else mret None);
  match e with
  | Some _ => crash
  | None =>
      e ← (if Nat.ltb 0 (length tasks) then InsertAsyncTasksLogs false tasks else mret None);
      match e with
      | Some _ => crash
      | None => mret tt
      end
  end.

Definition with_main (w : World) (d : RaftDisk) : RaftDisk :=
  mkRaftDisk (rd_Snapshots d) (rd_FirstIndex d) (rd_LastIndex d) (rd_Logs d) w (rd_RecoveryFaults d)
    (rd_SinkFaults d) (rd_Created d).
Definition on_main {A} (m : Go World A) : Go RaftDisk A := fun d =>
  match m (rd_Main d) with
  | Some (a, w) => Some (a, with_main w d)
  | None => None
  end.

(** The recovery database, while it is built. *)
Definition recovery_world (d : RaftDisk) (db : Db) : World :=
  mkWorld db (w_now (rd_Main d)) (w_raft (rd_Main d)) (w_channel (rd_Main d)) [] (rd_RecoveryFaults d).

(** [Exec] of the migrations *)
Definition setup : Go World unit :=
  f ← next_fault;
  match f with
  | FExec _ => crash
  | _ => modify (fun w => with_db (run_setup (w_db w)) w)
  end.

Definition rebuild (logs : gmap Z RaftLog) (snapshotIndex snapshotTerm lastLogIndex : Z)
    (executionLogs : list JobExecutionLog) (tasks : list AsyncTask) : Go World (Z * Z) :=
  setup;;
  last ← replay logs (zseq (snapshotIndex + 1) (Z.to_nat (lastLogIndex - snapshotIndex)))
           (snapshotIndex, snapshotTerm);
  reinsert executionLogs tasks;;
  mret last.

(** [Persist], then the second [Close]; the bytes of the new snapshot. *)
Definition write_snapshot (db : Db) (faults : list (option string)) : option bytes :=
  match (e ← Persist (db_bytes db);
         match e with
         | Some _ => crash
         | None => e ← sink_Close; match e with Some _ => crash | None => mret tt end
         end) (mkSink [] SinkOpen faults) with
  | Some (_, sink) => Some (s_bytes sink)
  | None => None
  end.

(** [DeleteRange] *)
Definition delete_range (lo hi : Z) (logs : gmap Z RaftLog) : gmap Z RaftLog :=
  filter (fun e => ~ (lo <= fst e <= hi)) logs.

Definition RecoverRaftState : Go RaftDisk unit :=
  s ← gets rd_Snapshots;
  match s with
  | Err _ => crash
  | Ok snapshots =>
      p ← lift_opt (pick_snapshot snapshots);
      let '(lastSnapshotBytes, snapshotIndex, snapshotTerm) := p in
      r ← on_main (GetExecutionLogs false);
      match r with
      | Err _ => crash
      | Ok executionLogs =>
          t ← on_main (GetAsyncTasksLogs false);
          let tasks := match t with Ok l => l | Err _ => [] end in
          match db_open lastSnapshotBytes with
          | Err _ => crash
          | Ok db =>
              d ← gets id;
              match rd_LastIndex d with
              | Err _ => crash
              | Ok lastLogIndex =>
                  b ← lift_opt (rebuild (rd_Logs d) snapshotIndex snapshotTerm lastLogIndex
                                  executionLogs tasks (recovery_world d db));
                  let '((lastIndex, lastTerm), recovered) := b in
                  bytes ← lift_opt (write_snapshot (w_db recovered) (rd_SinkFaults d));
                  match rd_FirstIndex d with
                  | Err _ => crash
                  | Ok firstLogIndex =>
                      modify (fun d => mkRaftDisk (rd_Snapshots d) (rd_FirstIndex d) (rd_LastIndex d)
                        (delete_range firstLogIndex lastLogIndex (rd_Logs d)) (rd_Main d)
                        (rd_RecoveryFaults d) (rd_SinkFaults d) (Some (lastIndex, lastTerm, bytes)))
                  end
              end
          end
      end
  end.

(** [Restore]: the file is replaced, and the connection when it opens. *)
Definition Restore (r : result string bytes) : Go World (option string) :=
  match BytesFromSnapshot cap r with
  | None => crash
  | Some (Err e) => mret (Some ("restore failed: " +:+ e))
  | Some (Ok b) =>
      match db_open b with
      | Err e => mret (Some ("ping error: restore failed to create db: " +:+ e))
      | Ok db => modify (with_db db);; mret None
      end
  end.

End Recovery.
