(* ===== verification/RecoveryFacts.v ===== *)
(** * What recovery guarantees

    A node that restarts gets back the replicated tables every live node has
    ([recovery_catches_up]), and the executions it had not committed
    ([recovery_keeps_uncommitted]). *)

From stdpp Require Import countable base gmap strings pretty list.
From Stdlib Require Import ZArith Lia.
From S2P Require Import Prelude Models Batcher Sql Fsm Replication Inserts Reads JobQueueRepo.
From S2P Require Import JobRepo ExecutionsRepo ExecutionsFacts AsyncRepo SharedRepo SharedFacts.
From S2P Require Import Snapshot Recovery.

#[local] Open Scope Z_scope.

(** ** Replicated statements shrink a local table at most *)

(** [b]'s local tables are what is left of [a]'s, with the same counters. *)
Definition shrinks (a b : gmap string table) : Prop :=
  forall t, local_table t = true ->
    t_rows (default table_empty (b !! t)) `sublist_of` t_rows (default table_empty (a !! t)) /\
    t_seq (default table_empty (b !! t)) = t_seq (default table_empty (a !! t)).

#[global] Instance shrinks_preorder : PreOrder shrinks.
Proof.
  split; [by intros a t _|]. intros a b c H1 H2 t Ht.
  destruct (H1 t Ht) as [? E1], (H2 t Ht) as [? E2]. split; [by etransitivity|]. by rewrite E2.
Qed.

Lemma filter_sublist {A} (p : A -> bool) l : List.filter p l `sublist_of` l.
Proof. induction l as [|x l IH]; [constructor|]. cbn [List.filter]. by case_match; constructor. Qed.

Lemma shrinks_delete fuel tabs t ids : shrinks tabs (delete_ids fuel tabs t ids).
Proof.
  revert tabs t ids. induction fuel as [|fuel IH]; intros tabs t ids; [done|]. cbn [delete_ids].
  assert (Hfold : forall l a, shrinks a (foldl (fun tabs td =>
     match td_fk td with
     | Some (c, parent) =>
         if String.eqb parent t then
           delete_ids fuel tabs (td_name td)
             (row_id <$> List.filter (fun r => existsb (fun i => bool_decide (col c r = VInt i)) ids)
                (t_rows (default table_empty (tabs !! td_name td))))
         else tabs
     | None => tabs
     end) a l)).
  { induction l as [|td l IHl]; intros a; [done|]. cbn [foldl]. etransitivity; [|apply IHl].
    destruct (td_fk td) as [[c p]|]; [|done]. destruct (String.eqb p t); [apply IH|done]. }
  etransitivity; [|apply Hfold]. intros u Hu. destruct (decide (t = u)) as [->|].
  - rewrite lookup_alter_eq. destruct (tabs !! u); cbn; [|done]. split; [apply filter_sublist|done].
  - by rewrite lookup_alter_ne.
Qed.

Lemma delete_where_shrinks db t key vs db' res :
  delete_where db t key vs = (db', res) -> shrinks (db_tabs db) (db_tabs db').
Proof.
  unfold delete_where. intros H. apply (f_equal fst) in H. cbn [fst] in H. subst db'.
  cbn [db_tabs]. apply shrinks_delete.
Qed.

Lemma sql_exec_shrinks db s ps db' res :
  replicated_stmt s = true -> sql_exec db s ps = Ok (db', res) -> shrinks (db_tabs db) (db_tabs db').
Proof.
  intros Hr%negb_true_iff. unfold sql_exec. destruct (_ <? _); [done|]. destruct (negb _); [done|].
  assert (Hins : forall t tab, local_table t = false -> shrinks (db_tabs db) (<[t := tab]> (db_tabs db))).
  { intros t tab Ht u Hu. rewrite lookup_insert_ne; [done|]. congruence. }
  destruct s as [t cols n|t sets key|t key|t key n]; cbn [stmt_table] in Hr.
  - repeat case_match; try done. intros [= <- _]. by apply Hins.
  - repeat case_match; try done. intros [= <- _]. by apply Hins.
  - destruct (delete_where db t key ps) as [d x] eqn:E. intros [= <- _]. by eapply delete_where_shrinks.
  - case_match; [done|]. destruct (delete_where db t key ps) as [d x] eqn:E. intros [= <- _].
    by eapply delete_where_shrinks.
Qed.

Section Facts.
Context {codec : CommandCodec} {gz : Gzip} {file : DbFile} (cap : nat -> nat).

Lemma ApplyRaftLog_shrinks l ign w r w' :
  healthy w -> log_ok l = true -> ApplyRaftLog l ign w = Some (r, w') ->
  shrinks (db_tabs (w_db w)) (db_tabs (w_db w')).
Proof.
  intros Hw Hl. unfold log_ok in Hl. destruct (l_Type l) eqn:Ht;
    [|unfold ApplyRaftLog; rewrite Ht; by intros [= _ <-]].
  destruct (proto_Unmarshal (l_Data l)) as [c|e] eqn:Hc;
    [|unfold ApplyRaftLog; rewrite Ht, Hc; by intros [= _ <-]].
  pose proof (ApplyRaftLog_command l ign c w Ht Hc Hw) as HA.
  destruct (fsm_step (w_db w) c) as [db' res] eqn:Hs. rewrite HA. intros [= _ <-].
  cbn [w_db with_post with_db]. unfold fsm_step in Hs.
  destruct (json_Unmarshal (c_Data c)) as [ps|]; [|by injection Hs as <- _].
  destruct (sql_exec (w_db w) (c_Sql c) ps) as [[d x]|] eqn:Hx; injection Hs as <- _; [|done].
  by eapply sql_exec_shrinks.
Qed.

(** ** Replaying the log *)

(** [entries] are in the log from index [i] on. *)
Definition stored_at (logs : gmap Z RaftLog) (i : Z) (entries : list RaftLog) : Prop :=
  forall k e, entries !! k = Some e -> logs !! (i + Z.of_nat k) = Some e.

Lemma replay_rep logs i entries last w w2 rs acc w2' :
  healthy w -> healthy w2 -> rep_eq (w_db w) (w_db w2) -> forallb log_ok entries = true ->
  stored_at logs i entries ->
  go_for (fun results l => result ← ApplyRaftLog l false; mret (results ++ [result])) entries acc w2
    = Some (rs, w2') ->
  exists last' w', replay logs (zseq i (length entries)) last w = Some (last', w') /\ healthy w' /\
    rep_eq (w_db w') (w_db w2') /\ shrinks (db_tabs (w_db w)) (db_tabs (w_db w')) /\
    last' = match list.last entries with Some e => (l_Index e, l_Term e) | None => last end.
Proof.
  revert i last w w2 acc. induction entries as [|e entries IH]; intros i last w w2 acc H1 H2 Hab Hl Hst.
  - intros [= _ <-]. exists last, w. by split_and!.
  - apply andb_prop in Hl as [Hl Hls]. cbn [go_for length zseq]. rewrite go_bind_assoc.
    destruct (Apply_rep e true false w w2 H1 H2 Hab Hl) as (r1 & w1' & r2 & w2'' & A1 & A2 & ? & ? & ? & _).
    erewrite go_bind_Some by exact A2. rewrite go_bind_mret. intros HB.
    destruct (IH (i + 1) (l_Index e, l_Term e) w1' w2'' (acc ++ [r2])) as (last' & w' & HR & ? & ? & Hsh & ?);
      [done|done|done|done| |exact HB|].
    { intros k x Hk. specialize (Hst (S k) x Hk). rewrite <- Hst. f_equal. lia. }
    exists last', w'. split_and!; [|done|done| |].
    + unfold replay. cbn [go_for]. specialize (Hst 0%nat e eq_refl).
      replace (i + Z.of_nat 0) with i in Hst by lia. rewrite Hst, go_bind_assoc.
      erewrite go_bind_Some by exact A1. exact HR.
    + etransitivity; [|exact Hsh]. by eapply ApplyRaftLog_shrinks.
    + subst last'. rewrite last_cons. by destruct (list.last entries).
Qed.

(** ** The parts of the recovery *)

(** The schema is in place. *)
Definition complete (db : Db) : Prop := forall td, td ∈ GetSetupSQL -> is_Some (db_tabs db !! td_name td).

Lemma run_setup_complete db : complete db -> run_setup db = db.
Proof.
  unfold complete, run_setup. intros H. assert (foldl create_if_missing (db_tabs db) GetSetupSQL = db_tabs db) as ->;
    [|by destruct db].
  revert H. generalize GetSetupSQL as l. induction l as [|td l IH]; intros H; [done|]. cbn [foldl].
  unfold create_if_missing at 2. destruct (H td ltac:(by left)) as [? ->]. apply IH.
  intros. apply H. by right.
Qed.

(** A gzip stream of a database is shorter than the greatest offset. *)
Definition files_fit : Prop :=
  forall db, Z.of_nat (length (gz_compress (db_bytes db))) + 16 <= MaxInt64.

Lemma write_snapshot_ok db :
  files_fit -> write_snapshot db [] = Some (snapshot_bytes (db_bytes db)).
Proof.
  intros Hfit. unfold write_snapshot. erewrite go_bind_Some by
    (apply Persist_ok; [done|done|]; specialize (Hfit db); go_lia). done.
Qed.

Lemma Restore_snapshot db w :
  (forall n, (n <= cap n)%nat) -> files_fit ->
  Restore cap (Ok (snapshot_bytes (db_bytes db))) w = Some (None, with_db (mkDb (db_tabs db) 0) w).
Proof.
  intros Hcap Hfit. unfold Restore. rewrite BytesFromSnapshot_snapshot by done.
  by rewrite db_open_bytes.
Qed.

Lemma RecoverRaftState_run d snaps b0 i t db0 logs n first li lt wrec b :
  rd_Snapshots d = Ok snaps -> pick_snapshot cap snaps = Some (b0, i, t) ->
  GetExecutionLogs false (rd_Main d) = Some (Ok logs, rd_Main d) -> db_open b0 = Ok db0 ->
  rd_LastIndex d = Ok n -> rd_FirstIndex d = Ok first ->
  rebuild (rd_Logs d) i t n logs [] (recovery_world d db0) = Some ((li, lt), wrec) ->
  write_snapshot (w_db wrec) (rd_SinkFaults d) = Some b ->
  RecoverRaftState cap d =
  Some (tt, mkRaftDisk (Ok snaps) (Ok first) (Ok n) (delete_range first n (rd_Logs d)) (rd_Main d)
              (rd_RecoveryFaults d) (rd_SinkFaults d) (Some (li, lt, b))).
Proof.
  intros Hs Hp Hg Ho Hn Hf Hr Hw. destruct d as [ds df dl dlogs dm drf dsf dc]. cbn in *. subst.
  unfold RecoverRaftState. rewrite go_bind_gets. cbn [rd_Snapshots].
  erewrite go_bind_lift by exact Hp. cbn beta iota.
  erewrite go_bind_Some by (unfold on_main; cbn [rd_Main]; by rewrite Hg). cbn beta iota.
  rewrite go_bind_eq. cbn. rewrite Ho, go_bind_gets. cbn.
  erewrite go_bind_lift by exact Hr. cbn beta iota. by erewrite go_bind_lift by exact Hw.
Qed.

(** ** Re-inserting the executions *)

Lemma storable_rep a b committed vals :
  rep_eq a b -> storable a (executions_td committed) shared_insert_cols vals =
                storable b (executions_td committed) shared_insert_cols vals.
Proof.
  intros Hab. unfold storable. f_equal. apply fk_ok_rep; [|done].
  by destruct (find_tabdef_elem _ _ (executions_find committed)).
Qed.

Lemma insertable_forget a b l :
  rep_eq a b -> insertable a false l = true -> insertable b false (forget_id l) = true.
Proof. intros Hab. unfold insertable. by rewrite (storable_rep a b false). Qed.

Lemma rep_eq_append_local t td cols ts db : local_table t = true -> rep_eq (db_append t td cols ts db) db.
Proof.
  intros Ht u Hu. unfold db_append. cbn [db_tabs]. rewrite lookup_insert_ne; [done|]. congruence.
Qed.

Lemma reinsert_ok old logs w :
  healthy w -> execs_abs (w_db w) false old -> Forall exec_vals logs ->
  forallb (insertable (w_db w) false) logs = true ->
  let seq := t_seq (db_table (w_db w) ExecutionsUnCommittedTableName) in
  0 <= seq -> seq + Z.of_nat (length logs) < MaxInt64 ->
  exists w', reinsert logs [] w = Some (tt, w') /\ rep_eq (w_db w') (w_db w) /\
    execs_abs (w_db w') false (old ++ number seq logs).
Proof.
  intros Hw Ha Hv Hi seq Hs Hm. destruct logs as [|l ls].
  { exists w. rewrite app_nil_r. by split_and!. }
  eexists. split_and!.
  - unfold reinsert. cbn [length Nat.ltb Nat.leb]. erewrite go_bind_Some; [|by apply InsertExecutionLogs_healthy].
    cbn. reflexivity.
  - cbn [w_db with_db]. by apply rep_eq_append_local.
  - cbn [w_db with_db]. by apply (execs_abs_append (w_db w) false shared_insert_cols shared_params old (l :: ls)).
Qed.

Lemma sublist_fmap_inv {A B} (f : A -> B) l k :
  k `sublist_of` f <$> l -> exists l', l' `sublist_of` l /\ k = f <$> l'.
Proof.
  revert k. induction l as [|x l IH]; intros k.
  - intros ->%sublist_nil_r. by exists [].
  - rewrite fmap_cons. intros [H|(k' & -> & H)]%sublist_cons_r; apply IH in H as (l' & Hl & ->).
    + exists l'. split; [by constructor|done].
    + exists (x :: l'). split; [by constructor|done].
Qed.

Lemma shrinks_execs a b logs :
  shrinks (db_tabs a) (db_tabs b) -> execs_abs a false logs ->
  exists left, left `sublist_of` logs /\ execs_abs b false left.
Proof.
  intros Hs [Hr Hwf]. destruct (Hs ExecutionsUnCommittedTableName eq_refl) as [Hsub _].
  unfold db_rows, db_table in *. cbn [executions_table] in *. rewrite Hr in Hsub.
  apply sublist_fmap_inv in Hsub as (left & Hl & He). exists left. split; [done|].
  split; [done|].
  rewrite list.Forall_forall in Hwf |- *. intros x Hx. apply Hwf.
  by eapply elem_of_submseteq, sublist_submseteq.
Qed.

(** ** Properties *)

Lemma rebuild_ok logs i t entries uncommitted d db0 w0 rs live old :
  rd_RecoveryFaults d = [] -> complete db0 -> healthy w0 -> rep_eq (w_db w0) db0 ->
  stored_at logs (i + 1) entries -> forallb log_ok entries = true ->
  ApplyBatch entries w0 = Some (rs, live) ->
  execs_abs db0 false old -> Forall exec_vals uncommitted ->
  forallb (insertable (w_db live) false) uncommitted = true ->
  let seq := t_seq (db_table db0 ExecutionsUnCommittedTableName) in
  0 <= seq -> seq + Z.of_nat (length uncommitted) < MaxInt64 ->
  exists last wrec left,
    rebuild logs i t (i + Z.of_nat (length entries)) uncommitted [] (recovery_world d db0) =
      Some (last, wrec) /\
    last = match list.last entries with Some e => (l_Index e, l_Term e) | None => (i, t) end /\
    rep_eq (w_db wrec) (w_db live) /\ left `sublist_of` old /\
    execs_abs (w_db wrec) false (left ++ number seq uncommitted).
Proof.
  intros Hf Hc Hw0 Hab Hst Hok HB Ha Hv Hi seq Hs Hm.
  set (w := recovery_world d db0). assert (Hw : healthy w) by done.
  destruct (replay_rep logs (i + 1) entries (i, t) w w0 rs [] live Hw Hw0) as
    (last & w1 & HR & Hw1 & Hrep & Hsh & Hlast); [by symmetry|done|done|done|].
  destruct (shrinks_execs db0 (w_db w1) old Hsh Ha) as (left & Hsub & Hleft).
  destruct (Hsh ExecutionsUnCommittedTableName eq_refl) as [_ Hseq].
  fold (db_table (w_db w) ExecutionsUnCommittedTableName) in Hseq.
  fold (db_table (w_db w1) ExecutionsUnCommittedTableName) in Hseq.
  destruct (reinsert_ok left uncommitted w1 Hw1 Hleft Hv) as (wrec & Hre & Hrep' & Hex).
  { rewrite forallb_forall in Hi |- *. intros x Hx. specialize (Hi x Hx). unfold insertable in *.
    by rewrite (storable_rep (w_db w1) (w_db live)). }
  { by rewrite Hseq. } { by rewrite Hseq. }
  exists last, wrec, left. split_and!; [|done| |done|].
  - unfold rebuild. erewrite go_bind_Some; [|unfold setup; by go_call next_fault_healthy].
    cbn [w_db w recovery_world]. rewrite run_setup_complete by done.
    replace (Z.to_nat (i + Z.of_nat (length entries) - i)) with (length entries) by lia.
    change (with_db db0 w) with w. erewrite go_bind_Some by exact HR.
    by erewrite go_bind_Some by exact Hre.
  - by transitivity (w_db w1).
  - by rewrite Hseq in Hex.
Qed.

(** A disk whose newest snapshot was taken of [sdb] at index [i], whose log
    has [entries] after it, and whose files can be read and written. *)
Record recoverable (d : RaftDisk) (sdb : Db) (i t : Z) (entries : list RaftLog) : Prop := {
  rec_snapshot : exists sink older, Persist (db_bytes sdb) (mkSink [] SinkOpen []) = Some (None, sink) /\
    rd_Snapshots d = Ok (mkSnapshotMeta i t (Ok (Ok (s_bytes sink), None)) :: older);
  rec_complete : complete sdb;
  rec_last : rd_LastIndex d = Ok (i + Z.of_nat (length entries));
  rec_first : exists first, rd_FirstIndex d = Ok first;
  rec_stored : stored_at (rd_Logs d) (i + 1) entries;
  rec_log_ok : forallb log_ok entries = true;
  rec_main : healthy (rd_Main d);
  rec_faults : rd_RecoveryFaults d = [] /\ rd_SinkFaults d = [] }.

Lemma recoverable_pick d sdb i t entries :
  (forall n, (n <= cap n)%nat) -> files_fit -> recoverable d sdb i t entries ->
  exists snaps, rd_Snapshots d = Ok snaps /\ pick_snapshot cap snaps = Some (db_bytes sdb, i, t).
Proof.
  intros Hcap Hfit []. destruct rec_snapshot0 as (sink & older & HP & Hs).
  rewrite Persist_ok in HP by (done || (specialize (Hfit sdb); go_lia)). injection HP as <-.
  eexists. split; [exact Hs|]. cbn [pick_snapshot sm_Source s_bytes sm_Index sm_Term].
  by rewrite BytesFromSnapshot_snapshot.
Qed.

(** C3: A node that restarts catches up with the cluster and keeps what only
    it knows.  Its recovery ends; restoring the snapshot it leaves gives the
    replicated tables of a node that applied the log while this one was down;
    and the uncommitted executions of its database are in the restored one,
    next to what the replayed log left of the snapshot's own. *)
Theorem recovery_catches_up d sdb i t entries w0 rs live old unc :
  (forall n, (n <= cap n)%nat) -> files_fit -> recoverable d sdb i t entries ->
  healthy w0 -> rep_eq (w_db w0) sdb -> ApplyBatch entries w0 = Some (rs, live) ->
  execs_abs sdb false old -> execs_abs (w_db (rd_Main d)) false unc ->
  forallb (insertable (w_db live) false) unc = true ->
  let seq := t_seq (db_table sdb ExecutionsUnCommittedTableName) in
  0 <= seq -> seq + Z.of_nat (length unc) < MaxInt64 ->
  exists d' index term b,
    RecoverRaftState cap d = Some (tt, d') /\ rd_Created d' = Some (index, term, b) /\
    (index, term) = match list.last entries with Some e => (l_Index e, l_Term e) | None => (i, t) end /\
    forall w, exists w' left l,
      Restore cap (Ok b) w = Some (None, w') /\ rep_eq (w_db w') (w_db live) /\
      left `sublist_of` old /\ l ≡ₚ forget_id <$> unc /\
      execs_abs (w_db w') false (left ++ number seq l).
Proof.
  intros Hcap Hfit Hrec Hw0 Hab HB Hold Hunc Hi seq Hs Hm.
  destruct (recoverable_pick _ _ _ _ _ Hcap Hfit Hrec) as (snaps & Hsn & Hp). destruct Hrec.
  destruct rec_first0 as [first Hfirst], rec_faults0 as [Hrf Hsf].
  destruct (GetExecutionLogs_abs false unc (rd_Main d) rec_main0 Hunc) as (l & Hl & Hlp).
  destruct (rebuild_ok (rd_Logs d) i t entries l d (mkDb (db_tabs sdb) 0) w0 rs live old)
    as ([index term] & wrec & left & Hre & Hlast & Hrep & Hsub & Hex); try done.
  { rewrite Hlp. apply Forall_fmap. eapply Forall_impl; [exact (proj2 Hunc)|].
    intros x (? & ? & ? & ? & ? & ? & _). by unfold compose, exec_vals. }
  { apply forallb_forall. intros x Hx. apply list_elem_of_In in Hx. rewrite Hlp in Hx.
    apply list_elem_of_fmap in Hx as (y & -> & Hy). apply (insertable_forget (w_db live)); [done|].
    rewrite forallb_forall in Hi. apply Hi. by apply list_elem_of_In. }
  { by rewrite Hlp, length_fmap. }
  do 4 eexists. split_and!.
  - eapply RecoverRaftState_run; try done; [by apply db_open_bytes|]. rewrite Hsf.
    by apply write_snapshot_ok.
  - done.
  - done.
  - intros w. do 3 eexists. split_and!; [by apply Restore_snapshot|exact Hrep|done|done|exact Hex].
Qed.

(** A newest snapshot that opens but does not decode is taken for an
    empty one, and the older snapshots are not tried: with no entries after
    it, the node comes back with empty replicated tables. *)
Theorem recovery_loses_corrupt_snapshot d content e i t older first :
  (forall n, (n <= cap n)%nat) -> files_fit ->
  BytesFromSnapshot cap content = Some (Err e) ->
  rd_Snapshots d = Ok (mkSnapshotMeta i t (Ok (content, None)) :: older) ->
  rd_LastIndex d = Ok i -> rd_FirstIndex d = Ok first ->
  healthy (rd_Main d) -> execs_abs (w_db (rd_Main d)) false [] ->
  rd_RecoveryFaults d = [] -> rd_SinkFaults d = [] ->
  exists d' b, RecoverRaftState cap d = Some (tt, d') /\ rd_Created d' = Some (i, t, b) /\
    forall w, exists w', Restore cap (Ok b) w = Some (None, w') /\ db_tabs (w_db w') = db_tabs db_empty.
Proof.
  intros Hcap Hfit Hdec Hs Hl Hf Hm Hu Hrf Hsf.
  destruct (GetExecutionLogs_abs false [] (rd_Main d) Hm Hu) as (l & Hg & Hp).
  apply Permutation_nil_r in Hp as ->.
  do 2 eexists. split_and!.
  - eapply RecoverRaftState_run; try done.
    + cbn [pick_snapshot sm_Source]. by rewrite Hdec.
    + apply db_open_nil.
    + cbn [sm_Index sm_Term]. unfold rebuild, setup. replace (Z.to_nat (i - i)) with 0%nat by lia. rewrite go_bind_assoc.
      erewrite go_bind_Some by (by apply next_fault_healthy). reflexivity.
    + rewrite Hsf. by apply write_snapshot_ok.
  - done.
  - intros w. eexists. split; [by apply Restore_snapshot|]. vm_compute. reflexivity.
Qed.

End Facts.

(** ** Concrete runs: a file whose one symbol numbers the tables *)

#[local] Instance value_countable : Countable value.
Proof.
  refine (inj_countable'
    (fun v => match v with
       | VNull => inl (inl tt) | VInt z => inl (inr z) | VText s => inr (inl s)
       | VTime t => inr (inr (inl t)) | VBool b => inr (inr (inr b))
       end)
    (fun x : (unit + Z) + (string + (Z + bool)) => match x with
       | inl (inl _) => VNull | inl (inr z) => VInt z | inr (inl s) => VText s
       | inr (inr (inl t)) => VTime t | inr (inr (inr b)) => VBool b
       end) _). by intros [].
Defined.

#[local] Instance table_eq_dec : EqDecision table.
Proof. solve_decision. Defined.

#[local] Instance table_countable : Countable table.
Proof.
  refine (inj_countable' (fun t => (t_rows t, t_seq t)) (fun x => Table (fst x) (snd x)) _). by intros [].
Defined.

Definition plain_file : DbFile.
Proof.
  refine {| db_bytes db := [Zpos (encode (db_tabs db))];
            db_open b := match b with
                         | [] => Ok (mkDb ∅ 0)
                         | Zpos p :: _ => match decode p with
                                          | Some tabs => Ok (mkDb tabs 0)
                                          | None => Err "file is not a database"
                                          end
                         | _ => Err "file is not a database"
                         end |}; [|done].
  intros db. by rewrite decode_encode.
Defined.

Lemma plain_files_fit : @files_fit plain_gzip plain_file.
Proof. intros db. cbn. vm_compute. discriminate. Qed.

Lemma db_empty_complete : complete db_empty.
Proof.
  intros td Htd. assert (H : Forall (fun td => is_Some (db_tabs db_empty !! td_name td)) GetSetupSQL).
  { repeat constructor; vm_compute; eauto. }
  rewrite Forall_forall in H. by apply H.
Qed.

(** A snapshot of an empty database at index 0, then one entry, [sample_log]. *)
Definition snapshot_sink : Sink :=
  match @Persist plain_gzip (@db_bytes plain_file db_empty) (mkSink [] SinkOpen []) with
  | Some (_, s) => s
  | None => mkSink [] SinkOpen []
  end.

Definition sample_disk : @RaftDisk plain_codec :=
  @mkRaftDisk plain_codec (Ok [mkSnapshotMeta 0 1 (Ok (Ok (s_bytes snapshot_sink), None))])
    (Ok 1) (Ok 1) {[ 1 := sample_log ]} (world_of db_empty [] RaftNotLeader) [] [] None.

Lemma snapshot_sink_run :
  @Persist plain_gzip (@db_bytes plain_file db_empty) (mkSink [] SinkOpen []) = Some (None, snapshot_sink).
Proof.
  unfold snapshot_sink. rewrite (@Persist_ok plain_gzip); [reflexivity|reflexivity|reflexivity|].
  vm_compute. discriminate.
Qed.

Lemma sample_recoverable :
  @recoverable plain_codec plain_gzip plain_file sample_disk db_empty 0 1 [sample_log].
Proof.
  split.
  - exists snapshot_sink, []. split; [apply snapshot_sink_run|reflexivity].
  - apply db_empty_complete.
  - reflexivity.
  - by exists 1.
  - intros [|k] e; [|done]. by intros [= <-].
  - reflexivity.
  - reflexivity.
  - by split.
Qed.

(** The node that applied the entry while this one was down. *)
Definition sample_live : World :=
  with_post [mkPostProcess CommandActionQueueJob [2] (mkSQLResponse 1 1)]
    (with_db (fst (fsm_step db_empty sample_command)) (world_of db_empty [] RaftLeader)).

Lemma recovery_catches_up_witness :
  @ApplyBatch plain_codec [sample_log] (world_of db_empty [] RaftLeader) =
    Some ([Some (mkFSMResponse (mkSQLResponse 1 1) "")], sample_live) /\
  exists d' index term b,
    @RecoverRaftState plain_codec plain_gzip plain_file (fun n => n) sample_disk = Some (tt, d') /\
    rd_Created d' = Some (index, term, b) /\ (index, term) = (1, 1) /\
    forall w, exists w' left l,
      @Restore plain_gzip plain_file (fun n => n) (Ok b) w = Some (None, w') /\
      rep_eq (w_db w') (w_db sample_live) /\ left `sublist_of` [] /\ l ≡ₚ forget_id <$> [] /\
      execs_abs (w_db w') false (left ++ number 0 l).
Proof.
  split; [vm_compute; reflexivity|].
  apply (@recovery_catches_up plain_codec plain_gzip plain_file (fun n => n) sample_disk db_empty 0 1
           [sample_log] (world_of db_empty [] RaftLeader)
           [Some (mkFSMResponse (mkSQLResponse 1 1) "")] sample_live [] []).
  - intros n. constructor.
  - apply plain_files_fit.
  - apply sample_recoverable.
  - reflexivity.
  - reflexivity.
  - vm_compute. reflexivity.
  - split; [reflexivity|constructor].
  - split; [reflexivity|constructor].
  - reflexivity.
  - vm_compute. discriminate.
  - vm_compute. reflexivity.
Defined.

(** A newest snapshot whose compressed part is cut, before a good one. *)
Definition corrupt_disk : @RaftDisk plain_codec :=
  @mkRaftDisk plain_codec
    (Ok [mkSnapshotMeta 5 2 (Ok (Ok (WriteUint64 MaxUint64 ++ WriteUint64 1 ++ [7]), None));
         mkSnapshotMeta 0 1 (Ok (Ok (s_bytes snapshot_sink), None))])
    (Ok 5) (Ok 5) ∅ (world_of db_empty [] RaftNotLeader) [] [] None.

Lemma recovery_loses_corrupt_snapshot_witness :
  exists d' b,
    @RecoverRaftState plain_codec plain_gzip plain_file (fun n => n) corrupt_disk = Some (tt, d') /\
    rd_Created d' = Some (5, 2, b) /\
    forall w, exists w', @Restore plain_gzip plain_file (fun n => n) (Ok b) w = Some (None, w') /\
      db_tabs (w_db w') = db_tabs db_empty.
Proof.
  apply (@recovery_loses_corrupt_snapshot plain_codec plain_gzip plain_file (fun n => n) corrupt_disk
           (Ok (WriteUint64 MaxUint64 ++ WriteUint64 1 ++ [7])) "gzip: invalid header" 5 2
           [mkSnapshotMeta 0 1 (Ok (Ok (s_bytes snapshot_sink), None))] 5).
  - intros n. constructor.
  - apply plain_files_fit.
  - vm_compute. reflexivity.
  - reflexivity.
  - reflexivity.
  - reflexivity.
  - reflexivity.
  - split; [reflexivity|constructor].
  - reflexivity.
  - reflexivity.
Defined.
