(* ===== verification/Disk.v ===== *)
(** * Files and the local database file

    pkg/db/db.go: opening and migrating the database file of a node, and the
    directory helpers of pkg/utils/misc.go.  A [host] is the working
    directory and the tree of files of a machine, with the error each next
    call of the system or the driver gives; [log.Fatal] is [None]. *)

From stdpp Require Import base list gmap strings pretty.
From Stdlib Require Import ZArith Ascii Lia.
From S2P Require Import Prelude Models Batcher Sql Fsm Replication Inserts Reads JobQueueRepo.
From S2P Require Import JobRepo ExecutionsRepo ExecutionsFacts AsyncRepo SharedRepo SharedFacts Snapshot Recovery.

#[local] Open Scope Z_scope.

(** ** Files *)

Inductive fs_node := NDir | NFile (content : bytes).

#[global] Instance fs_node_eq_dec : EqDecision fs_node.
Proof. solve_decision. Defined.

Record host := mkHost {
  h_cwd : result string string;              (* os.Getwd *)
  h_fs : gmap string fs_node;                (* by absolute path *)
  h_errors : list (option string) }.         (* of the calls to come *)

Notation Os := (Go host).

(** An error of the system: [os.IsNotExist] or another one. *)
Inductive fs_error := NotExist | OtherError (e : string).

Definition next_error : Os (option string) := fun h =>
  match h_errors h with
  | [] => Some (None, h)
  | e :: rest => Some (e, mkHost (h_cwd h) (h_fs h) rest)
  end.

Definition set_fs (fs : gmap string fs_node) : Os unit :=
  modify (fun h => mkHost (h_cwd h) fs (h_errors h)).

(** The path of the directory a path is in. *)
Fixpoint parent (p : string) : option string :=
  match p with
  | EmptyString => None
  | String c p' =>
      match parent p' with
      | Some d => Some (String c d)
      | None => if Ascii.eqb c "/" then Some EmptyString else None
      end
  end.

Definition is_dir (fs : gmap string fs_node) (p : string) : bool :=
  match fs !! p with Some NDir => true | _ => false end.
Definition in_dir (fs : gmap string fs_node) (p : string) : bool :=
  match parent p with Some d => is_dir fs d | None => false end.
(** [q] lies in the tree under [p]. *)
Definition below (p q : string) : bool := String.prefix (p +:+ "/") q.

(** A call that fails with an error of the system, or does [m]. *)
Definition syscall {A} (m : Os (result fs_error A)) : Os (result fs_error A) :=
  e ← next_error;
  match e with
  | Some e => mret (Err (OtherError e))
  | None => m
  end.

(** [afero.DirExists] *)
Definition DirExists (p : string) : Os (result fs_error bool) :=
  syscall (fs ← gets h_fs; mret (Ok (is_dir fs p))).

Definition Mkdir (p : string) : Os (result fs_error unit) :=
  syscall (fs ← gets h_fs;
    match fs !! p with
    | Some _ => mret (Err (OtherError "file exists"))
    | None => if in_dir fs p then set_fs (<[p := NDir]> fs);; mret (Ok tt) else mret (Err NotExist)
    end).

(** [Remove] of a file or of an empty directory. *)
Definition Remove (p : string) : Os (result fs_error unit) :=
  syscall (fs ← gets h_fs;
    match fs !! p with
    | None => mret (Err NotExist)
    | Some NDir =>
        if existsb (fun q => below p q) (fst <$> map_to_list fs)
        then mret (Err (OtherError "directory not empty"))
        else set_fs (delete p fs);; mret (Ok tt)
    | Some (NFile _) => set_fs (delete p fs);; mret (Ok tt)
    end).

(** A path that is not there is no error. *)
Definition RemoveAll (p : string) : Os (result fs_error unit) :=
  syscall (fs ← gets h_fs;
    set_fs (filter (fun e => negb (String.eqb (fst e) p || below p (fst e)) = true) fs);; mret (Ok tt)).

(** [Create] empties a file that is there. *)
Definition Create (p : string) : Os (result fs_error unit) :=
  syscall (fs ← gets h_fs;
    match fs !! p with
    | Some NDir => mret (Err (OtherError "is a directory"))
    | _ => if in_dir fs p then set_fs (<[p := NFile []]> fs);; mret (Ok tt) else mret (Err NotExist)
    end).

Definition ReadFile (p : string) : Os (result fs_error bytes) :=
  syscall (fs ← gets h_fs;
    match fs !! p with
    | Some (NFile b) => mret (Ok b)
    | Some NDir => mret (Err (OtherError "is a directory"))
    | None => mret (Err NotExist)
    end).

(** ** pkg/utils/misc.go *)

Definition SqliteDbFileName : string := "db.db".
Definition RaftDir : string := "raft_data".
Definition SqliteDir : string := "sqlite_data".

(** [os.Getwd] or [log.Fatal] *)
Definition Getwd : Os string :=
  cwd ← gets h_cwd;
  match cwd with Ok dir => mret dir | Err _ => crash end.

(** The path, and whether the directory was there. *)
Definition MakeDirIfNotExist (path : string) : Os (string * bool) :=
  dir ← Getwd;
  let dirPath := dir +:+ "/" +:+ path in
  exists_ ← DirExists dirPath;
  match exists_ with
  | Err _ => mret (dirPath, false)
  | Ok true => mret (dirPath, true)
  | Ok false =>
      e ← Mkdir dirPath;
      match e with
      | Err _ => crash
      | Ok _ => mret (dirPath, false)
      end
  end.

Definition GetSqliteDbDirAndDbFilePath : Os (string * string) :=
  dir ← Getwd;
  mret (dir +:+ "/" +:+ SqliteDir, dir +:+ "/" +:+ SqliteDir +:+ "/" +:+ SqliteDbFileName).

(** [removeErr != nil && !os.IsNotExist(removeErr)] is fatal. *)
Definition unless_not_exist (r : result fs_error unit) : Os unit :=
  match r with
  | Err (OtherError _) => crash
  | _ => mret tt
  end.

Definition RemoveSqliteDbDir : Os unit :=
  '(dirPath, filePath) ← GetSqliteDbDirAndDbFilePath;
  exists_ ← DirExists dirPath;
  match exists_ with
  | Err _ => crash
  | Ok true =>
      r ← RemoveAll dirPath; unless_not_exist r;;
      r ← RemoveAll filePath; unless_not_exist r
  | Ok false => mret tt
  end.

Definition RemoveRaftDir : Os unit :=
  dir ← Getwd;
  let dirPath := dir +:+ "/" +:+ RaftDir in
  exists_ ← DirExists dirPath;
  match exists_ with
  | Err _ => crash
  | Ok true => r ← RemoveAll dirPath; unless_not_exist r
  | Ok false => mret tt
  end.

(** ** pkg/db/db.go *)

(** A pool of connections: to a file, by its path, or to a database in
    memory. *)
Inductive connection := FileConn (path : string) | MemConn (db : Db).

Record dataStore := mkDataStore {
  dbFilePath : string;
  isInMemDb : bool;
  ds_connection : option connection }.       (* nil *)

Definition NewSqliteDbConnection (path : string) : dataStore := mkDataStore path false None.

Section DataStore.
Context {file : DbFile}.

(** [sql.Open] connects to nothing yet. *)
Definition sql_Open (c : connection) : Os (option connection) :=
  e ← next_error;
  mret (match e with Some _ => None | None => Some c end).

(** The first use of a connection opens the file; SQLite creates one that is
    missing in a directory that is there. *)
Definition open_file (path : string) : Os (result string Db) :=
  fs ← gets h_fs;
  match fs !! path with
  | Some (NFile b) => mret (db_open b)
  | Some NDir => mret (Err "unable to open database file")
  | None =>
      if in_dir fs path then set_fs (<[path := NFile []]> fs);; mret (db_open [])
      else mret (Err "unable to open database file")
  end.

Definition sql_Begin (c : connection) : Os (result string Db) :=
  e ← next_error;
  match e with
  | Some e => mret (Err e)
  | None => match c with FileConn path => open_file path | MemConn db => mret (Ok db) end
  end.

Definition sql_Ping : connection -> Os (result string Db) := sql_Begin.

(** [Commit] of a transaction that made [db] of the database. *)
Definition sql_Commit (c : connection) (db : Db) : Os (result string connection) :=
  e ← next_error;
  match e with
  | Some e => mret (Err e)
  | None =>
      match c with
      | FileConn path =>
          fs ← gets h_fs;
          set_fs (<[path := NFile (db_bytes db)]> fs);; mret (Ok c)
      | MemConn _ => mret (Ok (MemConn db))
      end
  end.

Definition OpenConnectionToExistingDB (db : dataStore) : Os dataStore :=
  match ds_connection db with
  | Some _ => mret db
  | None =>
      c ← sql_Open (FileConn (dbFilePath db));
      mret (mkDataStore (dbFilePath db) (isInMemDb db) c)
  end.

(** An error is logged and the data empty. *)
Definition Serialize (db : dataStore) : Os bytes :=
  r ← ReadFile (dbFilePath db);
  mret (match r with Ok data => data | Err _ => [] end).

Definition GetOpenConnection (db : dataStore) : option connection := ds_connection db.
Definition UpdateOpenConnection (conn : option connection) (db : dataStore) : dataStore :=
  mkDataStore (dbFilePath db) (isInMemDb db) conn.

(** The transaction of the two migrations; a nil connection is a panic, and
    after a failed [Exec] both outcomes of [Rollback] are fatal. *)
Definition migrate (conn : option connection) : Os connection :=
  c ← lift_opt conn;
  b ← sql_Begin c;
  match b with
  | Err _ => crash
  | Ok db =>
      execErr ← next_error;
      match execErr with
      | Some _ => crash
      | None =>
          r ← sql_Commit c (run_setup db);
          match r with Err _ => crash | Ok c => mret c end
      end
  end.

(** [RunMigration] of a data store. *)
Definition ds_RunMigration (db : dataStore) : Os dataStore :=
  db ←
    (if isInMemDb db then mret db
     else
       r ← Remove (dbFilePath db); unless_not_exist r;;
       r ← Create (dbFilePath db);
       match r with
       | Err _ => crash
       | Ok _ =>
           datastore ← OpenConnectionToExistingDB (NewSqliteDbConnection (dbFilePath db));
           mret (UpdateOpenConnection (ds_connection datastore) db)
       end);
  c ← migrate (ds_connection db);
  mret (UpdateOpenConnection (Some c) db).

(** The function [RunMigration]. *)
Definition RunMigration : Os unit :=
  '(dbDirPath, dbFilePath) ← GetSqliteDbDirAndDbFilePath;
  r ← Remove dbFilePath; unless_not_exist r;;
  exists_ ← DirExists dbDirPath;
  match exists_ with
  | Err _ => crash
  | Ok exists_ =>
      r ← (if (exists_ : bool) then mret (Ok tt) else Mkdir dbDirPath);
      match r with
      | Err _ => crash
      | Ok _ =>
          r ← Create dbFilePath;
          match r with
          | Err _ => crash
          | Ok _ =>
              datastore ← OpenConnectionToExistingDB (NewSqliteDbConnection dbFilePath);
              _ ← migrate (ds_connection datastore);
              mret tt
          end
      end
  end.

(** Only the directory is looked at; an error of [Ping] is logged, a nil
    connection is a panic there. *)
Definition CreateConnectionFromNewDbIfNonExists : Os dataStore :=
  '(dirPath, filePath) ← GetSqliteDbDirAndDbFilePath;
  exists_ ← DirExists dirPath;
  match exists_ with
  | Err _ => crash
  | Ok exists_ =>
      (if (exists_ : bool) then mret tt else RunMigration);;
      sqliteDb ← OpenConnectionToExistingDB (NewSqliteDbConnection filePath);
      conn ← lift_opt (ds_connection sqliteDb);
      _ ← sql_Ping conn;
      mret sqliteDb
  end.

Definition GetDBMEMConnection : Os dataStore :=
  conn ← sql_Open (MemConn (mkDb ∅ 0));
  mret (mkDataStore "" true conn).

End DataStore.
