(* ===== verification/DiskFacts.v ===== *)
(** * The database file of a node

    On a machine whose calls succeed ([calm]): what the migrations and the
    directory helpers leave on disk. *)

From stdpp Require Import base list gmap strings pretty.
From Stdlib Require Import ZArith Ascii Lia.
From S2P Require Import Prelude Models JobTime Batcher Sql Fsm Replication Inserts Reads JobQueueRepo.
From S2P Require Import JobRepo ExecutionsRepo ExecutionsFacts AsyncRepo SharedRepo SharedFacts Snapshot Recovery Disk.

#[local] Open Scope Z_scope.

(** ** Paths *)

Lemma prefix_same a b c : String.prefix (a +:+ b) (a +:+ c) = String.prefix b c.
Proof.
  induction a as [|x a IH]; [done|].
  change (String.prefix (String x (a +:+ b)) (String x (a +:+ c)) = String.prefix b c). cbn [String.prefix].
  by destruct (ascii_dec x x).
Qed.

Lemma app_string_assoc (a b c : string) : (a +:+ b) +:+ c = a +:+ b +:+ c.
Proof.
  induction a as [|x a IH]; [done|]. change (String x ((a +:+ b) +:+ c) = String x (a +:+ b +:+ c)). by rewrite IH.
Qed.

Lemma app_string_inj (a b c : string) : a +:+ b = a +:+ c -> b = c.
Proof. induction a as [|x a IH]; [done|]. intros [= H]. by apply IH. Qed.

(** Two paths of the same directory are compared from there on. *)
Lemma below_same d p q : below (d +:+ p) (d +:+ q) = below p q.
Proof. unfold below. by rewrite app_string_assoc, prefix_same. Qed.

Lemma eqb_same d p q : String.eqb (d +:+ p) (d +:+ q) = String.eqb p q.
Proof.
  destruct (String.eqb_spec p q) as [->|Hne]; [by rewrite String.eqb_refl|].
  apply String.eqb_neq. by intros ?%app_string_inj.
Qed.

Lemma parent_none x : parent x = None -> parent (String "/" x) = Some "".
Proof. cbn. by intros ->. Qed.

Lemma parent_join d x : parent x = None -> parent (d +:+ "/" +:+ x) = Some d.
Proof.
  intros Hx. induction d as [|c d IH]; [by apply parent_none|].
  change (parent (String c (d +:+ "/" +:+ x)) = Some (String c d)). cbn [parent]. by rewrite IH.
Qed.

(** ** Trees *)

Definition in_tree (p q : string) : bool := String.eqb q p || below p q.

(** What [RemoveAll] leaves. *)
Definition drop_tree (p : string) (fs : gmap string fs_node) : gmap string fs_node :=
  filter (fun e => negb (in_tree p (fst e)) = true) fs.

Lemma lookup_drop_tree p q fs : drop_tree p fs !! q = if in_tree p q then None else fs !! q.
Proof.
  unfold drop_tree. destruct (in_tree p q) eqn:E.
  - apply map_lookup_filter_None_2. right. intros x _. cbn. by rewrite E.
  - destruct (fs !! q) as [x|] eqn:Ex.
    + apply map_lookup_filter_Some_2; [done|]. cbn. by rewrite E.
    + apply map_lookup_filter_None_2. by left.
Qed.

(** ** A machine whose calls succeed *)

Definition calm (cwd : string) (fs : gmap string fs_node) : host := mkHost (Ok cwd) fs [].

Definition sqlite_dir (cwd : string) : string := cwd +:+ "/" +:+ SqliteDir.
Definition sqlite_file (cwd : string) : string := cwd +:+ "/" +:+ SqliteDir +:+ "/" +:+ SqliteDbFileName.
Definition raft_dir (cwd : string) : string := cwd +:+ "/" +:+ RaftDir.

Lemma parent_sqlite_dir cwd : parent (sqlite_dir cwd) = Some cwd.
Proof. by apply parent_join. Qed.
Lemma parent_raft_dir cwd : parent (raft_dir cwd) = Some cwd.
Proof. by apply parent_join. Qed.
Lemma sqlite_file_join cwd : sqlite_file cwd = sqlite_dir cwd +:+ "/" +:+ SqliteDbFileName.
Proof. unfold sqlite_file, sqlite_dir. by rewrite !app_string_assoc. Qed.
Lemma parent_sqlite_file cwd : parent (sqlite_file cwd) = Some (sqlite_dir cwd).
Proof. rewrite sqlite_file_join. by apply parent_join. Qed.

Lemma tree_same cwd p q : in_tree (cwd +:+ p) (cwd +:+ q) = in_tree p q.
Proof. unfold in_tree. by rewrite eqb_same, below_same. Qed.

Lemma cwd_outside cwd x : in_tree (cwd +:+ "/" +:+ x) cwd = false.
Proof.
  assert (Hl : forall a b, String.prefix a b = true -> (String.length a <= String.length b)%nat).
  { induction a as [|c a IH]; intros [|d b] H; cbn in *; try lia; try done.
    destruct (ascii_dec c d); [|done]. apply IH in H. lia. }
  unfold in_tree. apply orb_false_iff. split.
  - apply String.eqb_neq. intros E%(f_equal String.length). rewrite !string_length_app in E. cbn in E. lia.
  - apply not_true_iff_false. intros E%Hl. rewrite !string_length_app in E. cbn in E. lia.
Qed.

Lemma sqlite_file_in_dir cwd : in_tree (sqlite_dir cwd) (sqlite_file cwd) = true.
Proof. unfold sqlite_dir, sqlite_file. by rewrite tree_same. Qed.
Lemma sqlite_not_raft cwd : in_tree (raft_dir cwd) (sqlite_dir cwd) = false.
Proof. unfold sqlite_dir, raft_dir. by rewrite tree_same. Qed.
Lemma sqlite_file_not_raft cwd : in_tree (raft_dir cwd) (sqlite_file cwd) = false.
Proof. unfold sqlite_file, raft_dir. by rewrite tree_same. Qed.
Lemma sqlite_dir_file_ne cwd : sqlite_dir cwd <> sqlite_file cwd.
Proof. intros E%app_string_inj. done. Qed.
Lemma in_tree_refl p : in_tree p p = true.
Proof. unfold in_tree. by rewrite String.eqb_refl. Qed.

(** A path that is not a file. *)
Definition not_file (fs : gmap string fs_node) (p : string) : Prop :=
  match fs !! p with Some (NFile _) => False | _ => True end.

(** There is a directory, or nothing. *)
Definition tree_ok (p : string) (fs : gmap string fs_node) : Prop :=
  is_dir fs p = true \/ forall q, in_tree p q = true -> fs !! q = None.

(** A tree that is removed if its root is a directory. *)
Definition clear_tree (p : string) (fs : gmap string fs_node) : gmap string fs_node :=
  if is_dir fs p then drop_tree p fs else fs.

Lemma lookup_clear_tree p q fs :
  tree_ok p fs -> clear_tree p fs !! q = if in_tree p q then None else fs !! q.
Proof.
  intros Hp. unfold clear_tree. destruct (is_dir fs p) eqn:E; [apply lookup_drop_tree|].
  destruct Hp as [|Hp]; [congruence|]. destruct (in_tree p q) eqn:Et; [by apply Hp|done].
Qed.

Lemma tree_ok_clear p p' fs :
  tree_ok p fs -> tree_ok p' fs -> in_tree p' p = false -> tree_ok p (clear_tree p' fs).
Proof.
  intros [H|H] Hp' Hne; [left|right].
  - unfold is_dir in *. by rewrite lookup_clear_tree, Hne.
  - intros q Hq. rewrite lookup_clear_tree by done. destruct (in_tree p' q); [done|by apply H].
Qed.

Lemma prefix_shorter a b q : String.prefix (a +:+ b) q = true -> String.prefix a q = true.
Proof.
  revert q. induction a as [|c a IH]; intros q H; [by destruct q|].
  change (String.prefix (String c (a +:+ b)) q = true) in H. destruct q as [|d q]; [done|]. cbn in *.
  destruct (ascii_dec c d); [by apply IH|done].
Qed.

Lemma prefix_self a : String.prefix a a = true.
Proof. induction a as [|c a IH]; [done|]. cbn. by destruct (ascii_dec c c). Qed.

(** The tree of the file is in the tree of the directory. *)
Lemma tree_of_file d x q : in_tree (d +:+ "/" +:+ x) q = true -> in_tree d q = true.
Proof.
  unfold in_tree, below. intros [E%String.eqb_eq|H]%orb_true_iff; apply orb_true_iff; right.
  - subst q. rewrite <- (app_string_assoc d). apply (prefix_shorter _ x), prefix_self.
  - rewrite <- !(app_string_assoc d), (app_string_assoc (d +:+ "/")) in H. by apply prefix_shorter in H.
Qed.

Section Calm.
Context {file : DbFile}.
Context (cwd : string).
Implicit Types (fs : gmap string fs_node).

Lemma DirExists_calm p fs : DirExists p (calm cwd fs) = Some (Ok (is_dir fs p), calm cwd fs).
Proof. done. Qed.
Lemma RemoveAll_calm p fs : RemoveAll p (calm cwd fs) = Some (Ok tt, calm cwd (drop_tree p fs)).
Proof. done. Qed.
Lemma Mkdir_calm p fs :
  fs !! p = None -> in_dir fs p = true -> Mkdir p (calm cwd fs) = Some (Ok tt, calm cwd (<[p := NDir]> fs)).
Proof. intros E Ed. unfold Mkdir, syscall. rewrite (go_bind_Some _ _ _ None (calm cwd fs)) by done.
  cbv iota beta. rewrite go_bind_gets. cbn [h_fs calm]. by rewrite E, Ed. Qed.
Lemma Create_calm p fs :
  is_dir fs p = false -> in_dir fs p = true ->
  Create p (calm cwd fs) = Some (Ok tt, calm cwd (<[p := NFile []]> fs)).
Proof. intros E Ed. unfold Create, syscall. rewrite (go_bind_Some _ _ _ None (calm cwd fs)) by done.
  cbv iota beta. rewrite go_bind_gets. cbn [h_fs calm]. unfold is_dir in E.
  destruct (fs !! p) as [[]|]; [done|by rewrite Ed..]. Qed.
(** A file, or nothing, is removed. *)
Lemma Remove_calm p fs :
  is_dir fs p = false ->
  exists r, Remove p (calm cwd fs) = Some (r, calm cwd (delete p fs)) /\
    unless_not_exist r (calm cwd (delete p fs)) = Some (tt, calm cwd (delete p fs)).
Proof.
  intros E. unfold Remove, syscall. rewrite (go_bind_Some _ _ _ None (calm cwd fs)) by done.
  cbv iota beta. rewrite go_bind_gets. cbn [h_fs calm]. unfold is_dir in E.
  destruct (fs !! p) as [[]|] eqn:Ep; [done|by eexists|]. exists (Err NotExist). by rewrite delete_id.
Qed.

Lemma RemoveSqliteDbDir_calm fs :
  RemoveSqliteDbDir (calm cwd fs) = Some (tt, calm cwd (clear_tree (sqlite_dir cwd) fs)).
Proof.
  unfold RemoveSqliteDbDir, clear_tree. rewrite (go_bind_Some _ _ _ (sqlite_dir cwd, sqlite_file cwd) (calm cwd fs)) by done.
  cbv iota beta. rewrite (go_bind_Some _ _ _ _ _ (DirExists_calm _ _)).
  destruct (is_dir fs (sqlite_dir cwd)); [|done].
  rewrite (go_bind_Some _ _ _ _ _ (RemoveAll_calm _ _)). cbn [unless_not_exist]. rewrite go_bind_mret.
  rewrite (go_bind_Some _ _ _ _ _ (RemoveAll_calm _ _)). cbn [unless_not_exist].
  assert (drop_tree (sqlite_file cwd) (drop_tree (sqlite_dir cwd) fs) = drop_tree (sqlite_dir cwd) fs) as ->; [|done].
  apply map_eq. intros q. rewrite !lookup_drop_tree.
  destruct (in_tree (sqlite_file cwd) q) eqn:E; [|done].
  rewrite sqlite_file_join in E. by rewrite (tree_of_file _ _ _ E).
Qed.

Lemma RemoveRaftDir_calm fs : RemoveRaftDir (calm cwd fs) = Some (tt, calm cwd (clear_tree (raft_dir cwd) fs)).
Proof.
  unfold RemoveRaftDir, clear_tree. rewrite (go_bind_Some _ _ _ cwd (calm cwd fs)) by done.
  fold (raft_dir cwd). cbv zeta. rewrite (go_bind_Some _ _ _ _ _ (DirExists_calm _ _)).
  by destruct (is_dir fs (raft_dir cwd)).
Qed.

(** The database file of a node that was just set up. *)
Definition new_db_bytes : bytes := db_bytes db_empty.

Lemma setup_empty : run_setup (mkDb ∅ 0) = db_empty.
Proof. vm_compute. reflexivity. Qed.

(** The migration of a file that was just created. *)
Lemma migrate_created p fs :
  fs !! p = Some (NFile []) ->
  migrate (Some (FileConn p)) (calm cwd fs) = Some (FileConn p, calm cwd (<[p := NFile new_db_bytes]> fs)).
Proof.
  intros E. unfold migrate. rewrite (go_bind_lift _ (FileConn p)) by done.
  assert (sql_Begin (FileConn p) (calm cwd fs) = Some (Ok (mkDb ∅ 0), calm cwd fs)) as Hb.
  { unfold sql_Begin. rewrite (go_bind_Some _ _ _ None (calm cwd fs)) by done. cbv iota beta. unfold open_file.
    rewrite go_bind_gets. cbn [h_fs calm]. by rewrite E, db_open_nil. }
  rewrite (go_bind_Some _ _ _ _ _ Hb), (go_bind_Some _ _ _ None (calm cwd fs)) by done.
  by rewrite setup_empty.
Qed.

Definition migrated (fs : gmap string fs_node) : gmap string fs_node :=
  <[sqlite_file cwd := NFile new_db_bytes]> (<[sqlite_dir cwd := NDir]> fs).

(** [RunMigration] where the working directory is a directory and the paths
    it uses are not taken by something else. *)
Lemma RunMigration_calm fs :
  is_dir fs cwd = true -> not_file fs (sqlite_dir cwd) -> is_dir fs (sqlite_file cwd) = false ->
  RunMigration (calm cwd fs) = Some (tt, calm cwd (migrated fs)).
Proof.
  intros Hc Hd Hf. unfold RunMigration.
  rewrite (go_bind_Some _ _ _ (sqlite_dir cwd, sqlite_file cwd) (calm cwd fs)) by done. cbv iota beta.
  destruct (Remove_calm (sqlite_file cwd) fs Hf) as (r & Hr & Hu).
  rewrite (go_bind_Some _ _ _ _ _ Hr), (go_bind_Some _ _ _ _ _ Hu).
  set (fs1 := delete (sqlite_file cwd) fs).
  rewrite (go_bind_Some _ _ _ _ _ (DirExists_calm _ _)). cbv iota beta.
  assert (H1 : fs1 !! sqlite_dir cwd = fs !! sqlite_dir cwd).
  { apply lookup_delete_ne. intros E. by eapply sqlite_dir_file_ne. }
  assert (Hmk : (if is_dir fs1 (sqlite_dir cwd) then mret (Ok tt) else Mkdir (sqlite_dir cwd)) (calm cwd fs1) =
                Some (Ok tt, calm cwd (<[sqlite_dir cwd := NDir]> fs1))).
  { unfold not_file in Hd. unfold is_dir. rewrite H1. destruct (fs !! sqlite_dir cwd) as [[]|] eqn:E; [|done|].
    - by rewrite insert_id by (by rewrite H1).
    - apply Mkdir_calm; [done|]. unfold in_dir. rewrite parent_sqlite_dir. unfold is_dir, fs1.
      rewrite lookup_delete_ne; [exact Hc|]. intros E'%(f_equal String.length).
      unfold sqlite_file in E'. rewrite !string_length_app in E'. cbn in E'. lia. }
  rewrite (go_bind_Some _ _ _ _ _ Hmk). cbv iota beta.
  set (fs2 := <[sqlite_dir cwd := NDir]> fs1).
  assert (Hnf : is_dir fs2 (sqlite_file cwd) = false).
  { unfold is_dir, fs2, fs1. by rewrite lookup_insert_ne, lookup_delete_eq by apply sqlite_dir_file_ne. }
  assert (Hin : in_dir fs2 (sqlite_file cwd) = true).
  { unfold in_dir. rewrite parent_sqlite_file. unfold is_dir, fs2. by rewrite lookup_insert_eq. }
  rewrite (go_bind_Some _ _ _ _ _ (Create_calm _ _ Hnf Hin)).
  cbv iota beta. rewrite (go_bind_Some _ _ _ (mkDataStore (sqlite_file cwd) false (Some (FileConn (sqlite_file cwd))))
    (calm cwd (<[sqlite_file cwd := NFile []]> fs2))) by done.
  cbn [ds_connection]. erewrite (go_bind_Some (migrate _)) by (apply migrate_created, lookup_insert_eq).
  rewrite insert_insert_eq. assert (<[sqlite_file cwd := NFile new_db_bytes]> fs2 = migrated fs) as ->; [|done].
  unfold fs2, fs1, migrated. apply map_eq. intros q.
  destruct (decide (q = sqlite_file cwd)) as [->|]; [by rewrite !lookup_insert_eq|].
  rewrite !(lookup_insert_ne _ (sqlite_file cwd)) by done.
  destruct (decide (q = sqlite_dir cwd)) as [->|]; [by rewrite !lookup_insert_eq|].
  rewrite !lookup_insert_ne by done. by rewrite lookup_delete_ne.
Qed.

(** ** Setting a node up *)

Definition initialised (fs : gmap string fs_node) : gmap string fs_node :=
  migrated (clear_tree (raft_dir cwd) (clear_tree (sqlite_dir cwd) fs)).

Lemma raft_not_sqlite : in_tree (sqlite_dir cwd) (raft_dir cwd) = false.
Proof. unfold sqlite_dir, raft_dir. by rewrite tree_same. Qed.

Lemma lookup_cleared fs q :
  tree_ok (sqlite_dir cwd) fs -> tree_ok (raft_dir cwd) fs ->
  clear_tree (raft_dir cwd) (clear_tree (sqlite_dir cwd) fs) !! q =
  if in_tree (raft_dir cwd) q || in_tree (sqlite_dir cwd) q then None else fs !! q.
Proof.
  intros Hs Hr. rewrite lookup_clear_tree by (apply tree_ok_clear; auto using raft_not_sqlite).
  destruct (in_tree (raft_dir cwd) q); [done|]. by rewrite lookup_clear_tree.
Qed.

Lemma initialise_calm fs :
  is_dir fs cwd = true -> tree_ok (sqlite_dir cwd) fs -> tree_ok (raft_dir cwd) fs ->
  (RemoveSqliteDbDir;; RemoveRaftDir;; RunMigration) (calm cwd fs) = Some (tt, calm cwd (initialised fs)).
Proof.
  intros Hc Hs Hr. rewrite (go_bind_Some _ _ _ _ _ (RemoveSqliteDbDir_calm _)).
  rewrite (go_bind_Some _ _ _ _ _ (RemoveRaftDir_calm _)). apply RunMigration_calm.
  - unfold is_dir in *. rewrite lookup_cleared by done. unfold raft_dir, sqlite_dir. by rewrite !cwd_outside.
  - unfold not_file. rewrite lookup_cleared by done. by rewrite in_tree_refl, orb_true_r.
  - unfold is_dir. rewrite lookup_cleared by done. by rewrite sqlite_file_in_dir, orb_true_r.
Qed.

(** What [initialised] holds: the database of a new node, nothing of raft,
    and everything else as it was. *)
Lemma lookup_initialised fs q :
  tree_ok (sqlite_dir cwd) fs -> tree_ok (raft_dir cwd) fs ->
  initialised fs !! q =
  if String.eqb q (sqlite_file cwd) then Some (NFile new_db_bytes)
  else if String.eqb q (sqlite_dir cwd) then Some NDir
  else if in_tree (raft_dir cwd) q || in_tree (sqlite_dir cwd) q then None else fs !! q.
Proof.
  intros Hs Hr. unfold initialised, migrated.
  destruct (String.eqb_spec q (sqlite_file cwd)) as [->|]; [by rewrite lookup_insert_eq|].
  rewrite lookup_insert_ne by done.
  destruct (String.eqb_spec q (sqlite_dir cwd)) as [->|]; [by rewrite lookup_insert_eq|].
  rewrite lookup_insert_ne by done. by apply lookup_cleared.
Qed.

Section Initialised.
Context (fs : gmap string fs_node) (Hsq : tree_ok (sqlite_dir cwd) fs) (Hra : tree_ok (raft_dir cwd) fs).

Lemma initialised_dir : is_dir (initialised fs) (sqlite_dir cwd) = true.
Proof.
  unfold is_dir. rewrite lookup_initialised by done.
  by rewrite (proj2 (String.eqb_neq _ _) (sqlite_dir_file_ne cwd)), String.eqb_refl.
Qed.

Lemma initialised_file : initialised fs !! sqlite_file cwd = Some (NFile new_db_bytes).
Proof. rewrite lookup_initialised by done. by rewrite String.eqb_refl. Qed.

Lemma initialised_raft q : in_tree (raft_dir cwd) q = true -> initialised fs !! q = None.
Proof.
  intros Hq. rewrite lookup_initialised by done. rewrite Hq.
  destruct (String.eqb_spec q (sqlite_file cwd)) as [->|]; [by rewrite sqlite_file_not_raft in Hq|].
  destruct (String.eqb_spec q (sqlite_dir cwd)) as [->|]; [by rewrite sqlite_not_raft in Hq|]. done.
Qed.

Lemma initialised_cwd : is_dir fs cwd = true -> is_dir (initialised fs) cwd = true.
Proof.
  intros Hc. unfold is_dir. rewrite lookup_initialised by done.
  assert (Hne : forall x, String.eqb cwd (cwd +:+ "/" +:+ x) = false).
  { intros x. pose proof (cwd_outside cwd x) as H. unfold in_tree in H. by apply orb_false_iff in H as [? _]. }
  unfold sqlite_file, sqlite_dir, raft_dir. rewrite !Hne, !cwd_outside. exact Hc.
Qed.

End Initialised.

(** ** Opening the database and the directory of raft *)

Definition opened : dataStore := mkDataStore (sqlite_file cwd) false (Some (FileConn (sqlite_file cwd))).

Lemma CreateConnection_existing fs b :
  is_dir fs (sqlite_dir cwd) = true -> fs !! sqlite_file cwd = Some (NFile b) ->
  CreateConnectionFromNewDbIfNonExists (calm cwd fs) = Some (opened, calm cwd fs).
Proof.
  intros Hd Hf. unfold CreateConnectionFromNewDbIfNonExists.
  rewrite (go_bind_Some _ _ _ (sqlite_dir cwd, sqlite_file cwd) (calm cwd fs)) by done. cbv iota beta.
  rewrite (go_bind_Some _ _ _ _ _ (DirExists_calm _ _)), Hd. cbv iota beta. rewrite go_bind_mret.
  rewrite (go_bind_Some _ _ _ opened (calm cwd fs)) by done. rewrite (go_bind_lift _ (FileConn (sqlite_file cwd))) by done.
  rewrite (go_bind_Some _ _ _ (db_open b) (calm cwd fs)); [done|].
  unfold sql_Ping, sql_Begin. rewrite (go_bind_Some _ _ _ None (calm cwd fs)) by done. cbv iota beta.
  unfold open_file. rewrite go_bind_gets. cbn [h_fs calm]. by rewrite Hf.
Qed.

(** Where the directory is there and the file is not, no migration runs: the
    node works on a database without tables. *)
Theorem opened_without_tables fs :
  is_dir fs (sqlite_dir cwd) = true -> fs !! sqlite_file cwd = None ->
  CreateConnectionFromNewDbIfNonExists (calm cwd fs) =
    Some (opened, calm cwd (<[sqlite_file cwd := NFile []]> fs)) /\
  db_open [] = Ok (mkDb ∅ 0).
Proof.
  intros Hd Hf. split; [|apply db_open_nil]. unfold CreateConnectionFromNewDbIfNonExists.
  rewrite (go_bind_Some _ _ _ (sqlite_dir cwd, sqlite_file cwd) (calm cwd fs)) by done. cbv iota beta.
  rewrite (go_bind_Some _ _ _ _ _ (DirExists_calm _ _)), Hd. cbv iota beta. rewrite go_bind_mret.
  rewrite (go_bind_Some _ _ _ opened (calm cwd fs)) by done. rewrite (go_bind_lift _ (FileConn (sqlite_file cwd))) by done.
  rewrite (go_bind_Some _ _ _ (db_open []) (calm cwd (<[sqlite_file cwd := NFile []]> fs))); [done|].
  unfold sql_Ping, sql_Begin. rewrite (go_bind_Some _ _ _ None (calm cwd fs)) by done. cbv iota beta.
  unfold open_file. rewrite go_bind_gets. cbn [h_fs calm]. rewrite Hf. unfold in_dir. by rewrite parent_sqlite_file, Hd.
Qed.

Lemma MakeDirIfNotExist_calm path fs :
  not_file fs (cwd +:+ "/" +:+ path) -> in_dir fs (cwd +:+ "/" +:+ path) = true ->
  MakeDirIfNotExist path (calm cwd fs) =
  Some ((cwd +:+ "/" +:+ path, is_dir fs (cwd +:+ "/" +:+ path)),
        calm cwd (<[cwd +:+ "/" +:+ path := NDir]> fs)).
Proof.
  intros Hn Hd. unfold MakeDirIfNotExist. rewrite (go_bind_Some _ _ _ cwd (calm cwd fs)) by done. cbv zeta.
  rewrite (go_bind_Some _ _ _ _ _ (DirExists_calm _ _)). unfold not_file in Hn. unfold is_dir.
  destruct (fs !! (cwd +:+ "/" +:+ path)) as [[]|] eqn:E; [|done|].
  - by rewrite insert_id.
  - by rewrite (go_bind_Some _ _ _ _ _ (Mkdir_calm _ _ E Hd)).
Qed.

End Calm.
