(* ===== verification/Executor.v ===== *)
(** * The job executor: pkg/service/executor/executor.go

    Each node schedules the jobs of its queue ranges in memory, invokes the
    ones that are due, and logs every state of an execution.  The executor
    sees the repositories and the clock through the interface
    [ExecutorRepos].  The mutex serialises the operations; the ticker and the
    debounced closure are operations of their own ([tick], [flush]). *)

From stdpp Require Import base list gmap strings pretty.
From Stdlib Require Import ZArith Lia.
From S2P Require Import Prelude Models JobTime Batcher.

#[local] Open Scope Z_scope.

(** ** What the executor calls *)

Class ExecutorRepos (W : Type) := {
  ex_now : Go W Time;
  ex_GetJobQueueByLastInsertedAndRowsAffected : Z -> Z -> Go W (list JobQueueLog);
  ex_GetLastVersion : Go W Z;
  ex_BatchGetJobsWithIDRange : Z -> Z -> Go W (result GenericError (list Job));
  ex_BatchGetJobsByID : list Z -> Go W (result GenericError (list Job));
  ex_GetLastExecutionLogForJobIds : list Z -> Go W (gmap Z JobExecutionLog);
  ex_CountLastFailedExecutionLogs : Z -> Z -> Z -> Go W Z;
  ex_BatchInsert : list Job -> Z -> Z -> Z -> gmap Z Z -> Go W unit;
  ex_LogJobExecutionStateInRaft : list Job -> Z -> gmap Z Z -> Z -> Z -> Go W unit;
  ex_GetUncommittedExecutionsLogForNode : Z -> Go W (list JobExecutionLog) }.

(** ** State *)

Record jobExecutor := mkJobExecutor {
  singleNodeMode : bool;
  pendingJobInvocations : list Job;
  jobExecutionsCache : gmap Z MemJobExecution;
  scheduledJobs : gmap Z JobSchedule }.

Definition NewJobExecutor : jobExecutor := mkJobExecutor false [] ∅ ∅.

Definition with_pending (l : list Job) (e : jobExecutor) : jobExecutor :=
  mkJobExecutor (singleNodeMode e) l (jobExecutionsCache e) (scheduledJobs e).
Definition with_cache (m : gmap Z MemJobExecution) (e : jobExecutor) : jobExecutor :=
  mkJobExecutor (singleNodeMode e) (pendingJobInvocations e) m (scheduledJobs e).
Definition with_scheduled (m : gmap Z JobSchedule) (e : jobExecutor) : jobExecutor :=
  mkJobExecutor (singleNodeMode e) (pendingJobInvocations e) (jobExecutionsCache e) m.

Definition SetSingleNodeMode (b : bool) (e : jobExecutor) : jobExecutor :=
  mkJobExecutor b (pendingJobInvocations e) (jobExecutionsCache e) (scheduledJobs e).
Definition GetSingleNodeMode (e : jobExecutor) : bool := singleNodeMode e.
Definition StopAll (e : jobExecutor) : jobExecutor := with_scheduled ∅ e.

Section Executor.
Context {W : Type} `{ExecutorRepos W} {env : Env}.
(** [configs.NodeId] and [configs.JobExecutionRetryMax] *)
Context (NodeId JobExecutionRetryMax : Z).

Notation Ex A := (Go (W * jobExecutor) A).

Definition on_exec (f : jobExecutor -> jobExecutor) : Ex unit := modify (fun '(w, e) => (w, f e)).
Definition store_cache (id : Z) (m : MemJobExecution) : Ex unit :=
  on_exec (fun e => with_cache (<[id := m]> (jobExecutionsCache e)) e).

(** A type assertion on what the map holds: nothing there is a panic. *)
Definition load_cache (id : Z) : Ex MemJobExecution :=
  e ← gets snd;
  lift_opt (jobExecutionsCache e !! id).

(** The methods of a job that read the clock. *)
Definition next_time (job : Job) : Ex (result string Time) :=
  now ← on_fst ex_now; lift_opt (GetNextExecutionTime now job).
Definition next_id (job : Job) : Ex (result string string) :=
  now ← on_fst ex_now; lift_opt (GetNextExecutionId now job).

Definition AddJobSchedule (job : Job) : Ex unit :=
  t ← next_time job;
  match t with
  | Err _ => mret tt
  | Ok nextExecutionDateLocal =>
      on_exec (fun e => with_scheduled
        (<[ID job := mkJobSchedule job nextExecutionDateLocal]> (scheduledJobs e)) e)
  end.

(** ** ScheduleJobs *)

(** The body of the loop for a job without a log; the result is [jobs[i]]. *)
Definition schedule_first (job : Job) : Ex Job :=
  match ConvertTimeToJobTimezone job (DateCreated job) with
  | Err _ => mret job
  | Ok dateCreatedInLocal =>
      let job1 := set_LastExecutionDate dateCreatedInLocal job in
      t ← next_time job1;
      match t with
      | Err _ => mret job1
      | Ok nextExecutionTime =>
          i ← next_id job1;
          match i with
          | Err _ => mret job1
          | Ok executionId =>
              let job2 := set_ExecutionId executionId job1 in
              AddJobSchedule job2;;
              store_cache (ID job) (mkMemJobExecution 1 0 ExecutionLogScheduleState
                                      (DateCreated job) nextExecutionTime);;
              mret job2
          end
      end
  end.

(** The last state was "scheduled": the job never ran.  A failed
    [GetNextExecutionTime] is a nil pointer before it is looked at. *)
Definition schedule_again (job : Job) (jobLastLog : JobExecutionLog) : Ex Job :=
  let job1 := set_LastExecutionDate (el_LastExecutionDatetime jobLastLog) job in
  t ← next_time job1;
  match t with
  | Err _ => crash
  | Ok nextExecutionTime =>
      r ← (if Round (Sub nextExecutionTime (el_NextExecutionDatetime jobLastLog)) (1 * Minute) <? 1
           then mret (Ok (el_UniqueId jobLastLog))
           else next_id job1);
      match r with
      | Err _ => mret job1
      | Ok executionId =>
          let job2 := set_ExecutionId executionId job1 in
          AddJobSchedule job2;;
          store_cache (ID job) (mkMemJobExecution (el_ExecutionVersion jobLastLog) 0
                                  ExecutionLogScheduleState (LastExecutionDate job) nextExecutionTime);;
          mret job2
      end
  end.

(** Schedule the execution after [jobLastLog.NextExecutionDatetime], with
    the state the cache will say; [job0] is [jobs[i]] so far. *)
Definition schedule_next (job0 : Job) (jobLastLog : JobExecutionLog) (lastState : Z) : Ex Job :=
  let job1 := set_LastExecutionDate (el_NextExecutionDatetime jobLastLog) job0 in
  t ← next_time job1;
  match t with
  | Err _ => mret job1
  | Ok nextExecutionTime =>
      i ← next_id job1;
      match i with
      | Err _ => mret job1
      | Ok uniqueId =>
          let job2 := set_ExecutionId uniqueId job1 in
          AddJobSchedule job2;;
          store_cache (ID job0) (mkMemJobExecution (el_ExecutionVersion jobLastLog) 0 lastState
                                   (el_NextExecutionDatetime jobLastLog) nextExecutionTime);;
          mret job2
      end
  end.

Definition schedule_failed (job : Job) (jobLastLog : JobExecutionLog) : Ex Job :=
  failCounts ← on_fst (ex_CountLastFailedExecutionLogs (ID job) NodeId (el_ExecutionVersion jobLastLog));
  r ← (if failCounts <? u64 JobExecutionRetryMax then
         let job1 := set_LastExecutionDate (el_LastExecutionDatetime jobLastLog) job in
         i ← next_id job1;
         match i with
         | Err _ => mret (inr job1)
         | Ok uniqueId =>
             let job2 := set_ExecutionId uniqueId job1 in
             store_cache (ID job) (mkMemJobExecution (el_ExecutionVersion jobLastLog) failCounts
                                     ExecutionLogFailedState (el_LastExecutionDatetime jobLastLog)
                                     (el_NextExecutionDatetime jobLastLog));;
             AddJobSchedule job2;;
             mret (inl job2)
         end
       else mret (inl job));
  match r with
  | inr job1 => mret job1
  | inl job0 => schedule_next job0 jobLastLog ExecutionLogFailedState
  end.

Definition schedule_one (executionLogsMap : gmap Z JobExecutionLog) (job : Job) : Ex Job :=
  match executionLogsMap !! ID job with
  | None => schedule_first job
  | Some jobLastLog =>
      if el_State jobLastLog =? ExecutionLogScheduleState then schedule_again job jobLastLog
      else if el_State jobLastLog =? ExecutionLogSuccessState
      then schedule_next job jobLastLog ExecutionLogSuccessState
      else if el_State jobLastLog =? ExecutionLogFailedState then schedule_failed job jobLastLog
      else mret job
  end.

(** The versions the new logs carry. *)
Definition schedule_version (executionLogsMap : gmap Z JobExecutionLog) (versions : gmap Z Z)
    (job : Job) : Ex (gmap Z Z) :=
  match versions !! ID job with
  | Some _ => mret versions
  | None =>
      match executionLogsMap !! ID job with
      | Some l =>
          c ← load_cache (ID job);
          let fresh := (el_State l =? ExecutionLogSuccessState) ||
                       ((m_FailCount c =? 0) && (m_LastState c =? ExecutionLogFailedState)) in
          mret (<[ID job := if fresh then u64 (el_ExecutionVersion l + 1)
                            else el_ExecutionVersion l]> versions)
      | None => mret (<[ID job := 1]> versions)
      end
  end.

(** The log lines of a state, locally and, on a single node, in raft. *)
Definition log_state (jobs : list Job) (state lastVersion : Z) (versions : gmap Z Z) : Ex unit :=
  on_fst (ex_BatchInsert jobs NodeId state lastVersion versions);;
  e ← gets snd;
  if singleNodeMode e
  then on_fst (ex_LogJobExecutionStateInRaft jobs state versions lastVersion NodeId)
  else mret tt.

Definition ScheduleJobs (jobs : list Job) : Ex unit :=
  match jobs with
  | [] => mret tt
  | _ =>
      executionLogsMap ← on_fst (ex_GetLastExecutionLogForJobIds (ID <$> jobs));
      jobs ← go_for (fun done job => job' ← schedule_one executionLogsMap job; mret (done ++ [job']))
               jobs [];
      lastVersion ← on_fst ex_GetLastVersion;
      lastExecutionVersions ← go_for (schedule_version executionLogsMap) jobs ∅;
      log_state jobs ExecutionLogScheduleState lastVersion lastExecutionVersions
  end.

(** ** QueueExecutions *)

(** The loop over the new logs.  [uint64] of the initial upper bound is 2^63,
    so a bound replaces it when it is smaller. *)
Definition queue_bounds (logs : list JobQueueLog) : Z * Z :=
  foldl (fun '(lowerBound, upperBound) l =>
           (if q_LowerBoundJobId l <? u64 lowerBound then i64 (q_LowerBoundJobId l) else lowerBound,
            if q_UpperBoundJobId l <? u64 upperBound then i64 (q_UpperBoundJobId l) else upperBound))
    (MaxInt64, MinInt64) logs.

(** [for currentLowerBound < upperBound]; [None] when the fuel is out. *)
Fixpoint queue_walk (fuel : nat) (currentLowerBound currentUpperBound upperBound : Z) : Ex unit :=
  if currentLowerBound <? upperBound then
    match fuel with
    | O => crash
    | S fuel' =>
        r ← on_fst (ex_BatchGetJobsWithIDRange currentLowerBound currentUpperBound);
        match r with
        | Err _ => mret tt
        | Ok jobs =>
            ScheduleJobs jobs;;
            if i64 (upperBound - currentUpperBound) <? JobMaxBatchSize
            then queue_walk fuel' (i64 (currentUpperBound + 1)) upperBound upperBound
            else
              let lo := i64 (currentUpperBound + 1) in
              queue_walk fuel' lo
                (i64_of_f64 (Z.min (f64 (i64 (lo + JobMaxBatchSize))) (f64 upperBound))) upperBound
        end
    end
  else mret tt.

Definition QueueExecutions (lastInsertedId rowsAffected : Z) : Ex unit :=
  newJobQueueLogs ← on_fst (ex_GetJobQueueByLastInsertedAndRowsAffected lastInsertedId rowsAffected);
  let '(lowerBound, upperBound) := queue_bounds newJobQueueLogs in
  if JobMaxBatchSize <? i64 (upperBound - lowerBound) then
    queue_walk (S (Z.to_nat (upperBound - lowerBound))) lowerBound
      (i64 (lowerBound + JobMaxBatchSize)) upperBound
  else
    r ← on_fst (ex_BatchGetJobsWithIDRange lowerBound upperBound);
    match r with
    | Err _ => ScheduleJobs []
    | Ok jobs => ScheduleJobs jobs
    end.

(** ** Invocation *)

(** One tick of [ListenForJobsToInvoke]: [Range] visits the entries in the
    order [entries]; a due job leaves the schedule and waits for [flush]. *)
Definition tick_entry (currentTime : Time) (e : jobExecutor) (entry : Z * JobSchedule) : jobExecutor :=
  let jobSchedule := snd entry in
  if After currentTime (js_ExecutionTime jobSchedule)
  then with_pending (pendingJobInvocations e ++ [js_Job jobSchedule])
         (with_scheduled (delete (ID (js_Job jobSchedule)) (scheduledJobs e)) e)
  else e.

Definition tick (order : gmap Z JobSchedule -> list (Z * JobSchedule)) : Ex unit :=
  currentTime ← on_fst ex_now;
  on_exec (fun e => foldl (tick_entry currentTime) e (order (scheduledJobs e))).

Definition ExecutionTypeHTTP : string := "http".

Definition getPendingJob (pendingJobs : list Job) (jobID : Z) : option Job :=
  List.find (fun p => ID p =? jobID) pendingJobs.

(** The closure [invokeJob] debounces: what is handed to the HTTP executor,
    in one call, or nothing.  Other execution types are only logged. *)
Definition flush : Ex (list Job) :=
  e ← gets snd;
  let pendingJobs := pendingJobInvocations e in
  r ← on_fst (ex_BatchGetJobsByID (ID <$> pendingJobs));
  match r with
  | Err _ => mret []
  | Ok jobs =>
      let jobsToExecute := omap (fun job => getPendingJob pendingJobs (ID job)) jobs in
      on_exec (with_pending []);;
      mret (List.filter (fun job => String.eqb (ExecutionType job) ExecutionTypeHTTP) jobsToExecute)
  end.

(** ** After an execution *)

(** The loop body of [reschedule]; the job joins [jobsToReschedule] if it
    comes back. *)
Definition reschedule_one (newState : Z) (job : Job) : Ex (option Job) :=
  lastExecution ← load_cache (ID job);
  if (newState =? ExecutionLogFailedState) && (m_FailCount lastExecution <? JobExecutionRetryMax) then
    store_cache (ID job)
      (mkMemJobExecution (m_ExecutionVersion lastExecution) (u64 (m_FailCount lastExecution + 1))
         newState (m_LastExecutionDatetime lastExecution) (m_NextExecutionDatetime lastExecution));;
    mret None
  else
    let executionVersion := u64 (m_ExecutionVersion lastExecution + 1) in
    let job1 := set_LastExecutionDate (m_NextExecutionDatetime lastExecution) job in
    i ← next_id job1;
    match i with
    | Err _ => mret None
    | Ok executionId =>
        t ← next_time job1;
        match t with
        | Err _ => mret None
        | Ok executionTime =>
            let job2 := set_ExecutionId executionId job1 in
            AddJobSchedule job2;;
            store_cache (ID job)
              (mkMemJobExecution executionVersion 0 newState (m_NextExecutionDatetime lastExecution)
                 executionTime);;
            mret (Some job2)
        end
    end.

(** The version of each job, from the cache, first come first kept. *)
Definition cached_version (versions : gmap Z Z) (job : Job) : Ex (gmap Z Z) :=
  match versions !! ID job with
  | Some _ => mret versions
  | None => c ← load_cache (ID job); mret (<[ID job := m_ExecutionVersion c]> versions)
  end.

Definition reschedule (jobs : list Job) (newState : Z) : Ex unit :=
  jobsToReschedule ← go_for (fun done job =>
      r ← reschedule_one newState job;
      mret (match r with Some job' => done ++ [job'] | None => done end)) jobs [];
  lastVersion ← on_fst ex_GetLastVersion;
  lastExecutionVersions ← go_for cached_version jobsToReschedule ∅;
  log_state jobsToReschedule ExecutionLogScheduleState lastVersion lastExecutionVersions.

Definition create_one (logs : gmap Z JobExecutionLog) (jobId : Z) : Ex unit :=
  let l := default execution_log_zero (logs !! jobId) in
  failCounts ← (if el_State l =? ExecutionLogFailedState
                then on_fst (ex_CountLastFailedExecutionLogs jobId NodeId (el_ExecutionVersion l))
                else mret 0);
  store_cache jobId (mkMemJobExecution (el_ExecutionVersion l) (u64 (i64 failCounts)) (el_State l)
                       (el_LastExecutionDatetime l) (el_NextExecutionDatetime l)).

Definition createInMemExecutionsForJobsIfNotExist (jobs : list Job) : Ex unit :=
  e ← gets snd;
  let jobsNotInExecution :=
    ID <$> List.filter (fun job => bool_decide (jobExecutionsCache e !! ID job = None)) jobs in
  logs ← on_fst (ex_GetLastExecutionLogForJobIds jobsNotInExecution);
  go_for (fun _ jobId => create_one logs jobId) jobsNotInExecution tt.

(** The success and failure callbacks differ in the state only. *)
Definition handleJobs (state : Z) (jobs : list Job) : Ex unit :=
  lastVersion ← on_fst ex_GetLastVersion;
  createInMemExecutionsForJobsIfNotExist jobs;;
  lastExecutionVersions ← go_for (fun versions job =>
      c ← load_cache (ID job); mret (<[ID job := m_ExecutionVersion c]> versions)) jobs ∅;
  log_state jobs state lastVersion lastExecutionVersions;;
  reschedule jobs state.

Definition handleSuccessJobs (successfulJobs : list Job) : Ex unit :=
  handleJobs ExecutionLogSuccessState successfulJobs.
Definition handleFailedJobs (erroredJobs : list Job) : Ex unit :=
  handleJobs ExecutionLogFailedState erroredJobs.

Definition GetUncommittedLogs : Ex (list JobExecutionLog) :=
  on_fst (ex_GetUncommittedExecutionsLogForNode NodeId).

End Executor.
