(* ===== verification/ExecutorFacts.v ===== *)
(** * The job executor: theorems

    A tick hands over exactly the jobs that are due; a flush loses none; a
    success plans the next execution; and what happens after a failure and on
    a large range of ids. *)

From stdpp Require Import base list gmap strings pretty.
From Stdlib Require Import ZArith Lia.
From S2P Require Import Prelude Models JobTime Batcher Executor.

#[local] Open Scope Z_scope.

(** ** The tick *)

(** A schedule is stored under its job's id. *)
Definition sched_wf (m : gmap Z JobSchedule) : Prop :=
  map_Forall (fun k s => ID (js_Job s) = k) m.

Definition due (now : Time) (s : JobSchedule) : bool := After now (js_ExecutionTime s).

Definition due_entries (now : Time) (entries : list (Z * JobSchedule)) : list (Z * JobSchedule) :=
  List.filter (fun en => due now (snd en)) entries.

Definition remove_all {A} (m : gmap Z A) (ks : list Z) : gmap Z A :=
  foldl (fun m k => delete k m) m ks.

Lemma tick_fold now entries e :
  Forall (fun en => ID (js_Job (snd en)) = fst en) entries ->
  foldl (tick_entry now) e entries =
  with_pending (pendingJobInvocations e ++ ((fun en => js_Job (snd en)) <$> due_entries now entries))
    (with_scheduled (remove_all (scheduledJobs e) (fst <$> due_entries now entries)) e).
Proof.
  intros HF. revert e. induction HF as [|[k s] entries Hk _ IH]; intros e.
  { destruct e. cbn. by rewrite app_nil_r. }
  cbn [foldl due_entries List.filter]. rewrite IH. unfold tick_entry. cbn [snd fst] in *.
  change (After now (js_ExecutionTime s)) with (due now s). destruct (due now s); [|done].
  rewrite !fmap_cons. cbn. by rewrite <- app_assoc, Hk.
Qed.

Lemma remove_all_lookup {A} (m : gmap Z A) ks k :
  remove_all m ks !! k = if bool_decide (k ∈ ks) then None else m !! k.
Proof.
  unfold remove_all. revert m. induction ks as [|x ks IH]; intros m; cbn [foldl].
  - by rewrite bool_decide_eq_false_2 by apply not_elem_of_nil.
  - rewrite IH, lookup_delete. destruct (decide (x = k)) as [->|Hx].
    + rewrite (bool_decide_eq_true_2 (k ∈ k :: ks)) by (by left). by case_bool_decide.
    + by rewrite (bool_decide_ext (k ∈ x :: ks) (k ∈ ks)) by (rewrite elem_of_cons; naive_solver).
Qed.

Lemma elem_of_due now (m : gmap Z JobSchedule) entries k :
  entries ≡ₚ map_to_list m ->
  k ∈ fst <$> due_entries now entries <-> exists s, m !! k = Some s /\ due now s = true.
Proof.
  intros Hp. rewrite list_elem_of_fmap. unfold due_entries. split.
  - intros ([k' s] & -> & [Hin Hd]%list_elem_of_In%filter_In). apply list_elem_of_In in Hin.
    rewrite Hp, elem_of_map_to_list in Hin. eauto.
  - intros (s & Hs & Hd). exists (k, s). split; [done|]. apply list_elem_of_In, filter_In.
    split; [|done]. apply list_elem_of_In. by rewrite Hp, elem_of_map_to_list.
Qed.

Lemma tick_schedule now (m : gmap Z JobSchedule) entries :
  entries ≡ₚ map_to_list m ->
  remove_all m (fst <$> due_entries now entries) = filter (fun ks => due now (snd ks) = false) m.
Proof.
  intros Hp. apply map_eq. intros k. rewrite remove_all_lookup, map_lookup_filter.
  pose proof (elem_of_due now m entries k Hp) as Hin.
  case_bool_decide as Hb; destruct (m !! k) as [s|] eqn:Hs; cbn; [| done | | done].
  - apply Hin in Hb as (s' & [= <-] & Hd). case_guard; [congruence|done].
  - case_guard as Hd; [done|]. destruct Hb. apply Hin. exists s. split; [done|].
    by apply not_false_is_true.
Qed.

Lemma filter_List_filter {A} (p : A -> bool) (l l' : list A) :
  l ≡ₚ l' -> List.filter p l ≡ₚ List.filter p l'.
Proof.
  induction 1 as [|x l l' _ IH|x y l|l1 l2 l3 _ IH1 _ IH2]; cbn [List.filter];
    repeat case_match; try done; [by rewrite IH|by constructor|by rewrite IH1].
Qed.

(** ** Laws of what the executor calls *)

Class ExecutorLaws (W : Type) `{ExecutorRepos W} {env : Env} := {
  ex_ready : W -> Prop;
  ex_clock : W -> Time;
  ex_version : W -> Z;
  (** nothing changed but executions of these jobs that were logged *)
  ex_logged : list Z -> W -> W -> Prop;
  ex_now_law w : ex_ready w -> ex_now w = Some (ex_clock w, w);
  ex_version_law w : ex_ready w -> ex_GetLastVersion w = Some (ex_version w, w);
  ex_logs_law ids w : ex_ready w -> exists m, ex_GetLastExecutionLogForJobIds ids w = Some (m, w);
  ex_logged_nil w : ex_ready w -> ex_logged [] w w;
  ex_insert_law jobs node state ver vers w :
    ex_ready w -> Forall (fun job => exists next, cron_parse (Spec job) = Ok next) jobs ->
    exists w', ex_BatchInsert jobs node state ver vers w = Some (tt, w') /\
      ex_ready w' /\ ex_clock w' = ex_clock w /\ ex_version w' = ex_version w /\
      ex_logged (ID <$> jobs) w w';
  ex_raft_law jobs node state ver vers w :
    ex_ready w -> Forall (fun job => is_Some (GetNextExecutionTime (ex_clock w) job)) jobs ->
    exists w', ex_LogJobExecutionStateInRaft jobs state vers ver node w = Some (tt, w') /\
      ex_ready w' /\ ex_clock w' = ex_clock w /\ ex_version w' = ex_version w }.

Section Facts.
Context {W : Type} `{ExecutorLaws W} (NodeId JobExecutionRetryMax : Z).

Lemma tick_due order w e :
  ex_ready w -> sched_wf (scheduledJobs e) -> order (scheduledJobs e) ≡ₚ map_to_list (scheduledJobs e) ->
  exists e', tick order (w, e) = Some (tt, (w, e')) /\
    pendingJobInvocations e' ≡ₚ pendingJobInvocations e ++
      ((fun en => js_Job (snd en)) <$> due_entries (ex_clock w) (map_to_list (scheduledJobs e))) /\
    scheduledJobs e' = filter (fun ks => due (ex_clock w) (snd ks) = false) (scheduledJobs e) /\
    jobExecutionsCache e' = jobExecutionsCache e.
Proof.
  intros Hr Hwf Hp. unfold tick. erewrite go_bind_on_fst by (by apply ex_now_law).
  unfold on_exec, modify. eexists. split; [reflexivity|].
  rewrite tick_fold.
  2:{ apply Forall_forall. intros [k s] Hin. rewrite Hp, elem_of_map_to_list in Hin.
      apply Hwf in Hin. done. }
  cbn [pendingJobInvocations scheduledJobs jobExecutionsCache with_pending with_scheduled].
  split; [|split; [by apply tick_schedule|done]].
  apply Permutation_app_head. unfold due_entries. by apply fmap_Permutation, filter_List_filter.
Qed.

(** C26: At every tick the executor takes off the schedule exactly the jobs
    whose execution time has passed and adds each of them once to the pending
    invocations, whatever order the map is visited in; the others stay
    scheduled, and the cache is untouched. *)
Theorem tick_invokes_due order w e :
  ex_ready w -> sched_wf (scheduledJobs e) -> order (scheduledJobs e) ≡ₚ map_to_list (scheduledJobs e) ->
  exists e', tick order (w, e) = Some (tt, (w, e')) /\
    pendingJobInvocations e' ≡ₚ pendingJobInvocations e ++
      ((fun en => js_Job (snd en)) <$> due_entries (ex_clock w) (map_to_list (scheduledJobs e))) /\
    scheduledJobs e' = filter (fun ks => due (ex_clock w) (snd ks) = false) (scheduledJobs e) /\
    jobExecutionsCache e' = jobExecutionsCache e.
Proof. apply tick_due. Qed.

(** ** Steps of an operation *)

Lemma next_time_then {B} job r (k : _ -> Go (W * jobExecutor) B) w e :
  ex_ready w -> GetNextExecutionTime (ex_clock w) job = Some r ->
  (next_time job ≫= k) (w, e) = k r (w, e).
Proof.
  intros Hr Ht. unfold next_time. rewrite go_bind_assoc.
  erewrite go_bind_on_fst by (by apply ex_now_law). rewrite Ht. done.
Qed.

(** The id a job gets for the activation [t]. *)
Definition id_for (job : Job) (t : Time) : string :=
  hex_string (execution_unique_id job t) +:+ sha256_empty_hex.

Lemma next_id_then {B} job t (k : _ -> Go (W * jobExecutor) B) w e :
  ex_ready w -> GetNextExecutionTime (ex_clock w) job = Some (Ok t) ->
  (next_id job ≫= k) (w, e) = k (Ok (id_for job t)) (w, e).
Proof.
  intros Hr Ht. unfold next_id. rewrite go_bind_assoc.
  erewrite go_bind_on_fst by (by apply ex_now_law). unfold GetNextExecutionId. rewrite Ht. reflexivity.
Qed.

Lemma AddJobSchedule_then {B} job t (k : unit -> Go (W * jobExecutor) B) w e :
  ex_ready w -> GetNextExecutionTime (ex_clock w) job = Some (Ok t) ->
  (AddJobSchedule job ≫= k) (w, e) =
  k tt (w, with_scheduled (<[ID job := mkJobSchedule job t]> (scheduledJobs e)) e).
Proof.
  intros Hr Ht. unfold AddJobSchedule. rewrite go_bind_assoc.
  erewrite next_time_then by done. done.
Qed.

Lemma load_cache_then {B} id c (k : _ -> Go (W * jobExecutor) B) w e :
  jobExecutionsCache e !! id = Some c -> (load_cache id ≫= k) (w, e) = k c (w, e).
Proof. intros Hc. unfold load_cache. go_step. cbn [snd]. by rewrite Hc. Qed.

Lemma store_cache_then {B} id c (k : unit -> Go (W * jobExecutor) B) w e :
  (store_cache id c ≫= k) (w, e) = k tt (w, with_cache (<[id := c]> (jobExecutionsCache e)) e).
Proof. done. Qed.

Lemma GetNext_spec now job t :
  GetNextExecutionTime now job = Some (Ok t) ->
  (exists next, cron_parse (Spec job) = Ok next) /\ t_ns now <= t_ns t.
Proof.
  unfold GetNextExecutionTime. destruct (cron_parse (Spec job)) as [next|]; [|done].
  destruct (ConvertTimeToJobTimezone _ _) as [from|]; [|done].
  destruct (next_loop loop_fuel next now from) as [u|] eqn:E; [|done]. intros [= <-].
  split; [eauto|]. revert from E. induction loop_fuel as [|f IH]; intros from;
    rewrite next_loop_unfold; destruct (Z.ltb_spec (t_ns from) (t_ns now)); try done;
    try (intros [= <-]; done). apply IH.
Qed.

Lemma log_state_ok jobs state ver vers w e :
  ex_ready w ->
  Forall (fun job => exists t, GetNextExecutionTime (ex_clock w) job = Some (Ok t)) jobs ->
  exists w', log_state NodeId jobs state ver vers (w, e) = Some (tt, (w', e)) /\ ex_ready w' /\
    ex_clock w' = ex_clock w /\ ex_version w' = ex_version w /\
    (singleNodeMode e = false -> ex_logged (ID <$> jobs) w w').
Proof.
  intros Hr HF. unfold log_state.
  destruct (ex_insert_law jobs NodeId state ver vers w Hr) as (w1 & H1 & Hr1 & Hc1 & Hv1 & Hl1).
  { eapply Forall_impl; [exact HF|]. intros job (t & Ht). by apply GetNext_spec in Ht as []. }
  erewrite go_bind_on_fst by exact H1. go_step. cbn [snd]. destruct (singleNodeMode e); [|by exists w1].
  destruct (ex_raft_law jobs NodeId state ver vers w1 Hr1) as (w2 & H2 & Hr2 & Hc2 & Hv2).
  { rewrite Hc1. eapply Forall_impl; [exact HF|]. intros job (t & Ht). eauto. }
  exists w2. unfold on_fst. cbn [fst snd]. rewrite H2. split_and!; [done|done|congruence..|done].
Qed.

(** ** Rescheduling *)

(** The execution that follows a cached one. *)
Definition follow (c : MemJobExecution) (job : Job) : Job :=
  set_LastExecutionDate (m_NextExecutionDatetime c) job.
Definition advanced (state : Z) (c : MemJobExecution) (t : Time) : MemJobExecution :=
  mkMemJobExecution (u64 (m_ExecutionVersion c + 1)) 0 state (m_NextExecutionDatetime c) t.

(** The failure counts as one more attempt of the same execution. *)
Definition retries (state : Z) (c : MemJobExecution) : bool :=
  (state =? ExecutionLogFailedState) && (m_FailCount c <? JobExecutionRetryMax).

Lemma reschedule_one_ok state job c t w e :
  ex_ready w -> jobExecutionsCache e !! ID job = Some c -> retries state c = false ->
  GetNextExecutionTime (ex_clock w) (follow c job) = Some (Ok t) ->
  let job' := set_ExecutionId (id_for (follow c job) t) (follow c job) in
  reschedule_one JobExecutionRetryMax state job (w, e) =
  Some (Some job', (w, with_cache (<[ID job := advanced state c t]> (jobExecutionsCache e))
                         (with_scheduled (<[ID job := mkJobSchedule job' t]> (scheduledJobs e)) e))).
Proof.
  intros Hr Hc Hs Ht job'. unfold reschedule_one. erewrite load_cache_then by done.
  unfold retries in Hs. rewrite Hs. fold (follow c job).
  erewrite next_id_then by done. erewrite next_time_then by done. cbn beta iota zeta.
  erewrite (AddJobSchedule_then job') by done. done.
Qed.

Lemma reschedule_one_retry state job c w e :
  jobExecutionsCache e !! ID job = Some c -> retries state c = true ->
  reschedule_one JobExecutionRetryMax state job (w, e) =
  Some (None, (w, with_cache (<[ID job :=
    mkMemJobExecution (m_ExecutionVersion c) (u64 (m_FailCount c + 1)) state
      (m_LastExecutionDatetime c) (m_NextExecutionDatetime c)]> (jobExecutionsCache e)) e)).
Proof.
  intros Hc Hs. unfold reschedule_one. erewrite load_cache_then by done.
  unfold retries in Hs. by rewrite Hs.
Qed.

(** What the cache must say for a job to get a next execution. *)
Definition plannable (now : Time) (state : Z) (e : jobExecutor) (job : Job) : Prop :=
  exists c t, jobExecutionsCache e !! ID job = Some c /\ retries state c = false /\
    GetNextExecutionTime now (follow c job) = Some (Ok t).

(** The job has its next execution, in the cache and in the schedule. *)
Definition planned (now : Time) (state : Z) (e e' : jobExecutor) (job : Job) : Prop :=
  exists c t, jobExecutionsCache e !! ID job = Some c /\
    GetNextExecutionTime now (follow c job) = Some (Ok t) /\ t_ns now <= t_ns t /\
    jobExecutionsCache e' !! ID job = Some (advanced state c t) /\
    scheduledJobs e' !! ID job =
      Some (mkJobSchedule (set_ExecutionId (id_for (follow c job) t) (follow c job)) t).

Definition reschedule_step (state : Z) (done : list Job) (job : Job) : Go (W * jobExecutor) (list Job) :=
  r ← reschedule_one JobExecutionRetryMax state job;
  mret (match r with Some job' => done ++ [job'] | None => done end).

(** Outside [ids] nothing changes. *)
Definition same_outside (ids : list Z) (e e' : jobExecutor) : Prop :=
  forall k, k ∉ ids -> jobExecutionsCache e' !! k = jobExecutionsCache e !! k /\
    scheduledJobs e' !! k = scheduledJobs e !! k.

Lemma reschedule_loop state jobs acc w e :
  ex_ready w -> NoDup (ID <$> jobs) -> Forall (plannable (ex_clock w) state e) jobs ->
  exists e' out,
    go_for (reschedule_step state) jobs acc (w, e) = Some (acc ++ out, (w, e')) /\
    Forall (planned (ex_clock w) state e e') jobs /\ same_outside (ID <$> jobs) e e' /\
    Forall (fun job => (exists t, GetNextExecutionTime (ex_clock w) job = Some (Ok t)) /\
                       is_Some (jobExecutionsCache e' !! ID job)) out /\
    pendingJobInvocations e' = pendingJobInvocations e.
Proof.
  intros Hr. revert acc e. induction jobs as [|job jobs IH]; intros acc e Hnd HF.
  { exists e, []. rewrite app_nil_r. by split_and!. }
  rewrite fmap_cons in Hnd |- *. apply NoDup_cons in Hnd as [Hni Hnd].
  apply Forall_cons in HF as [(c & t & Hc & Hs & Ht) HF].
  cbn [go_for]. unfold reschedule_step at 2. rewrite go_bind_assoc.
  erewrite go_bind_Some by (by apply reschedule_one_ok). rewrite go_bind_mret.
  set (job' := set_ExecutionId (id_for (follow c job) t) (follow c job)).
  set (e1 := with_cache _ _).
  assert (Hne : forall j, j ∈ jobs -> ID j <> ID job).
  { intros j Hj E. apply Hni. rewrite <- E. by apply list_elem_of_fmap_2. }
  assert (Hsame : forall j, j ∈ jobs -> jobExecutionsCache e1 !! ID j = jobExecutionsCache e !! ID j).
  { intros j Hj. cbn. rewrite lookup_insert_ne; [done|]. intros E. by apply (Hne j Hj). }
  destruct (IH (acc ++ [job']) e1 Hnd) as (e' & out & Hgo & Hpl & Hout & Hok & Hpend).
  { apply Forall_forall. intros j Hj. rewrite Forall_forall in HF.
    destruct (HF j Hj) as (cj & tj & ? & ? & ?). exists cj, tj. by rewrite Hsame. }
  exists e', (job' :: out). rewrite Hgo, <- app_assoc. split; [done|].
  destruct (Hout (ID job) Hni) as [Hc' Hs']. cbn in Hc', Hs'.
  rewrite lookup_insert_eq in Hc'. rewrite lookup_insert_eq in Hs'.
  split_and!; [| | |done].
  - constructor.
    + exists c, t. split_and!; try done. by apply GetNext_spec in Ht as [].
    + apply Forall_forall. intros j Hj. rewrite Forall_forall in Hpl.
      destruct (Hpl j Hj) as (cj & tj & Hcj & ? & ? & ? & ?). rewrite Hsame in Hcj by done.
      exists cj, tj. by split_and!.
  - intros k Hk. apply not_elem_of_cons in Hk as [Hk1 Hk2].
    destruct (Hout k Hk2) as [-> ->]. cbn. by rewrite !lookup_insert_ne by done.
  - constructor; [|done]. split; [by exists t|]. cbn. by rewrite Hc'.
Qed.

Lemma cached_versions_ok jobs vers w e :
  Forall (fun job => is_Some (jobExecutionsCache e !! ID job)) jobs ->
  exists vers', go_for (@cached_version W) jobs vers (w, e) = Some (vers', (w, e)).
Proof.
  intros HF. revert vers. induction HF as [|job jobs [c Hc] _ IH]; intros vers; [by eexists|].
  cbn [go_for]. unfold cached_version at 2. destruct (vers !! ID job).
  - rewrite go_bind_mret. apply IH.
  - rewrite go_bind_assoc. erewrite load_cache_then by done. rewrite go_bind_mret. apply IH.
Qed.

Lemma reschedule_ok state jobs w e :
  ex_ready w -> NoDup (ID <$> jobs) -> Forall (plannable (ex_clock w) state e) jobs ->
  exists w' e',
    reschedule NodeId JobExecutionRetryMax jobs state (w, e) = Some (tt, (w', e')) /\
    ex_ready w' /\ ex_clock w' = ex_clock w /\
    Forall (planned (ex_clock w) state e e') jobs /\ same_outside (ID <$> jobs) e e' /\
    pendingJobInvocations e' = pendingJobInvocations e.
Proof.
  intros Hr Hnd HF. unfold reschedule.
  destruct (reschedule_loop state jobs [] w e Hr Hnd HF) as (e' & out & Hgo & Hpl & Hout & Hok & Hp).
  erewrite go_bind_Some by exact Hgo. cbn [app].
  erewrite go_bind_on_fst by (by apply ex_version_law).
  destruct (cached_versions_ok out ∅ w e') as (vers & Hv).
  { eapply Forall_impl; [exact Hok|]. by intros ? []. }
  erewrite go_bind_Some by exact Hv.
  destruct (log_state_ok out ExecutionLogScheduleState (ex_version w) vers w e' Hr) as (w' & Hl & Hr' & Hc & _).
  { eapply Forall_impl; [exact Hok|]. by intros ? []. }
  exists w', e'. by split_and!.
Qed.

(** ** The callbacks of an execution *)

Definition cached (e : jobExecutor) (job : Job) : Prop := is_Some (jobExecutionsCache e !! ID job).

Lemma createInMem_cached jobs w e :
  ex_ready w -> Forall (cached e) jobs ->
  createInMemExecutionsForJobsIfNotExist NodeId jobs (w, e) = Some (tt, (w, e)).
Proof.
  intros Hr HF. unfold createInMemExecutionsForJobsIfNotExist. go_step. cbn [snd].
  rewrite filter_none.
  2:{ intros job Hj. rewrite Forall_forall in HF. destruct (HF job Hj) as [c ->].
      by apply bool_decide_eq_false_2. }
  destruct (ex_logs_law [] w Hr) as (m & Hm). erewrite go_bind_on_fst by exact Hm. done.
Qed.

Lemma versions_loop jobs (vers : gmap Z Z) w e :
  Forall (cached e) jobs ->
  exists vers', go_for (fun versions job =>
      c ← @load_cache W (ID job); mret (<[ID job := m_ExecutionVersion c]> versions)) jobs vers (w, e)
    = Some (vers', (w, e)).
Proof.
  intros HF. revert vers. induction HF as [|job jobs [c Hc] _ IH]; intros vers; [by eexists|].
  cbn [go_for]. rewrite go_bind_assoc. erewrite load_cache_then by done. rewrite go_bind_mret. apply IH.
Qed.

(** Up to its last call a callback only writes log lines. *)
Lemma handleJobs_prefix state jobs w e :
  ex_ready w -> Forall (cached e) jobs ->
  Forall (fun job => exists t, GetNextExecutionTime (ex_clock w) job = Some (Ok t)) jobs ->
  exists w', ex_ready w' /\ ex_clock w' = ex_clock w /\
    handleJobs NodeId JobExecutionRetryMax state jobs (w, e) =
    reschedule NodeId JobExecutionRetryMax jobs state (w', e).
Proof.
  intros Hr Hc Ht. unfold handleJobs. erewrite go_bind_on_fst by (by apply ex_version_law).
  erewrite go_bind_Some by (by apply createInMem_cached).
  destruct (versions_loop jobs ∅ w e Hc) as (vers & Hv). erewrite go_bind_Some by exact Hv.
  destruct (log_state_ok jobs state (ex_version w) vers w e Hr Ht) as (w' & Hl & Hr' & Hck & _).
  erewrite go_bind_Some by exact Hl. eauto.
Qed.

(** A callback whose jobs are not to be retried plans the next executions. *)
Lemma handleJobs_plans state jobs w e :
  ex_ready w -> NoDup (ID <$> jobs) ->
  Forall (fun job => exists t, GetNextExecutionTime (ex_clock w) job = Some (Ok t)) jobs ->
  Forall (plannable (ex_clock w) state e) jobs ->
  exists w' e',
    handleJobs NodeId JobExecutionRetryMax state jobs (w, e) = Some (tt, (w', e')) /\ ex_ready w' /\
    ex_clock w' = ex_clock w /\ Forall (planned (ex_clock w) state e e') jobs /\
    same_outside (ID <$> jobs) e e' /\ pendingJobInvocations e' = pendingJobInvocations e.
Proof.
  intros Hr Hnd Ht Hpl.
  destruct (handleJobs_prefix state jobs w e Hr) as (w1 & Hr1 & Hc1 & ->); [|done|].
  { eapply Forall_impl; [exact Hpl|]. intros job (c & t & Hc & _). by exists c. }
  rewrite <- Hc1 in Hpl. destruct (reschedule_ok state jobs w1 e Hr1 Hnd Hpl)
    as (w2 & e2 & Hgo & Hr2 & Hc2 & Hp2 & Ho2 & Hpd).
  exists w2, e2. rewrite <- Hc1. by split_and!.
Qed.

(** After a successful execution every job gets its next one: the cache
    moves to the next execution version with no failures, and the schedule
    holds the job at the first activation after the one that just ran, which
    is not in the past.  Other jobs are untouched. *)
Theorem handleSuccessJobs_plans jobs w e :
  ex_ready w -> NoDup (ID <$> jobs) ->
  Forall (fun job => exists t, GetNextExecutionTime (ex_clock w) job = Some (Ok t)) jobs ->
  Forall (fun job => exists c t, jobExecutionsCache e !! ID job = Some c /\
            GetNextExecutionTime (ex_clock w) (follow c job) = Some (Ok t)) jobs ->
  exists w' e',
    handleSuccessJobs NodeId JobExecutionRetryMax jobs (w, e) = Some (tt, (w', e')) /\ ex_ready w' /\
    Forall (planned (ex_clock w) ExecutionLogSuccessState e e') jobs /\
    same_outside (ID <$> jobs) e e' /\ pendingJobInvocations e' = pendingJobInvocations e.
Proof.
  intros Hr Hnd Ht Hpl. unfold handleSuccessJobs.
  destruct (handleJobs_plans ExecutionLogSuccessState jobs w e Hr Hnd Ht) as (w' & e' & ? & ? & _ & ?).
  { eapply Forall_impl; [exact Hpl|]. intros job (c & t & Hc & Hn). exists c, t. by split_and!. }
  by exists w', e'.
Qed.

(** One more failed attempt of the same execution. *)
Definition failed_once (c : MemJobExecution) : MemJobExecution :=
  mkMemJobExecution (m_ExecutionVersion c) (u64 (m_FailCount c + 1)) ExecutionLogFailedState
    (m_LastExecutionDatetime c) (m_NextExecutionDatetime c).
Definition counted (e e' : jobExecutor) (job : Job) : Prop :=
  exists c, jobExecutionsCache e !! ID job = Some c /\ jobExecutionsCache e' !! ID job = Some (failed_once c).

Lemma reschedule_retry_loop jobs acc w e :
  NoDup (ID <$> jobs) ->
  Forall (fun job => exists c, jobExecutionsCache e !! ID job = Some c /\
                               m_FailCount c < JobExecutionRetryMax) jobs ->
  exists e', go_for (reschedule_step ExecutionLogFailedState) jobs acc (w, e) = Some (acc, (w, e')) /\
    scheduledJobs e' = scheduledJobs e /\ pendingJobInvocations e' = pendingJobInvocations e /\
    (forall k, k ∉ ID <$> jobs -> jobExecutionsCache e' !! k = jobExecutionsCache e !! k) /\
    Forall (counted e e') jobs.
Proof.
  revert e. induction jobs as [|job jobs IH]; intros e Hnd HF; [exists e; by split_and!|].
  rewrite fmap_cons in Hnd |- *. apply NoDup_cons in Hnd as [Hni Hnd].
  apply Forall_cons in HF as [(c & Hc & Hlt) HF].
  cbn [go_for]. unfold reschedule_step at 2. rewrite go_bind_assoc.
  erewrite go_bind_Some.
  2:{ apply reschedule_one_retry; [exact Hc|]. unfold retries. by apply Z.ltb_lt in Hlt as ->. }
  rewrite go_bind_mret. set (e1 := with_cache _ e).
  assert (Hsame : forall j, j ∈ jobs -> jobExecutionsCache e1 !! ID j = jobExecutionsCache e !! ID j).
  { intros j Hj. cbn. rewrite lookup_insert_ne; [done|]. intros E. apply Hni. rewrite E.
    by apply list_elem_of_fmap_2. }
  destruct (IH e1 Hnd) as (e' & Hgo & Hs & Hp & Ho & Hf).
  { apply Forall_forall. intros j Hj. rewrite Forall_forall in HF. rewrite Hsame by done. by apply HF. }
  exists e'. rewrite Hgo. split_and!; [done|done|done| |].
  - intros k [Hk1 Hk2]%not_elem_of_cons. rewrite Ho by done. cbn. by rewrite lookup_insert_ne.
  - constructor.
    + exists c. split; [done|]. rewrite Ho by done. cbn. by rewrite lookup_insert_eq.
    + apply Forall_forall. intros j Hj. rewrite Forall_forall in Hf.
      destruct (Hf j Hj) as (cj & H1 & H2). rewrite Hsame in H1 by done. by exists cj.
Qed.

(** A failed execution that has attempts left is only counted. *)
Lemma handleFailedJobs_counts jobs w e :
  ex_ready w -> NoDup (ID <$> jobs) ->
  Forall (fun job => exists t, GetNextExecutionTime (ex_clock w) job = Some (Ok t)) jobs ->
  Forall (fun job => exists c, jobExecutionsCache e !! ID job = Some c /\
                               m_FailCount c < JobExecutionRetryMax) jobs ->
  exists w' e',
    handleFailedJobs NodeId JobExecutionRetryMax jobs (w, e) = Some (tt, (w', e')) /\ ex_ready w' /\
    ex_clock w' = ex_clock w /\ scheduledJobs e' = scheduledJobs e /\
    pendingJobInvocations e' = pendingJobInvocations e /\
    (forall k, k ∉ ID <$> jobs -> jobExecutionsCache e' !! k = jobExecutionsCache e !! k) /\
    Forall (counted e e') jobs.
Proof.
  intros Hr Hnd Ht HF. unfold handleFailedJobs.
  destruct (handleJobs_prefix ExecutionLogFailedState jobs w e Hr) as (w1 & Hr1 & Hc1 & ->); [|done|].
  { eapply Forall_impl; [exact HF|]. intros job (c & Hc & _). by exists c. }
  destruct (reschedule_retry_loop jobs [] w1 e Hnd HF) as (e' & Hgo & Hs & Hp & Ho & Hf).
  unfold reschedule. erewrite go_bind_Some by exact Hgo.
  erewrite go_bind_on_fst by (by apply ex_version_law). cbn [go_for]. go_step.
  destruct (log_state_ok [] ExecutionLogScheduleState (ex_version w1) ∅ w1 e' Hr1)
    as (w2 & Hl & Hr2 & Hc2 & _); [constructor|].
  exists w2, e'. rewrite <- Hc1. by split_and!.
Qed.

(** ** First schedules *)

(** The job as scheduled the first time, from its creation in its own zone. *)
Definition born (loc : string) (job : Job) : Job :=
  set_LastExecutionDate (In_loc loc (DateCreated job)) job.
Definition first_job (loc : string) (job : Job) (t : Time) : Job :=
  set_ExecutionId (id_for (born loc job) t) (born loc job).
Definition first_mem (job : Job) (t : Time) : MemJobExecution :=
  mkMemJobExecution 1 0 ExecutionLogScheduleState (DateCreated job) t.

Definition can_start (now : Time) (job : Job) : Prop :=
  exists loc t, load_location (Timezone job) = Ok loc /\
    GetNextExecutionTime now (born loc job) = Some (Ok t).

Definition started (now : Time) (e' : jobExecutor) (job : Job) : Prop :=
  exists loc t, load_location (Timezone job) = Ok loc /\
    GetNextExecutionTime now (born loc job) = Some (Ok t) /\ t_ns now <= t_ns t /\
    jobExecutionsCache e' !! ID job = Some (first_mem job t) /\
    scheduledJobs e' !! ID job = Some (mkJobSchedule (first_job loc job t) t).

Lemma schedule_first_ok job loc t w e :
  ex_ready w -> load_location (Timezone job) = Ok loc ->
  GetNextExecutionTime (ex_clock w) (born loc job) = Some (Ok t) ->
  schedule_first job (w, e) =
  Some (first_job loc job t,
        (w, with_cache (<[ID job := first_mem job t]> (jobExecutionsCache e))
              (with_scheduled (<[ID job := mkJobSchedule (first_job loc job t) t]> (scheduledJobs e)) e))).
Proof.
  intros Hr Hl Ht. unfold schedule_first, ConvertTimeToJobTimezone. rewrite Hl. cbn zeta.
  fold (born loc job). erewrite next_time_then by done. cbn beta iota zeta.
  erewrite next_id_then by done. cbn beta iota zeta. fold (first_job loc job t). erewrite AddJobSchedule_then by done. done.
Qed.

Lemma schedule_one_new (m : gmap Z JobExecutionLog) job :
  m !! ID job = None -> schedule_one NodeId JobExecutionRetryMax m job = schedule_first job.
Proof. intros Hm. unfold schedule_one. by rewrite Hm. Qed.

Definition schedule_step (m : gmap Z JobExecutionLog) (done : list Job) (job : Job)
    : Go (W * jobExecutor) (list Job) :=
  job' ← schedule_one NodeId JobExecutionRetryMax m job; mret (done ++ [job']).

Lemma schedule_loop m jobs acc w e :
  ex_ready w -> NoDup (ID <$> jobs) -> Forall (fun job => m !! ID job = None) jobs ->
  Forall (can_start (ex_clock w)) jobs ->
  exists e' out,
    go_for (schedule_step m) jobs acc (w, e) = Some (acc ++ out, (w, e')) /\
    Forall (started (ex_clock w) e') jobs /\ same_outside (ID <$> jobs) e e' /\
    Forall (fun job => (exists t, GetNextExecutionTime (ex_clock w) job = Some (Ok t)) /\
                       m !! ID job = None) out /\
    ID <$> out = ID <$> jobs /\ singleNodeMode e' = singleNodeMode e /\
    pendingJobInvocations e' = pendingJobInvocations e.
Proof.
  intros Hr. revert acc e. induction jobs as [|job jobs IH]; intros acc e Hnd Hm HF.
  { exists e, []. rewrite app_nil_r. by split_and!. }
  rewrite fmap_cons in Hnd |- *. apply NoDup_cons in Hnd as [Hni Hnd].
  apply Forall_cons in HF as [(loc & t & Hl & Ht) HF]. apply Forall_cons in Hm as [Hmj Hm].
  cbn [go_for]. unfold schedule_step at 2. rewrite go_bind_assoc, schedule_one_new by done.
  erewrite go_bind_Some by (by apply schedule_first_ok). rewrite go_bind_mret.
  set (e1 := with_cache _ _).
  destruct (IH (acc ++ [first_job loc job t]) e1 Hnd Hm HF) as (e' & out & Hgo & Hst & Hout & Hok & Hids & Hmode & Hpd).
  exists e', (first_job loc job t :: out).
  rewrite Hgo, <- app_assoc. split; [done|].
  destruct (Hout (ID job) Hni) as [Hc' Hs']. cbn in Hc', Hs'.
  rewrite lookup_insert_eq in Hc'. rewrite lookup_insert_eq in Hs'. split_and!.
  - constructor; [|done]. exists loc, t. split_and!; try done. by apply GetNext_spec in Ht as [].
  - intros k [Hk1 Hk2]%not_elem_of_cons. destruct (Hout k Hk2) as [-> ->].
    cbn. by rewrite !lookup_insert_ne by done.
  - constructor; [|done]. split; [by exists t|done].
  - rewrite fmap_cons. by f_equal.
  - done.
  - done.
Qed.

Lemma schedule_versions_new m jobs vers w e :
  Forall (fun job => m !! ID job = None) jobs ->
  exists vers', go_for (@schedule_version W m) jobs vers (w, e) = Some (vers', (w, e)).
Proof.
  intros HF. revert vers. induction HF as [|job jobs Hm _ IH]; intros vers; [by eexists|].
  cbn [go_for]. unfold schedule_version at 2. rewrite Hm.
  destruct (vers !! ID job); rewrite go_bind_mret; apply IH.
Qed.

Lemma ScheduleJobs_new jobs m w e :
  ex_ready w -> NoDup (ID <$> jobs) ->
  ex_GetLastExecutionLogForJobIds (ID <$> jobs) w = Some (m, w) ->
  Forall (fun job => m !! ID job = None) jobs ->
  Forall (can_start (ex_clock w)) jobs ->
  exists w' e',
    ScheduleJobs NodeId JobExecutionRetryMax jobs (w, e) = Some (tt, (w', e')) /\ ex_ready w' /\
    Forall (started (ex_clock w) e') jobs /\ same_outside (ID <$> jobs) e e' /\
    (singleNodeMode e = false -> ex_logged (ID <$> jobs) w w') /\
    singleNodeMode e' = singleNodeMode e /\ pendingJobInvocations e' = pendingJobInvocations e /\
    ex_clock w' = ex_clock w.
Proof.
  intros Hr Hnd Hm Hnone HF. destruct jobs as [|job0 jobs0].
  { exists w, e. split_and!; try done. intros _. by apply ex_logged_nil. }
  unfold ScheduleJobs. set (jobs := job0 :: jobs0) in *.
  erewrite go_bind_on_fst by exact Hm.
  destruct (schedule_loop m jobs [] w e Hr Hnd Hnone HF) as (e' & out & Hgo & Hst & Hout & Hok & Hids & Hmode & Hpd).
  erewrite go_bind_Some by exact Hgo. cbn [app].
  erewrite go_bind_on_fst by (by apply ex_version_law).
  destruct (schedule_versions_new m out ∅ w e') as (vers & Hv).
  { eapply Forall_impl; [exact Hok|]. by intros ? []. }
  erewrite go_bind_Some by exact Hv.
  destruct (log_state_ok out ExecutionLogScheduleState (ex_version w) vers w e' Hr) as (w' & Hl & Hr' & Hck & _ & Hlog).
  { eapply Forall_impl; [exact Hok|]. by intros ? []. }
  exists w', e'. split_and!; try done. intros Hm'. rewrite <- Hids. apply Hlog. congruence.
Qed.

(** [ScheduleJobs] of jobs that never ran puts each of them on the
    schedule at its first activation, counted from its creation in its own
    time zone, that is not in the past, at execution version 1 with no
    failures; nothing else in the executor changes. *)
Theorem ScheduleJobs_starts jobs m w e :
  ex_ready w -> NoDup (ID <$> jobs) ->
  ex_GetLastExecutionLogForJobIds (ID <$> jobs) w = Some (m, w) ->
  Forall (fun job => m !! ID job = None) jobs ->
  Forall (can_start (ex_clock w)) jobs ->
  exists w' e',
    ScheduleJobs NodeId JobExecutionRetryMax jobs (w, e) = Some (tt, (w', e')) /\ ex_ready w' /\
    Forall (started (ex_clock w) e') jobs /\ same_outside (ID <$> jobs) e e'.
Proof.
  intros. destruct (ScheduleJobs_new jobs m w e) as (w' & e' & ? & ? & ? & ? & _); [done..|]. by exists w', e'.
Qed.

(** ** Flushing the pending invocations *)

Lemma omap_fmap_list {A B C} (f : B -> option C) (g : A -> B) (l : list A) :
  omap f (g <$> l) = omap (fun x => f (g x)) l.
Proof. induction l as [|x l IH]; [done|]. rewrite fmap_cons. cbn. by rewrite IH. Qed.

Lemma omap_find_all (l : list Job) : NoDup (ID <$> l) -> omap (getPendingJob l) (ID <$> l) = l.
Proof.
  intros Hnd. assert (forall l' : list Job, (forall j, j ∈ l' -> j ∈ l) -> omap (getPendingJob l) (ID <$> l') = l') as Hall;
    [|by apply Hall].
  induction l' as [|j l' IH]; intros Hin; [done|]. rewrite fmap_cons. cbn [omap list_omap].
  assert (getPendingJob l (ID j) = Some j) as ->.
  { unfold getPendingJob. destruct (List.find _ l) as [j'|] eqn:Hf.
    - apply find_some in Hf as [Hj' Hid%Z.eqb_eq]. apply list_elem_of_In in Hj'. f_equal.
      apply (NoDup_fmap_inj ID l); [done|done|apply Hin; by left|done].
    - assert (j ∈ l) as Hj by (apply Hin; by left). apply list_elem_of_In, (find_none _ _ Hf) in Hj.
      by rewrite Z.eqb_refl in Hj. }
  f_equal. apply IH. intros x Hx. apply Hin. by right.
Qed.

(** When the repository has exactly the pending jobs, all http, a flush hands
    over all of them. *)
Lemma flush_all w e stored w' :
  ex_BatchGetJobsByID (ID <$> pendingJobInvocations e) w = Some (Ok stored, w') ->
  ID <$> stored ≡ₚ ID <$> pendingJobInvocations e -> NoDup (ID <$> pendingJobInvocations e) ->
  Forall (fun job => ExecutionType job = ExecutionTypeHTTP) (pendingJobInvocations e) ->
  exists out, flush (w, e) = Some (out, (w', with_pending [] e)) /\ out ≡ₚ pendingJobInvocations e.
Proof.
  intros Hget Hp Hnd Hty. unfold flush. go_step. cbn [snd]. erewrite go_bind_on_fst by exact Hget.
  unfold on_exec. go_step. eexists. split; [reflexivity|].
  assert (omap (fun job => getPendingJob (pendingJobInvocations e) (ID job)) stored ≡ₚ pendingJobInvocations e)
    as Ho.
  { transitivity (omap (getPendingJob (pendingJobInvocations e)) (ID <$> stored)).
    - by rewrite omap_fmap_list.
    - rewrite Hp. by rewrite omap_find_all. }
  rewrite filter_all; [done|]. intros j Hj. rewrite Ho in Hj. rewrite Forall_forall in Hty.
  apply String.eqb_eq. by apply Hty.
Qed.

(** A flush hands to the HTTP executor the pending invocation of every
    job the repository still has, once per job, if its type is "http", and
    leaves nothing pending; when the repository cannot be read, nothing is
    handed over and everything stays pending. *)
Theorem flush_hands_over w e r w' :
  ex_BatchGetJobsByID (ID <$> pendingJobInvocations e) w = Some (r, w') ->
  NoDup (ID <$> pendingJobInvocations e) ->
  exists out e', flush (w, e) = Some (out, (w', e')) /\
    match r with
    | Err _ => out = [] /\ e' = e
    | Ok jobs =>
        e' = with_pending [] e /\
        forall p, p ∈ out <-> p ∈ pendingJobInvocations e /\ ID p ∈ ID <$> jobs /\
                              ExecutionType p = ExecutionTypeHTTP
    end.
Proof.
  intros Hget Hnd. unfold flush. go_step. cbn [snd]. erewrite go_bind_on_fst by exact Hget.
  destruct r as [jobs|g]; [|do 2 eexists; by split_and!].
  unfold on_exec. go_step. do 2 eexists. split; [reflexivity|]. split; [done|].
  intros p. rewrite list_elem_of_In, filter_In, <- list_elem_of_In, list_elem_of_omap, String.eqb_eq.
  unfold getPendingJob. split.
  - intros ((job & Hj & Hf) & Hty). apply find_some in Hf as [Hin Hid%Z.eqb_eq].
    split_and!; [by apply list_elem_of_In| |done]. rewrite Hid. by apply list_elem_of_fmap_2.
  - intros (Hin & (job & Hid & Hj)%list_elem_of_fmap & Hty). split; [|done]. exists job. split; [done|].
    destruct (List.find _ (pendingJobInvocations e)) as [p'|] eqn:Hf.
    + apply find_some in Hf as [Hin' Hid'%Z.eqb_eq]. apply list_elem_of_In in Hin'. f_equal.
      apply (NoDup_fmap_inj ID (pendingJobInvocations e)); [done|done|done|congruence].
    + apply list_elem_of_In, (find_none _ _ Hf) in Hin. by rewrite Hid, Z.eqb_refl in Hin.
Qed.

(** ** Walking a large range of ids *)

(** The ranges the walk asks for, in double-free arithmetic. *)
Fixpoint walk_ranges (fuel : nat) (lo hi : Z) : list (Z * Z) :=
  match fuel with
  | O => []
  | S fuel' =>
      if lo <? hi then
        let u := Z.min (lo + JobMaxBatchSize) hi in (lo, u) :: walk_ranges fuel' (u + 1) hi
      else []
  end.

(** Fetch and schedule each range; the first that cannot be read ends it. *)
Fixpoint visit (ranges : list (Z * Z)) : Go (W * jobExecutor) unit :=
  match ranges with
  | [] => mret tt
  | (lo, hi) :: ranges' =>
      r ← on_fst (ex_BatchGetJobsWithIDRange lo hi);
      match r with
      | Err _ => mret tt
      | Ok jobs => ScheduleJobs NodeId JobExecutionRetryMax jobs;; visit ranges'
      end
  end.

(** Where the next range ends, in the two branches of the loop. *)
Lemma walk_next cu hi :
  0 <= cu -> hi <= 4503599627370496 -> cu <= hi ->
  (i64 (hi - cu) <? JobMaxBatchSize = true -> Z.min (cu + 1 + JobMaxBatchSize) hi = hi) /\
  i64 (cu + 1) = cu + 1 /\
  i64_of_f64 (Z.min (f64 (i64 (cu + 1 + JobMaxBatchSize))) (f64 hi)) =
    Z.min (cu + 1 + JobMaxBatchSize) hi.
Proof.
  intros. unfold JobMaxBatchSize in *. rewrite !i64_small by go_lia.
  rewrite !f64_exact by lia. rewrite i64_of_f64_small by go_lia. split; [lia|done].
Qed.

Lemma queue_walk_visits fuel lo hi w e :
  0 <= lo -> lo <= hi + 1 -> hi <= 4503599627370496 -> hi - lo < Z.of_nat fuel ->
  queue_walk NodeId JobExecutionRetryMax fuel lo (Z.min (lo + JobMaxBatchSize) hi) hi (w, e) =
  visit (walk_ranges fuel lo hi) (w, e).
Proof.
  revert lo w e. induction fuel as [|fuel IH]; intros lo w e Hlo Hle Hhi Hf; cbn [queue_walk walk_ranges].
  { by rewrite (proj2 (Z.ltb_ge _ _)) by lia. }
  destruct (Z.ltb_spec lo hi); [|done]. cbn zeta. cbn [visit].
  set (u := Z.min (lo + JobMaxBatchSize) hi).
  assert (Hu : lo <= u <= hi) by (unfold u, JobMaxBatchSize; lia).
  destruct (walk_next u hi) as (Hlast & Hs & Hmin); [lia|lia|lia|].
  rewrite !go_bind_eq. destruct (on_fst (ex_BatchGetJobsWithIDRange lo u) (w, e)) as [[[jobs|] [w1 e1]]|]; [|done..].
  rewrite !go_bind_eq. destruct (ScheduleJobs _ _ jobs (w1, e1)) as [[[] [w2 e2]]|]; [|done].
  rewrite Hs. destruct (i64 (hi - u) <? JobMaxBatchSize).
  - rewrite <- (Hlast eq_refl) at 1. apply IH; lia.
  - rewrite Hmin. apply IH; lia.
Qed.

Lemma walk_ranges_ids fuel lo hi :
  lo <= hi + 1 -> hi - lo < Z.of_nat fuel ->
  concat ((fun r => zseq (fst r) (Z.to_nat (snd r - fst r + 1))) <$> walk_ranges fuel lo hi) =
  zseq lo (Z.to_nat (if (hi - lo) mod 5462 =? 0 then hi - lo else hi - lo + 1)).
Proof.
  revert lo. induction fuel as [|fuel IH]; intros lo Hle Hf; cbn [walk_ranges].
  { assert (hi - lo = -1) as -> by lia. done. }
  destruct (Z.ltb_spec lo hi) as [Hlt|Hge].
  2:{ assert (hi - lo = -1 \/ hi - lo = 0) as [->| ->] by lia; done. }
  cbn zeta. rewrite fmap_cons. cbn [concat fst snd].
  rewrite IH by (unfold JobMaxBatchSize; lia).
  unfold JobMaxBatchSize. destruct (Z.le_gt_cases hi (lo + 5461)).
  - rewrite Z.min_r by lia. replace (hi - (hi + 1)) with (-1) by lia.
    change ((-1) mod 5462 =? 0) with false. rewrite (Z.mod_small (hi - lo)) by lia.
    rewrite (proj2 (Z.eqb_neq _ _)) by lia. by rewrite app_nil_r.
  - rewrite Z.min_l by lia.
    replace (hi - (lo + 5461 + 1)) with (hi - lo + (-1) * 5462) by lia.
    rewrite Z.mod_add by lia.
    pose proof (Z.mod_pos_bound (hi - lo) 5462).
    destruct (Z.eqb_spec ((hi - lo) mod 5462) 0);
      match goal with |- _ = zseq _ (Z.to_nat ?n) =>
        replace (Z.to_nat n) with (Z.to_nat (lo + 5461 - lo + 1) + Z.to_nat (n - 5462))%nat by lia end;
      rewrite zseq_app; do 2 f_equal; lia.
Qed.

(** C36: On a range of more ids than a batch, the executor fetches consecutive
    batches that tile it without overlap and schedules each; the last id is
    in the last batch except when the length of the range is a multiple of
    5462, where the walk stops one id early. *)
Theorem queue_walk_covers lo hi w e :
  0 <= lo -> lo + JobMaxBatchSize < hi -> hi <= 4503599627370496 ->
  let ranges := walk_ranges (S (Z.to_nat (hi - lo))) lo hi in
  queue_walk NodeId JobExecutionRetryMax (S (Z.to_nat (hi - lo))) lo (i64 (lo + JobMaxBatchSize)) hi
    (w, e) = visit ranges (w, e) /\
  concat ((fun r => zseq (fst r) (Z.to_nat (snd r - fst r + 1))) <$> ranges) =
  zseq lo (Z.to_nat (if (hi - lo) mod 5462 =? 0 then hi - lo else hi - lo + 1)).
Proof.
  intros Hlo Hlt Hhi ranges. split; [|apply walk_ranges_ids; unfold JobMaxBatchSize in *; lia].
  rewrite i64_small by (unfold JobMaxBatchSize in *; go_lia).
  unfold ranges. rewrite <- queue_walk_visits by (unfold JobMaxBatchSize in *; lia).
  by rewrite Z.min_l by lia.
Qed.

(** ** The bounds of the new ranges *)

Lemma queue_bounds_fold logs lo hi :
  Forall (fun l => 0 <= q_LowerBoundJobId l <= MaxInt64 /\ 0 <= q_UpperBoundJobId l <= MaxInt64) logs ->
  0 <= lo <= MaxInt64 -> (0 <= hi <= MaxInt64 \/ hi = MinInt64) ->
  let step := fun '(lowerBound, upperBound) l =>
           (if q_LowerBoundJobId l <? u64 lowerBound then i64 (q_LowerBoundJobId l) else lowerBound,
            if q_UpperBoundJobId l <? u64 upperBound then i64 (q_UpperBoundJobId l) else upperBound) in
  foldl step (lo, hi) logs =
  (foldl Z.min lo (q_LowerBoundJobId <$> logs),
   match hi =? MinInt64, q_UpperBoundJobId <$> logs with
   | true, [] => MinInt64
   | true, u :: us => foldl Z.min u us
   | false, us => foldl Z.min hi us
   end).
Proof.
  intros HF Hlo Hhi step. revert lo hi Hlo Hhi.
  induction HF as [|l logs [Hl Hu] _ IH]; intros lo hi Hlo Hhi.
  { cbn. destruct (Z.eqb_spec hi MinInt64); by subst. }
  rewrite !fmap_cons. cbn [foldl]. unfold step at 2.
  assert (u64 lo = lo) as -> by (apply u64_small; go_lia).
  rewrite !i64_small by go_lia.
  assert (Hmin : forall a b, (if a <? b then a else b) = Z.min b a).
  { intros. destruct (Z.ltb_spec a b); lia. }
  rewrite Hmin. destruct Hhi as [Hhi| ->].
  - rewrite (u64_small hi) by go_lia. rewrite Hmin, IH by go_lia.
    rewrite !(proj2 (Z.eqb_neq _ MinInt64)) by go_lia. done.
  - change (u64 MinInt64) with 9223372036854775808.
    rewrite (proj2 (Z.ltb_lt _ _)) by go_lia. rewrite IH by go_lia.
    rewrite (proj2 (Z.eqb_neq _ MinInt64)) by go_lia. done.
Qed.

(** The executor takes the least lower bound of the announced ranges but
    also the least upper bound: ids of a range that ends later are left out. *)
Lemma queue_bounds_spec l logs :
  Forall (fun l => 0 <= q_LowerBoundJobId l <= MaxInt64 /\ 0 <= q_UpperBoundJobId l <= MaxInt64)
    (l :: logs) ->
  queue_bounds (l :: logs) =
  (foldl Z.min (q_LowerBoundJobId l) (q_LowerBoundJobId <$> logs),
   foldl Z.min (q_UpperBoundJobId l) (q_UpperBoundJobId <$> logs)).
Proof.
  intros HF. unfold queue_bounds. rewrite queue_bounds_fold; [|done|go_lia|by right].
  rewrite !fmap_cons. cbn. f_equal. f_equal. apply Forall_cons in HF as [[Hl _] _]. go_lia.
Qed.

End Facts.
