(* ===== verification/ExecutorImpl.v ===== *)
(** * The executor on the real repositories

    The repositories of this development, over a node's [World], discharge
    the interface of the executor: on a node whose driver works every call
    comes back, leaves the clock and the queue version alone, and keeps the
    driver working. *)

From stdpp Require Import base list gmap strings pretty.
From Stdlib Require Import ZArith Lia.
From S2P Require Import Prelude Models JobTime Batcher Sql Fsm Replication Inserts JobQueueRepo.
From S2P Require Import JobRepo ExecutionsRepo Executor ExecutorFacts.

#[local] Open Scope Z_scope.

(** An INSERT changes no other table. *)
Lemma sql_exec_insert_frame db t cols n ps db' res t' :
  sql_exec db (Insert t cols n) ps = Ok (db', res) -> t <> t' -> db_table db' t' = db_table db t'.
Proof.
  intros Hx Hne. unfold sql_exec in Hx. destruct (_ <? _); [done|]. destruct (negb _); [done|].
  destruct (find_tabdef t) as [td|]; [|done]. destruct (Nat.eqb n 0); [done|].
  destruct (insert_tuples _ _ _ _ _) as [tab|]; [|done]. injection Hx as <- <-.
  by apply db_table_insert_ne.
Qed.

Section Impl.
Context {codec : CommandCodec} {env : Env}.

#[global] Instance executor_repos : ExecutorRepos World := {|
  ex_now := gets w_now;
  ex_GetJobQueueByLastInsertedAndRowsAffected := GetJobQueueByLastInsertedAndRowsAffected;
  ex_GetLastVersion := GetLastVersion;
  ex_BatchGetJobsWithIDRange := BatchGetJobsWithIDRange;
  ex_BatchGetJobsByID := BatchGetJobsByID;
  ex_GetLastExecutionLogForJobIds := GetLastExecutionLogForJobIds;
  ex_CountLastFailedExecutionLogs := CountLastFailedExecutionLogs;
  ex_BatchInsert := BatchInsert;
  ex_LogJobExecutionStateInRaft := LogJobExecutionStateInRaft;
  ex_GetUncommittedExecutionsLogForNode := GetUncommittedExecutionsLogForNode |}.

Definition exec_ready (w : World) : Prop := healthy w /\ 0 <= max_version (versions (w_db w)).

(** The worlds an operation of the executor may lead to. *)
Definition stays (w w' : World) : Prop :=
  healthy w' /\ w_now w' = w_now w /\ versions (w_db w') = versions (w_db w) /\
  db_rows (w_db w') JobsTableName = db_rows (w_db w) JobsTableName.

Lemma stays_refl w : healthy w -> stays w w.
Proof. done. Qed.
Lemma stays_trans w1 w2 w3 : stays w1 w2 -> stays w2 w3 -> stays w1 w3.
Proof. intros (_ & ? & ? & ?) (? & ? & ? & ?). split_and!; [done|congruence..]. Qed.

Lemma stays_write p db w :
  healthy w -> versions db = versions (w_db w) ->
  db_rows db JobsTableName = db_rows (w_db w) JobsTableName -> stays w (with_post p (with_db db w)).
Proof. by intros. Qed.

(** Nothing changed but executions of [ids] in the table of the node. *)
Definition logged (ids : list Z) (w w' : World) : Prop :=
  stays w w' /\ w_raft w' = w_raft w /\
  (forall t, t <> ExecutionsUnCommittedTableName -> db_table (w_db w') t = db_table (w_db w) t) /\
  forall r, r ∈ db_rows (w_db w') ExecutionsUnCommittedTableName ->
    r ∈ db_rows (w_db w) ExecutionsUnCommittedTableName \/ col "job_id" r ∈ VInt <$> ids.

Lemma logged_refl ids w : healthy w -> logged ids w w.
Proof. intros. split_and!; try done. by left. Qed.
Lemma logged_trans ids w1 w2 w3 : logged ids w1 w2 -> logged ids w2 w3 -> logged ids w1 w3.
Proof.
  intros (Hs1 & ? & Ht1 & Hr1) (Hs2 & ? & Ht2 & Hr2). split_and!; [by eapply stays_trans|congruence| |].
  - intros t Ht. by rewrite Ht2, Ht1.
  - intros r [Hr|Hr]%Hr2; [by apply Hr1|by right].
Qed.

(** Any write through the raft log comes back. *)
Lemma WriteCommand_total ct t cols n ps nodes action w :
  healthy w -> t <> JobQueuesVersionTableName -> t <> JobsTableName ->
  exists r w', WriteCommandToRaftLog ct (Insert t cols n) ps nodes action w = Some (r, w') /\ stays w w'.
Proof.
  intros Hw Hne Hne'. unfold WriteCommandToRaftLog.
  destruct (json_Marshal ps) as [data|]; [|do 2 eexists; by split].
  destruct (proto_Marshal _) as [b|] eqn:Hb; [|do 2 eexists; by split].
  unfold raft_Apply. go_step. destruct (w_raft w); [|do 2 eexists; by split..]. go_step.
  pose proof (ApplyRaftLog_command (mkRaftLog 0 0 LogCommand b) false _ w eq_refl
                (proto_roundtrip _ _ Hb) Hw) as HA.
  unfold fsm_step in HA. cbn [c_Data c_Sql] in HA. unfold Apply.
  destruct (json_Unmarshal data) as [ps'|e].
  2:{ erewrite go_bind_Some by exact HA. go_step.
      destruct (String.eqb (f_Error _) ""); do 2 eexists; (split; [reflexivity|]); by apply stays_write. }
  destruct (sql_exec (w_db w) (Insert t cols n) ps') as [[db' res]|e] eqn:Hx;
    (erewrite go_bind_Some by exact HA); go_step;
    destruct (String.eqb (f_Error _) ""); do 2 eexists; (split; [reflexivity|]);
    apply stays_write; try done; unfold versions, db_rows; by erewrite sql_exec_insert_frame.
Qed.

(** A loop whose turns come back comes back, and relates its worlds as its
    turns do. *)
Lemma go_for_ret_total {A S R} (P : World -> World -> Prop) (body : S -> A -> Go World (S + R)) l s w :
  (forall w, healthy w -> P w w) -> (forall w1 w2 w3, P w1 w2 -> P w2 w3 -> P w1 w3) ->
  (forall w w', P w w' -> healthy w') ->
  (forall a s w, a ∈ l -> healthy w -> exists r w', body s a w = Some (r, w') /\ P w w') ->
  healthy w -> exists r w', go_for_ret body l s w = Some (r, w') /\ P w w'.
Proof.
  intros Hrefl Htrans Hh Hb. revert s w. induction l as [|a l IH]; intros s w Hw; [by do 2 eexists; eauto|].
  cbn [go_for_ret]. destruct (Hb a s w) as (r & w1 & H1 & Hs1); [by left|done|].
  erewrite go_bind_Some by exact H1. destruct r as [s1|r]; [|by do 2 eexists].
  destruct (IH ltac:(intros; apply Hb; [by right|done]) s1 w1) as (r & w2 & H2 & Hs2); [by eapply Hh|].
  do 2 eexists. split; [exact H2|]. by eapply Htrans.
Qed.

Lemma go_for_total {A S} (body : S -> A -> Go World S) l s w :
  (forall a s w, a ∈ l -> healthy w -> exists r w', body s a w = Some (r, w') /\ stays w w') ->
  healthy w -> exists r w', go_for body l s w = Some (r, w') /\ stays w w'.
Proof.
  intros Hb. revert s w. induction l as [|a l IH]; intros s w Hw; [by do 2 eexists|].
  cbn [go_for]. destruct (Hb a s w) as (s1 & w1 & H1 & Hs1); [by left|done|].
  erewrite go_bind_Some by exact H1.
  destruct (IH ltac:(intros; apply Hb; [by right|done]) s1 w1) as (r & w2 & H2 & Hs2); [apply Hs1|].
  do 2 eexists. split; [exact H2|]. by eapply stays_trans.
Qed.

(** ** The parameters of a batch *)

Lemma batch_params_total (f : nat -> Job -> option (list value)) i batch :
  (forall k job, (i <= k < i + length batch)%nat -> job ∈ batch -> is_Some (f k job)) ->
  is_Some (batch_params f i batch).
Proof.
  revert i. induction batch as [|job batch IH]; intros i Hf; [by eexists|]. cbn.
  destruct (Hf i job) as [ps Hps]; [cbn; lia|by left|]. rewrite Hps. cbn.
  destruct (IH (S i)) as [rest Hr]; [|rewrite Hr; by eexists].
  intros k j Hk Hj. apply Hf; [cbn; lia|by right].
Qed.

Lemma Batch_length {A} (ids : list A) n b : b ∈ Batch ids n -> (length b <= length ids)%nat.
Proof.
  intros Hb. replace (length ids) with (length (concat (Batch ids n))) by (by rewrite Batch_concat).
  apply list_elem_of_In in Hb.
  induction (Batch ids n) as [|c cs IH]; [done|]. cbn. rewrite length_app.
  destruct Hb as [->|Hb]; [lia|]. specialize (IH Hb). lia.
Qed.

(** One tuple per job, with its id. *)
Lemma batch_params_tuples jobs node state ver vers now i batch ps :
  batch_params (batch_insert_params jobs node state ver vers now) i batch = Some ps ->
  exists ts, ps = concat ts /\
    Forall2 (fun job vals => length vals = 9%nat /\ vals !! 5%nat = Some (VInt (ID job))) batch ts.
Proof.
  revert i ps. induction batch as [|job batch IH]; intros i ps H; [by injection H as <-; exists []|].
  cbn in H. destruct (batch_insert_params _ _ _ _ _ _ i job) as [vals|] eqn:E; [|done].
  cbn in H. destruct (batch_params _ (S i) batch) as [rest|] eqn:E'; [|done]. injection H as <-.
  destruct (IH _ _ E') as (ts & -> & HF). exists (vals :: ts). split; [done|]. constructor; [|done].
  unfold batch_insert_params in E. destruct (cron_parse _), (jobs !! i); try done. by injection E as <-.
Qed.

(** The job of an inserted row. *)
Lemma execution_tuple_job i vals v :
  length vals = 9%nat -> vals !! 5%nat = Some (VInt v) ->
  forall td, find_tabdef ExecutionsUnCommittedTableName = Some td ->
  col "job_id" (tuple_row td execution_insert_cols i vals) = VInt v.
Proof.
  intros Hl Hv td Htd. injection Htd as <-. do 10 (destruct vals as [|? vals]; [try done|]); [|done].
  cbn in Hv. by injection Hv as ->.
Qed.

Lemma elem_of_tuple_rows r td cols seq ts :
  r ∈ tuple_rows td cols seq ts -> exists i vals, vals ∈ ts /\ r = tuple_row td cols i vals.
Proof.
  revert seq. induction ts as [|vals ts IH]; intros seq; [by intros ?%elem_of_nil|]. cbn [tuple_rows].
  intros [->|Hr]%elem_of_cons; [exists (seq + 1), vals; split; [left|done]|].
  destruct (IH _ Hr) as (i & vs & ? & ->). exists i, vs. split; [by right|done].
Qed.

(** An insert of one tuple per job logs executions of these jobs. *)
Lemma db_exec_logged (batch : list Job) ts ids w :
  healthy w -> (forall job, job ∈ batch -> ID job ∈ ids) ->
  Forall2 (fun job vals => length vals = 9%nat /\ vals !! 5%nat = Some (VInt (ID job))) batch ts ->
  exists r w', db_exec (Insert ExecutionsUnCommittedTableName execution_insert_cols (length batch)) (concat ts) w =
    Some (r, w') /\ logged ids w w'.
Proof.
  intros Hw Hids HF. unfold db_exec. go_call next_fault_healthy.
  destruct (negb _); [do 2 eexists; split; [done|by apply logged_refl]|]. go_step.
  destruct (sql_exec (w_db w) _ _) as [[db' res]|e] eqn:Hx; do 2 eexists; (split; [reflexivity|]);
    [|by apply logged_refl].
  assert (Hframe : forall t, t <> ExecutionsUnCommittedTableName -> db_table db' t = db_table (w_db w) t).
  { intros t Ht. by eapply sql_exec_insert_frame. }
  split; [split_and!; [done..| |]; cbn [w_db with_db]; unfold versions, db_rows; by rewrite Hframe|].
  split_and!; [done|done|]. intros r Hr. cbn [w_db with_db] in Hr. unfold sql_exec in Hx.
  destruct (_ <? _); [done|]. destruct (negb _); [done|].
  destruct (find_tabdef ExecutionsUnCommittedTableName) as [td|] eqn:Htd; [|done].
  destruct (Nat.eqb _ 0); [done|].
  change (length execution_insert_cols) with 9%nat in Hx. rewrite (Forall2_length _ _ _ HF), tuples_concat in Hx
    by (clear -HF; induction HF as [|?? ?? []]; by constructor).
  destruct (insert_tuples _ _ _ _ _) as [tab|] eqn:Ht; [|done]. injection Hx as <- <-.
  apply insert_tuples_inv in Ht as ->. unfold db_rows in *. rewrite db_table_insert in Hr.
  cbn [t_rows] in Hr. apply elem_of_app in Hr as [Hr|Hr]; [by left|right].
  apply elem_of_tuple_rows in Hr as (i & vals & Hv & ->). apply list_elem_of_lookup in Hv as [k Hk].
  destruct (Forall2_lookup_r _ _ _ _ _ HF Hk) as (job & Hj & Hl & Hv).
  rewrite (execution_tuple_job i vals (ID job)) by done. apply list_elem_of_fmap_2, Hids.
  by eapply list_elem_of_lookup_2.
Qed.

Lemma BatchInsert_logged jobs node state ver vers w :
  healthy w -> Forall (fun job => exists next, cron_parse (Spec job) = Ok next) jobs ->
  exists w', BatchInsert jobs node state ver vers w = Some (tt, w') /\ logged (ID <$> jobs) w w'.
Proof.
  intros Hw HF. destruct jobs as [|j0 js]; [exists w; split; [done|by apply logged_refl]|].
  unfold BatchInsert. set (jobs := j0 :: js) in *. go_step.
  edestruct (go_for_ret_total (A := list Job) (S := unit) (R := unit) (logged (ID <$> jobs))) as (r & w' & Hgo & Hs);
    [apply logged_refl|apply logged_trans|by intros ? ? [[? _] _]| |
     exact Hw | erewrite go_bind_Some by exact Hgo; by eexists].
  intros batch [] w1 Hb Hw1. cbn beta.
  destruct (batch_params_total (batch_insert_params jobs node state ver vers (w_now w)) 0 batch) as [ps Hps].
  { intros k job Hk Hj. unfold batch_insert_params.
    assert (Hin : job ∈ jobs) by (by eapply elem_of_Batch).
    rewrite Forall_forall in HF. destruct (HF job Hin) as [next ->].
    pose proof (Batch_length jobs 9 batch Hb). destruct (lookup_lt_is_Some_2 jobs k) as [jk ->]; [lia|].
    by eexists. }
  destruct (batch_params_tuples _ _ _ _ _ _ _ _ _ Hps) as (ts & -> & Hts).
  rewrite Hps. unfold lift_opt. rewrite go_bind_eq. cbn.
  destruct (db_exec_logged batch ts (ID <$> jobs) w1) as (x & w2 & Hx & Hs2); [done| |done|].
  { intros job Hj. apply list_elem_of_fmap_2. by eapply elem_of_Batch. }
  erewrite go_bind_Some by exact Hx. destruct x; by do 2 eexists.
Qed.

Lemma LogJobExecutionStateInRaft_total jobs node state ver vers w :
  healthy w -> Forall (fun job => is_Some (GetNextExecutionTime (w_now w) job)) jobs ->
  exists w', LogJobExecutionStateInRaft jobs state vers ver node w = Some (tt, w') /\ stays w w'.
Proof.
  intros Hw HF. unfold LogJobExecutionStateInRaft.
  assert (Hgo : forall acc, exists logs, go_for (fun logs job =>
        now ← gets w_now; t ← lift_opt (GetNextExecutionTime now job);
        match t with
        | Err _ => mret logs
        | Ok executionTime =>
            mret (logs ++ [mkJobExecutionLog 0 (ExecutionId job) state node (LastExecutionDate job)
                             executionTime (ID job) ver (default 0 (vers !! ID job)) now])
        end) jobs acc w = Some (logs, w)).
  { induction HF as [|job js [t Ht] _ IH]; intros acc; [by eexists|].
    cbn [go_for]. go_step. rewrite Ht. unfold lift_opt. rewrite go_bind_eq. cbn.
    destruct t; go_step; apply IH. }
  destruct (Hgo []) as (logs & Hlogs). clear Hgo. rename Hlogs into Hgo.
  erewrite go_bind_Some by exact Hgo. destruct logs as [|l0 ls]; [by eexists|].
  unfold RaftInsertExecutionLogs.
  edestruct (go_for_total (A := list JobExecutionLog) (S := unit)) as ([] & w' & Hg & Hs);
    [|exact Hw|eexists; split; [exact Hg|exact Hs]].
  intros batch [] w1 _ Hw1.
  edestruct WriteCommand_total as (r & w2 & Hx & Hs2); [exact Hw1| | |erewrite go_bind_Some by exact Hx; by do 2 eexists];
    done.
Qed.

Lemma GetLastExecutionLogForJobIds_total ids w :
  healthy w -> exists m, GetLastExecutionLogForJobIds ids w = Some (m, w).
Proof.
  intros Hw. unfold GetLastExecutionLogForJobIds.
  assert (exists l, getLastExecutionLogForJobIds ids w = Some (l, w)) as [l Hl];
    [|erewrite go_bind_Some by exact Hl; by eexists].
  unfold getLastExecutionLogForJobIds. destruct ids as [|i0 ids]; [by eexists|].
  generalize (Batch (i0 :: ids) 1) (@nil JobExecutionLog). intros bs acc.
  assert (exists r, go_for_ret (fun results batch =>
             q ← db_query_lax (VInt <$> batch) (last_rows (VInt <$> batch)) execution_log_zero scan_log_last;
             match q with
             | QRows l => mret (inl (results ++ l))
             | QQueryErr _ | QScanErr _ | QRowsErr _ _ => mret (inr tt)
             end) bs acc w = Some (r, w)) as [r Hr].
  { revert acc. induction bs as [|b bs IH]; intros acc; [by eexists|]. cbn [go_for_ret].
    rewrite go_bind_assoc. destruct (query_refused (VInt <$> b)) as [e|] eqn:Hq.
    - unfold db_query_lax. rewrite go_bind_assoc. go_call next_fault_healthy. go_step. rewrite Hq.
      go_step. by eexists.
    - erewrite db_query_lax_then by done. go_step. apply IH. }
  erewrite go_bind_Some by exact Hr. destruct r; by eexists.
Qed.

#[global] Program Instance executor_laws : ExecutorLaws World := {|
  ex_ready := exec_ready;
  ex_clock := w_now;
  ex_version w := max_version (versions (w_db w));
  ex_logged := logged |}.
Next Obligation. done. Qed.
Next Obligation. intros w (Hw & Hv). by apply getLastVersion_healthy. Qed.
Next Obligation. intros ids w (Hw & _). by apply GetLastExecutionLogForJobIds_total. Qed.
Next Obligation. intros w [Hw _]. by apply logged_refl. Qed.
Next Obligation.
  intros jobs node state ver vers w (Hw & Hv) HF.
  destruct (BatchInsert_logged jobs node state ver vers w Hw HF) as (w' & Hgo & Hlog).
  pose proof Hlog as [(Hh & Hn & Hvs & _) _]. exists w'. split; [exact Hgo|]. unfold exec_ready. rewrite Hvs.
  by split_and!.
Qed.
Next Obligation.
  intros jobs node state ver vers w (Hw & Hv) HF.
  destruct (LogJobExecutionStateInRaft_total jobs node state ver vers w Hw HF) as (w' & Hgo & Hh & Hn & Hvs & _).
  exists w'. split; [exact Hgo|]. unfold exec_ready. rewrite Hvs. by split_and!.
Qed.

End Impl.

(** ** Concrete runs *)

#[local] Existing Instance sample_env.
#[local] Existing Instance plain_codec.

Definition project_row : row :=
  [("id", VInt 1); ("name", VText "p"); ("description", VText "d"); ("date_created", VTime 1)].
Definition job_row4 : row :=
  [("id", VInt 4); ("project_id", VInt 1); ("spec", VText "@every"); ("data", VText "d");
   ("callback_url", VText "http://x"); ("execution_type", VText "http"); ("date_created", VTime 1);
   ("timezone", VText "Africa/Lagos"); ("timezone_offset", VInt 0)].
Definition exec_db : Db :=
  mkDb (<["projects" := Table [project_row] 1]> (<["jobs" := Table [job_row4] 4]> (db_tabs db_empty))) 4.
Definition exec_world : World := mkWorld exec_db time10 RaftLeader true [] [].

Lemma exec_world_ready : ex_ready exec_world.
Proof. split; [reflexivity|]. vm_compute. discriminate. Qed.

Definition lagos10 : Time := mkTime 10 "Africa/Lagos".
Definition mem4 : MemJobExecution :=
  mkMemJobExecution 1 0 ExecutionLogScheduleState (mkTime 1 "UTC") (mkTime 4 "UTC").
Definition sched_of (id t : Z) : JobSchedule := mkJobSchedule (sample_job id) (mkTime t "UTC").
(** Job 4 was due at 4, job 5 is due at 40. *)
Definition busy : jobExecutor :=
  mkJobExecutor true [] {[4 := mem4]} (<[4 := sched_of 4 4]> {[5 := sched_of 5 40]}).

Lemma busy_wf : sched_wf (scheduledJobs busy).
Proof.
  intros k s. cbn. rewrite lookup_insert. case_decide; [by intros [= <-]|].
  rewrite lookup_singleton. case_decide; [by intros [= <-]|done].
Qed.

Lemma tick_invokes_due_witness :
  exists e', @tick World _ map_to_list (exec_world, busy) = Some (tt, (exec_world, e')) /\
    pendingJobInvocations e' ≡ₚ pendingJobInvocations busy ++
      ((fun en => js_Job (snd en)) <$> due_entries time10 (map_to_list (scheduledJobs busy))) /\
    scheduledJobs e' = filter (fun ks => due time10 (snd ks) = false) (scheduledJobs busy) /\
    jobExecutionsCache e' = jobExecutionsCache busy.
Proof.
  exact (tick_invokes_due map_to_list exec_world busy exec_world_ready busy_wf (reflexivity _)).
Defined.

Lemma handleSuccessJobs_plans_witness :
  exists w' e',
    @handleSuccessJobs World _ _ 1 3 [sample_job 4] (exec_world, busy) = Some (tt, (w', e')) /\
    ex_ready w' /\
    Forall (planned (ex_clock exec_world) ExecutionLogSuccessState busy e') [sample_job 4] /\
    same_outside (ID <$> [sample_job 4]) busy e' /\ pendingJobInvocations e' = pendingJobInvocations busy.
Proof.
  apply (handleSuccessJobs_plans 1 3 [sample_job 4] exec_world busy).
  - apply exec_world_ready.
  - apply NoDup_singleton.
  - constructor; [|constructor]. exists lagos10. vm_compute. reflexivity.
  - constructor; [|constructor]. exists mem4, lagos10. split; vm_compute; reflexivity.
Defined.

Lemma ScheduleJobs_starts_witness :
  exists w' e',
    @ScheduleJobs World _ _ 1 3 [sample_job 4] (exec_world, NewJobExecutor) = Some (tt, (w', e')) /\
    ex_ready w' /\ Forall (started (ex_clock exec_world) e') [sample_job 4] /\ same_outside (ID <$> [sample_job 4]) NewJobExecutor e'.
Proof.
  apply (ScheduleJobs_starts 1 3 [sample_job 4] ∅ exec_world NewJobExecutor).
  - apply exec_world_ready.
  - apply NoDup_singleton.
  - vm_compute. reflexivity.
  - constructor; [reflexivity|constructor].
  - constructor; [|constructor]. exists "Africa/Lagos", lagos10. split; vm_compute; reflexivity.
Defined.

Definition pending4 : jobExecutor := with_pending [sample_job 4] NewJobExecutor.

Lemma flush_hands_over_witness :
  exists out e', @flush World _ (exec_world, pending4) = Some (out, (exec_world, e')) /\
    (e' = with_pending [] pending4 /\
     forall p, p ∈ out <-> p ∈ [sample_job 4] /\
       ID p ∈ ID <$> [sample_job 4] /\ ExecutionType p = ExecutionTypeHTTP).
Proof.
  apply (flush_hands_over exec_world pending4
           (Ok [sample_job 4]) exec_world).
  - vm_compute. reflexivity.
  - apply NoDup_singleton.
Defined.

Lemma queue_walk_covers_witness :
  let ranges := walk_ranges (S (Z.to_nat (5463 - 1))) 1 5463 in
  @queue_walk World _ _ 1 3 (S (Z.to_nat (5463 - 1))) 1 (i64 (1 + JobMaxBatchSize)) 5463
    (exec_world, NewJobExecutor) = visit 1 3 ranges (exec_world, NewJobExecutor) /\
  concat ((fun r => zseq (fst r) (Z.to_nat (snd r - fst r + 1))) <$> ranges) =
  zseq 1 (Z.to_nat (if (5463 - 1) mod 5462 =? 0 then 5463 - 1 else 5463 - 1 + 1)).
Proof.
  apply (queue_walk_covers 1 3 1 5463 exec_world NewJobExecutor).
  - lia.
  - reflexivity.
  - lia.
Defined.
