(* ===== verification/Processor.v ===== *)
(** * The job processor: pkg/service/processor/processor.go

    [StartJobs] runs on a new leader: it opens a new queue version and queues
    the jobs of every project.  [RecoverJobs] runs on a worker: it takes up
    the ranges queued to it in the current version. *)

From stdpp Require Import base list gmap strings pretty sorting.
From Stdlib Require Import ZArith Lia.
From S2P Require Import Prelude Models JobTime Batcher Sql Fsm Replication Inserts Reads JobQueueRepo.
From S2P Require Import Queue JobRepo JobFacts ExecutionsRepo AccountRepos Executor ExecutorImpl.

#[local] Open Scope Z_scope.

#[local] Existing Instance world_repo.

Section Processor.
Context {codec : CommandCodec} {env : Env} {mo : MapOrder}.
(** [configs.NodeId] and [configs.JobExecutionRetryMax] *)
Context (NodeId JobExecutionRetryMax : Z).

(** The body of the loop over the projects. *)
Definition start_project (project : Project) : Go (World * jobQueue) unit :=
  n ← on_fst (GetJobsTotalCountByProjectID (p_ID project));
  match n with
  | Err _ => crash
  | Ok jobsTotalCount =>
      r ← on_fst (GetJobsPaginated (p_ID project) 0 jobsTotalCount);
      let '(jobs, _, loadErr) := r in
      let jobs := (fun job => set_LastExecutionDate (DateCreated job) job) <$> jobs in
      match loadErr with
      | Some _ => crash
      | None => Queue NodeId jobs
      end
  end.

Definition StartJobs : Go (World * jobQueue) unit :=
  IncrementQueueVersion_service;;
  c ← on_fst ProjectRepo.Count;
  match c with
  | Err _ => crash
  | Ok totalProjectCount =>
      l ← on_fst (ProjectRepo.List_ 0 totalProjectCount);
      match l with
      | Err _ => crash
      | Ok projects => go_for (fun _ project => start_project project) projects tt
      end
  end.

(** The body of the loop over the jobs of a range: the jobs to schedule, or
    the [return] of a spec that does not parse. *)
Definition recover_one (jobsStates : gmap Z JobExecutionLog) (lastJobQueueLog : JobQueueLog)
    (jobsToSchedule : list Job) (job : Job) : Go (World * jobExecutor) (list Job + unit) :=
  let '(lastJobState, jobsToSchedule) :=
    match jobsStates !! ID job with
    | Some l => (l, jobsToSchedule)
    | None => (execution_log_zero, jobsToSchedule ++ [job])
    end in
  if negb (el_NodeId lastJobState =? NodeId) &&
     negb (el_JobQueueVersion lastJobState =? q_Version lastJobQueueLog)
  then mret (inl jobsToSchedule)
  else
    match cron_parse (Spec job) with
    | Err _ => mret (inr tt)
    | Ok next =>
        now ← on_fst ex_now;
        let executionTime := next (el_LastExecutionDatetime lastJobState) in
        let job := set_LastExecutionDate (el_LastExecutionDatetime lastJobState)
                     (set_ExecutionId (el_UniqueId lastJobState) job) in
        if Before now executionTime && (el_State lastJobState =? ExecutionLogScheduleState)
        then AddJobSchedule job;; mret (inl jobsToSchedule)
        else mret (inl (jobsToSchedule ++ [job]))
    end.

(** One queue log; [inr] is a [return] of the whole function. *)
Definition recover_log (lastJobQueueLog : JobQueueLog) : Go (World * jobExecutor) (unit + unit) :=
  expandedJobIds ← lift_opt (ExpandIdsRange (q_LowerBoundJobId lastJobQueueLog)
                               (q_UpperBoundJobId lastJobQueueLog));
  jobsStates ← on_fst (GetLastExecutionLogForJobIds expandedJobIds);
  r ← on_fst (BatchGetJobsByID expandedJobIds);
  match r with
  | Err _ => mret (inr tt)
  | Ok jobsFromDb =>
      r ← go_for_ret (recover_one jobsStates lastJobQueueLog) jobsFromDb [];
      match r with
      | inr _ => mret (inr tt)
      | inl [] => mret (inl tt)
      | inl jobsToSchedule => ScheduleJobs NodeId JobExecutionRetryMax jobsToSchedule;; mret (inl tt)
      end
  end.

Definition RecoverJobs : Go (World * jobExecutor) unit :=
  lastVersion ← on_fst GetLastVersion;
  lastJobQueueLogs ← on_fst (GetLastJobQueueLogForNode NodeId lastVersion);
  match lastJobQueueLogs with
  | [] => mret tt
  | _ => go_for_ret (fun _ l => recover_log l) lastJobQueueLogs tt;; mret tt
  end.

End Processor.

(** ** Projects as a list *)

Definition proj_row (p : Project) : row :=
  [("id", VInt (p_ID p)); ("name", VText (p_Name p)); ("description", VText (p_Description p));
   ("date_created", VTime (t_ns (p_DateCreated p)))].

Definition project_wf (p : Project) : Prop :=
  0 <= p_ID p <= MaxInt64 /\ t_loc (p_DateCreated p) = "UTC".

Definition projects_abs (db : Db) (ps : list Project) : Prop :=
  db_rows db ProjectRepo.ProjectsTableName = proj_row <$> ps /\ Forall project_wf ps.

Lemma scan_project_row p :
  project_wf p -> ProjectRepo.scan_project (project_cols ProjectRepo.project_select (proj_row p)) = Some p.
Proof.
  intros [? Hl]. cbn. unfold scan_uint64. rewrite (proj2 (Z.leb_le _ _)) by lia. cbn.
  destruct p as [? ? ? []]. cbn in *. by subst.
Qed.

Lemma scan_projects ps :
  Forall project_wf ps ->
  mapM ProjectRepo.scan_project (project_cols ProjectRepo.project_select <$> (proj_row <$> ps)) = Some ps.
Proof.
  induction 1 as [|p ps Hp _ IH]; [done|]. rewrite !fmap_cons. cbn [mapM].
  rewrite scan_project_row by done. cbn. by rewrite IH.
Qed.

Lemma Count_abs ps w :
  healthy w -> projects_abs (w_db w) ps ->
  ProjectRepo.Count w = Some (Ok (u64 (Z.of_nat (length ps))), w).
Proof.
  intros Hw [Hr _]. unfold ProjectRepo.Count.
  erewrite (db_query_then _ _ _ [Z.of_nat (length ps)]); [done|done|done|].
  unfold count_rows. by rewrite Hr, length_fmap.
Qed.

Lemma List_abs ps offset limit w :
  healthy w -> projects_abs (w_db w) ps ->
  ProjectRepo.List_ offset limit w = Some (Ok (take (Z.to_nat limit) (drop (Z.to_nat offset) ps)), w).
Proof.
  intros Hw [Hr Hwf]. unfold ProjectRepo.List_. erewrite db_query_then; [reflexivity|done|done|].
  rewrite Hr. unfold page. rewrite <- fmap_drop, <- fmap_take. apply scan_projects.
  by apply Forall_take, Forall_drop.
Qed.

(** ** StartJobs *)

(** A stamped log keeps its range, node and version. *)
Definition same_range (l l' : JobQueueLog) : Prop :=
  q_NodeId l' = q_NodeId l /\ q_LowerBoundJobId l' = q_LowerBoundJobId l /\
  q_UpperBoundJobId l' = q_UpperBoundJobId l /\ q_Version l' = q_Version l.

Lemma stamp_same now seq logs : Forall2 same_range logs (stamp now seq logs).
Proof. revert seq. induction logs as [|l ls IH]; intros seq; cbn [stamp]; constructor; [done|apply IH]. Qed.

(** The id is in a range queued to a worker under [version]. *)
Definition assigned (NodeId : Z) (m : gmap Z Z) (version id : Z) (l : JobQueueLog) : Prop :=
  log_for NodeId m version l /\ q_LowerBoundJobId l <= id <= q_UpperBoundJobId l.

Lemma queued_assigned NodeId jobs m version lo hi logs now seq j :
  queued NodeId jobs m version lo hi logs -> j ∈ jobs ->
  exists l, l ∈ stamp now seq logs /\ assigned NodeId m version (ID j) l.
Proof.
  intros [_ _ Hall Htile Hlogs _ _] Hj. rewrite Forall_forall in Hall. rewrite Forall_forall in Hlogs. specialize (Hall j Hj).
  cbn beta in Hall.
  assert (ID j ∈ concat (log_ids <$> logs)) as Hin by (rewrite Htile; apply elem_of_zseq; lia).
  apply elem_of_concat in Hin as (? & (l & -> & Hl)%list_elem_of_fmap & Hin).
  apply list_elem_of_lookup in Hl as [k Hk].
  destruct (Forall2_lookup_l _ _ _ _ _ (stamp_same now seq logs) Hk) as (l' & Hk' & ? & E1 & E2 & ?).
  exists l'. split; [by eapply list_elem_of_lookup_2|]. 
  destruct (Hlogs l) as (? & ? & ?); [by eapply list_elem_of_lookup_2|].
  split; [unfold log_for; split_and!; congruence|]. rewrite E1, E2.
  unfold log_ids in Hin. apply elem_of_zseq in Hin. lia.
Qed.

Lemma log_ids_stamp now seq logs : log_ids <$> stamp now seq logs = log_ids <$> logs.
Proof. revert seq. induction logs as [|l ls IH]; intros seq; [done|]. cbn [stamp]. by rewrite !fmap_cons, IH. Qed.

(** Ranges within [0, M] that have no id in common. *)
Definition separate (M : Z) (logs : list JobQueueLog) : Prop :=
  NoDup (concat (log_ids <$> logs)) /\
  Forall (fun l => 0 <= q_LowerBoundJobId l <= q_UpperBoundJobId l /\ q_UpperBoundJobId l <= M) logs.

Lemma queued_separate NodeId jobs m version lo hi logs now seq M :
  queued NodeId jobs m version lo hi logs -> Forall (fun job => 0 <= ID job <= M) jobs ->
  separate M (stamp now seq logs).
Proof.
  intros [Hlo Hhi _ Htile _ Hin _] HF. rewrite Forall_forall in HF.
  apply list_elem_of_fmap in Hlo as (x & -> & Hx%HF), Hhi as (y & -> & Hy%HF). cbn beta in Hx, Hy. split.
  - rewrite log_ids_stamp, Htile. apply NoDup_zseq.
  - clear Htile. revert seq. induction Hin as [|l ls Hl _ IH]; intros seq; [constructor|].
    cbn [stamp]. constructor; [cbn; lia|apply IH].
Qed.

Lemma log_for_stamp NodeId m version logs now seq :
  Forall (log_for NodeId m version) logs -> Forall (log_for NodeId m version) (stamp now seq logs).
Proof.
  intros H. revert seq. induction H as [|l ls Hl _ IH]; intros seq; cbn [stamp]; by constructor.
Qed.

Section Facts.
Context {codec : CommandCodec} {env : Env} {mo : MapOrder} (total : codec_total) (NodeId : Z).

#[local] Instance laws : JobQueuesRepoLaws World := world_repo_laws total.

(** Ids the queue can spread over [k] projects without its counters
    overflowing. *)
Definition ids_fit (M k : Z) : Prop := 0 <= M <= max_exact_id /\ k * (M + 1) <= 4611686018427387904.

Lemma start_project_ok p js old b M w q :
  world_ready w -> queue_abs (w_db w) old -> jobs_abs (w_db w) js -> queue_ready NodeId b q ->
  0 <= b <= 4611686018427387904 -> 0 <= M <= max_exact_id ->
  p_ID p <= MaxInt64 -> Forall (fun j => 0 <= ID j <= M) js -> Z.of_nat (length js) <= MaxUint64 ->
  exists w' q' new,
    start_project NodeId p (w, q) = Some (tt, (w', q')) /\ world_ready w' /\ world_rest w w' /\
    max_version (versions (w_db w')) = max_version (versions (w_db w)) /\
    queue_abs (w_db w') (old ++ new) /\ queue_ready NodeId (b + (M + 1)) q' /\
    dom (allocations q') = dom (allocations q) /\
    Forall (log_for NodeId (allocations q) (max_version (versions (w_db w)))) new /\
    (forall j, j ∈ js -> ProjectID j = p_ID p -> exists l, l ∈ new /\
      assigned NodeId (allocations q) (max_version (versions (w_db w))) (ID j) l) /\
    separate M new.
Proof using total.
  intros Hr Ha Hj Hq Hb HM Hp Hids Hlen. assert (Hw : healthy w) by (destruct Hr as [[] _]; done).
  unfold start_project. erewrite go_bind_on_fst by (by apply GetJobsTotalCountByProjectID_abs).
  set (xs := List.filter (in_project (p_ID p)) js).
  assert (Hxs : (length xs <= length js)%nat) by apply List.filter_length_le.
  destruct (GetJobsPaginated_abs (p_ID p) 0 (u64 (Z.of_nat (length xs))) js w Hw Hj Hp)
    as (sorted & Hperm & _ & Hg). fold xs in Hperm.
  rewrite u64_small, Nat2Z.id in Hg by lia. rewrite u64_small by lia.
  cbn [Z.to_nat drop] in Hg. rewrite take_ge in Hg by (by rewrite Hperm).
  erewrite go_bind_on_fst by exact Hg.
  set (jobs := (fun job => set_LastExecutionDate (DateCreated job) job) <$> sorted).
  assert (Hjobs : ID <$> jobs ≡ₚ ID <$> xs).
  { unfold jobs. rewrite <- list_fmap_compose. rewrite <- Hperm. done. }
  destruct sorted as [|s0 sorted].
  { exists w, q, []. rewrite app_nil_r. split_and!; try done.
    - eapply queue_ready_mono; [done|lia].
    - intros j Hin E. exfalso. eapply (not_elem_of_nil j). rewrite Hperm. apply elem_of_filter_bool.
      split; [done|]. by apply Z.eqb_eq.
    - split; constructor. }
  assert (Hbound : Forall (fun job => 0 <= ID job <= M) jobs).
  { apply Forall_forall. intros x Hx. apply (list_elem_of_fmap_2 ID) in Hx. rewrite Hjobs in Hx.
    apply list_elem_of_fmap in Hx as (y & -> & [Hy _]%elem_of_filter_bool).
    rewrite Forall_forall in Hids. by apply Hids. }
  destruct (Queue_spec NodeId jobs old b w q) as
    (w' & q' & logs & lo & hi & HQ & Hr' & Hv & Hrest & Hst & Hqd & Hq' & Hdom); try done.
  { eapply Forall_impl; [exact Hbound|]. cbn beta. lia. }
  exists w', q', (stamp (w_now w) (t_seq (db_table (w_db w) JobQueuesTableName)) logs).
  split_and!; try done.
  - eapply queue_ready_mono; [exact Hq'|]. destruct Hqd as [Hlo Hhi _ _ _ _ _].
    rewrite Forall_forall in Hbound.
    apply list_elem_of_fmap in Hlo as (x & -> & Hx%Hbound), Hhi as (y & -> & Hy%Hbound).
    cbn beta in Hx, Hy. lia.
  - apply log_for_stamp. by destruct Hqd.
  - intros j Hin E. assert (ID j ∈ ID <$> jobs) as (x & Hid & Hx)%list_elem_of_fmap.
    { rewrite Hjobs. apply list_elem_of_fmap_2, elem_of_filter_bool. split; [done|]. by apply Z.eqb_eq. }
    rewrite Hid. by eapply queued_assigned.
  - by eapply queued_separate.
Qed.

Lemma jobs_abs_rest w w' js : world_rest w w' -> jobs_abs (w_db w) js -> jobs_abs (w_db w') js.
Proof. intros (_ & _ & H) [Hr ?]. split; [|done]. unfold db_rows in *. by rewrite H. Qed.

Lemma log_for_dom m m' v l : dom m = dom m' -> log_for NodeId m v l -> log_for NodeId m' v l.
Proof. intros E (? & ? & ?). unfold log_for. by rewrite <- E. Qed.

Lemma start_projects_ok ps js old b M w q :
  world_ready w -> queue_abs (w_db w) old -> jobs_abs (w_db w) js -> queue_ready NodeId b q ->
  0 <= b -> 0 <= M <= max_exact_id -> b + Z.of_nat (length ps) * (M + 1) <= 4611686018427387904 ->
  Forall (fun p => p_ID p <= MaxInt64) ps ->
  Forall (fun j => 0 <= ID j <= M) js -> Z.of_nat (length js) <= MaxUint64 ->
  let v := max_version (versions (w_db w)) in
  exists w' q' new,
    go_for (fun _ project => start_project NodeId project) ps tt (w, q) = Some (tt, (w', q')) /\
    max_version (versions (w_db w')) = v /\ queue_abs (w_db w') (old ++ new) /\
    Forall (log_for NodeId (allocations q) v) new /\
    forall j, j ∈ js -> ProjectID j ∈ p_ID <$> ps -> exists l, l ∈ new /\
      assigned NodeId (allocations q) v (ID j) l.
Proof using total.
  intros Hr Ha Hj Hq Hb HM Hsum Hps Hids Hlen v. revert old b w q Hr Ha Hj Hq Hb Hsum v.
  induction Hps as [|p ps Hp _ IH]; intros old b w q Hr Ha Hj Hq Hb Hsum v.
  { exists w, q, []. rewrite app_nil_r. split_and!; try done. by intros j _ ?%elem_of_nil. }
  cbn [length] in Hsum.
  destruct (start_project_ok p js old b M w q) as
    (w1 & q1 & new1 & H1 & Hr1 & Hrest & Hv1 & Ha1 & Hq1 & Hd1 & Hf1 & Hc1 & _); try done; [nia|].
  destruct (IH (old ++ new1) (b + (M + 1)) w1 q1) as (w2 & q2 & new2 & H2 & Hv2 & Ha2 & Hf2 & Hc2);
    [done|done|by eapply jobs_abs_rest|done|lia|lia|].
  exists w2, q2, (new1 ++ new2). cbn [go_for]. erewrite go_bind_Some by exact H1.
  fold v in Hv1. rewrite Hv1 in *.
  split_and!; [done|done|by rewrite app_assoc| |].
  - apply Forall_app_2; [done|]. eapply Forall_impl; [exact Hf2|]. intros. by eapply log_for_dom.
  - intros j Hjs Hpid. rewrite fmap_cons in Hpid. apply elem_of_cons in Hpid as [E|Hin].
    + destruct (Hc1 j Hjs E) as (l & ? & ?). exists l. split; [set_solver|done].
    + destruct (Hc2 j Hjs Hin) as (l & ? & Hl & ?). exists l. split; [set_solver|].
      split; [by eapply log_for_dom|done].
Qed.

(** [StartJobs] opens the next version, which tells nobody, and then goes
    through the projects. *)
Lemma StartJobs_opens ps old w q :
  world_ready w -> max_version (versions (w_db w)) < 9007199254740992 ->
  queue_abs (w_db w) old -> projects_abs (w_db w) ps ->
  small (Z.of_nat (size (allocations q))) -> Z.of_nat (length ps) <= MaxUint64 ->
  exists w1 unheard,
    StartJobs NodeId (w, q) = go_for (fun _ project => start_project NodeId project) ps tt (w1, q) /\
    world_ready w1 /\ max_version (versions (w_db w1)) = max_version (versions (w_db w)) + 1 /\
    world_rest w w1 /\ queue_abs (w_db w1) old /\
    w_post w1 = w_post w ++ unheard /\ Forall (fun m => pp_TargetNodes m = []) unheard /\
    db_table (w_db w1) JobQueuesTableName = db_table (w_db w) JobQueuesTableName.
Proof using total.
  intros Hr Hv Ha [Hpr Hpw] Hsize Hlp. pose proof Hr as (Hquiet & _ & Hvs).
  destruct (world_increment_law total (Z.of_nat (size (allocations q))) old w Hr Ha Hsize Hv)
    as (w1 & H1 & Hr1 & Hv1 & Hrest & Ha1).
  destruct (IncrementQueueVersion_quiet (Z.of_nat (size (allocations q))) w Hquiet total Hsize) as (unheard & Hun & H1').
  { unfold small in Hvs. lia. }
  rewrite H1 in H1'. injection H1' as Ew1.
  assert (Hw1 : healthy w1) by (destruct Hr1 as [[] _]; done).
  assert (Hp1 : projects_abs (w_db w1) ps).
  { destruct Hrest as (_ & _ & Hrest). split; [|done]. unfold db_rows in *. by rewrite Hrest. }
  exists w1, unheard. split_and!; try done.
  - unfold StartJobs, IncrementQueueVersion_service. rewrite go_bind_assoc, go_bind_gets. cbn [snd].
    erewrite go_bind_on_fst by exact H1. erewrite go_bind_on_fst by (by apply Count_abs).
    rewrite u64_small by lia. erewrite go_bind_on_fst by (by apply List_abs).
    rewrite Nat2Z.id. cbn [Z.to_nat drop]. by rewrite take_ge.
  - by rewrite Ew1.
  - rewrite Ew1. cbn [w_db with_post with_db]. by rewrite db_append_other.
Qed.

(** C5: When a node becomes leader, [StartJobs] opens the next queue version
    and queues under it every job of every project to a worker of the
    cluster: no job is left without a node. *)
Theorem StartJobs_queues_all js ps old M w q :
  world_ready w -> max_version (versions (w_db w)) < 9007199254740992 ->
  queue_abs (w_db w) old -> jobs_abs (w_db w) js -> projects_abs (w_db w) ps ->
  queue_ready NodeId 0 q -> ids_fit M (Z.of_nat (length ps)) ->
  small (Z.of_nat (size (allocations q))) -> Z.of_nat (length ps) <= MaxUint64 ->
  Forall (fun j => 0 <= ID j <= M /\ ProjectID j ∈ p_ID <$> ps) js -> Z.of_nat (length js) <= MaxUint64 ->
  let v := max_version (versions (w_db w)) + 1 in
  exists w' q' new,
    StartJobs NodeId (w, q) = Some (tt, (w', q')) /\
    max_version (versions (w_db w')) = v /\ queue_abs (w_db w') (old ++ new) /\
    Forall (log_for NodeId (allocations q) v) new /\
    forall j, j ∈ js -> exists l, l ∈ new /\ assigned NodeId (allocations q) v (ID j) l.
Proof using total.
  intros Hr Hv Ha Hj Hp Hq [HM Hfit] Hsize Hlp Hjs Hlj v.
  destruct (StartJobs_opens ps old w q) as (w1 & _ & Hrun & Hr1 & Hv1 & Hrest & Ha1 & _); [done..|].
  destruct (start_projects_ok ps js old 0 M w1 q) as (w2 & q2 & new & H2 & Hv2 & Ha2 & Hf & Hc);
    try done.
  { by eapply jobs_abs_rest. }
  { destruct Hp as [_ Hpw]. eapply Forall_impl; [exact Hpw|]. intros p [? _]. lia. }
  { eapply Forall_impl; [exact Hjs|]. cbn. tauto. }
  exists w2, q2, new. rewrite Hv1 in *. rewrite Hrun. split_and!; try done.
  intros j Hin. apply Hc; [done|]. rewrite Forall_forall in Hjs. by apply Hjs.
Qed.

End Facts.

(** ** Concrete runs: two projects whose jobs interleave *)

Definition proj (id : Z) (name : string) : Project := mkProject id name "d" (mkTime 1 "UTC").
Definition job_in (id p : Z) : Job :=
  stored_job (mkTime id "UTC") id
    (mkJob 0 p "@daily" "http://a" "" "http" time_zero time_zero time_zero "UTC" 0 "" time_zero).
Definition two_projects : list Project := [proj 1 "a"; proj 2 "b"].
Definition three_jobs : list Job := [job_in 1 1; job_in 2 2; job_in 3 1].

Definition start_db : Db :=
  mkDb (<["projects" := Table (proj_row <$> two_projects) 2]>
        (<[JobsTableName := Table (job_row <$> three_jobs) 3]> (db_tabs db_empty))) 3.
Definition start_world : World := mkWorld start_db sample_now RaftLeader true [] [].

Lemma start_world_ready : world_ready start_world.
Proof. split; [by split|]. split; [reflexivity|]. vm_compute. split; discriminate. Qed.

Lemma start_jobs_abs : jobs_abs start_db three_jobs.
Proof.
  split; [reflexivity|]. repeat (constructor; [split; [reflexivity|];
    split; (split; [vm_compute; discriminate|]); [vm_compute; reflexivity|vm_compute; discriminate]|]).
  constructor.
Qed.

Lemma StartJobs_queues_all_witness :
  exists w' q' new,
    @StartJobs plain_codec natural_order 1 (start_world, cluster) = Some (tt, (w', q')) /\
    max_version (versions (w_db w')) = 1 /\ queue_abs (w_db w') ([] ++ new) /\
    Forall (log_for 1 (allocations cluster) 1) new /\
    forall j, j ∈ three_jobs -> exists l, l ∈ new /\ assigned 1 (allocations cluster) 1 (ID j) l.
Proof.
  apply (@StartJobs_queues_all plain_codec natural_order plain_codec_total 1 three_jobs two_projects []
           3 start_world cluster).
  - apply start_world_ready.
  - vm_compute. reflexivity.
  - split; [reflexivity|]. split; [constructor|]. vm_compute. discriminate.
  - apply start_jobs_abs.
  - split; [reflexivity|]. repeat constructor; vm_compute; discriminate.
  - apply cluster_ready.
  - vm_compute. repeat split; discriminate.
  - vm_compute. split; discriminate.
  - vm_compute. discriminate.
  - repeat constructor; vm_compute; discriminate.
  - vm_compute. discriminate.
Defined.

