(* ===== verification/Takeup.v ===== *)
(** * A worker takes up its range

    [RecoverJobs] of pkg/service/processor/processor.go on the worker the
    leader queued a range to: the queue log, the jobs and their executions
    are read from the tables, and the jobs that never ran are scheduled. *)

From stdpp Require Import base list gmap strings pretty sorting.
From Stdlib Require Import ZArith Lia.
From S2P Require Import Prelude Models JobTime Batcher Sql Fsm Replication Inserts Reads JobQueueRepo.
From S2P Require Import Queue JobRepo JobFacts ExecutionsRepo ExecutionsFacts AccountRepos Executor ExecutorFacts.
From S2P Require Import ExecutorImpl Processor.

#[local] Open Scope Z_scope.

Lemma job_row_id j : col "id" (job_row j) = VInt (ID j).
Proof. done. Qed.

(** The jobs an interval of ids names. *)
Definition in_range (l : JobQueueLog) (j : Job) : bool :=
  between (q_LowerBoundJobId l) (q_UpperBoundJobId l) j.

(** A batch of the interval selects the same jobs among those of it. *)
Lemma keyed_between lo hi b (js : list Job) :
  Forall (fun i => lo <= i <= hi) b ->
  List.filter (keyed ID b) js = List.filter (keyed ID b) (List.filter (between lo hi) js).
Proof.
  intros Hb. induction js as [|j js IH]; [done|]. cbn [List.filter].
  destruct (between lo hi j) eqn:E; cbn [List.filter]; [by rewrite IH|].
  assert (keyed ID b j = false) as ->; [|done]. apply bool_decide_eq_false. intros Hj.
  rewrite Forall_forall in Hb. apply Hb in Hj. unfold between in E.
  rewrite !(proj2 (Z.leb_le _ _)) in E by lia. done.
Qed.

(** [BatchGetJobsByID] of an interval reads its jobs, each once. *)
Lemma BatchGetJobsByID_abs lo hi js w :
  healthy w -> jobs_abs (w_db w) js -> 0 <= lo <= hi -> hi < MaxInt64 ->
  exists l, BatchGetJobsByID (zseq lo (Z.to_nat (hi - lo + 1))) w = Some (Ok l, w) /\
    l ≡ₚ List.filter (between lo hi) js.
Proof.
  intros Hw [Hr Hwf] Hlo Hhi. unfold BatchGetJobsByID. set (n := Z.to_nat (hi - lo + 1)).
  rewrite go_bind_eq.
  match goal with |- context [go_for_ret ?body _ _ _] =>
    destruct (read_batches ID Datatypes.id body lo n 1 (List.filter (between lo hi) js) w) as (l & Hl & Hp) end.
  - intros acc b Hb. destruct (batch_ids lo n 1 b) as (_ & Hlen & Hrg); [done|lia|done|].
    exists (List.filter (keyed ID b) js). rewrite list_fmap_id.
    assert (Forall (fun i => lo <= i <= hi) b) as Hrg'.
    { eapply Forall_impl; [exact Hrg|]. cbn beta. intros. lia. }
    split; [|by rewrite (keyed_between lo hi)].
    cbv zeta. erewrite db_query_then; [done|done| |].
    + apply query_refused_ok; [rewrite length_fmap; unfold DBMaxVariableSize in *; lia|].
      apply bindable_ids. eapply Forall_impl; [exact Hrg'|]. cbn beta. intros. go_lia.
    + unfold job_rows, select_jobs. rewrite Hr, <- (list_fmap_id (List.filter _ js)).
      apply (mapM_scan_ids job_row ID job_row_id). intros j Hj. rewrite Forall_forall in Hwf.
      by apply scan_job_row, Hwf.
  - intros j [_ Hj]%elem_of_filter_bool. unfold between in Hj. apply andb_true_iff in Hj as [H1 H2].
    apply Z.leb_le in H1, H2. lia.
  - rewrite Hl. exists l. split; [done|]. by rewrite list_fmap_id in Hp.
Qed.

Lemma concat_perm {A} (l l' : list (list A)) : l ≡ₚ l' -> concat l ≡ₚ concat l'.
Proof.
  induction 1 as [|x l l' _ IH|x y l|]; [done| | |by etrans]; cbn [concat]; [by rewrite IH|].
  by rewrite !app_assoc, (Permutation_app_comm y x).
Qed.

Section Takeup.
Context {codec : CommandCodec} {env : Env}.
Context (NodeId JobExecutionRetryMax : Z).

(** Jobs without a state of this node are all to be scheduled. *)
Lemma recover_new (m : gmap Z JobExecutionLog) l jobs acc w e :
  NodeId <> 0 -> q_Version l <> 0 -> Forall (fun job => m !! ID job = None) jobs ->
  go_for_ret (recover_one NodeId m l) jobs acc (w, e) = Some (inl (acc ++ jobs), (w, e)).
Proof.
  intros Hn Hv HF. revert acc. induction HF as [|job jobs Hm _ IH]; intros acc; [by rewrite app_nil_r|].
  cbn [go_for_ret]. unfold recover_one at 2. rewrite Hm.
  rewrite (proj2 (Z.eqb_neq (el_NodeId execution_log_zero) NodeId)) by (cbn; congruence).
  rewrite (proj2 (Z.eqb_neq (el_JobQueueVersion execution_log_zero) (q_Version l))) by (cbn; congruence).
  cbn [negb andb]. rewrite go_bind_mret, IH. by rewrite <- app_assoc.
Qed.

(** ** Executions that are logged *)

(** No execution of a job with such an id is in the tables. *)
Definition unlogged (P : Z -> Prop) (db : Db) : Prop :=
  forall r i, r ∈ all_executions db -> col "job_id" r = VInt i -> ~ P i.

Lemma unlogged_mono (P Q : Z -> Prop) db : (forall i, Q i -> P i) -> unlogged P db -> unlogged Q db.
Proof. intros Hi H r i Hr Hc Hq. by apply (H r i Hr Hc), Hi. Qed.

(** Logging executions of other jobs keeps that. *)
Lemma unlogged_logged ids P w w' :
  logged ids w w' -> (forall i, i ∈ ids -> ~ P i) -> unlogged P (w_db w) -> unlogged P (w_db w').
Proof.
  intros (_ & _ & Ht & Hr) Hids Hu r i Hin Hc. unfold all_executions in Hin.
  apply elem_of_app in Hin as [Hin|Hin].
  - apply (Hu r); [|done]. apply elem_of_app. left. unfold db_rows in *. by rewrite <- Ht.
  - apply Hr in Hin as [Hin|Hin]; [apply (Hu r); [apply elem_of_app; by right|done]|].
    rewrite Hc in Hin. apply list_elem_of_fmap in Hin as (k & [= ->] & Hk). by apply Hids.
Qed.

Lemma last_rows_unlogged (ids : list Z) db :
  unlogged (fun i => i ∈ ids) db -> last_rows (VInt <$> ids) db = [].
Proof.
  intros Hu. unfold last_rows. assert (sql_select (CIn "job_id" (VInt <$> ids)) (all_executions db) = []) as ->; [|done].
  unfold sql_select. unfold unlogged in Hu. induction (all_executions db) as [|r rows IH]; [done|]. cbn [List.filter].
  rewrite IH by (intros; eapply Hu; [by right|done]). cbn [holds]. unfold key_is.
  destruct (existsb _ _) eqn:E; [|done]. apply existsb_exists in E as (v & Hv & Hc%bool_decide_eq_true).
  apply in_map_iff in Hv as (i & <- & Hi%list_elem_of_In). exfalso. eapply (Hu r i); [by left|done|done].
Qed.

(** Jobs without an execution have no last log. *)
Lemma GetLastExecutionLog_unlogged ids w :
  healthy w -> Forall (fun j => j <= MaxInt64) ids -> unlogged (fun i => i ∈ ids) (w_db w) ->
  GetLastExecutionLogForJobIds ids w = Some (∅, w).
Proof.
  intros Hw Hids Hu. unfold GetLastExecutionLogForJobIds.
  assert (Hget : getLastExecutionLogForJobIds ids w = Some ([], w)).
  { destruct ids as [|j js]; [done|]. unfold getLastExecutionLogForJobIds. cbn iota. set (ids := j :: js) in *.
    rewrite go_bind_eq. erewrite (go_for_ret_collect _ (fun b => [])).
    { rewrite app_nil_l. assert (forall bs : list (list Z), concat ((fun _ => @nil JobExecutionLog) <$> bs) = []) as ->; [|done].
      by induction bs. }
    intros acc b Hb. assert (Hsub : forall i, i ∈ b -> i ∈ ids) by (intros; by eapply elem_of_Batch).
    rewrite db_query_lax_then; [|done|].
    - by rewrite (last_rows_unlogged b) by exact (unlogged_mono _ _ _ Hsub Hu).
    - apply query_refused_ok.
      + rewrite length_fmap. pose proof (Batch_bounded ids 1 b ltac:(unfold DBMaxVariableSize; lia) Hb).
        unfold DBMaxVariableSize in *. lia.
      + apply forallb_forall. intros v. rewrite in_map_iff. intros (i & <- & Hi%list_elem_of_In).
        apply bindable_int. rewrite Forall_forall in Hids. by apply Hids, Hsub. }
  rewrite (go_bind_Some _ _ _ _ _ Hget). unfold mret. cbn. f_equal. f_equal. clear. induction ids as [|i ids IH]; [done|apply IH].
Qed.

(** ** One queue log *)

(** A worker whose driver works, and the jobs in its tables. *)
Record working (w : World) (js : list Job) : Prop := {
  wk_healthy : healthy w;
  wk_version : 0 < max_version (versions (w_db w)) <= MaxInt64;
  wk_node : 0 < NodeId <= MaxInt64;
  wk_jobs : jobs_abs (w_db w) js;
  wk_ids : NoDup (ID <$> js) }.

Lemma working_logged ids w w' js : working w js -> logged ids w w' -> working w' js.
Proof.
  intros [] ((Hh & _ & Hv & _) & _ & Ht & _). split; [done|by rewrite Hv|done| |done].
  destruct wk_jobs0 as [Hr ?]. split; [|done]. unfold db_rows in *. by rewrite Ht.
Qed.

Lemma in_range_ids l job : in_range l job = true <-> ID job ∈ log_ids l.
Proof.
  unfold in_range, between, log_ids. rewrite elem_of_zseq, andb_true_iff, !Z.leb_le. lia.
Qed.

(** The jobs of the log are read, none has a last log, and all are scheduled. *)
Lemma recover_log_schedules w js l e :
  working w js -> 0 <= q_LowerBoundJobId l <= q_UpperBoundJobId l -> q_UpperBoundJobId l < MaxInt64 ->
  q_Version l <> 0 -> unlogged (fun i => i ∈ log_ids l) (w_db w) ->
  (forall job, job ∈ js -> ID job ∈ log_ids l -> can_start (w_now w) job) -> singleNodeMode e = false ->
  exists w' e',
    recover_log NodeId JobExecutionRetryMax l (w, e) = Some (inl tt, (w', e')) /\
    (exists ids, logged ids w w' /\ forall i, i ∈ ids -> i ∈ log_ids l) /\ singleNodeMode e' = false /\
    (forall job, job ∈ js -> ID job ∈ log_ids l -> started (w_now w) e' job) /\
    same_outside (log_ids l) e e'.
Proof.
  intros [] Hl Hu Hv Hun Hcan Hmode. fold (log_ids l).
  assert (Hm : GetLastExecutionLogForJobIds (log_ids l) w = Some (∅, w)).
  { apply GetLastExecutionLog_unlogged; [done| |done]. apply Forall_forall. intros j Hj%elem_of_zseq. lia. }
  destruct (BatchGetJobsByID_abs (q_LowerBoundJobId l) (q_UpperBoundJobId l) js w) as (jobs & Hjobs & Hperm); [done..|].
  assert (Hjob : forall job, job ∈ jobs <-> job ∈ js /\ ID job ∈ log_ids l).
  { intros job. rewrite Hperm, elem_of_filter_bool, <- in_range_ids. done. }
  assert (Hsub : forall i, i ∈ ID <$> jobs -> i ∈ log_ids l).
  { intros i (job & -> & Hj%Hjob)%list_elem_of_fmap. apply Hj. }
  assert (Hm' : GetLastExecutionLogForJobIds (ID <$> jobs) w = Some (∅, w)).
  { apply GetLastExecutionLog_unlogged; [done| |exact (unlogged_mono _ _ _ Hsub Hun)].
    apply Forall_forall. intros i Hi%Hsub%elem_of_zseq. lia. }
  destruct (ScheduleJobs_new NodeId JobExecutionRetryMax jobs ∅ w e)
    as (w' & e' & Hsch & _ & Hst & Hout & Hlog & Hm1 & _); try done.
  { split; [done|lia]. }
  { rewrite Hperm. by apply NoDup_fmap_filter. }
  { apply Forall_forall. intros. apply lookup_empty. }
  { apply Forall_forall. intros job [? ?]%Hjob. by apply Hcan. }
  exists w', e'. split_and!; [| |congruence| |].
  - unfold recover_log. rewrite (go_bind_lift _ (log_ids l)) by (apply ExpandIdsRange_eq; go_lia).
    rewrite (go_bind_on_fst _ _ _ _ _ _ Hm), (go_bind_on_fst _ _ _ _ _ _ Hjobs). cbv iota beta.
    rewrite (go_bind_Some _ _ _ _ _ (recover_new ∅ l jobs [] w e ltac:(lia) ltac:(lia)
               ltac:(apply Forall_forall; intros; apply lookup_empty))). cbn [app].
    destruct jobs as [|job jobs]; [by injection Hsch as <- <-|]. by rewrite (go_bind_Some _ _ _ _ _ Hsch).
  - exists (ID <$> jobs). split; [by apply Hlog|done].
  - intros job Hj Hin. rewrite Forall_forall in Hst. apply Hst, Hjob. by split.
  - intros k Hk. apply Hout. intros Hk'. by apply Hk, Hsub.
Qed.

(** ** All queue logs of a worker *)

(** What is scheduled stays so when other jobs are. *)
Lemma started_outside ids now e e' job :
  same_outside ids e e' -> ID job ∉ ids -> started now e job -> started now e' job.
Proof. intros Ho Hn (loc & t & ? & ? & ? & Hc & Hs). destruct (Ho _ Hn) as [Ec Es]. exists loc, t. rewrite Ec, Es. done. Qed.

Lemma recover_logs_schedule (ls : list JobQueueLog) w js e :
  working w js -> separate (MaxInt64 - 1) ls -> Forall (fun l => q_Version l <> 0) ls ->
  unlogged (fun i => i ∈ concat (log_ids <$> ls)) (w_db w) ->
  (forall job, job ∈ js -> ID job ∈ concat (log_ids <$> ls) -> can_start (w_now w) job) -> singleNodeMode e = false ->
  exists w' e',
    go_for_ret (fun (_ : unit) l => recover_log NodeId JobExecutionRetryMax l) ls tt (w, e) =
      Some (inl tt, (w', e')) /\
    exec_ready w' /\
    (forall job, job ∈ js -> ID job ∈ concat (log_ids <$> ls) -> started (w_now w) e' job) /\
    same_outside (concat (log_ids <$> ls)) e e'.
Proof.
  intros Hw [Hnd Hls] Hv. revert w e Hw. induction Hls as [|l ls Hl _ IH]; intros w e Hw Hun Hcan Hmode.
  { exists w, e. destruct Hw. split_and!; try done; [split; [done|lia]|]. by intros job _ ?%elem_of_nil. }
  rewrite fmap_cons in *. cbn [concat] in *. apply NoDup_app in Hnd as (_ & Hdis & Hnd).
  apply Forall_cons in Hv as [Hvl Hv].
  destruct (recover_log_schedules w js l e) as (w1 & e1 & H1 & (ids & Hlog & Hids) & Hm1 & Hst1 & Hout1);
    try done; [lia|lia| | |].
  { eapply unlogged_mono; [|exact Hun]. intros. apply elem_of_app. by left. }
  { intros job Hj Hin. apply Hcan; [done|]. apply elem_of_app. by left. }
  assert (Hnow : w_now w1 = w_now w) by (by destruct Hlog as [(_ & ? & _) _]).
  destruct (IH Hnd Hv w1 e1) as (w2 & e2 & H2 & Hr2 & Hst2 & Hout2);
    [by eapply working_logged| |rewrite Hnow; intros; apply Hcan; [done|set_solver]|done|].
  { eapply unlogged_logged; [exact Hlog| |].
    - intros i Hi%Hids. by apply Hdis.
    - eapply unlogged_mono; [|exact Hun]. intros. apply elem_of_app. by right. }
  rewrite Hnow in Hst2. exists w2, e2. split_and!; [|done| |].
  - cbn [go_for_ret]. by rewrite (go_bind_Some _ _ _ _ _ H1).
  - intros job Hj [Hin|Hin]%elem_of_app; [|by apply Hst2].
    eapply started_outside; [exact Hout2|by apply Hdis|by apply Hst1].
  - intros k [Hk1 Hk2]%not_elem_of_app. destruct (Hout2 k Hk2) as [-> ->]. by apply Hout1.
Qed.

(** The logs of this node in the current version. *)
Definition my_logs (w : World) (qs : list JobQueueLog) : list JobQueueLog :=
  List.filter (log_of NodeId (max_version (versions (w_db w)))) qs.
Definition my_ids (w : World) (qs : list JobQueueLog) : list Z := concat (log_ids <$> my_logs w qs).

Lemma RecoverJobs_schedules w qs js e :
  working w js -> queue_abs (w_db w) qs -> separate (MaxInt64 - 1) (my_logs w qs) ->
  unlogged (fun i => i ∈ my_ids w qs) (w_db w) ->
  (forall job, job ∈ js -> ID job ∈ my_ids w qs -> can_start (w_now w) job) -> singleNodeMode e = false ->
  exists w' e',
    RecoverJobs NodeId JobExecutionRetryMax (w, e) = Some (tt, (w', e')) /\ exec_ready w' /\
    (forall job, job ∈ js -> ID job ∈ my_ids w qs -> started (w_now w) e' job) /\
    same_outside (my_ids w qs) e e'.
Proof.
  intros Hw Hq [Hnd Hin] Hun Hcan Hmode. pose proof Hw as []. set (v := max_version (versions (w_db w))) in *.
  destruct (GetLastJobQueueLogForNode_abs NodeId v w qs) as (ls & Hls & Hp); [done|done|lia|lia|].
  fold (my_logs w qs) in Hp.
  assert (Hids : concat (log_ids <$> ls) ≡ₚ my_ids w qs).
  { unfold my_ids. apply concat_perm. by rewrite Hp. }
  destruct (recover_logs_schedule ls w js e) as (w' & e' & Hrun & Hr' & Hst & Hout); try done.
  { split; [by rewrite Hids|by rewrite Hp]. }
  { rewrite Hp. apply Forall_forall. intros l [_ Hl]%elem_of_filter_bool. unfold log_of in Hl.
    apply andb_true_iff in Hl as [_ Hl%Z.eqb_eq]. fold v in Hl. lia. }
  { eapply unlogged_mono; [|exact Hun]. intros i. by rewrite Hids. }
  { intros job Hj Hi. apply Hcan; [done|]. by rewrite <- Hids. }
  exists w', e'. split_and!; [|done| |].
  - unfold RecoverJobs, GetLastVersion.
    rewrite (go_bind_on_fst _ _ _ _ _ _ (getLastVersion_healthy w wk_healthy0 ltac:(fold v; lia))). fold v.
    rewrite (go_bind_on_fst _ _ _ _ _ _ Hls). destruct ls as [|l ls]; [by injection Hrun as <- <-|].
    by rewrite (go_bind_Some _ _ _ _ _ Hrun).
  - intros job Hj Hi. apply Hst; [done|]. by rewrite Hids.
  - intros k Hk. apply Hout. by rewrite Hids.
Qed.


End Takeup.

(** ** A run *)

#[local] Existing Instance sample_env.
#[local] Existing Instance plain_codec.

(** Node 2 was queued the ids 3 to 5 and 7 to 9, of which the jobs 4 and 8
    exist. *)
Definition my_jobs : list Job := [sample_job 4; sample_job 8].
Definition two_logs : list JobQueueLog :=
  [mkJobQueueLog 1 2 3 5 1 (mkTime 1 "UTC"); mkJobQueueLog 2 2 7 9 1 (mkTime 1 "UTC")].
Definition worker_db : Db :=
  mkDb (<[JobQueuesTableName := Table (queue_row <$> two_logs) 2]>
        (<[JobQueuesVersionTableName := Table [[("id", VInt 1); ("version", VInt 1); ("number_of_active_nodes", VInt 2)]] 1]>
        (<["projects" := Table [project_row] 1]> (<[JobsTableName := Table (job_row <$> my_jobs) 8]> (db_tabs db_empty))))) 8.
Definition worker_world : World := mkWorld worker_db time10 RaftNotLeader true [] [].

Lemma worker_working : working 2 worker_world my_jobs.
Proof.
  split.
  - reflexivity.
  - vm_compute. split; [reflexivity|discriminate].
  - vm_compute. split; [reflexivity|discriminate].
  - split; [reflexivity|]. repeat (constructor; [split; [reflexivity|];
      split; (split; [vm_compute; discriminate|]); [vm_compute; reflexivity|vm_compute; discriminate]|]). constructor.
  - apply (bool_decide_unpack _). vm_compute. exact I.
Qed.

Lemma two_logs_stored : queue_abs worker_db two_logs.
Proof.
  split; [reflexivity|]. split; [|vm_compute; discriminate].
  repeat (constructor; [vm_compute; repeat split; discriminate|]). constructor.
Qed.

