(* ===== verification/AsyncService.v ===== *)
(** * The async task service: pkg/service/async_task/async_task.go

    Long requests run in the background as tasks.  The service keeps the
    tasks that are not over in memory, stores them through the repository,
    and tells the subscribers of a task when it changes.  A goroutine that
    waits to send on [notificationsCh] is an element of the list of that
    name; [deliver] is one turn of the goroutine of
    [ListenForNotifications]. *)

From stdpp Require Import base list gmap strings pretty.
From Stdlib Require Import ZArith Lia.
From S2P Require Import Prelude Models.

#[local] Open Scope Z_scope.

(** ** What the service calls *)

(** The repository, and raft's [VerifyLeader]. *)
Class AsyncTasksRepo (W : Type) := {
  as_BatchInsert : list AsyncTask -> bool -> Go W (result GenericError (list Z));
  as_RaftBatchInsert : list AsyncTask -> Z -> Go W (result GenericError (list Z));
  as_UpdateTaskState : AsyncTask -> AsyncTaskState -> string -> Go W (option GenericError);
  as_RaftUpdateTaskState : AsyncTask -> AsyncTaskState -> string -> Go W (option GenericError);
  as_GetTask : Z -> Go W (result GenericError AsyncTask);
  as_GetAllTasks : bool -> Go W (result GenericError (list AsyncTask));
  as_VerifyLeader : Go W (option string) }.

(** ** State *)

(** A [chan models.AsyncTask] of capacity 1, by its number: [channels] holds
    what was sent on each and not received. *)
Notation chan := nat (only parsing).

Record asyncTaskService := mkAsyncTaskService {
  task : gmap Z AsyncTask;
  taskIdRequestIdMap : gmap string Z;
  subscribers : gmap Z (gmap Z chan);
  subscriberIds : gmap Z Z;
  notificationsCh : list AsyncTask;
  listening : bool;
  channels : list (list AsyncTask);
  singleNodeMode : bool }.

Definition NewAsyncTaskManager : asyncTaskService := mkAsyncTaskService ∅ ∅ ∅ ∅ [] false [] false.

Definition with_task (m : gmap Z AsyncTask) (s : asyncTaskService) : asyncTaskService :=
  mkAsyncTaskService m (taskIdRequestIdMap s) (subscribers s) (subscriberIds s) (notificationsCh s)
    (listening s) (channels s) (singleNodeMode s).
Definition with_requests (m : gmap string Z) (s : asyncTaskService) : asyncTaskService :=
  mkAsyncTaskService (task s) m (subscribers s) (subscriberIds s) (notificationsCh s)
    (listening s) (channels s) (singleNodeMode s).
Definition with_subscribers (m : gmap Z (gmap Z chan)) (s : asyncTaskService) : asyncTaskService :=
  mkAsyncTaskService (task s) (taskIdRequestIdMap s) m (subscriberIds s) (notificationsCh s)
    (listening s) (channels s) (singleNodeMode s).
Definition with_subscriberIds (m : gmap Z Z) (s : asyncTaskService) : asyncTaskService :=
  mkAsyncTaskService (task s) (taskIdRequestIdMap s) (subscribers s) m (notificationsCh s)
    (listening s) (channels s) (singleNodeMode s).
Definition with_notifications (l : list AsyncTask) (s : asyncTaskService) : asyncTaskService :=
  mkAsyncTaskService (task s) (taskIdRequestIdMap s) (subscribers s) (subscriberIds s) l
    (listening s) (channels s) (singleNodeMode s).
Definition with_listening (b : bool) (s : asyncTaskService) : asyncTaskService :=
  mkAsyncTaskService (task s) (taskIdRequestIdMap s) (subscribers s) (subscriberIds s)
    (notificationsCh s) b (channels s) (singleNodeMode s).
Definition with_channels (l : list (list AsyncTask)) (s : asyncTaskService) : asyncTaskService :=
  mkAsyncTaskService (task s) (taskIdRequestIdMap s) (subscribers s) (subscriberIds s)
    (notificationsCh s) (listening s) l (singleNodeMode s).

Definition SetSingleNodeMode (b : bool) (s : asyncTaskService) : asyncTaskService :=
  mkAsyncTaskService (task s) (taskIdRequestIdMap s) (subscribers s) (subscriberIds s)
    (notificationsCh s) (listening s) (channels s) b.
Definition GetSingleNodeMode (s : asyncTaskService) : bool := singleNodeMode s.
Definition ListenForNotifications (s : asyncTaskService) : asyncTaskService := with_listening true s.

(** [myT.State = state], [myT.Output = output] *)
Definition set_State (st : AsyncTaskState) (t : AsyncTask) : AsyncTask :=
  mkAsyncTask (at_Id t) (at_RequestId t) (at_Input t) (at_Output t) (at_Service t)
    (AsyncTaskState_num st) (at_DateCreated t).
Definition set_Output (o : string) (t : AsyncTask) : AsyncTask :=
  mkAsyncTask (at_Id t) (at_RequestId t) (at_Input t) o (at_Service t) (at_State t)
    (at_DateCreated t).
Definition set_TaskId (id : Z) (t : AsyncTask) : AsyncTask :=
  mkAsyncTask id (at_RequestId t) (at_Input t) (at_Output t) (at_Service t) (at_State t)
    (at_DateCreated t).

Section Service.
Context {W : Type} `{AsyncTasksRepo W}.
(** [configs.NodeId] *)
Context (NodeId : Z).

Notation As A := (Go (W * asyncTaskService) A).

Definition on_service (f : asyncTaskService -> asyncTaskService) : As unit :=
  modify (fun '(w, s) => (w, f s)).

(** Whether a write goes through raft: on a single node and on a leader. *)
Definition through_raft : As bool :=
  s ← gets snd;
  if singleNodeMode s then mret true
  else e ← on_fst as_VerifyLeader; mret (match e with Some _ => false | None => true end).

Definition new_task (input requestId service : string) : AsyncTask :=
  mkAsyncTask 0 requestId input "" service 0 time_zero.

(** [sids[0]] of an empty slice is out of range. *)
Definition AddTasks (input requestId service : string) : As (result GenericError (list Z)) :=
  let t := new_task input requestId service in
  raft ← through_raft;
  r ← on_fst (if (raft : bool) then as_RaftBatchInsert [t] NodeId else as_BatchInsert [t] false);
  match r with
  | Err e => mret (Err e)
  | Ok [] => crash
  | Ok (id :: ids) =>
      on_service (fun s => with_requests (<[requestId := id]> (taskIdRequestIdMap s))
                             (with_task (<[id := set_TaskId id t]> (task s)) s));;
      mret (Ok (id :: ids))
  end.

(** What both updates do once the task is found: keep it, store it, and
    start the goroutine that notifies. *)
Definition update_task (key : Z) (myT : AsyncTask) (state : AsyncTaskState) (output message : string)
    : As (option GenericError) :=
  on_service (fun s => with_task (<[key := myT]> (task s)) s);;
  raft ← through_raft;
  e ← on_fst (if (raft : bool) then as_RaftUpdateTaskState myT state output
              else as_UpdateTaskState myT state output);
  match e with
  | Some _ => mret (Some (HTTPGenericError StatusNotFound message))
  | None =>
      on_service (fun s => with_notifications (notificationsCh s ++ [myT]) s);;
      mret None
  end.

Definition UpdateTasksById (taskId : Z) (state : AsyncTaskState) (output : string)
    : As (option GenericError) :=
  s ← gets snd;
  match task s !! taskId with
  | None =>
      mret (Some (HTTPGenericError StatusNotFound ("could not find task with id " +:+ pretty taskId)))
  | Some t =>
      update_task taskId (set_State state t) state output
        ("could not update task with id " +:+ pretty taskId)
  end.

Definition UpdateTasksByRequestId (requestId : string) (state : AsyncTaskState) (output : string)
    : As (option GenericError) :=
  s ← gets snd;
  match taskIdRequestIdMap s !! requestId with
  | None =>
      mret (Some (HTTPGenericError StatusNotFound
                    ("could not find task id for request id " +:+ requestId)))
  | Some tId =>
      match task s !! tId with
      | None =>
          mret (Some (HTTPGenericError StatusNotFound
                        ("could not find task with request id task id " +:+ requestId)))
      | Some t =>
          let myT := set_Output output (set_State state t) in
          update_task (at_Id myT) myT state output
            ("could not update task with id " +:+ requestId)
      end
  end.

(** The subscriber is the closure that sends on channel [c]. *)
Definition AddSubscriber (taskId : Z) (c : chan) : As (Z * option GenericError) :=
  s ← gets snd;
  match task s !! taskId with
  | None =>
      mret (0, Some (HTTPGenericError StatusNotFound
                       ("could not find task with id " +:+ pretty taskId)))
  | Some myt =>
      let subId := u64 (default 0 (subscriberIds s !! taskId) + 1) in
      let subs := default ∅ (subscribers s !! at_Id myt) in
      on_service (fun s => with_subscriberIds (<[taskId := subId]> (subscriberIds s))
                             (with_subscribers (<[taskId := <[subId := c]> subs]> (subscribers s)) s));;
      mret (subId, None)
  end.

(** [make(chan models.AsyncTask, 1)] *)
Definition make_chan : As chan :=
  s ← gets snd;
  on_service (with_channels (channels s ++ [[]]));;
  mret (length (channels s)).

(** A send on a full channel waits for a receiver; the caller is stuck. *)
Definition send (c : chan) (t : AsyncTask) : As unit :=
  s ← gets snd;
  match channels s !! c with
  | Some [] => on_service (with_channels (<[c := [t]]> (channels s)))
  | _ => crash
  end.

(** The first result is nil or the channel to wait on. *)
Definition GetTaskBlocking (taskId : Z) : As (option chan * Z * option GenericError) :=
  r ← on_fst (as_GetTask taskId);
  match r with
  | Err e => mret (None, 0, Some e)
  | Ok t =>
      taskCh ← make_chan;
      if at_State t =? AsyncTaskState_num AsyncTaskSuccess then
        send taskCh t;; mret (Some taskCh, 0, None)
      else if negb (at_State t =? AsyncTaskState_num AsyncTaskInProgress) &&
              negb (at_State t =? AsyncTaskState_num AsyncTaskNotStated)
      then mret (None, 0, None)
      else
        a ← AddSubscriber taskId taskCh;
        match snd a with
        | Some addErr => mret (None, 0, Some addErr)
        | None => mret (Some taskCh, fst a, None)
        end
  end.

Definition GetTaskWithRequestIdNonBlocking (requestId : string)
    : As (result GenericError AsyncTask) :=
  s ← gets snd;
  match taskIdRequestIdMap s !! requestId with
  | None => mret (Err (HTTPGenericError StatusNotFound "task doesn't exist"))
  | Some taskId => on_fst (as_GetTask taskId)
  end.

Definition GetTaskWithRequestIdBlocking (requestId : string)
    : As (option chan * Z * option GenericError) :=
  s ← gets snd;
  match taskIdRequestIdMap s !! requestId with
  | None => mret (None, 0, None)
  | Some taskId => GetTaskBlocking taskId
  end.

Definition GetTaskIdWithRequestId (requestId : string) : As Z :=
  s ← gets snd;
  mret (default 0 (taskIdRequestIdMap s !! requestId)).

Definition DeleteSubscriber (taskId subscriberId : Z) : As (option GenericError) :=
  s ← gets snd;
  match task s !! taskId with
  | None =>
      mret (Some (HTTPGenericError StatusNotFound ("could not find task with id " +:+ pretty taskId)))
  | Some myt =>
      match subscribers s !! at_Id myt with
      | None =>
          mret (Some (HTTPGenericError StatusNotFound
                        ("could not find subscribers for task with id " +:+ pretty taskId)))
      | Some subs =>
          on_service (fun s =>
            with_subscribers (<[taskId := delete subscriberId subs]> (subscribers s)) s);;
          mret None
      end
  end.

Definition GetUnCommittedTasks : As (result GenericError (list AsyncTask)) :=
  on_fst (as_GetAllTasks false).

(** The listener receives the notification of the [i]-th waiting sender and
    visits the subscribers in the order [order] gives. *)
Definition deliver (order : gmap Z chan -> list (Z * chan)) (i : nat) : As unit :=
  s ← gets snd;
  match listening s, notificationsCh s !! i with
  | true, Some n =>
      on_service (with_notifications (delete i (notificationsCh s)));;
      match task s !! at_Id n with
      | None => on_service (with_listening false)
      | Some myt =>
          go_for (fun _ e => send (snd e) n) (order (default ∅ (subscribers s !! at_Id myt))) tt;;
          (if (at_State n =? AsyncTaskState_num AsyncTaskFail) ||
              (at_State n =? AsyncTaskState_num AsyncTaskSuccess)
           then on_service (fun s => with_task (delete (at_Id myt) (task s)) s)
           else mret tt);;
          on_service (fun s => with_subscribers (delete (at_Id myt) (subscribers s)) s)
      end
  | _, _ => mret tt
  end.

(** The reader of a channel takes what is there. *)
Definition receive (c : chan) : As (option AsyncTask) :=
  s ← gets snd;
  match channels s !! c with
  | Some (t :: l) => on_service (with_channels (<[c := l]> (channels s)));; mret (Some t)
  | _ => mret None
  end.

End Service.
