(* ===== verification/AsyncFacts.v ===== *)
(** * Waiting for async tasks

    Whatever the callers do and in whatever order the senders and the
    subscribers are served, the listener of the async task service never
    blocks on a channel, and a channel hears of a task at most once. *)

From stdpp Require Import base list gmap strings pretty.
From Stdlib Require Import ZArith Lia.
From S2P Require Import Prelude Models AsyncService.

#[local] Open Scope Z_scope.

(** Subscriber [k] of task [id] waits on channel [c]. *)
Definition waits (s : asyncTaskService) (id k : Z) (c : chan) : Prop :=
  subscribers s !! id ≫= (fun subs => subs !! k) = Some c.

Definition idle (s : asyncTaskService) (c : chan) : Prop := forall id k, ~ waits s id k c.

(** Tasks sit under their own id; a channel somebody waits on is empty and
    nobody else waits on it. *)
Record service_ok (s : asyncTaskService) : Prop := {
  so_task id t : task s !! id = Some t -> at_Id t = id;
  so_empty id k c : waits s id k c -> channels s !! c = Some [];
  so_one id k id' k' c : waits s id k c -> waits s id' k' c -> id = id' /\ k = k' }.

(** What may happen to the channels made so far: nobody starts waiting on
    one, and one nobody waits on is at most read from. *)
Definition only_read (s s' : asyncTaskService) (c : chan) : Prop :=
  exists got l, channels s !! c = Some (got ++ l) /\ channels s' !! c = Some l.

Record chans_kept (s s' : asyncTaskService) : Prop := {
  ck_length : (length (channels s) <= length (channels s'))%nat;
  ck_idle c : (c < length (channels s))%nat -> idle s c ->
    idle s' c /\ only_read s s' c }.

Lemma only_read_same s s' c :
  (c < length (channels s))%nat -> channels s' !! c = channels s !! c -> only_read s s' c.
Proof. intros [l Hl]%lookup_lt_is_Some_2 He. exists [], l. split; [done|by rewrite He]. Qed.

Lemma waits_inv s id k c :
  waits s id k c -> exists subs, subscribers s !! id = Some subs /\ subs !! k = Some c.
Proof. unfold waits. destruct (subscribers s !! id); naive_solver. Qed.

Lemma waits_lt s id k c : service_ok s -> waits s id k c -> (c < length (channels s))%nat.
Proof. intros Hs Hw. eapply lookup_lt_Some, so_empty; eauto. Qed.

#[global] Instance chans_kept_preorder : PreOrder chans_kept.
Proof.
  split.
  - intros s. split; auto using only_read_same.
  - intros s1 s2 s3 [Hl Hi] [Hl' Hi']. split; [lia|]. intros c Hc Hid.
    destruct (Hi c Hc Hid) as [Hid2 Hb]. destruct (Hi' c ltac:(lia) Hid2) as [Hid3 Hb'].
    split; [done|]. destruct Hb as (g & l & E1 & E2), Hb' as (g' & l' & E3 & E4).
    exists (g ++ g'), l'. rewrite <- app_assoc. naive_solver.
Qed.

(** One step of the service, and many. *)
Definition good (s s' : asyncTaskService) : Prop :=
  service_ok s -> service_ok s' /\ chans_kept s s'.

#[global] Instance good_preorder : PreOrder good.
Proof.
  split.
  - intros s Hs. by split.
  - intros s1 s2 s3 H12 H23 H1. destruct (H12 H1) as [H2 K2]. destruct (H23 H2) as [H3 K3].
    split; [done|]. by transitivity s2.
Qed.

(** Changes that do not touch the subscribers and the channels. *)
Lemma good_plain s s' :
  subscribers s' = subscribers s -> channels s' = channels s ->
  (service_ok s -> forall id t, task s' !! id = Some t -> at_Id t = id) -> good s s'.
Proof.
  intros Hsub Hch Ht Hs. assert (Hw : forall id k c, waits s' id k c <-> waits s id k c)
    by (intros; unfold waits; by rewrite Hsub).
  split; split.
  - by apply Ht.
  - intros ???. rewrite Hw, Hch. apply Hs.
  - intros ?????. rewrite !Hw. apply Hs.
  - by rewrite Hch.
  - intros c Hc Hi. split; [|apply only_read_same; [done|by rewrite Hch]]. intros id k. rewrite Hw. apply Hi.
Qed.

Lemma good_task id t s : at_Id t = id -> good s (with_task (<[id := t]> (task s)) s).
Proof.
  intros Hid. apply good_plain; [done|done|]. intros Hs id' t'. cbn [task with_task].
  rewrite lookup_insert_Some. intros [[<- <-]|[_ Ht']]; [done|]. by apply Hs.
Qed.

Section Steps.
Context {W : Type} `{AsyncTasksRepo W} (NodeId : Z).

(** A computation whose every run is [good]. *)
Definition safe {A} (m : Go (W * asyncTaskService) A) : Prop :=
  forall w s a w' s', m (w, s) = Some (a, (w', s')) -> good s s'.

Lemma safe_bind {A B} (m : Go (W * asyncTaskService) A) (f : A -> Go (W * asyncTaskService) B) :
  safe m -> (forall a, safe (f a)) -> safe (m ≫= f).
Proof.
  intros Hm Hf w s b w'' s'' (a & [w' s'] & H1 & H2)%go_bind_inv. etransitivity; [by eapply Hm|by eapply Hf].
Qed.

Lemma safe_mret {A} (a : A) : safe (mret a).
Proof. intros w s b w' s' [= <- <- <-]. reflexivity. Qed.

Lemma safe_crash {A} : safe (crash : Go (W * asyncTaskService) A).
Proof. by intros w s a w' s'. Qed.

Lemma safe_on_fst {A} (m : Go W A) : safe (on_fst m).
Proof.
  intros w s a w' s'. unfold on_fst. cbn [fst snd]. destruct (m w) as [[]|]; [|done].
  intros [= <- <- <-]. reflexivity.
Qed.

Lemma safe_on_service f : (forall s, good s (f s)) -> safe (on_service f).
Proof. intros Hf w s a w' s' [= <- <- <-]. apply Hf. Qed.

Lemma safe_gets {A B} (g : W * asyncTaskService -> A) (f : A -> Go (W * asyncTaskService) B) :
  (forall w s a w' s', f (g (w, s)) (w, s) = Some (a, (w', s')) -> good s s') -> safe (gets g ≫= f).
Proof. intros Hf w s a w' s'. rewrite go_bind_gets. apply Hf. Qed.

Lemma safe_through_raft : safe through_raft.
Proof.
  apply safe_gets. intros w s a w' s'. cbn [snd]. destruct (singleNodeMode s); [apply safe_mret|].
  apply safe_bind; [apply safe_on_fst|intros; apply safe_mret].
Qed.

Hint Resolve safe_mret safe_crash safe_on_fst safe_through_raft : safe.

Lemma AddTasks_safe input requestId service : safe (AddTasks NodeId input requestId service).
Proof.
  apply safe_bind; [by auto with safe|]. intros raft. apply safe_bind; [by auto with safe|].
  intros [[|id ids]|e]; [by auto with safe| |by auto with safe].
  apply safe_bind; [|by auto with safe]. apply safe_on_service. intros s.
  etransitivity; [by apply (good_task id (set_TaskId id (new_task input requestId service)))|].
  apply good_plain; [done|done|]. intros Hs. apply Hs.
Qed.

Lemma update_task_safe key myT state output msg :
  at_Id myT = key -> safe (update_task key myT state output msg).
Proof.
  intros Hk. apply safe_bind; [apply safe_on_service; intros; by apply good_task|]. intros _.
  apply safe_bind; [by auto with safe|]. intros raft. apply safe_bind; [by auto with safe|].
  intros [e|]; [by auto with safe|]. apply safe_bind; [|by auto with safe].
  apply safe_on_service. intros s. apply good_plain; [done|done|]. intros Hs. apply Hs.
Qed.

(** A run that starts from a state that is not [service_ok] promises nothing. *)
Lemma good_intro s s' : (service_ok s -> good s s') -> good s s'.
Proof. unfold good. tauto. Qed.

Lemma UpdateTasksById_safe taskId state output : safe (UpdateTasksById taskId state output).
Proof.
  apply safe_gets. intros w s a w' s' Hr. apply good_intro. intros Hs. revert Hr. cbn [snd].
  destruct (task s !! taskId) as [t|] eqn:E; [|apply safe_mret].
  apply update_task_safe. cbn. by apply Hs.
Qed.

Lemma UpdateTasksByRequestId_safe requestId state output :
  safe (UpdateTasksByRequestId requestId state output).
Proof.
  apply safe_gets. intros w s a w' s'. cbn [snd].
  destruct (taskIdRequestIdMap s !! requestId) as [id|]; [|apply safe_mret].
  destruct (task s !! id) as [t|]; [|apply safe_mret]. by apply update_task_safe.
Qed.

(** ** Waiting *)

(** A fresh channel, nobody waits on. *)
Definition fresh_chan (s : asyncTaskService) : asyncTaskService := with_channels (channels s ++ [[]]) s.

Lemma good_fresh s : good s (fresh_chan s).
Proof.
  intros Hs. split; split; cbn [task channels subscribers fresh_chan with_channels].
  - apply Hs.
  - intros id k c Hw. change (waits s id k c) in Hw. rewrite lookup_app_l by (by eapply waits_lt). by eapply Hs.
  - intros id k id' k' c. apply Hs.
  - rewrite length_app. lia.
  - intros c Hc Hi. split; [done|]. apply only_read_same; [done|]. by apply lookup_app_l.
Qed.

Lemma idle_fresh s : service_ok s -> idle (fresh_chan s) (length (channels s)).
Proof. intros Hs id k Hw. change (waits s id k (length (channels s))) in Hw. apply waits_lt in Hw; [lia|done]. Qed.

Lemma lookup_fresh s : channels (fresh_chan s) !! length (channels s) = Some [].
Proof. cbn. by rewrite lookup_app_r, Nat.sub_diag by lia. Qed.

(** Steps from a state with a fresh channel, which may be used. *)
Lemma good_after_fresh s s' :
  (service_ok (fresh_chan s) -> idle (fresh_chan s) (length (channels s)) ->
   service_ok s' /\ (length (channels (fresh_chan s)) <= length (channels s'))%nat /\
   forall c, (c < length (channels s))%nat -> idle s c ->
     idle s' c /\ channels s' !! c = channels (fresh_chan s) !! c) ->
  good s s'.
Proof.
  intros H' Hs. destruct (good_fresh s Hs) as [Hf Hk].
  destruct (H' Hf (idle_fresh s Hs)) as (Hs' & Hl & Hc). split; [done|]. split.
  - destruct Hk as [Hk _]. lia.
  - intros c Hlt Hi. destruct (Hc c Hlt Hi) as [Hi' He]. split; [done|].
    apply only_read_same; [done|]. rewrite He. by apply lookup_app_l.
Qed.

(** The state after a subscription. *)
Definition subscribe (taskId subId : Z) (c : chan) (s : asyncTaskService) : asyncTaskService :=
  with_subscriberIds (<[taskId := subId]> (subscriberIds s))
    (with_subscribers (<[taskId := <[subId := c]> (default ∅ (subscribers s !! taskId))]>
                         (subscribers s)) s).

Lemma waits_subscribe taskId subId c s id k c' :
  waits (subscribe taskId subId c s) id k c' ->
  (id = taskId /\ k = subId /\ c' = c) \/ waits s id k c'.
Proof.
  unfold waits, subscribe. cbn. destruct (decide (id = taskId)) as [->|Hne].
  - rewrite lookup_insert_eq. cbn. rewrite lookup_insert_Some. intros [[<- <-]|[_ Hk]]; [by left|].
    right. by destruct (subscribers s !! taskId).
  - rewrite lookup_insert_ne by done. by right.
Qed.

Lemma subscribe_ok taskId subId c s :
  service_ok s -> idle s c -> channels s !! c = Some [] -> service_ok (subscribe taskId subId c s).
Proof.
  intros Hs Hi Hc. split.
  - apply Hs.
  - intros id k c' [(-> & -> & ->)|Hw]%waits_subscribe; [done|]. by eapply Hs.
  - intros id k id' k' c' [(-> & -> & ->)|Hw]%waits_subscribe [(-> & -> & ?)|Hw']%waits_subscribe.
    + done.
    + by destruct (Hi id' k').
    + subst. by destruct (Hi id k).
    + by eapply Hs.
Qed.

Lemma AddSubscriber_run taskId c (w : W) s t :
  service_ok s -> task s !! taskId = Some t ->
  AddSubscriber taskId c (w, s) =
  Some ((u64 (default 0 (subscriberIds s !! taskId) + 1), None),
        (w, subscribe taskId (u64 (default 0 (subscriberIds s !! taskId) + 1)) c s)).
Proof.
  intros Hs Ht. unfold AddSubscriber. rewrite go_bind_gets. cbn [snd]. rewrite Ht.
  by rewrite (so_task s Hs taskId t Ht).
Qed.

Lemma GetTaskBlocking_safe taskId : safe (GetTaskBlocking taskId).
Proof.
  apply safe_bind; [by auto with safe|]. intros [t|e]; [|by auto with safe].
  intros w s a w' s'. unfold make_chan. rewrite go_bind_assoc, go_bind_gets, go_bind_assoc.
  cbn [snd]. unfold on_service at 1. rewrite go_bind_modify, go_bind_mret.
  change (with_channels _ s) with (fresh_chan s). intros Hr. apply good_after_fresh.
  intros Hf Hi. revert Hr. destruct (at_State t =? _).
  - unfold send. rewrite go_bind_assoc, go_bind_gets. cbn [snd]. rewrite lookup_fresh. intros [= _ _ <-].
    split_and!; [split| |].
    + apply Hf.
    + intros id k c Hw. cbn [channels with_channels].
      rewrite list_lookup_insert_ne; [by eapply Hf|]. intros <-. by destruct (Hi id k).
    + intros id k id' k' c. apply Hf.
    + cbn [channels with_channels]. by rewrite length_insert.
    + intros c Hc Hic. split; [done|]. cbn [channels with_channels]. by rewrite list_lookup_insert_ne by lia.
  - destruct (negb _ && negb _); [intros [= _ _ <-]; by split_and!|].
    intros ([subId e] & [w1 s1] & Ha & Hb)%go_bind_inv.
    assert (s1 = s') as -> by (by destruct e; injection Hb). clear Hb. revert Ha.
    destruct (task s !! taskId) as [t'|] eqn:Et.
    + rewrite (AddSubscriber_run taskId _ w _ t' Hf Et). intros [= _ _ _ <-]. split_and!.
      * apply subscribe_ok; [done|done|apply lookup_fresh].
      * done.
      * intros c Hc Hic. split; [|done]. intros id k [(-> & -> & ->)|Hw]%waits_subscribe; [lia|].
        by destruct (Hic id k).
    + unfold AddSubscriber. rewrite go_bind_gets. cbn [snd fresh_chan task with_channels]. rewrite Et.
      intros [= _ _ _ <-]. by split_and!.
Qed.

Lemma DeleteSubscriber_safe taskId subId : safe (DeleteSubscriber taskId subId).
Proof.
  apply safe_gets. intros w s a w' s' Hr. apply good_intro. intros Hs. revert Hr. cbn [snd].
  destruct (task s !! taskId) as [t|] eqn:Et; [|by apply safe_mret].
  rewrite (so_task s Hs taskId t Et).
  destruct (subscribers s !! taskId) as [subs|] eqn:Eb; [|by apply safe_mret]. intros [= _ _ <-] _.
  assert (Hw : forall id k c, waits (with_subscribers (<[taskId := delete subId subs]> (subscribers s)) s) id k c ->
                waits s id k c).
  { intros id k c. unfold waits. cbn. destruct (decide (id = taskId)) as [->|Hne].
    - rewrite lookup_insert_eq, Eb. cbn. rewrite lookup_delete_Some. tauto.
    - by rewrite lookup_insert_ne by done. }
  split; split.
  - apply Hs.
  - intros id k c Hk%Hw. by eapply Hs.
  - intros id k id' k' c Hk%Hw Hk'%Hw. by eapply Hs.
  - done.
  - intros c Hc Hi. split; [|by apply only_read_same]. intros id k Hk%Hw. by apply (Hi id k).
Qed.

Lemma receive_safe c : safe (receive c).
Proof.
  apply safe_gets. intros w s a w' s'. cbn [snd].
  destruct (channels s !! c) as [[|t l]|] eqn:E; [by apply safe_mret| |by apply safe_mret].
  intros [= _ _ <-] Hs.
  split; split.
  - apply Hs.
  - intros id k c' Hw. cbn [channels with_channels]. rewrite list_lookup_insert_ne; [by eapply Hs|].
    intros <-. rewrite (so_empty s Hs id k c Hw) in E. done.
  - intros id k id' k' c'. apply Hs.
  - cbn. by rewrite length_insert.
  - intros c' Hc Hi. split; [done|]. cbn [channels with_channels]. destruct (decide (c = c')) as [<-|].
    + exists [t], l. split; [done|]. cbn. by apply list_lookup_insert_eq.
    + apply only_read_same; [done|]. by apply list_lookup_insert_ne.
Qed.

(** ** The listener *)

Lemma send_all n es (w : W) s :
  NoDup (snd <$> es) -> (forall e, e ∈ es -> channels s !! snd e = Some []) ->
  exists cs, go_for (fun _ (e : Z * chan) => send (snd e) n) es tt (w, s) =
      Some (tt, (w, with_channels cs s)) /\
    length cs = length (channels s) /\
    (forall e, e ∈ es -> cs !! snd e = Some [n]) /\
    (forall c, c ∉ snd <$> es -> cs !! c = channels s !! c).
Proof.
  revert s. induction es as [|e es IH]; intros s Hnd He.
  { exists (channels s). split_and!; [by destruct s|done| |done]. intros e Hin. by apply elem_of_nil in Hin. }
  rewrite fmap_cons in Hnd. apply NoDup_cons in Hnd as [Hn Hnd].
  assert (Hc : channels s !! snd e = Some []) by (apply He; by left).
  pose proof (lookup_lt_Some _ _ _ Hc) as Hlt.
  destruct (IH (with_channels (<[snd e := [n]]> (channels s)) s) Hnd) as (cs & Hr & Hl & Hin & Hout).
  { intros e' Hi. cbn [channels with_channels]. rewrite list_lookup_insert_ne; [apply He; by right|].
    intros Heq. apply Hn. rewrite Heq. by apply list_elem_of_fmap_2. }
  exists cs. cbn [channels with_channels] in *. split_and!.
  - cbn [go_for]. erewrite go_bind_Some; [exact Hr|]. unfold send. rewrite go_bind_gets. cbn [snd].
    by rewrite Hc.
  - rewrite Hl. apply length_insert.
  - intros e' [->|Hi]%elem_of_cons; [|by apply Hin]. rewrite Hout by done. by apply list_lookup_insert_eq.
  - intros c Hni. rewrite fmap_cons, not_elem_of_cons in Hni. destruct Hni as [Hne Hni].
    rewrite Hout by done. by apply list_lookup_insert_ne.
Qed.

(** Whether a task in this state is over. *)
Definition over (n : AsyncTask) : bool :=
  (at_State n =? AsyncTaskState_num AsyncTaskFail) || (at_State n =? AsyncTaskState_num AsyncTaskSuccess).

(** The state after the [i]-th notification, [n], was delivered. *)
Definition served (n : AsyncTask) (i : nat) (cs : list (list AsyncTask)) (s : asyncTaskService)
    : asyncTaskService :=
  mkAsyncTaskService (if over n then delete (at_Id n) (task s) else task s) (taskIdRequestIdMap s)
    (delete (at_Id n) (subscribers s)) (subscriberIds s) (delete i (notificationsCh s)) true cs
    (singleNodeMode s).

Lemma deliver_run order i n t (w : W) s :
  service_ok s -> (forall m, order m ≡ₚ map_to_list m) ->
  listening s = true -> notificationsCh s !! i = Some n -> task s !! at_Id n = Some t ->
  exists cs, deliver order i (w, s) = Some (tt, (w, served n i cs s)) /\
    length cs = length (channels s) /\
    (forall k c, waits s (at_Id n) k c -> cs !! c = Some [n]) /\
    (forall c, (forall k, ~ waits s (at_Id n) k c) -> cs !! c = channels s !! c).
Proof.
  intros Hs Ho Hl Hn Ht. unfold deliver. rewrite go_bind_gets. cbn [snd]. rewrite Hl, Hn, Ht.
  rewrite (so_task s Hs _ _ Ht). set (subs := default ∅ (subscribers s !! at_Id n)).
  assert (Hw : forall k c, (k, c) ∈ order subs <-> waits s (at_Id n) k c).
  { intros k c. rewrite Ho, elem_of_map_to_list. unfold subs, waits.
    destruct (subscribers s !! at_Id n); cbn; [done|]. rewrite lookup_empty. done. }
  destruct (send_all n (order subs) w (with_notifications (delete i (notificationsCh s)) s))
    as (cs & Hr & Hlen & Hin & Hout).
  { apply NoDup_fmap_2_strong; [|rewrite Ho; apply NoDup_map_to_list].
    intros [k c] [k' c'] Hk%Hw Hk'%Hw Hcc. cbn in Hcc. subst c'. by destruct (so_one s Hs _ _ _ _ _ Hk Hk') as [_ <-]. }
  { intros [k c] Hk%Hw. by eapply Hs. }
  exists cs. split_and!; [|done| |].
  - erewrite go_bind_Some by reflexivity. erewrite go_bind_Some by exact Hr.
    fold (over n). unfold served. destruct (over n); destruct s; cbn in *; by subst.
  - intros k c Hk%Hw. by apply (Hin (k, c)).
  - intros c Hc. apply Hout. intros ([k c'] & -> & Hk%Hw)%list_elem_of_fmap. by apply (Hc k).
Qed.

Lemma waits_served n i cs s id k c :
  waits (served n i cs s) id k c <-> id <> at_Id n /\ waits s id k c.
Proof.
  unfold waits. cbn. destruct (decide (id = at_Id n)) as [->|Hne].
  - rewrite lookup_delete_eq. naive_solver.
  - rewrite lookup_delete_ne by done. naive_solver.
Qed.

Lemma deliver_safe order i : (forall m, order m ≡ₚ map_to_list m) -> safe (deliver order i).
Proof.
  intros Ho w s a w' s' Hr. apply good_intro. intros Hs. revert Hr.
  destruct (listening s) eqn:El, (notificationsCh s !! i) as [n|] eqn:En;
    try (unfold deliver; rewrite go_bind_gets; cbn [snd]; rewrite El, ?En; by apply safe_mret).
  destruct (task s !! at_Id n) as [t|] eqn:Et.
  - destruct (deliver_run order i n t w s Hs Ho El En Et) as (cs & -> & Hlen & Hin & Hout).
    intros [= <- <- <-] _. split; split.
    + intros id t'. cbn [task served]. destruct (over n); [rewrite lookup_delete_Some; intros [_ ?]|intros];
        by apply Hs.
    + intros id k c [Hne Hw]%waits_served. cbn [channels served].
      rewrite Hout; [by eapply Hs|]. intros k' Hw'. by destruct (so_one s Hs _ _ _ _ _ Hw Hw') as [].
    + intros id k id' k' c [_ Hw]%waits_served [_ Hw']%waits_served. by eapply Hs.
    + cbn [channels served]. by rewrite Hlen.
    + intros c Hc Hi. split; [intros id k [_ Hw]%waits_served; by apply (Hi id k)|].
      apply only_read_same; [done|]. apply Hout. intros k. apply Hi.
  - unfold deliver. rewrite go_bind_gets. cbn [snd]. rewrite El, En, Et. intros [= _ _ <-].
    apply good_plain; [done|done|]. intros _. apply Hs.
Qed.

(** ** The service among its callers *)

(** One call of the service, one turn of the listener, one read of a
    channel, or anything another part of the program does to the world. *)
Inductive service_step : W * asyncTaskService -> W * asyncTaskService -> Prop :=
| step_add input requestId service x a y :
    AddTasks NodeId input requestId service x = Some (a, y) -> service_step x y
| step_update taskId state output x a y :
    UpdateTasksById taskId state output x = Some (a, y) -> service_step x y
| step_update_request requestId state output x a y :
    UpdateTasksByRequestId requestId state output x = Some (a, y) -> service_step x y
| step_wait taskId x a y : GetTaskBlocking taskId x = Some (a, y) -> service_step x y
| step_unsubscribe taskId subId x a y :
    DeleteSubscriber taskId subId x = Some (a, y) -> service_step x y
| step_deliver order i x a y :
    (forall m, order m ≡ₚ map_to_list m) -> deliver order i x = Some (a, y) -> service_step x y
| step_receive c x a y : receive c x = Some (a, y) -> service_step x y
| step_listen w s : service_step (w, s) (w, ListenForNotifications s)
| step_mode b w s : service_step (w, s) (w, SetSingleNodeMode b s)
| step_world w w' s : service_step (w, s) (w', s).

Definition reachable (w : W) (s : asyncTaskService) : Prop :=
  exists w0, rtc service_step (w0, NewAsyncTaskManager) (w, s).

Lemma service_step_good x y : service_step x y -> good (snd x) (snd y).
Proof.
  intros Hstep. destruct Hstep; repeat match goal with x : W * asyncTaskService |- _ => destruct x end; cbn [snd];
    try (reflexivity || (eapply AddTasks_safe; eassumption) || (eapply UpdateTasksById_safe; eassumption)
         || (eapply UpdateTasksByRequestId_safe; eassumption) || (eapply GetTaskBlocking_safe; eassumption)
         || (eapply DeleteSubscriber_safe; eassumption) || (eapply deliver_safe; eassumption)
         || (eapply receive_safe; eassumption)).
  all: apply good_plain; [done|done|]; intros Hs; apply Hs.
Qed.

Lemma service_steps_good x y : rtc service_step x y -> good (snd x) (snd y).
Proof. induction 1 as [|x y z Hxy _ IH]; [reflexivity|]. etransitivity; [by apply service_step_good|done]. Qed.

Lemma reachable_ok w s : reachable w s -> service_ok s.
Proof.
  intros [w0 Hr%service_steps_good]. apply Hr. split; cbn; [done|done|].
  intros id k id' k' c Hw. discriminate Hw.
Qed.


(** A channel hears of its task at most once: from a state where nobody
    waits on it (it was served, or its subscription deleted), no later call
    or delivery sends on it again; what it holds can only be read. *)
Theorem notified_once w s w' s' c :
  reachable w s -> rtc service_step (w, s) (w', s') ->
  (c < length (channels s))%nat -> idle s c ->
  idle s' c /\ exists got left, channels s !! c = Some (got ++ left) /\ channels s' !! c = Some left.
Proof.
  intros Hs%reachable_ok Hst%service_steps_good Hc Hi. destruct (Hst Hs) as [_ Hk]. by apply Hk.
Qed.

End Steps.
