(* ===== verification/AsyncImpl.v ===== *)
(** * The async task service over the database

    The repository behind the service: a task that is added, updated and
    asked for by its request id comes back as it was last updated, on a
    leader through raft and on a follower through its own table. *)

From stdpp Require Import base list gmap strings pretty.
From Stdlib Require Import ZArith Lia.
From S2P Require Import Prelude Models Batcher Sql Fsm Replication Inserts Reads JobQueueRepo.
From S2P Require Import JobRepo AsyncRepo AsyncService AsyncFacts.

#[local] Open Scope Z_scope.

Section Instance.
Context {codec : CommandCodec} {uo : UnionOrder}.

(** raft's own [VerifyLeader]: an error away from the leader. *)
Definition raft_VerifyLeader : Go World (option string) :=
  gets (fun w => match w_raft w with
                 | RaftLeader => None
                 | RaftNotLeader => Some ErrNotLeader
                 | RaftFailed e => Some e
                 end).

#[global] Instance async_repos : AsyncTasksRepo World := {|
  as_BatchInsert := AsyncBatchInsert;
  as_RaftBatchInsert := RaftBatchInsert;
  as_UpdateTaskState := UpdateTaskState;
  as_RaftUpdateTaskState := RaftUpdateTaskState;
  as_GetTask := GetTask;
  as_GetAllTasks := GetAllTasks;
  as_VerifyLeader := raft_VerifyLeader |}.

End Instance.

(** ** The tables as lists of tasks *)

Definition async_row (t : AsyncTask) : row :=
  [("id", VInt (at_Id t)); ("request_id", VText (at_RequestId t)); ("input", VText (at_Input t));
   ("output", VText (at_Output t)); ("state", VInt (at_State t)); ("service", VText (at_Service t));
   ("date_created", VTime (t_ns (at_DateCreated t)))].

Definition async_wf (t : AsyncTask) : Prop :=
  0 <= at_Id t <= MaxInt64 /\ 0 <= at_State t /\ t_loc (at_DateCreated t) = "UTC".

Definition async_abs (db : Db) (committed : bool) (ts : list AsyncTask) : Prop :=
  db_rows db (async_table committed) = async_row <$> ts /\ Forall async_wf ts.

Lemma scan_async_row t :
  async_wf t -> scan_async_task (project_cols async_select (async_row t)) = Some t.
Proof.
  intros (? & ? & Hl). cbn. unfold scan_uint64. rewrite !(proj2 (Z.leb_le _ _)) by lia. cbn.
  destruct t as [? ? ? ? ? ? []]. cbn in *. by subst.
Qed.

Definition with_task_id (id : Z) (t : AsyncTask) : bool := at_Id t =? id.

Lemma async_key_is id t : key_is "id" [VInt id] (async_row t) = with_task_id id t.
Proof.
  unfold key_is. cbn [existsb]. rewrite orb_false_r. apply bool_decide_VInt.
Qed.

Definition async_td (committed : bool) : tabdef :=
  default (Tab "" [] None) (find_tabdef (async_table committed)).

Lemma async_find committed : find_tabdef (async_table committed) = Some (async_td committed).
Proof. by destruct committed. Qed.

(** A new task as stored. *)
Definition stored_task (now : Time) (id : Z) (t : AsyncTask) : AsyncTask :=
  mkAsyncTask id (at_RequestId t) (at_Input t) (at_Output t) (at_Service t) 0 (mkTime (t_ns now) "UTC").

Lemma async_tuple_row committed now id t :
  tuple_row (async_td committed) async_insert_cols id (async_params now t) =
  async_row (stored_task now id t).
Proof. by destruct committed. Qed.

Lemma async_storable db committed now t :
  storable db (async_td committed) async_insert_cols (async_params now t) = true.
Proof. by destruct committed. Qed.

Lemma async_abs_append db committed now t ts :
  async_abs db committed ts ->
  let seq := t_seq (db_table db (async_table committed)) in
  0 <= seq < MaxInt64 ->
  async_abs (db_append (async_table committed) (async_td committed) async_insert_cols
               [async_params now t] db) committed (ts ++ [stored_task now (seq + 1) t]).
Proof.
  intros [Hr Hwf] seq Hs. unfold async_abs, db_rows in *. rewrite db_append_table. cbn [t_rows tuple_rows].
  rewrite async_tuple_row, Hr, fmap_app. split; [done|]. apply Forall_app_2; [done|].
  constructor; [|done]. unfold async_wf, stored_task; cbn. split_and!; (done || lia).
Qed.

(** [UpdateTaskState] over a stored task *)
Definition updated_task (id : Z) (st : AsyncTaskState) (output : string) (t : AsyncTask) : AsyncTask :=
  if with_task_id id t then set_Output output (set_State st t) else t.

Lemma async_update db committed ts id st output :
  async_abs db committed ts ->
  exists db' res,
    sql_exec db (Update (async_table committed) ["state"; "output"] "id")
      [VInt (AsyncTaskState_num st); VText output; VInt id] = Ok (db', res) /\
    async_abs db' committed (updated_task id st output <$> ts) /\
    forall t', t' <> async_table committed -> db_table db' t' = db_table db t'.
Proof.
  intros [Hr Hwf].
  destruct (sql_exec_update (async_table committed) (async_td committed) ["state"; "output"] "id"
              async_row (with_task_id id) (fun t => set_Output output (set_State st t)) ts
              [VInt (AsyncTaskState_num st); VText output] (VInt id) db) as (db' & Hx & Hr' & Ho);
    [apply async_find|done|done|done|intros; apply async_key_is| |].
  { intros t _ _. split; [done|]. by destruct committed. }
  eexists db', _. split_and!; [exact Hx| |done]. split; [done|]. apply Forall_fmap.
  eapply Forall_impl; [exact Hwf|]. intros t (? & ? & ?). unfold compose, updated_task.
  destruct (with_task_id id t); [|done]. unfold async_wf, set_Output, set_State; cbn.
  split_and!; (done || lia || by destruct st).
Qed.

(** ** The repository's methods on a healthy node *)

Section Repo.
Context {codec : CommandCodec} {uo : UnionOrder}.

(** A world the node may write async tasks in: a leader whose raft log works,
    or a node with its own table. *)
Definition async_ready (raft : bool) (w : World) : Prop :=
  if raft then quiet w /\ codec_total /\ json_marshalable (VTime (t_ns (w_now w))) = true
  else healthy w.

Lemma async_ready_healthy raft w : async_ready raft w -> healthy w.
Proof. destruct raft; [intros [[] _]|]; done. Qed.

(** The rest of a world, when only table [t] changed. *)
Definition only_table (t : string) (w w' : World) : Prop :=
  (forall t', t' <> t -> db_table (w_db w') t' = db_table (w_db w) t') /\
  w_now w' = w_now w /\ w_raft w' = w_raft w /\ w_faults w' = w_faults w.

Lemma async_ready_only raft t w w' : async_ready raft w -> only_table t w w' -> async_ready raft w'.
Proof.
  unfold async_ready, quiet, healthy. intros Hr (_ & -> & -> & ->). exact Hr.
Qed.

(** The world after one task went into its table; [post] is the channel. *)
Definition task_added (raft : bool) (t : AsyncTask) (post : list PostProcess) (w : World) : World :=
  with_post post
    (with_db (db_append (async_table raft) (async_td raft) async_insert_cols
                [async_params (w_now w) t] (w_db w)) w).

Lemma task_added_only raft t post w : only_table (async_table raft) w (task_added raft t post w).
Proof. split_and!; try done. intros. cbn. by apply db_append_other. Qed.

Lemma raft_insert_task node t w :
  async_ready true w ->
  let seq := t_seq (db_table (w_db w) CommittedAsyncTableName) in
  0 <= seq < MaxInt64 ->
  exists post, RaftBatchInsert [t] node w = Some (Ok [seq + 1], task_added true t post w).
Proof.
  intros (Hq & Hc & Hj) seq Hs.
  pose proof (raft_insert CommittedAsyncTableName (async_td true) async_insert_cols
                [async_params (w_now w) t] [node] CommandActionQueueJob w Hq Hc) as HW.
  eexists. unfold RaftBatchInsert. rewrite go_bind_gets. change (Batch [t] 6) with [[t]].
  rewrite go_bind_eq. cbn [go_for_ret]. rewrite go_bind_eq.
  erewrite go_bind_Some; [|apply HW; [done|done|done|done|]].
  - cbn [LastInsertedId f_Data length]. fold seq. rewrite (u64_small (seq + Z.of_nat 1)) by go_lia.
    rewrite (u64_small (seq + Z.of_nat 1 - Z.of_nat 1 + 1)) by go_lia.
    rewrite ExpandIdsRange_eq by go_lia.
    replace (seq + Z.of_nat 1 - (seq + Z.of_nat 1 - Z.of_nat 1 + 1) + 1) with 1 by lia.
    replace (seq + Z.of_nat 1 - Z.of_nat 1 + 1) with (seq + 1) by lia. reflexivity.
  - cbn [forallb]. unfold acceptable. rewrite async_storable, !andb_true_r. unfold params_ok.
    cbn -[json_marshalable]. by rewrite Hj.
Qed.

Lemma local_insert_task t w :
  healthy w ->
  let seq := t_seq (db_table (w_db w) UnCommittedAsyncTableName) in
  0 <= seq < MaxInt64 ->
  AsyncBatchInsert [t] false w = Some (Ok [seq + 1], task_added false t (w_post w) w).
Proof.
  intros Hw seq Hs. unfold AsyncBatchInsert. rewrite go_bind_gets. change (Batch [t] 5) with [[t]].
  rewrite go_bind_eq. cbn [go_for_ret]. rewrite go_bind_eq.
  pose proof (conn_exec_healthy (Insert (async_table false) async_insert_cols (length [t]))
                (concat (async_params (w_now w) <$> [t])) w Hw eq_refl) as HE.
  assert (HX : sql_exec (w_db w) (Insert (async_table false) async_insert_cols (length [t]))
                 (concat (async_params (w_now w) <$> [t])) =
               Ok (db_append (async_table false) (async_td false) async_insert_cols
                     [async_params (w_now w) t] (w_db w), mkSQLResponse 1 (seq + 1)))
    by (by apply (sql_exec_append (w_db w) (async_table false) (async_td false) async_insert_cols
                    [async_params (w_now w) t])).
  rewrite HX in HE. erewrite go_bind_Some by exact HE.
  cbn [LastInsertedId length zseq fmap list_fmap].
  replace (seq + 1 - Z.of_nat 1 + 1) with (seq + 1) by lia.
  rewrite u64_small by go_lia. destruct w. reflexivity.
Qed.

Lemma insert_one raft node t ts w :
  async_ready raft w -> async_abs (w_db w) raft ts ->
  let seq := t_seq (db_table (w_db w) (async_table raft)) in
  0 <= seq < MaxInt64 ->
  exists w',
    (if raft then RaftBatchInsert [t] node else AsyncBatchInsert [t] false) w = Some (Ok [seq + 1], w') /\
    async_abs (w_db w') raft (ts ++ [stored_task (w_now w) (seq + 1) t]) /\
    only_table (async_table raft) w w'.
Proof.
  intros Hr Ha seq Hs. destruct raft.
  - destruct (raft_insert_task node t w Hr Hs) as [post Hx]. eexists. split; [exact Hx|].
    split; [by apply (async_abs_append _ true)|apply task_added_only].
  - eexists. split; [by apply local_insert_task|].
    split; [by apply (async_abs_append _ false)|apply task_added_only].
Qed.

Lemma update_one raft t st output ts w :
  async_ready raft w -> async_abs (w_db w) raft ts -> 0 <= at_Id t <= 9007199254740992 ->
  exists w',
    (if raft then RaftUpdateTaskState t st output else UpdateTaskState t st output) w = Some (None, w') /\
    async_abs (w_db w') raft (updated_task (at_Id t) st output <$> ts) /\
    only_table (async_table raft) w w'.
Proof.
  intros Hr Ha Hid. destruct (async_update (w_db w) raft ts (at_Id t) st output Ha)
    as (db' & res & Hx & Ha' & Ho). destruct raft.
  - destruct Hr as (Hq & Hc & _).
    set (ps := [VInt (AsyncTaskState_num st); VText output; VInt (at_Id t)]) in *.
    destruct (Hc (mkCommand CommandTypeDbExecute (Update CommittedAsyncTableName ["state"; "output"] "id")
                    (Some ps) [] (u64 0))) as [b Hb].
    assert (Hp : params_ok ps = true).
    { unfold params_ok, ps. cbn [forallb exact_param json_marshalable andb].
      rewrite (proj2 (Z.leb_le _ (at_Id t))), (proj2 (Z.leb_le (at_Id t) _)) by lia. by destruct st. }
    pose proof (WriteCommandToRaftLog_quiet _ ps [] 0 b w Hq Hp Hb) as HW.
    unfold raft_effect in HW. change (async_table true) with CommittedAsyncTableName in Hx.
    rewrite Hx in HW. eexists. split; [|split].
    + unfold RaftUpdateTaskState. fold ps. erewrite go_bind_Some by exact HW. reflexivity.
    + done.
    + by split_and!.
  - eexists. split; [|split].
    + unfold UpdateTaskState.
      erewrite go_bind_Some; [reflexivity|]. rewrite conn_exec_healthy; [|done|].
      * change (async_table false) with UnCommittedAsyncTableName in Hx. by rewrite Hx.
      * cbn [forallb]. rewrite !bindable_int by (destruct st; cbn; go_lia). done.
    + done.
    + by split_and!.
Qed.

(** A task one of the tables holds and the other does not. *)
Lemma GetTask_one raft ts others t w :
  healthy w -> async_abs (w_db w) raft ts -> async_abs (w_db w) (negb raft) others ->
  List.filter (with_task_id (at_Id t)) ts = [t] -> List.filter (with_task_id (at_Id t)) others = [] ->
  at_Id t <= MaxInt64 -> GetTask (at_Id t) w = Some (Ok t, w).
Proof.
  intros Hw [Hr Hwf] [Hr' _] Hf Hf' Hid.
  assert (Hsel : forall xs, sql_select (CEq "id" (VInt (at_Id t))) (async_row <$> xs) =
                   async_row <$> List.filter (with_task_id (at_Id t)) xs).
  { intros xs. apply sql_select_enc. intros. apply bool_decide_VInt. }
  assert (Hall : sql_select (CEq "id" (VInt (at_Id t))) (db_rows (w_db w) CommittedAsyncTableName) ++
                 sql_select (CEq "id" (VInt (at_Id t))) (db_rows (w_db w) UnCommittedAsyncTableName) =
                 [async_row t]).
  { destruct raft; cbn [negb async_table] in Hr, Hr'; rewrite Hr, Hr', !Hsel, Hf, Hf'; done. }
  assert (Ht : async_wf t).
  { rewrite Forall_forall in Hwf. apply Hwf. cut (t ∈ List.filter (with_task_id (at_Id t)) ts).
    - by intros [? _]%elem_of_filter_bool.
    - rewrite Hf. by left. }
  unfold GetTask. erewrite (db_query_then _ _ _ [t]); [done|done| |].
  - apply query_refused_ok; [done|]. cbn [forallb]. by rewrite bindable_int.
  - cbn beta. rewrite Hall. rewrite fmap_cons.
    replace (union_order _) with [project_cols async_select (async_row t)].
    + cbn [mapM]. by rewrite scan_async_row.
    + symmetry. apply Permutation_singleton_r. apply union_order_perm.
Qed.

Lemma async_row_id t : col "id" (async_row t) = VInt (at_Id t).
Proof. done. Qed.

(** [GetAllTasks] reads every task of its table, each once. *)
Lemma GetAllTasks_abs committed ts w :
  healthy w -> async_abs (w_db w) committed ts -> Forall (fun t => at_Id t < MaxInt64) ts ->
  exists l, GetAllTasks committed w = Some (Ok l, w) /\ l ≡ₚ ts.
Proof.
  intros Hw [Hr Hwf] Hsm.
  assert (exists lo hi, getAsyncTasksMinMaxIds committed w = Some ((lo, hi), w) /\
            0 <= lo /\ hi < MaxInt64 /\ (forall t, t ∈ ts -> lo <= at_Id t <= hi) /\ lo <= hi)
    as (lo & hi & Hmm & Hlo & Hhi & Hin & Hle).
  { unfold getAsyncTasksMinMaxIds. rewrite db_query_lax_then by done. cbn [fmap list_fmap last default].
    rewrite Hr. destruct (decide (ts = [])) as [->|Hne].
    - exists 0, 0. split_and!; try done; set_solver.
    - destruct (min_max_enc async_row at_Id async_row_id ts Hne) as (lo & hi & -> & -> & Hb & Hl & Hh).
      rewrite Forall_forall in Hwf. rewrite Forall_forall in Hsm. assert (lo <= hi).
      { destruct ts as [|x ts]; [done|]. specialize (Hb x ltac:(by left)). lia. }
      assert (0 <= lo) by (apply list_elem_of_fmap in Hl as (x & -> & Hx); by apply Hwf in Hx as [? _]; lia).
      assert (hi < MaxInt64) by (apply list_elem_of_fmap in Hh as (x & -> & Hx); by apply Hsm in Hx).
      exists lo, hi. cbn. unfold scan_uint64. rewrite !(proj2 (Z.leb_le _ _)) by lia. by split_and!. }
  unfold GetAllTasks. erewrite go_bind_Some by exact Hmm. cbn [fst snd].
  unfold countAsyncTasks. rewrite go_bind_assoc, db_query_lax_then by done. rewrite go_bind_mret.
  erewrite go_bind_lift by (apply ExpandIdsRange_eq; go_lia). rewrite go_bind_eq.
  match goal with |- context [go_for_ret ?body _ _ _] =>
    destruct (read_batches at_Id id body lo (Z.to_nat (hi - lo + 1)) 7 ts w) as (l & Hl & Hp) end.
  - intros acc b Hb. destruct (batch_ids lo (Z.to_nat (hi - lo + 1)) 7 b) as (Hne & Hlen & Hrg);
      [done|lia|done|]. unfold DBMaxVariableSize in Hlen.
    exists (List.filter (keyed at_Id b) ts). rewrite list_fmap_id. split; [|done].
    destruct b as [|i b]; [done|]. erewrite db_query_then; [done|done| |].
    + apply query_refused_ok; [rewrite length_fmap; unfold DBMaxVariableSize; lia|].
      apply bindable_ids. eapply Forall_impl; [exact Hrg|]. cbn beta. intros. go_lia.
    + rewrite Hr, <- (list_fmap_id (List.filter _ ts)). apply (mapM_scan_ids async_row at_Id async_row_id).
      intros t Ht. rewrite Forall_forall in Hwf. by apply scan_async_row, Hwf.
  - intros t Ht%Hin. lia.
  - rewrite Hl. exists l. split; [done|]. by rewrite list_fmap_id in Hp.
Qed.

End Repo.

(** ** The service over the repository *)

Section Lifecycle.
Context {codec : CommandCodec} {uo : UnionOrder} (NodeId : Z).

(** [raft] is whether the node's writes of tasks go through raft. *)
Definition role (raft : bool) (w : World) (s : asyncTaskService) : Prop :=
  async_ready raft w /\
  (raft = false -> singleNodeMode s = false /\ w_raft w <> RaftLeader).

Lemma through_raft_role raft w s : role raft w s -> through_raft (w, s) = Some (raft, (w, s)).
Proof.
  intros [Hr Hf]. unfold through_raft. rewrite go_bind_gets. cbn [snd].
  destruct (singleNodeMode s) eqn:E.
  - destruct raft; [done|]. by destruct (Hf eq_refl).
  - destruct raft.
    + destruct Hr as ([_ Hl] & _). rewrite go_bind_eq. unfold on_fst. cbn. by rewrite Hl.
    + destruct (Hf eq_refl) as [_ Hl]. rewrite go_bind_eq. unfold on_fst. cbn. by destruct (w_raft w).
Qed.

Lemma role_only raft w s w' s' :
  role raft w s -> only_table (async_table raft) w w' -> singleNodeMode s' = singleNodeMode s ->
  role raft w' s'.
Proof.
  intros [Hr Hf] Ho Hm. split; [by eapply async_ready_only|]. destruct Ho as (_ & _ & -> & _).
  by rewrite Hm.
Qed.

Lemma async_abs_only raft w w' others :
  only_table (async_table raft) w w' -> async_abs (w_db w) (negb raft) others ->
  async_abs (w_db w') (negb raft) others.
Proof.
  intros (Ho & _) [Hr Hwf]. split; [|done]. rewrite <- Hr. unfold db_rows. rewrite Ho; [done|].
  by destruct raft.
Qed.

(** The service after a task was added, and after it was updated. *)
Definition task_known (id : Z) (t : AsyncTask) (s : asyncTaskService) : asyncTaskService :=
  with_requests (<[at_RequestId t := id]> (taskIdRequestIdMap s))
    (with_task (<[id := set_TaskId id t]> (task s)) s).
Definition task_changed (t : AsyncTask) (s : asyncTaskService) : asyncTaskService :=
  with_notifications (notificationsCh s ++ [t]) (with_task (<[at_Id t := t]> (task s)) s).

Lemma AddTasks_run raft input requestId service ts w s :
  role raft w s -> async_abs (w_db w) raft ts ->
  let id := t_seq (db_table (w_db w) (async_table raft)) + 1 in
  0 < id <= MaxInt64 ->
  let t := new_task input requestId service in
  exists w', AddTasks NodeId input requestId service (w, s) = Some (Ok [id], (w', task_known id t s)) /\
    async_abs (w_db w') raft (ts ++ [stored_task (w_now w) id t]) /\
    only_table (async_table raft) w w'.
Proof.
  intros Hr Ha id Hid t. destruct (insert_one raft NodeId t ts w (proj1 Hr) Ha) as (w' & Hx & Ha' & Ho); [lia|].
  exists w'. split_and!; [|done|done]. unfold AddTasks. fold t.
  erewrite go_bind_Some by (by apply through_raft_role).
  rewrite (go_bind_on_fst _ _ _ _ (Ok [id]) w'); [reflexivity|]. by destruct raft.
Qed.

Lemma update_task_run raft t st output message ts w s :
  role raft w s -> async_abs (w_db w) raft ts -> 0 <= at_Id t <= 9007199254740992 ->
  exists w', update_task (at_Id t) t st output message (w, s) = Some (None, (w', task_changed t s)) /\
    async_abs (w_db w') raft (updated_task (at_Id t) st output <$> ts) /\
    only_table (async_table raft) w w'.
Proof.
  intros Hr Ha Hb. destruct (update_one raft t st output ts w (proj1 Hr) Ha Hb) as (w' & Hx & Ha' & Ho).
  exists w'. split_and!; [|done|done]. unfold update_task. erewrite go_bind_Some by reflexivity.
  erewrite go_bind_Some by (apply (through_raft_role raft); by eapply role_only).
  rewrite (go_bind_on_fst _ _ _ _ None w'); [reflexivity|]. by destruct raft.
Qed.

(** The service knows request [requestId] as task [id], which its table
    stores as [t] beside [ts]; the other table holds [others]. *)
Record tracked (raft : bool) (requestId : string) (id : Z) (t : AsyncTask) (ts others : list AsyncTask)
    (w : World) (s : asyncTaskService) : Prop := {
  tr_role : role raft w s;
  tr_own : async_abs (w_db w) raft (ts ++ [t]);
  tr_other : async_abs (w_db w) (negb raft) others;
  tr_id : at_Id t = id /\ 0 <= id <= 9007199254740992;
  tr_fresh : Forall (fun t => at_Id t <> id) ts;
  tr_apart : Forall (fun t => at_Id t <> id) others;
  tr_request : taskIdRequestIdMap s !! requestId = Some id;
  tr_task : exists m, task s !! id = Some m /\ at_Id m = id }.

Lemma tracked_add raft input requestId service ts others w s :
  role raft w s -> async_abs (w_db w) raft ts -> async_abs (w_db w) (negb raft) others ->
  let id := t_seq (db_table (w_db w) (async_table raft)) + 1 in
  0 < id <= 9007199254740992 -> Forall (fun t => at_Id t < id) ts ->
  Forall (fun t => at_Id t <> id) others ->
  let t := new_task input requestId service in
  exists w', AddTasks NodeId input requestId service (w, s) = Some (Ok [id], (w', task_known id t s)) /\
    only_table (async_table raft) w w' /\
    tracked raft requestId id (stored_task (w_now w) id t) ts others w' (task_known id t s).
Proof.
  intros Hr Ha Hb id Hid Hts Hos t.
  destruct (AddTasks_run raft input requestId service ts w s Hr Ha) as (w1 & H1 & Ha1 & Ho1);
    [fold id; go_lia|].
  exists w1. split_and!; [exact H1|exact Ho1|]. split.
  - by eapply role_only.
  - exact Ha1.
  - by eapply async_abs_only.
  - split; [done|lia].
  - eapply Forall_impl; [exact Hts|]. cbn beta. intros. lia.
  - done.
  - by apply lookup_insert_eq.
  - exists (set_TaskId id t). split; [by apply lookup_insert_eq|done].
Qed.

(** Changing a tracked task, whatever of it the service keeps in [n]. *)
Lemma tracked_change raft requestId id t ts others n st output message w s :
  tracked raft requestId id t ts others w s -> at_Id n = id ->
  exists w', update_task id n st output message (w, s) = Some (None, (w', task_changed n s)) /\
    only_table (async_table raft) w w' /\
    tracked raft requestId id (set_Output output (set_State st t)) ts others w' (task_changed n s).
Proof.
  intros [Hr Ha Hb [Hid Hrg] Hf Hap Hq _] Hn.
  destruct (update_task_run raft n st output message (ts ++ [t]) w s) as (w' & H1 & Ha1 & Ho1);
    [done|done|by rewrite Hn|]. rewrite Hn in H1, Ha1.
  exists w'. split_and!; [done..|]. split; try done.
  - by eapply role_only.
  - rewrite fmap_app in Ha1. cbn [fmap list_fmap] in Ha1. unfold updated_task in Ha1 at 2.
    unfold with_task_id in Ha1. rewrite Hid, Z.eqb_refl in Ha1.
    replace (updated_task id st output <$> ts) with ts in Ha1; [done|].
    rewrite <- (list_fmap_id ts) at 1. apply list_fmap_ext. intros i x Hx%list_elem_of_lookup_2.
    rewrite Forall_forall in Hf. unfold updated_task, with_task_id.
    rewrite (proj2 (Z.eqb_neq _ _)); [done|by apply Hf].
  - by eapply async_abs_only.
  - exists n. split; [|done]. cbn. rewrite Hn. by apply lookup_insert_eq.
Qed.

Lemma tracked_update raft requestId id t ts others st output w s :
  tracked raft requestId id t ts others w s ->
  exists n w', UpdateTasksByRequestId requestId st output (w, s) = Some (None, (w', task_changed n s)) /\
    at_Id n = id /\ at_State n = AsyncTaskState_num st /\ at_Output n = output /\
    only_table (async_table raft) w w' /\
    tracked raft requestId id (set_Output output (set_State st t)) ts others w' (task_changed n s).
Proof.
  intros T. destruct (tr_task _ _ _ _ _ _ _ _ T) as (m & Hm & Hmid).
  destruct (tracked_change raft requestId id t ts others (set_Output output (set_State st m)) st output
              ("could not update task with id " +:+ requestId) w s T Hmid) as (w' & H1 & Ho1 & T1).
  exists (set_Output output (set_State st m)), w'. split_and!; try done.
  unfold UpdateTasksByRequestId. rewrite go_bind_gets. cbn [snd].
  rewrite (tr_request _ _ _ _ _ _ _ _ T), Hm. cbv zeta.
  change (at_Id (set_Output output (set_State st m))) with (at_Id m). by rewrite Hmid.
Qed.

Lemma tracked_update_id raft requestId id t ts others st output w s :
  tracked raft requestId id t ts others w s ->
  exists n w', UpdateTasksById id st output (w, s) = Some (None, (w', task_changed n s)) /\
    only_table (async_table raft) w w' /\
    tracked raft requestId id (set_Output output (set_State st t)) ts others w' (task_changed n s).
Proof.
  intros T. destruct (tr_task _ _ _ _ _ _ _ _ T) as (m & Hm & Hmid).
  edestruct (tracked_change raft requestId id t ts others (set_State st m) st output) as (w' & H1 & Ho1 & T1);
    [exact T|exact Hmid|].
  exists (set_State st m), w'. split_and!; try done.
  unfold UpdateTasksById. rewrite go_bind_gets. cbn [snd]. rewrite Hm. exact H1.
Qed.

Lemma tracked_read raft requestId id t ts others w s :
  tracked raft requestId id t ts others w s ->
  GetTaskWithRequestIdNonBlocking requestId (w, s) = Some (Ok t, (w, s)).
Proof.
  intros [Hr Ha Hb [Hid Hrg] Hf Hap Hq _]. unfold GetTaskWithRequestIdNonBlocking. rewrite go_bind_gets.
  cbn [snd]. rewrite Hq. unfold on_fst. cbn [fst snd as_GetTask async_repos].
  assert (Hnone : forall l, Forall (fun t => at_Id t <> id) l -> List.filter (with_task_id id) l = []).
  { intros l Hl. apply filter_none. intros x Hx. rewrite Forall_forall in Hl. by apply Z.eqb_neq, Hl. }
  rewrite <- Hid. erewrite (GetTask_one raft _ _ t); [done| |exact Ha|exact Hb| | |].
  - eapply async_ready_healthy, Hr.
  - rewrite Hid, List.filter_app, Hnone by done. cbn. unfold with_task_id. by rewrite Hid, Z.eqb_refl.
  - rewrite Hid. by apply Hnone.
  - go_lia.
Qed.


End Lifecycle.

(** ** Concrete runs *)

#[local] Instance plain_union : UnionOrder := {| union_order l := l; union_order_perm l := Permutation_refl l |}.
#[local] Existing Instance plain_codec.

Definition follower_world : World := mkWorld db_empty sample_now RaftNotLeader true [] [].

(** The state a call leaves. *)
Definition after {S A} (m : Go S A) (x : S) : S :=
  match m x with Some (_, y) => y | None => x end.

(** A follower gets a task, a client waits for it, it succeeds. *)
Definition added : World * asyncTaskService := after (AddTasks 2 "in" "r" "create_job") (follower_world, NewAsyncTaskManager).
Definition waiting : World * asyncTaskService := after (GetTaskBlocking 1) added.
Definition succeeded : World * asyncTaskService := after (UpdateTasksById 1 AsyncTaskSuccess "out") waiting.
Definition listened : asyncTaskService := ListenForNotifications (snd succeeded).
Definition notified : World * asyncTaskService := after (deliver map_to_list 0) (fst succeeded, listened).

Lemma after_step {A} (m : Go (World * asyncTaskService) A) x :
  is_Some (m x) -> exists a, m x = Some (a, after m x).
Proof. intros [[a y] E]. exists a. unfold after. by rewrite E. Qed.

Lemma listened_reachable : reachable 2 (fst succeeded) listened.
Proof.
  exists follower_world. eapply rtc_l.
  { destruct (after_step (AddTasks 2 "in" "r" "create_job") (follower_world, NewAsyncTaskManager)) as [a E];
      [vm_compute; by eexists|]. eapply step_add, E. }
  eapply rtc_l.
  { destruct (after_step (GetTaskBlocking 1) added) as [a E]; [vm_compute; by eexists|]. eapply step_wait, E. }
  eapply rtc_l.
  { destruct (after_step (UpdateTasksById 1 AsyncTaskSuccess "out") waiting) as [a E]; [vm_compute; by eexists|].
    eapply step_update, E. }
  apply rtc_once. fold waiting. fold succeeded. rewrite (surjective_pairing succeeded) at 1. apply step_listen.
Qed.

Definition done_task : AsyncTask := mkAsyncTask 1 "r" "in" "" "create_job" 2 time_zero.


Lemma notified_once_witness :
  idle (snd (after (receive 0) notified)) 0%nat /\
  exists got left, channels (snd notified) !! 0%nat = Some (got ++ left) /\
    channels (snd (after (receive 0) notified)) !! 0%nat = Some left.
Proof.
  apply (notified_once 2 (fst notified) (snd notified) (fst (after (receive 0) notified))
           (snd (after (receive 0) notified)) 0).
  - destruct listened_reachable as [w0 Hr]. exists w0. eapply rtc_r; [exact Hr|].
    destruct (after_step (deliver map_to_list 0) (fst succeeded, listened)) as [a E]; [vm_compute; by eexists|].
    rewrite <- (surjective_pairing notified). apply (step_deliver _ map_to_list 0 _ a); [done|exact E].
  - apply rtc_once. rewrite <- !surjective_pairing.
    destruct (after_step (receive 0) notified) as [a E]; [vm_compute; by eexists|]. eapply step_receive, E.
  - vm_compute. lia.
  - intros id k. unfold waits. change (subscribers (snd notified)) with (∅ : gmap Z (gmap Z nat)).
    rewrite lookup_empty. discriminate.
Defined.


(** A follower adds a task, becomes the leader and adds another: both are
    number 1, in different tables. *)
Definition leader_again : World :=
  mkWorld (w_db (fst (after (AddTasks 2 "a" "z" "create_job") (follower_world, NewAsyncTaskManager))))
    sample_now RaftLeader true [] [].
Definition two_roles : World * asyncTaskService :=
  after (AddTasks 2 "b" "a" "create_job")
    (leader_again, snd (after (AddTasks 2 "a" "z" "create_job") (follower_world, NewAsyncTaskManager))).

(** The two tables number their tasks apart but are read together: after
    a change of role a client can be answered with the task of another
    request. *)
Theorem task_ids_collide :
  exists t, GetTaskWithRequestIdNonBlocking "a" two_roles = Some (Ok t, two_roles) /\
    at_RequestId t = "z".
Proof. eexists. split; [vm_compute; reflexivity|reflexivity]. Qed.
