(* ===== verification/Pool.v ===== *)
(** * The worker pool

    pkg/utils/dispatcher.go and worker.go as a transition system: callers put
    work on a buffered channel, the dispatch loop starts a goroutine for each,
    which takes a worker's channel from the pool and hands the work over.
    The functions that are queued run in one step: they are the closures the
    services return (job creation, the report of a peer, the HTTP requests of
    the executor). *)

From stdpp Require Import base relations list.
From Stdlib Require Import ZArith Lia.
From S2P Require Import Prelude.

(** ** State *)

(** Where a worker's goroutine is: before the send to the pool, in the
    [select], inside an effector, returned. *)
Inductive Worker {Work : Type} :=
| Offering
| Selecting
| Running (work : Work)
| Returned.
Arguments Worker : clear implicits.

(** The goroutine for one input: before it has a worker's channel, then
    sending on it. *)
Inductive giver {Work : Type} :=
| Taking (input : Work)
| Giving (input : Work) (workerQueue : nat).
Arguments giver : clear implicits.

(** [inputQueue]: the buffer, then the callers that wait for room in it, in
    order.  [queued] and [executed] are histories. *)
Record Dispatcher (Work : Type) := mkDispatcher {
  maxWorkers : nat;
  maxQueue : nat;
  done : bool;                         (* ctx *)
  dispatching : bool;
  inputQueue : list Work;
  givers : list (giver Work);
  workerPool : list nat;
  workers : list (Worker Work);
  queued : list Work;
  executed : list Work }.
Arguments mkDispatcher {Work}. Arguments maxWorkers {Work}. Arguments maxQueue {Work}.
Arguments done {Work}. Arguments dispatching {Work}. Arguments inputQueue {Work}.
Arguments givers {Work}. Arguments workerPool {Work}. Arguments workers {Work}.
Arguments queued {Work}. Arguments executed {Work}.

Section Pool.
Context {Work : Type}.
Implicit Types (s : Dispatcher Work) (w : Work).

(** A channel of negative size is a panic. *)
Definition NewDispatcher (maxW maxQ : Z) : option (Dispatcher Work) :=
  if ((maxW <? 0) || (maxQ <? 0))%Z then None
  else Some (mkDispatcher (Z.to_nat maxW) (Z.to_nat maxQ) false false [] [] [] [] [] []).

Definition Run s : Dispatcher Work :=
  mkDispatcher (maxWorkers s) (maxQueue s) (done s) true (inputQueue s) (givers s) (workerPool s)
    (workers s ++ replicate (maxWorkers s) Offering) (queued s) (executed s).

(** The send of [BlockQueue] and [NoBlockQueue]. *)
Definition queue_work w s : Dispatcher Work :=
  mkDispatcher (maxWorkers s) (maxQueue s) (done s) (dispatching s) (inputQueue s ++ [w]) (givers s)
    (workerPool s) (workers s) (queued s ++ [w]) (executed s).

(** The callers that wait. *)
Definition blocked s : list Work := drop (maxQueue s) (inputQueue s).

Definition cancel s : Dispatcher Work :=
  mkDispatcher (maxWorkers s) (maxQueue s) true (dispatching s) (inputQueue s) (givers s)
    (workerPool s) (workers s) (queued s) (executed s).

Definition with_state (d : bool) (input : list Work) (gs : list (giver Work)) (pool : list nat)
    (ws : list (Worker Work)) (ran : list Work) s : Dispatcher Work :=
  mkDispatcher (maxWorkers s) (maxQueue s) (done s) d input gs pool ws (queued s) ran.

(** ** Steps of the goroutines *)

Inductive pool_step : Dispatcher Work -> Dispatcher Work -> Prop :=
| dispatch_input s w input :
    dispatching s = true -> inputQueue s = w :: input ->
    pool_step s (with_state true input (givers s ++ [Taking w]) (workerPool s) (workers s) (executed s) s)
| dispatch_done s :
    dispatching s = true -> done s = true ->
    pool_step s (with_state false (inputQueue s) (givers s) (workerPool s) (workers s) (executed s) s)
| take_worker s k w i pool :
    givers s !! k = Some (Taking w) -> workerPool s = i :: pool ->
    pool_step s (with_state (dispatching s) (inputQueue s) (<[k := Giving w i]> (givers s)) pool
                   (workers s) (executed s) s)
| give_work s k w i :
    givers s !! k = Some (Giving w i) -> workers s !! i = Some Selecting ->
    pool_step s (with_state (dispatching s) (inputQueue s) (delete k (givers s)) (workerPool s)
                   (<[i := Running w]> (workers s)) (executed s) s)
| offer_worker s i :
    workers s !! i = Some Offering -> (length (workerPool s) < maxWorkers s)%nat ->
    pool_step s (with_state (dispatching s) (inputQueue s) (givers s) (workerPool s ++ [i])
                   (<[i := Selecting]> (workers s)) (executed s) s)
| finish_work s i w :
    workers s !! i = Some (Running w) ->
    pool_step s (with_state (dispatching s) (inputQueue s) (givers s) (workerPool s)
                   (<[i := Offering]> (workers s)) (executed s ++ [w]) s)
| worker_done s i :
    workers s !! i = Some Selecting -> done s = true ->
    pool_step s (with_state (dispatching s) (inputQueue s) (givers s) (workerPool s)
                   (<[i := Returned]> (workers s)) (executed s) s).

(** What happens to the pool: its own steps, calls, and the cancellation. *)
Inductive event_step : Dispatcher Work -> Dispatcher Work -> Prop :=
| ev_pool s s' : pool_step s s' -> event_step s s'
| ev_queue s w : event_step s (queue_work w s)
| ev_cancel s : event_step s (cancel s).

(** ** Where the work is *)

Definition giver_work (g : giver Work) : Work := match g with Taking w | Giving w _ => w end.
Definition giver_target (g : giver Work) : option nat :=
  match g with Taking _ => None | Giving _ i => Some i end.
Definition running_work (x : Worker Work) : option Work :=
  match x with Running w => Some w | _ => None end.
Definition parked (x : Worker Work) : Prop := x = Selecting \/ x = Returned.

Definition targets s : list nat := omap giver_target (givers s).
Definition pending s : list Work :=
  inputQueue s ++ (giver_work <$> givers s) ++ omap running_work (workers s).

(** The channels in the pool or with a goroutine are those of the workers in
    their [select]; a loop that returned, did so on cancellation. *)
Record pool_ok s : Prop := {
  ok_workers : length (workers s) = maxWorkers s;
  ok_work : queued s ≡ₚ executed s ++ pending s;
  ok_nodup : NoDup (workerPool s ++ targets s);
  ok_parked i : i ∈ workerPool s ++ targets s <-> exists x, workers s !! i = Some x /\ parked x;
  ok_dispatching : dispatching s = false -> done s = true;
  ok_returned i : workers s !! i = Some Returned -> done s = true }.

(** ** Lists *)

Lemma omap_delete {A B} (f : A -> option B) l k x :
  l !! k = Some x -> omap f l ≡ₚ option_list (f x) ++ omap f (delete k l).
Proof. intros H. rewrite (delete_Permutation l k x) at 1 by done. cbn. by destruct (f x). Qed.

Lemma insert_delete {A} (l : list A) k x y : l !! k = Some x -> <[k := y]> l ≡ₚ y :: delete k l.
Proof.
  intros H. assert (k < length l)%nat by (by eapply lookup_lt_Some).
  rewrite (delete_Permutation (<[k := y]> l) k y) by (by apply list_lookup_insert_eq).
  f_equiv. rewrite !delete_take_drop, take_insert_ge, drop_insert_lt by lia. done.
Qed.

Lemma omap_insert {A B} (f : A -> option B) l k x y :
  l !! k = Some x -> omap f (<[k := y]> l) ≡ₚ option_list (f y) ++ omap f (delete k l).
Proof. intros H. rewrite (insert_delete l k x) by done. cbn. by destruct (f y). Qed.

End Pool.
