(* ===== verification/PoolFacts.v ===== *)
(** * The worker pool runs what is queued

    No work is lost or run twice, and without cancellation every run of the
    goroutines ends with all queued work executed. *)

From stdpp Require Import base relations list.
From Stdlib Require Import ZArith Lia.
From S2P Require Import Prelude Pool.

Section Facts.
Context {Work : Type}.
Implicit Types (s : Dispatcher Work) (w : Work) (ws : list (Worker Work)).

Definition held s : list nat := workerPool s ++ targets s.
Definition parked_at ws (i : nat) : Prop := exists x, ws !! i = Some x /\ parked x.

(** The channels that are held are those of the parked workers, once each. *)
Definition pool_held (h : list nat) ws : Prop := NoDup h /\ forall i, i ∈ h <-> parked_at ws i.

Lemma parked_insert ws i x y j :
  ws !! i = Some x -> parked_at (<[i := y]> ws) j <-> (j = i /\ parked y) \/ (j <> i /\ parked_at ws j).
Proof.
  intros H. assert (i < length ws)%nat by (by eapply lookup_lt_Some). unfold parked_at.
  destruct (decide (j = i)) as [->|Hne].
  - rewrite list_lookup_insert_eq by done. naive_solver.
  - rewrite list_lookup_insert_ne by done. naive_solver.
Qed.

Lemma pool_held_perm h h' ws : h ≡ₚ h' -> pool_held h ws -> pool_held h' ws.
Proof. intros Hp [Hn Hi]. split; [by rewrite <- Hp|]. intros i. by rewrite <- Hp. Qed.

(** A worker that is not parked before or after. *)
Lemma pool_held_busy h ws i x y :
  ws !! i = Some x -> ~ parked x -> ~ parked y -> pool_held h ws -> pool_held h (<[i := y]> ws).
Proof.
  intros Hx Hnx Hny [Hn Hi]. split; [done|]. intros j. rewrite (parked_insert _ _ x), Hi by done.
  split; [|naive_solver]. intros Hj. right. split; [|done]. intros ->. destruct Hj as (x' & E & ?). by simplify_eq.
Qed.

Lemma pool_held_release h ws i x y :
  ws !! i = Some x -> ~ parked y -> pool_held (i :: h) ws -> pool_held h (<[i := y]> ws).
Proof.
  intros Hx Hny [[Hni Hn]%NoDup_cons Hi]. split; [done|]. intros j. rewrite (parked_insert _ _ x) by done.
  specialize (Hi j). rewrite elem_of_cons in Hi. destruct (decide (j = i)) as [->|]; naive_solver.
Qed.

Lemma pool_held_park h ws i x y :
  ws !! i = Some x -> ~ parked x -> parked y -> pool_held h ws -> pool_held (i :: h) (<[i := y]> ws).
Proof.
  intros Hx Hnx Hy [Hn Hi]. split.
  - apply NoDup_cons. split; [|done]. rewrite Hi. intros (x' & E & ?). by simplify_eq.
  - intros j. rewrite elem_of_cons, (parked_insert _ _ x), Hi by done.
    destruct (decide (j = i)) as [->|]; naive_solver.
Qed.

Lemma pool_held_done h ws i x y :
  ws !! i = Some x -> parked x -> parked y -> pool_held h ws -> pool_held h (<[i := y]> ws).
Proof.
  intros Hx Hpx Hpy [Hn Hi]. split; [done|]. intros j. rewrite Hi, (parked_insert _ _ x) by done.
  destruct (decide (j = i)) as [->|]; [|naive_solver]. split; [by left|]. intros _. by exists x.
Qed.

(** A worker's state after a change is the new one or an old one. *)
Lemma insert_returned ws i y j :
  <[i := y]> ws !! j = Some Returned -> ws !! j = Some Returned \/ y = Returned.
Proof. intros [(-> & -> & _)|[_ ?]]%list_lookup_insert_Some; auto. Qed.

Lemma pool_ok_intro s :
  length (workers s) = maxWorkers s -> queued s ≡ₚ executed s ++ pending s ->
  pool_held (held s) (workers s) ->
  (dispatching s = false -> done s = true) ->
  (forall i, workers s !! i = Some Returned -> done s = true) -> pool_ok s.
Proof. intros H1 H2 [H3 H4] H5 H6. by split. Qed.

Lemma pool_ok_held s : pool_ok s -> pool_held (held s) (workers s).
Proof. intros H. split; apply H. Qed.

(** Both sides have one element at a place of its own: bring it to the front. *)
Ltac perm_front := rewrite <- ?app_assoc; cbn [app]; rewrite <- ?Permutation_middle, ?app_nil_r; reflexivity.

Lemma pool_step_ok s s' : pool_ok s -> pool_step s s' -> pool_ok s'.
Proof.
  intros Hok. pose proof (pool_ok_held s Hok) as Hh. destruct Hok as [Hl Hw _ _ Hd Hr].
  unfold pending, held, targets in *.
  destruct 1 as [s w input E1 E2|s E1 E2|s k w i pool E1 E2|s k w i E1 E2|s i E1 E2|s i w E1|s i E1 E2];
    apply pool_ok_intro; unfold pending, held, targets; cbn [with_state maxWorkers workers queued executed
      inputQueue givers workerPool dispatching done]; rewrite ?length_insert; try done;
    try (intros j [?|?]%insert_returned; [by eapply Hr|done]).
  - rewrite Hw, E2, fmap_app. cbn. perm_front.
  - rewrite omap_app. cbn. by rewrite app_nil_r.
  - rewrite Hw, (insert_delete _ _ _ (Giving w i) E1), (delete_Permutation _ _ _ E1) at 1. done.
  - eapply pool_held_perm; [|exact Hh]. rewrite (omap_insert _ _ _ _ (Giving w i) E1), (omap_delete _ _ _ _ E1), E2.
    cbn. by rewrite Permutation_middle.
  - rewrite Hw, (delete_Permutation _ _ _ E1) at 1. rewrite (omap_insert _ _ _ _ (Running w) E2),
      (omap_delete _ _ _ _ E2). cbn. perm_front.
  - eapply pool_held_release; [exact E2|intros [?|?]; done|]. eapply pool_held_perm; [|exact Hh].
    rewrite (omap_delete _ _ _ _ E1). cbn. by rewrite Permutation_middle.
  - rewrite Hw, (omap_insert _ _ _ _ Selecting E1), (omap_delete _ _ _ _ E1). done.
  - apply (pool_held_perm (i :: workerPool s ++ omap giver_target (givers s))).
    { rewrite <- app_assoc. cbn. by rewrite Permutation_middle. }
    eapply pool_held_park; [exact E1|intros [?|?]; done|by left|done].
  - rewrite Hw, (omap_insert _ _ _ _ Offering E1), (omap_delete _ _ _ _ E1). cbn. perm_front.
  - eapply pool_held_busy; [exact E1|intros [?|?]; done..|done].
  - rewrite Hw, (omap_insert _ _ _ _ Returned E1), (omap_delete _ _ _ _ E1). done.
  - eapply pool_held_done; [exact E1|by left|by right|done].
Qed.

Lemma event_step_ok s s' : pool_ok s -> event_step s s' -> pool_ok s'.
Proof.
  intros Hok. destruct 1 as [s s' H|s w|s]; [by eapply pool_step_ok| |];
    (destruct Hok as [Hl Hw Hn Hp Hd Hr]; split); try done.
  cbn. rewrite Hw. unfold pending. cbn. perm_front.
Qed.

(** Right after [Run]. *)
Lemma Run_ok maxW maxQ (d : Dispatcher Work) : NewDispatcher maxW maxQ = Some d -> pool_ok (Run d).
Proof.
  unfold NewDispatcher. case_match; [done|]. intros [= <-]. apply pool_ok_intro; cbn; try done.
  - apply length_replicate.
  - unfold pending. cbn. induction (Z.to_nat maxW); [done|]. by cbn.
  - split; [constructor|]. intros i. split; [by intros ?%not_elem_of_nil|].
    intros (x & [-> _]%lookup_replicate & [?|?]); done.
  - intros i [? _]%lookup_replicate. done.
Qed.

(** ** Progress *)

Lemma held_lookup s i : pool_ok s -> i ∈ held s -> done s = false -> workers s !! i = Some Selecting.
Proof.
  intros Hok Hi Hd. apply (proj2 (pool_ok_held s Hok)) in Hi as (x & E & [->| ->]); [done|].
  apply (ok_returned s Hok) in E. congruence.
Qed.

(** There is always room in the pool for a worker that is not in it. *)
Lemma pool_room s i : pool_ok s -> workers s !! i = Some Offering -> (length (workerPool s) < maxWorkers s)%nat.
Proof.
  intros Hok Hi. destruct (pool_ok_held s Hok) as [Hn Hp]. rewrite <- (ok_workers s Hok).
  assert (i :: workerPool s ⊆+ seq 0 (length (workers s))) as Hsub.
  { apply NoDup_submseteq.
    - apply NoDup_cons. split; [|by apply NoDup_app in Hn as (? & _)].
      intros Hin. destruct (proj1 (Hp i)) as (x & E & Hx); [unfold held; set_solver|].
      rewrite E in Hi. injection Hi as ->. by destruct Hx.
    - intros j [->|Hj]%elem_of_cons; apply elem_of_seq; (split; [lia|]).
      + by eapply lookup_lt_Some.
      + destruct (proj1 (Hp j)) as (x & E & _); [unfold held; set_solver|]. by eapply lookup_lt_Some. }
  apply submseteq_length in Hsub. rewrite length_seq in Hsub. cbn in Hsub. lia.
Qed.

Lemma worker_case ws :
  (exists i w, ws !! i = Some (Running w)) \/ (exists i, ws !! i = Some Offering) \/
  (omap running_work ws = [] /\ forall i x, ws !! i = Some x -> parked x).
Proof.
  induction ws as [|x ws [(i & w & ?)|[[i ?]|[IH1 IH2]]]].
  - right. right. done.
  - left. by exists (S i), w.
  - right. left. by exists (S i).
  - destruct x as [| |w|].
    + right. left. by exists O.
    + right. right. split; [done|]. intros [|i] y; [|apply IH2]. intros [= <-]. by left.
    + left. by exists O, w.
    + right. right. split; [done|]. intros [|i] y; [|apply IH2]. intros [= <-]. by right.
Qed.

(** Something can run as long as work is pending. *)
Lemma pool_progress s :
  pool_ok s -> done s = false -> (0 < maxWorkers s)%nat -> pending s <> [] -> exists s', pool_step s s'.
Proof.
  intros Hok Hd Hpos Hp.
  destruct (inputQueue s) as [|w input] eqn:Ei.
  2: { eexists. eapply dispatch_input; [|exact Ei]. destruct (dispatching s) eqn:E; [done|].
       apply (ok_dispatching s Hok) in E. congruence. }
  destruct (worker_case (workers s)) as [(i & w & E)|[[i E]|[Hrun Hpark]]].
  - eexists. by eapply finish_work.
  - eexists. eapply offer_worker; [exact E|]. by eapply pool_room.
  - destruct (givers s) as [|g gs] eqn:Eg.
    { destruct Hp. unfold pending. by rewrite Ei, Eg, Hrun. }
    destruct g as [w|w i].
    2: { eexists. eapply (give_work s 0 w i); [by rewrite Eg|]. apply held_lookup; [done| |done].
         unfold held, targets. rewrite Eg. set_solver. }
    destruct (workerPool s) as [|i pool] eqn:Ew.
    2: { eexists. eapply (take_worker s 0); [by rewrite Eg|exact Ew]. }
    destruct (lookup_lt_is_Some_2 (workers s) 0) as [x Hx]; [by rewrite (ok_workers s Hok)|].
    assert (0 ∈ targets s) as Ht.
    { assert (0 ∈ held s) as H0 by (apply (proj2 (pool_ok_held s Hok)); exists x; eauto).
      unfold held in H0. by rewrite Ew in H0. }
    apply list_elem_of_omap in Ht as (g & [k Hk]%list_elem_of_lookup & Hg).
    destruct g as [|w' i]; [done|]. injection Hg as ->.
    eexists. eapply give_work; [exact Hk|]. apply held_lookup; [done| |done].
    unfold held, targets. apply elem_of_app. right. apply list_elem_of_omap.
    exists (Giving w' 0). split; [|done]. by eapply list_elem_of_lookup_2.
Qed.

(** ** Every run ends *)

Definition worker_weight (x : Worker Work) : nat :=
  match x with Offering => 2 | Selecting => 1 | Running _ => 3 | Returned => 0 end.
Definition giver_weight (g : giver Work) : nat := match g with Taking _ => 4 | Giving _ _ => 3 end.
Definition weight s : nat :=
  5 * length (inputQueue s) + sum_list_with giver_weight (givers s) +
  sum_list_with worker_weight (workers s) + (if dispatching s then 1 else 0).

Lemma sum_delete {A} (f : A -> nat) l k x :
  l !! k = Some x -> sum_list_with f l = (f x + sum_list_with f (delete k l))%nat.
Proof. intros H. by rewrite (delete_Permutation l k x) at 1 by done. Qed.

Lemma sum_insert {A} (f : A -> nat) l k x y :
  l !! k = Some x -> (sum_list_with f (<[k := y]> l) + f x = sum_list_with f l + f y)%nat.
Proof.
  intros H. rewrite (insert_delete l k x y H), (sum_delete f l k x H). cbn. lia.
Qed.

Lemma pool_step_weight s s' : pool_step s s' -> (weight s' < weight s)%nat.
Proof.
  unfold weight. destruct 1 as [s w input E1 E2|s E1 E2|s k w i pool E1 E2|s k w i E1 E2|s i E1 E2|s i w E1|s i E1 E2];
    cbn [with_state inputQueue givers workers dispatching].
  - rewrite sum_list_with_app, E1, E2. cbn. lia.
  - rewrite E1. lia.
  - pose proof (sum_insert giver_weight _ _ _ (Giving w i) E1). cbn in *. lia.
  - pose proof (sum_delete giver_weight _ _ _ E1). pose proof (sum_insert worker_weight _ _ _ (Running w) E2).
    cbn in *. lia.
  - pose proof (sum_insert worker_weight _ _ _ Selecting E1). cbn in *. lia.
  - pose proof (sum_insert worker_weight _ _ _ Offering E1). cbn in *. lia.
  - pose proof (sum_insert worker_weight _ _ _ Returned E1). cbn in *. lia.
Qed.

Lemma pool_step_sn s : sn pool_step s.
Proof.
  assert (forall n s, (weight s < n)%nat -> sn pool_step s) as H; [|by apply (H (S (weight s))); lia].
  induction n as [|n IH]; [lia|]. clear s. intros s Hs. constructor. intros s' Hstep. apply IH.
  apply pool_step_weight in Hstep. lia.
Qed.

Lemma pool_steps_same s s' :
  rtc pool_step s s' -> queued s' = queued s /\ done s' = done s /\ maxWorkers s' = maxWorkers s.
Proof. induction 1 as [s|s1 s2 s3 H _ (-> & -> & ->)]; [done|]. by destruct H. Qed.

Lemma pool_steps_ok s s' : pool_ok s -> rtc pool_step s s' -> pool_ok s'.
Proof. intros Hok. induction 1 as [|s1 s2 s3 H _ IH]; [done|]. apply IH. by eapply pool_step_ok. Qed.

Lemma pool_reachable_ok maxW maxQ (d s : Dispatcher Work) :
  NewDispatcher maxW maxQ = Some d -> rtc event_step (Run d) s ->
  pool_ok s /\ maxWorkers s = Z.to_nat maxW.
Proof.
  intros Hd Hr. assert (maxWorkers (Run d) = Z.to_nat maxW) as Hm.
  { unfold NewDispatcher in Hd. case_match; [done|]. by injection Hd as <-. }
  apply Run_ok in Hd. induction Hr as [s|s1 s2 s3 H _ IH]; [done|]. apply IH; [by eapply event_step_ok|].
  rewrite <- Hm. by destruct H as [? ? []| |].
Qed.

(** What is left to do can be done. *)
Lemma pool_finishes s :
  pool_ok s -> done s = false -> (0 < maxWorkers s)%nat ->
  exists s', rtc pool_step s s' /\ pending s' = [].
Proof.
  induction (pool_step_sn s) as [s _ IH]. intros Hok Hd Hpos. destruct (pending s) as [|w l] eqn:E.
  { exists s. split; [apply rtc_refl|done]. }
  destruct (pool_progress s) as [s1 Hs1]; [done..|by rewrite E|].
  destruct (pool_steps_same s s1) as (_ & Hd1 & Hm1); [by apply rtc_once|].
  destruct (IH s1) as (s2 & Hr & Hp); [done|by eapply pool_step_ok|congruence|congruence|].
  exists s2. split; [by eapply rtc_l|done].
Qed.

Lemma length_running ws : (length (omap running_work ws) <= length ws)%nat.
Proof. induction ws as [|x ws IH]; [done|]. destruct x; cbn in *; lia. Qed.

(** ** Properties *)

(** C7: With at least one worker, and as long as the context is not
    cancelled, all queued work runs: from any state the pool reaches, the
    goroutines cannot run for ever, they can stop only when everything that
    was queued has been executed, and they get there. *)
Theorem queued_work_runs maxW maxQ (d s : Dispatcher Work) :
  NewDispatcher maxW maxQ = Some d -> (0 < maxW)%Z -> rtc event_step (Run d) s -> done s = false ->
  sn pool_step s /\
  (forall s', rtc pool_step s s' -> nf pool_step s' -> executed s' ≡ₚ queued s) /\
  (exists s', rtc pool_step s s' /\ executed s' ≡ₚ queued s).
Proof.
  intros Hn Hpos Hr Hd. destruct (pool_reachable_ok _ _ _ _ Hn Hr) as [Hok Hm].
  assert (forall s', rtc pool_step s s' -> pending s' = [] -> executed s' ≡ₚ queued s) as Hall.
  { intros s' Hs Hp. destruct (pool_steps_same _ _ Hs) as (<- & _).
    rewrite (ok_work s' (pool_steps_ok _ _ Hok Hs)), Hp. by rewrite app_nil_r. }
  split_and!; [apply pool_step_sn| |].
  - intros s' Hs Hnf. destruct (pool_steps_same _ _ Hs) as (_ & Hd' & Hm').
    destruct (pending s') as [|w l] eqn:E; [by apply Hall|]. destruct Hnf.
    apply pool_progress; [by eapply pool_steps_ok|congruence|lia|by rewrite E].
  - destruct (pool_finishes s) as (s' & Hs & Hp); [done|done|lia|]. eauto.
Qed.

(** C21: No work is lost and none runs twice, cancelled or not: what was
    queued is, once each, executed, running, with a goroutine that looks for
    a worker, or in the channel; and at most [maxWorkers] run at a time. *)
Theorem work_conserved maxW maxQ (d s : Dispatcher Work) :
  NewDispatcher maxW maxQ = Some d -> rtc event_step (Run d) s ->
  queued s ≡ₚ executed s ++ omap running_work (workers s) ++ (giver_work <$> givers s) ++ inputQueue s /\
  (Z.of_nat (length (omap running_work (workers s))) <= maxW)%Z.
Proof.
  intros Hn Hr. destruct (pool_reachable_ok _ _ _ _ Hn Hr) as [Hok Hm]. split.
  - rewrite (ok_work s Hok). unfold pending. f_equiv. rewrite (Permutation_app_comm (inputQueue s)).
    rewrite (Permutation_app_comm (giver_work <$> givers s)). by rewrite <- app_assoc.
  - pose proof (length_running (workers s)). rewrite (ok_workers s Hok) in *.
    unfold NewDispatcher in Hn. case_match eqn:E; [done|]. apply orb_false_iff in E as [?%Z.ltb_ge _]. lia.
Qed.

End Facts.

(** ** A run *)

(** Two workers, room for one work in the channel, three works. *)
Definition two_workers : Dispatcher nat :=
  default (mkDispatcher 0 0 false false [] [] [] [] [] []) (NewDispatcher 2 1).
Definition three_works : Dispatcher nat := queue_work 3 (queue_work 2 (queue_work 1 (Run two_workers))).

Lemma three_works_reached : rtc event_step (Run two_workers) three_works.
Proof. do 3 (eapply rtc_l; [apply ev_queue|]). apply rtc_refl. Qed.

Lemma queued_work_runs_witness :
  blocked three_works = [2; 3] /\
  (forall s', rtc pool_step three_works s' -> nf pool_step s' -> executed s' ≡ₚ [1; 2; 3]) /\
  (exists s', rtc pool_step three_works s' /\ executed s' ≡ₚ [1; 2; 3]).
Proof.
  split; [reflexivity|].
  apply (queued_work_runs 2 1 two_workers three_works); [reflexivity|lia|apply three_works_reached|reflexivity].
Defined.

Lemma work_conserved_witness :
  queued three_works ≡ₚ executed three_works ++ omap running_work (workers three_works) ++
    (giver_work <$> givers three_works) ++ inputQueue three_works /\
  (Z.of_nat (length (omap running_work (workers three_works))) <= 2)%Z.
Proof. apply (work_conserved 2 1 two_workers three_works); [reflexivity|apply three_works_reached]. Defined.
