(* ===== verification/Debounce.v ===== *)
(** * Debouncing

    pkg/utils/debounce.go as a transition system: the calls, the ticks of the
    goroutine the first call starts, and its deferred reset.  The job
    executor debounces the invocation of due jobs with it. *)

From stdpp Require Import base relations list.
From Stdlib Require Import ZArith Lia.
From S2P Require Import Prelude.

#[local] Open Scope Z_scope.

(** The goroutine: not started, in its [select], in the effector, in the
    deferred function. *)
Inductive debounce_goroutine := Idle | Ticking | InEffector | Deferred.

(** [once] tells whether the function was called; times are instants in
    nanoseconds. *)
Record Debounce := mkDebounce { once : bool; threshold : Z; goroutine : debounce_goroutine }.

Definition NewDebounce : Debounce := mkDebounce false 0 Idle.

(** [time.Duration(delay) * time.Millisecond] *)
Definition milliseconds (delay : Z) : Z := i64 (i64 delay * 1000000).

(** [Debounce]; [now] is the time of the call. *)
Definition debounce_call (now delay : Z) (d : Debounce) : Debounce :=
  if once d then mkDebounce true (now + milliseconds delay) (goroutine d)
  else mkDebounce true (now + milliseconds delay) Ticking.

Section Events.
Context {S : Type} (effector : Go S unit).
Implicit Types (d : Debounce) (st : S).

(** A caller changes its own state, then calls; the rest is the goroutine. *)
Inductive debounce_event :=
| Call (change : S -> S) (now delay : Z)
| Tick (now : Z)
| RunEffector
| Reset
| ContextDone.

Definition debounce_step (e : debounce_event) (x : S * Debounce) : option (S * Debounce) :=
  let '(st, d) := x in
  match e, goroutine d with
  | Call change now delay, _ => Some (change st, debounce_call now delay d)
  | Tick now, Ticking =>
      Some (st, mkDebounce (once d) (threshold d) (if threshold d <? now then InEffector else Ticking))
  | RunEffector, InEffector =>
      '(_, st') ← effector st; Some (st', mkDebounce (once d) (threshold d) Deferred)
  | Reset, Deferred => Some (st, mkDebounce false (threshold d) Idle)
  | ContextDone, Ticking => Some (st, mkDebounce (once d) (threshold d) Deferred)
  | _, _ => None
  end.

Fixpoint debounce_events (es : list debounce_event) (x : S * Debounce) : option (S * Debounce) :=
  match es with
  | [] => Some x
  | e :: es' => debounce_step e x ≫= debounce_events es'
  end.

(** The last call of a history. *)
Definition call_of (e : debounce_event) : option (Z * Z) :=
  match e with Call _ now delay => Some (now, delay) | _ => None end.
Definition last_call (es : list debounce_event) : option (Z * Z) := last (omap call_of es).

(** The goroutine runs exactly while [once] is set, and the threshold is the
    last call's. *)
Definition debounce_ok (es : list debounce_event) d : Prop :=
  (once d = true <-> goroutine d <> Idle) /\
  (goroutine d <> Idle ->
   exists now delay, last_call es = Some (now, delay) /\ threshold d = now + milliseconds delay).

Lemma last_call_snoc es e :
  last_call (es ++ [e]) = match call_of e with Some c => Some c | None => last_call es end.
Proof.
  unfold last_call. rewrite omap_app. cbn. destruct (call_of e); [by rewrite last_snoc|by rewrite app_nil_r].
Qed.

Lemma debounce_step_ok es e st d st' d' :
  debounce_ok es d -> debounce_step e (st, d) = Some (st', d') -> debounce_ok (es ++ [e]) d'.
Proof.
  intros [H1 H2] H. unfold debounce_ok. rewrite last_call_snoc. destruct d as [o t g]. cbn in *.
  destruct e as [f now delay|now| | |]; cbn in *.
  { injection H as <- <-. unfold debounce_call. cbn.
    destruct o; cbn; (split; [first [exact H1|done]|intros _; by exists now, delay]). }
  all: destruct g; try discriminate; assert (o = true) as -> by (by apply H1); specialize (H2 ltac:(done)).
  - injection H as <- <-. cbn. split; [by destruct (t <? now)|done].
  - destruct (effector st) as [[u st1]|]; [|discriminate H]. by injection H as <- <-.
  - injection H as <- <-. cbn. split; [split; [done|by intros []]|by intros []].
  - by injection H as <- <-.
Qed.

Lemma debounce_events_app es1 es2 x :
  debounce_events (es1 ++ es2) x = debounce_events es1 x ≫= debounce_events es2.
Proof.
  revert x. induction es1 as [|e es1 IH]; intros x; [done|]. cbn. destruct (debounce_step e x) as [y|]; [|done].
  cbn. apply IH.
Qed.

Lemma debounce_events_ok es st st' d' :
  debounce_events es (st, NewDebounce) = Some (st', d') -> debounce_ok es d'.
Proof.
  revert st' d'. induction es as [|e es IH] using rev_ind; intros st' d' H.
  { injection H as <- <-. split; [|by intros []]. split; [done|by intros []]. }
  rewrite debounce_events_app in H. destruct (debounce_events es (st, NewDebounce)) as [[st1 d1]|] eqn:E; [|done].
  cbn [mbind option_bind debounce_events] in H. destruct (debounce_step e (st1, d1)) as [[st2 d2]|] eqn:E2; [|done]. injection H as <- <-.
  eapply debounce_step_ok; [|exact E2]. by eapply IH.
Qed.

(** ** A burst of calls *)

(** What the callers changed, and the threshold. *)
Definition burst_change (es : list debounce_event) st : S :=
  foldl (fun st e => match e with Call change _ _ => change st | _ => st end) st es.
Definition burst_threshold (es : list debounce_event) (t : Z) : Z :=
  foldl (fun t e => match e with Call _ now delay => now + milliseconds delay | _ => t end) t es.

(** Only calls, and ticks that come no later than the threshold. *)
Fixpoint quiet_burst (es : list debounce_event) (t : Z) : Prop :=
  match es with
  | [] => True
  | Call _ now delay :: es' => quiet_burst es' (now + milliseconds delay)
  | Tick now :: es' => now <= t /\ quiet_burst es' t
  | _ => False
  end.

Lemma quiet_burst_run es st t :
  quiet_burst es t ->
  debounce_events es (st, mkDebounce true t Ticking) =
  Some (burst_change es st, mkDebounce true (burst_threshold es t) Ticking).
Proof.
  revert st t. induction es as [|e es IH]; intros st t H; [done|].
  destruct e as [f now delay|now| | |]; cbn in *; try done.
  - by apply IH.
  - destruct H as [H1 H2]. rewrite (proj2 (Z.ltb_ge _ _)) by done. by apply IH.
Qed.

(** ** Properties *)

(** C32: A burst of calls, of any length, ends in exactly one run of the
    effector, at the first tick after the last call's delay, and that run
    sees what all the callers did before. *)
Theorem debounce_runs_once change now0 delay0 es now (st st' : S) t :
  quiet_burst es (now0 + milliseconds delay0) ->
  burst_threshold es (now0 + milliseconds delay0) < now ->
  effector (burst_change es (change st)) = Some (tt, st') ->
  debounce_events (Call change now0 delay0 :: es ++ [Tick now; RunEffector; Reset]) (st, mkDebounce false t Idle) =
  Some (st', mkDebounce false (burst_threshold es (now0 + milliseconds delay0)) Idle).
Proof.
  intros Hq Hnow He. cbn [debounce_events debounce_step debounce_call once mbind option_bind goroutine].
  rewrite debounce_events_app, quiet_burst_run by done. cbn. rewrite (proj2 (Z.ltb_lt _ _)) by done. cbn.
  by rewrite He.
Qed.

(** The effector does not start before the delay of the last call has
    passed, whatever the calls, ticks and cancellations before. *)
Theorem debounce_waits es (st st1 : S) d1 now st2 d2 :
  debounce_events es (st, NewDebounce) = Some (st1, d1) ->
  debounce_step (Tick now) (st1, d1) = Some (st2, d2) -> goroutine d2 = InEffector ->
  exists t delay, last_call es = Some (t, delay) /\ t + milliseconds delay < now.
Proof.
  intros He Hs Hg. destruct (debounce_events_ok es st st1 d1 He) as [_ H]. destruct d1 as [o th g].
  cbn in *. destruct g; try discriminate. injection Hs as <- <-. cbn in Hg.
  destruct (Z.ltb_spec th now); [|done]. destruct H as (t & delay & -> & ->); [done|]. by exists t, delay.
Qed.

(** A call that comes after the effector has run and before the
    goroutine has reset [once] is lost: afterwards nothing will run the
    effector on what the caller did, until another call. *)
Theorem debounce_drops_call change now delay (st : S) t :
  exists d, debounce_events [Call change now delay; Reset] (st, mkDebounce true t Deferred) =
              Some (change st, d) /\
    forall e, call_of e = None -> debounce_step e (change st, d) = None.
Proof. eexists. split; [reflexivity|]. by intros []. Qed.

End Events.

(** ** A run *)

(** Two callers that add to a list; the effector empties it. *)
Definition add (x : Z) (l : list Z) : list Z := l ++ [x].
Definition take_all : Go (list Z * list Z) unit := fun '(l, taken) => Some (tt, ([], taken ++ l)).
Definition on_list (f : list Z -> list Z) (x : list Z * list Z) : list Z * list Z := (f (fst x), snd x).
Definition second_call : debounce_event := Call (on_list (add 2)) 200000000 500.

Lemma debounce_runs_once_witness :
  debounce_events take_all
    (Call (on_list (add 1)) 0 500 :: [Tick 500000000; second_call] ++ [Tick 1000000000; RunEffector; Reset])
    ([], [], mkDebounce false 0 Idle) =
  Some ([], [1; 2], mkDebounce false 700000000 Idle).
Proof.
  apply (debounce_runs_once take_all (on_list (add 1)) 0 500 [Tick 500000000; second_call] 1000000000 ([], [])).
  - split; [vm_compute; discriminate|exact I].
  - vm_compute. reflexivity.
  - reflexivity.
Defined.

Lemma debounce_waits_witness :
  exists t delay, last_call [Call (on_list (add 1)) 0 500; Tick 500000000; second_call] = Some (t, delay) /\
    t + milliseconds delay < 1000000000.
Proof.
  eapply (debounce_waits take_all [Call (on_list (add 1)) 0 500; Tick 500000000; second_call] ([], []));
    reflexivity.
Defined.
