(* ===== verification/Config.v ===== *)
(** * Configuration, secrets and helpers

    pkg/config/config.go and pkg/secrets/secrets.go: the configuration and
    the secrets of a node, read from a file beside the binary or from the
    environment; the address helpers of pkg/utils/misc.go; and [RetryOnError]
    of pkg/utils/controllers.go. *)

From stdpp Require Import countable.
From stdpp Require Import base list gmap strings pretty.
From Stdlib Require Import ZArith Ascii Lia.
From S2P Require Import Prelude.

#[local] Open Scope Z_scope.

(** ** Data *)

Record RaftNode := mkRaftNode { rn_Address : string; rn_RaftAddress : string; rn_NodeId : Z }.

#[global] Instance raft_node_eq_dec : EqDecision RaftNode.
Proof. solve_decision. Defined.

Record Scheduler0Configurations := mkConfigurations {
  LogLevel : string;
  Protocol : string;
  Host : string;
  Port : string;
  Replicas : list RaftNode;
  PeerAuthRequestTimeoutMs : Z;
  PeerConnectRetryMax : Z;
  PeerConnectRetryDelaySeconds : Z;
  Bootstrap : bool;
  NodeId : Z;
  NodeAdvAddress : string;
  RaftAddress : string;
  RaftTransportMaxPool : Z;
  RaftTransportTimeout : Z;
  RaftSnapshotInterval : Z;
  RaftSnapshotThreshold : Z;
  RaftHeartbeatTimeout : Z;
  RaftElectionTimeout : Z;
  RaftCommitTimeout : Z;
  RaftMaxAppendEntries : Z;
  JobExecutionTimeout : Z;
  JobExecutionRetryDelay : Z;
  JobExecutionRetryMax : Z;
  MaxWorkers : Z;
  MaxQueue : Z;
  MaxMemory : Z;
  ExecutionLogFetchFanIn : Z;
  ExecutionLogFetchIntervalSeconds : Z;
  HTTPExecutorPayloadMaxSizeMb : Z }.

(** The zero value. *)
Definition configurations_zero : Scheduler0Configurations :=
  mkConfigurations "" "" "" "" [] 0 0 0 false 0 "" "" 0 0 0 0 0 0 0 0 0 0 0 0 0 0 0 0 0.

Record scheduler0Secrets := mkSecrets { SecretKey : string; AuthUsername : string; AuthPassword : string }.

#[global] Instance secrets_eq_dec : EqDecision scheduler0Secrets.
Proof. solve_decision. Defined.

(** ** strconv *)

Definition digit (c : ascii) : option Z :=
  let n := Z.of_N (N_of_ascii c) in
  if (48 <=? n) && (n <=? 57) then Some (n - 48) else None.

(** The digits of a [uint64]: a value that does not fit is an error. *)
Fixpoint parse_digits (s : string) (acc : Z) : option Z :=
  match s with
  | EmptyString => Some acc
  | String c s' =>
      d ← digit c;
      if acc * 10 + d <=? MaxUint64 then parse_digits s' (acc * 10 + d) else None
  end.

(** [strconv.ParseUint(s, 10, 64)] *)
Definition ParseUint (s : string) : option Z :=
  match s with EmptyString => None | _ => parse_digits s 0 end.

(** [strconv.FormatUint(n, 10)] *)
Definition FormatUint (n : Z) : string := pretty (Z.to_N n).

(** [strconv.ParseBool] *)
Definition ParseBool (s : string) : option bool :=
  if bool_decide (s ∈ ["1"; "t"; "T"; "TRUE"; "true"; "True"]) then Some true
  else if bool_decide (s ∈ ["0"; "f"; "F"; "FALSE"; "false"; "False"]) then Some false
  else None.

Definition FormatBool (b : bool) : string := if b then "true" else "false".

(** ** Documents *)

(** Text that JSON keeps as it is: Go replaces bytes that are not UTF-8. *)
Fixpoint is_ascii (s : string) : bool :=
  match s with
  | EmptyString => true
  | String c s' => (N_of_ascii c <? 128)%N && is_ascii s'
  end.

Definition replica_text (r : RaftNode) : Prop :=
  is_ascii (rn_Address r) = true /\ is_ascii (rn_RaftAddress r) = true /\ 0 <= rn_NodeId r <= MaxUint64.
Definition secrets_text (s : scheduler0Secrets) : Prop :=
  is_ascii (SecretKey s) = true /\ is_ascii (AuthUsername s) = true /\ is_ascii (AuthPassword s) = true.

(** encoding/json on the replicas and the secrets, and yaml.v2 on the
    configuration: [yaml_Unmarshal] sets the fields the document names. *)
Class ConfigFormats := {
  encode_replicas : list RaftNode -> string;
  decode_replicas : string -> result string (list RaftNode);
  encode_secrets : scheduler0Secrets -> string;
  decode_secrets : string -> result string scheduler0Secrets;
  yaml_Unmarshal : string -> Scheduler0Configurations -> result string Scheduler0Configurations }.

Class FormatLaws (F : ConfigFormats) : Prop := {
  replicas_roundtrip rs : Forall replica_text rs -> decode_replicas (encode_replicas rs) = Ok rs;
  secrets_roundtrip s : secrets_text s -> decode_secrets (encode_secrets s) = Ok s;
  yaml_empty c : yaml_Unmarshal "" c = Ok c }.

(** What [afero.ReadFile] gives. *)
Inductive file_read := FileData (data : string) | FileNotExist | FileError.

(** ** The environment

    A variable that is not set leaves the zero value; one that does not
    parse is fatal. *)

Section Environment.
Context {formats : ConfigFormats}.

Definition env_string (env : gmap string string) (key : string) : option string :=
  Some (default "" (env !! key)).
Definition env_uint (env : gmap string string) (key : string) : option Z :=
  match env !! key with Some val => ParseUint val | None => Some 0 end.
Definition env_bool (env : gmap string string) (key : string) : option bool :=
  match env !! key with Some val => ParseBool val | None => Some false end.
Definition env_replicas (env : gmap string string) (key : string) : option (list RaftNode) :=
  match env !! key with
  | Some val => match decode_replicas val with Ok replicas => Some replicas | Err _ => None end
  | None => Some []
  end.

(** The settings of raft. *)
Definition env_raft (env : gmap string string) : option (Z * Z * Z * Z * Z * Z * Z * Z) :=
  raftTransportMaxPool ← env_uint env "SCHEDULER0_RAFT_TRANSPORT_MAX_POOL";
  raftTransportTimeout ← env_uint env "SCHEDULER0_RAFT_TRANSPORT_TIMEOUT";
  raftSnapshotInterval ← env_uint env "SCHEDULER0_RAFT_SNAPSHOT_INTERVAL";
  raftSnapshotThreshold ← env_uint env "SCHEDULER0_RAFT_SNAPSHOT_THRESHOLD";
  raftHeartbeatTimeout ← env_uint env "SCHEDULER0_RAFT_HEARTBEAT_TIMEOUT";
  raftElectionTimeout ← env_uint env "SCHEDULER0_RAFT_ELECTION_TIMEOUT";
  raftCommitTimeout ← env_uint env "SCHEDULER0_RAFT_COMMIT_TIMEOUT";
  raftMaxAppendEntries ← env_uint env "SCHEDULER0_RAFT_MAX_APPEND_ENTRIES";
  Some (raftTransportMaxPool, raftTransportTimeout, raftSnapshotInterval, raftSnapshotThreshold,
        raftHeartbeatTimeout, raftElectionTimeout, raftCommitTimeout, raftMaxAppendEntries).

(** The settings of the executor, the pool and the fan-in. *)
Definition env_execution (env : gmap string string) : option (Z * Z * Z * Z * Z * Z * Z * Z) :=
  jobExecutionTimeout ← env_uint env "SCHEDULER0_JOB_EXECUTION_TIMEOUT";
  jobExecutionRetryDelay ← env_uint env "SCHEDULER0_JOB_EXECUTION_RETRY_DELAY";
  jobExecutionRetryMax ← env_uint env "SCHEDULER0_JOB_EXECUTION_RETRY_MAX";
  maxWorkers ← env_uint env "SCHEDULER0_MAX_WORKERS";
  maxMemory ← env_uint env "SCHEDULER0_MAX_MEMORY";
  executionLogFetchFanIn ← env_uint env "SCHEDULER0_EXECUTION_LOG_FETCH_FAN_IN";
  executionLogFetchIntervalSeconds ← env_uint env "SCHEDULER0_EXECUTION_LOG_FETCH_INTERVAL_SECONDS";
  httpExecutorPayloadMaxSizeMb ← env_uint env "SCHEDULER0_HTTP_EXECUTOR_PAYLOAD_MAX_SIZE_MB";
  Some (jobExecutionTimeout, jobExecutionRetryDelay, jobExecutionRetryMax, maxWorkers,
        maxMemory, executionLogFetchFanIn, executionLogFetchIntervalSeconds, httpExecutorPayloadMaxSizeMb).

(** [MaxQueue] has no variable. *)
Definition getConfigFromEnv (env : gmap string string) : option Scheduler0Configurations :=
  logLevel ← env_string env "SCHEDULER0_LOGLEVEL";
  protocol ← env_string env "SCHEDULER0_PROTOCOL";
  host ← env_string env "SCHEDULER0_HOST";
  port ← env_string env "SCHEDULER0_PORT";
  replicas ← env_replicas env "SCHEDULER0_REPLICAS";
  peerAuthRequestTimeoutMs ← env_uint env "SCHEDULER0_PEER_AUTH_REQUEST_TIMEOUT_MS";
  peerConnectRetryMax ← env_uint env "SCHEDULER0_PEER_CONNECT_RETRY_MAX";
  peerConnectRetryDelaySeconds ← env_uint env "SCHEDULER0_PEER_CONNECT_RETRY_DELAY_SECONDS";
  bootstrap ← env_bool env "SCHEDULER0_BOOTSTRAP";
  nodeId ← env_uint env "SCHEDULER0_NODE_ID";
  nodeAdvAddress ← env_string env "SCHEDULER0_NODE_ADV_ADDRESS";
  raftAddress ← env_string env "SCHEDULER0_RAFT_ADDRESS";
  '(raftTransportMaxPool, raftTransportTimeout, raftSnapshotInterval, raftSnapshotThreshold,
    raftHeartbeatTimeout, raftElectionTimeout, raftCommitTimeout, raftMaxAppendEntries) ← env_raft env;
  '(jobExecutionTimeout, jobExecutionRetryDelay, jobExecutionRetryMax, maxWorkers,
    maxMemory, executionLogFetchFanIn, executionLogFetchIntervalSeconds, httpExecutorPayloadMaxSizeMb) ← env_execution env;
  Some (mkConfigurations logLevel protocol host port replicas peerAuthRequestTimeoutMs peerConnectRetryMax
    peerConnectRetryDelaySeconds bootstrap nodeId nodeAdvAddress raftAddress
    raftTransportMaxPool raftTransportTimeout raftSnapshotInterval raftSnapshotThreshold
    raftHeartbeatTimeout raftElectionTimeout raftCommitTimeout raftMaxAppendEntries
    jobExecutionTimeout jobExecutionRetryDelay jobExecutionRetryMax maxWorkers 0 maxMemory
    executionLogFetchFanIn executionLogFetchIntervalSeconds httpExecutorPayloadMaxSizeMb).

(** The file is read over the zero value, the environment only without a
    file; the document is then empty. *)
Definition GetConfigurations (file : file_read) (env : gmap string string)
    : option Scheduler0Configurations :=
  '(data, config) ←
    match file with
    | FileError => None
    | FileNotExist => config ← getConfigFromEnv env; Some ("", config)
    | FileData data => Some (data, configurations_zero)
    end;
  match yaml_Unmarshal data config with
  | Ok config => Some config
  | Err _ => None
  end.

(** ** Secrets

    The state is the package's cache and the file on disk. *)

Record secrets_state := mkSecretsState { cachedSecrets : option scheduler0Secrets; secretsFile : file_read }.

Definition getSecretsFromEnv (env : gmap string string) : scheduler0Secrets :=
  mkSecrets (default "" (env !! "SCHEDULER0_SECRET_KEY")) (default "" (env !! "SCHEDULER0_AUTH_USERNAME"))
    (default "" (env !! "SCHEDULER0_AUTH_PASSWORD")).

Definition GetSecrets (env : gmap string string) : Go secrets_state scheduler0Secrets :=
  st ← gets id;
  match cachedSecrets st with
  | Some s => mret s
  | None =>
      secrets ←
        match secretsFile st with
        | FileError => crash
        | FileNotExist => mret (getSecretsFromEnv env)
        | FileData data => match decode_secrets data with Ok s => mret s | Err _ => crash end
        end;
      modify (fun st => mkSecretsState (Some secrets) (secretsFile st));;
      mret secrets
  end.

(** [writable] is whether the file can be written; a failure is a panic. *)
Definition SaveSecrets (writable : bool) (credentialsInput : scheduler0Secrets)
    : Go secrets_state scheduler0Secrets :=
  if writable then
    modify (fun _ => mkSecretsState (Some credentialsInput) (FileData (encode_secrets credentialsInput)));;
    mret credentialsInput
  else crash.

End Environment.

(** ** Addresses and retries *)

Definition GetServerHTTPAddress (configs : Scheduler0Configurations) : string :=
  Protocol configs +:+ "://" +:+ Host configs +:+ ":" +:+ Port configs.

Definition GetNodeServerAddressWithRaftAddress (configs : Scheduler0Configurations) (raftAddress : string)
    : string :=
  match List.find (fun replica => String.eqb (rn_RaftAddress replica) raftAddress) (Replicas configs) with
  | Some replica => rn_Address replica
  | None => ""
  end.

Definition GetNodeIdWithRaftAddress (configs : Scheduler0Configurations) (raftAddress : string)
    : result string Z :=
  match List.find (fun replica => String.eqb (rn_RaftAddress replica) raftAddress) (Replicas configs) with
  | Some replica => Ok (i64 (rn_NodeId replica))
  | None => Err "cannot find node with raft address"
  end.

Definition GetNodeIdWithServerAddress (configs : Scheduler0Configurations) (serverAddress : string)
    : result string Z :=
  match List.find (fun replica => String.eqb (rn_Address replica) serverAddress) (Replicas configs) with
  | Some replica => Ok (i64 (rn_NodeId replica))
  | None => Err "cannot find node with server address"
  end.

(** The loop of [RetryOnError] after the first failure. *)
Fixpoint retry_loop {S E} (callback : Go S (option E)) (numberOfRetriesLeft : nat) (lastKnowError : option E)
    : Go S (option E) :=
  match numberOfRetriesLeft with
  | O => mret lastKnowError
  | S n =>
      e ← callback;
      match e with
      | Some _ => retry_loop callback n e
      | None => mret None
      end
  end.

Definition RetryOnError {S E} (callback : Go S (option E)) (maxRetry : Z) : Go S (option E) :=
  e ← callback;
  match e with
  | None => mret None
  | Some _ => retry_loop callback (Z.to_nat maxRetry) e
  end.
