(* ===== verification/ConfigFacts.v ===== *)
(** * Theorems about the configuration *)

From stdpp Require Import countable.
From stdpp Require Import base list gmap strings pretty.
From Stdlib Require Import ZArith Ascii Lia.
From S2P Require Import Prelude Config.

#[local] Open Scope Z_scope.

(** ** Numbers in text *)

Definition fits (n : Z) : Prop := 0 <= n <= MaxUint64.

Lemma digit_pretty (x : N) : (x < 10)%N -> digit (pretty_N_char x) = Some (Z.of_N x).
Proof.
  intros H. assert (x ∈ [0; 1; 2; 3; 4; 5; 6; 7; 8; 9])%N as Hx by (rewrite !elem_of_cons; lia).
  repeat (apply elem_of_cons in Hx as [->|Hx]; [reflexivity|]). by apply elem_of_nil in Hx.
Qed.

(** Reading the digits of a number, most significant first. *)
Lemma parse_pretty (x : N) s :
  Z.of_N x <= MaxUint64 -> parse_digits (pretty_N_go x s) 0 = parse_digits s (Z.of_N x).
Proof.
  revert s. induction (N.lt_wf_0 x) as [x _ IH]; intros s Hx.
  destruct (decide (x = 0)%N) as [->|Hne]; [by rewrite pretty_N_go_0|].
  rewrite pretty_N_go_step by lia.
  assert (x / 10 < x)%N by (apply N.div_lt; lia).
  rewrite IH by lia. cbn [parse_digits].
  rewrite digit_pretty by (apply N.mod_lt; lia). cbn.
  replace (Z.of_N (x / 10) * 10 + Z.of_N (x mod 10)) with (Z.of_N x);
    [by rewrite (proj2 (Z.leb_le _ _))|].
  pose proof (N.div_mod x 10). lia.
Qed.

Lemma pretty_N_nonempty x : pretty (x : N) <> "".
Proof.
  unfold pretty, pretty_N. destruct (decide (x = 0)%N) as [->|Hx]; [done|].
  assert (forall y s, s <> "" -> pretty_N_go y s <> "") as H.
  { intros y. induction (N.lt_wf_0 y) as [y _ IH]; intros s Hs.
    destruct (decide (y = 0)%N) as [->|Hy]; [by rewrite pretty_N_go_0|].
    rewrite pretty_N_go_step by lia. apply IH; [apply N.div_lt; lia|done]. }
  rewrite pretty_N_go_step by lia. by apply H.
Qed.

Lemma ParseUint_FormatUint n : fits n -> ParseUint (FormatUint n) = Some n.
Proof.
  intros [H0 H1]. unfold ParseUint, FormatUint. pose proof (pretty_N_nonempty (Z.to_N n)) as Hne.
  destruct (pretty (Z.to_N n)) eqn:E; [done|]. rewrite <- E. unfold pretty, pretty_N.
  destruct (decide (Z.to_N n = 0)%N) as [Hz|Hz]; [by assert (n = 0) as -> by lia|].
  rewrite parse_pretty by lia. cbn. f_equal. lia.
Qed.

Lemma parse_digits_fits s acc n : fits acc -> parse_digits s acc = Some n -> fits n.
Proof.
  revert acc. induction s as [|c s IH]; cbn; intros acc Ha; [by intros [= <-]|].
  destruct (digit c) as [d|] eqn:Ed; [|done]. cbn.
  destruct (Z.leb_spec (acc * 10 + d) MaxUint64); [|done]. apply IH. split; [|done].
  unfold digit in Ed. revert Ed. destruct (_ && _) eqn:Eb; [|done]. intros [= <-].
  apply andb_prop in Eb as [?%Z.leb_le _]. destruct Ha. lia.
Qed.

Lemma ParseUint_fits s n : ParseUint s = Some n -> fits n.
Proof. destruct s; [done|]. apply parse_digits_fits. split; go_lia. Qed.

Lemma ParseBool_FormatBool b : ParseBool (FormatBool b) = Some b.
Proof. by destruct b. Qed.

(** ** The environment *)

Section Facts.
Context {formats : ConfigFormats} {laws : FormatLaws formats}.

Definition numbers (c : Scheduler0Configurations) : list Z :=
  [PeerAuthRequestTimeoutMs c; PeerConnectRetryMax c; PeerConnectRetryDelaySeconds c; NodeId c;
   RaftTransportMaxPool c; RaftTransportTimeout c; RaftSnapshotInterval c;
   RaftSnapshotThreshold c; RaftHeartbeatTimeout c; RaftElectionTimeout c; RaftCommitTimeout c;
   RaftMaxAppendEntries c; JobExecutionTimeout c; JobExecutionRetryDelay c;
   JobExecutionRetryMax c; MaxWorkers c; MaxQueue c; MaxMemory c; ExecutionLogFetchFanIn c;
   ExecutionLogFetchIntervalSeconds c; HTTPExecutorPayloadMaxSizeMb c].

(** The configuration without its [MaxQueue]. *)
Definition without_MaxQueue (c : Scheduler0Configurations) : Scheduler0Configurations :=
  mkConfigurations (LogLevel c) (Protocol c) (Host c) (Port c) (Replicas c) (PeerAuthRequestTimeoutMs c)
    (PeerConnectRetryMax c) (PeerConnectRetryDelaySeconds c) (Bootstrap c) (NodeId c)
    (NodeAdvAddress c) (RaftAddress c) (RaftTransportMaxPool c) (RaftTransportTimeout c)
    (RaftSnapshotInterval c) (RaftSnapshotThreshold c) (RaftHeartbeatTimeout c)
    (RaftElectionTimeout c) (RaftCommitTimeout c) (RaftMaxAppendEntries c)
    (JobExecutionTimeout c) (JobExecutionRetryDelay c) (JobExecutionRetryMax c) (MaxWorkers c) 0
    (MaxMemory c) (ExecutionLogFetchFanIn c) (ExecutionLogFetchIntervalSeconds c)
    (HTTPExecutorPayloadMaxSizeMb c).

(** The environment that describes a configuration. *)
Definition environment_of (c : Scheduler0Configurations) : list (string * string) :=
  [("SCHEDULER0_LOGLEVEL", LogLevel c);
   ("SCHEDULER0_PROTOCOL", Protocol c);
   ("SCHEDULER0_HOST", Host c);
   ("SCHEDULER0_PORT", Port c);
   ("SCHEDULER0_REPLICAS", encode_replicas (Replicas c));
   ("SCHEDULER0_PEER_AUTH_REQUEST_TIMEOUT_MS", FormatUint (PeerAuthRequestTimeoutMs c));
   ("SCHEDULER0_PEER_CONNECT_RETRY_MAX", FormatUint (PeerConnectRetryMax c));
   ("SCHEDULER0_PEER_CONNECT_RETRY_DELAY_SECONDS", FormatUint (PeerConnectRetryDelaySeconds c));
   ("SCHEDULER0_BOOTSTRAP", FormatBool (Bootstrap c));
   ("SCHEDULER0_NODE_ID", FormatUint (NodeId c));
   ("SCHEDULER0_NODE_ADV_ADDRESS", NodeAdvAddress c);
   ("SCHEDULER0_RAFT_ADDRESS", RaftAddress c);
   ("SCHEDULER0_RAFT_TRANSPORT_MAX_POOL", FormatUint (RaftTransportMaxPool c));
   ("SCHEDULER0_RAFT_TRANSPORT_TIMEOUT", FormatUint (RaftTransportTimeout c));
   ("SCHEDULER0_RAFT_SNAPSHOT_INTERVAL", FormatUint (RaftSnapshotInterval c));
   ("SCHEDULER0_RAFT_SNAPSHOT_THRESHOLD", FormatUint (RaftSnapshotThreshold c));
   ("SCHEDULER0_RAFT_HEARTBEAT_TIMEOUT", FormatUint (RaftHeartbeatTimeout c));
   ("SCHEDULER0_RAFT_ELECTION_TIMEOUT", FormatUint (RaftElectionTimeout c));
   ("SCHEDULER0_RAFT_COMMIT_TIMEOUT", FormatUint (RaftCommitTimeout c));
   ("SCHEDULER0_RAFT_MAX_APPEND_ENTRIES", FormatUint (RaftMaxAppendEntries c));
   ("SCHEDULER0_JOB_EXECUTION_TIMEOUT", FormatUint (JobExecutionTimeout c));
   ("SCHEDULER0_JOB_EXECUTION_RETRY_DELAY", FormatUint (JobExecutionRetryDelay c));
   ("SCHEDULER0_JOB_EXECUTION_RETRY_MAX", FormatUint (JobExecutionRetryMax c));
   ("SCHEDULER0_MAX_WORKERS", FormatUint (MaxWorkers c));
   ("SCHEDULER0_MAX_MEMORY", FormatUint (MaxMemory c));
   ("SCHEDULER0_EXECUTION_LOG_FETCH_FAN_IN", FormatUint (ExecutionLogFetchFanIn c));
   ("SCHEDULER0_EXECUTION_LOG_FETCH_INTERVAL_SECONDS", FormatUint (ExecutionLogFetchIntervalSeconds c));
   ("SCHEDULER0_HTTP_EXECUTOR_PAYLOAD_MAX_SIZE_MB", FormatUint (HTTPExecutorPayloadMaxSizeMb c))].

(** Every variable of the description is set so. *)
Definition describes (env : gmap string string) (c : Scheduler0Configurations) : Prop :=
  Forall (fun '(k, v) => env !! k = Some v) (environment_of c).



(** Saved secrets are those of the process, and those of the next one. *)
Lemma secrets_survive_restart s env st :
  secrets_text s ->
  exists st1 st2,
    SaveSecrets true s st = Some (s, st1) /\ GetSecrets env st1 = Some (s, st1) /\
    GetSecrets env (mkSecretsState None (secretsFile st1)) = Some (s, st2).
Proof.
  intros Hs. do 2 eexists. split_and!; [done|done|]. unfold GetSecrets. rewrite go_bind_gets. cbn.
  by rewrite secrets_roundtrip.
Qed.

End Facts.

(** ** A concrete configuration *)

(** Values as text, in binary. *)
Fixpoint bits (p : positive) : string :=
  match p with xH => EmptyString | xO q => String "0"%char (bits q) | xI q => String "1"%char (bits q) end.
Fixpoint unbits (s : string) : positive :=
  match s with
  | EmptyString => xH
  | String c s' => if Ascii.eqb c "0"%char then xO (unbits s') else xI (unbits s')
  end.

Lemma unbits_bits p : unbits (bits p) = p.
Proof. induction p; cbn; congruence. Qed.

Definition to_text {A} `{Countable A} (a : A) : string := bits (encode a).
Definition of_text {A} `{Countable A} (s : string) : result string A :=
  match decode (unbits s) with Some a => Ok a | None => Err "invalid character" end.

Lemma of_text_to_text {A} `{Countable A} (a : A) : of_text (to_text a) = Ok a.
Proof. unfold of_text, to_text. by rewrite unbits_bits, decode_encode. Qed.

#[export] Instance raft_node_countable : Countable RaftNode :=
  inj_countable' (fun r => (rn_Address r, rn_RaftAddress r, rn_NodeId r))
    (fun '(a, b, c) => mkRaftNode a b c) (fun '(mkRaftNode _ _ _) => eq_refl).
#[export] Instance secrets_countable : Countable scheduler0Secrets :=
  inj_countable' (fun s => (SecretKey s, AuthUsername s, AuthPassword s))
    (fun '(a, b, c) => mkSecrets a b c) (fun '(mkSecrets _ _ _) => eq_refl).

#[local] Instance text_formats : ConfigFormats := {|
  encode_replicas := to_text;
  decode_replicas := of_text;
  encode_secrets := to_text;
  decode_secrets := of_text;
  yaml_Unmarshal data c := if String.eqb data "" then Ok c else Err "yaml: line 1" |}.

#[local] Instance text_laws : FormatLaws text_formats.
Proof. split; intros; try done; apply of_text_to_text. Defined.

Definition sample_configs : Scheduler0Configurations :=
  mkConfigurations "debug" "http" "a" "9090" [mkRaftNode "http://a:9090" "ra" 1; mkRaftNode "http://b:9090" "rb" 2]
    500 10 1 true 1 "a:7070" "ra" 3 15 1 8192 2000 2000 50 64 30 1 3 8 512 1024 2 5 MaxUint64.


