(* ===== verification/HttpExecutor.v ===== *)
(** * Executing jobs over HTTP

    pkg/service/executor/executors/http_post.go: jobs are grouped by callback
    url, each group is cut into payloads, and each payload is posted by a
    function the worker pool runs, with retries. *)

From stdpp Require Import base list gmap strings pretty.
From Stdlib Require Import ZArith Ascii Lia.
From S2P Require Import Prelude Models JobTime Batcher Sql Fsm Config.

#[local] Open Scope Z_scope.

Notation bytes := (list ascii).

(** ** encoding/json on jobs *)

(** A time keeps its instant; its location becomes that of its offset. *)
Class ExecJson := {
  marshal_jobs : list Job -> bytes;
  unmarshal_jobs : bytes -> list Job * option string;
  wire_location : Time -> string }.

Definition wire_time {j : ExecJson} (t : Time) : Time := mkTime (t_ns t) (wire_location t).
Definition wire_job {j : ExecJson} (job : Job) : Job :=
  mkJob (ID job) (ProjectID job) (Spec job) (CallbackUrl job) (Data job) (ExecutionType job)
    (wire_time (StartDate job)) (wire_time (EndDate job)) (wire_time (LastExecutionDate job))
    (Timezone job) (TimezoneOffset job) (ExecutionId job) (wire_time (DateCreated job)).

(** Text that is not UTF-8 and years beyond 9999 are not kept. *)
Definition job_text (job : Job) : bool :=
  is_ascii (Spec job) && is_ascii (CallbackUrl job) && is_ascii (Data job) && is_ascii (ExecutionType job) &&
  is_ascii (Timezone job) && is_ascii (ExecutionId job) &&
  forallb (fun t => json_marshalable (VTime (t_ns t)))
    [StartDate job; EndDate job; LastExecutionDate job; DateCreated job].

Class ExecJsonLaws (j : ExecJson) : Prop := {
  unmarshal_marshal jobs :
    Forall (fun job => job_text job = true) jobs ->
    unmarshal_jobs (marshal_jobs jobs) = (wire_job <$> jobs, None) }.

(** ** Works for the pool *)

Record http_work := mkHttpWork { hw_url : string; hw_body : bytes; hw_chunkId : Z }.

(** What becomes of a request: it cannot be made, gets no answer, or a
    status. *)
Inductive post_outcome := NotCreated (err : string) | NotAnswered (err : string) | Status (code : Z).

Section Handler.
Context {json : ExecJson} (configs : Scheduler0Configurations).

(** [urlJobCache] *)
Definition group_by_url (pendingJobs : list Job) : gmap string (list Job) :=
  foldl (fun cache pj => <[CallbackUrl pj := default [] (cache !! CallbackUrl pj) ++ [pj]]> cache) ∅ pendingJobs.

Definition url_works (rurl : string) (uJc : list Job) : option (list http_work) :=
  batches ← BatchByBytes marshal_jobs uJc (i64 (HTTPExecutorPayloadMaxSizeMb configs));
  Some (imap (fun i batch => mkHttpWork rurl batch (Z.of_nat i)) batches).

(** The works in the order they are queued; [order] is the order the map is
    visited in. *)
Definition ExecuteHTTPJob (order : gmap string (list Job) -> list (string * list Job)) (pendingJobs : list Job)
    : option (list http_work) :=
  works ← mapM (fun '(rurl, uJc) => url_works rurl uJc) (order (group_by_url pendingJobs));
  Some (concat works).

Definition unwrapBatch (data : bytes) : list Job := fst (unmarshal_jobs data).

(** [net n w] is what becomes of the [n]th request, for the work [w]; the
    state counts the requests. *)
Context {R : Type} (net : nat -> http_work -> post_outcome).
Context (successCallback errorCallback : list Job -> Go R unit).

Definition post (w : http_work) : Go (nat * R) post_outcome := fun '(n, r) => Some (net n w, (S n, r)).
Definition on_rest {A} (m : Go R A) : Go (nat * R) A := fun '(n, r) =>
  '(a, r') ← m r; Some (a, (n, r')).

(** The function [RetryOnError] retries. *)
Definition attempt (w : http_work) : Go (nat * R) (option string) :=
  res ← post w;
  match res with
  | NotCreated err | NotAnswered err =>
      on_rest (errorCallback (unwrapBatch (hw_body w)));;
      mret (Some err)
  | Status code =>
      if (200 <=? code) || (code <=? 299) then
        on_rest (successCallback (unwrapBatch (hw_body w)));;
        mret None
      else
        on_rest (errorCallback (unwrapBatch (hw_body w)));;
        mret (Some ("subscriber failed to fully requests status code: " +:+ pretty code))
  end.

(** The function that is queued. *)
Definition run_http_work (w : http_work) : Go (nat * R) unit :=
  RetryOnError (attempt w) (JobExecutionRetryMax configs);;
  mret tt.

(** ** Retries as attempts *)

Fixpoint attempts (n : nat) (w : http_work) : Go (nat * R) unit :=
  match n with
  | O => mret tt
  | S n' =>
      e ← attempt w;
      match e with
      | Some _ => attempts n' w
      | None => mret tt
      end
  end.

Lemma run_http_work_attempts w s :
  run_http_work w s = attempts (S (Z.to_nat (JobExecutionRetryMax configs))) w s.
Proof.
  unfold run_http_work, RetryOnError. cbn [attempts]. rewrite go_bind_assoc, !go_bind_eq.
  destruct (attempt w s) as [[[err|] s1]|]; [|done|done]. revert err s1.
  induction (Z.to_nat (JobExecutionRetryMax configs)) as [|n IH]; intros err s1; [done|].
  cbn [retry_loop attempts]. rewrite go_bind_assoc, !go_bind_eq.
  destruct (attempt w s1) as [[[err2|] s2]|]; [|done|done]. apply IH.
Qed.

(** Any status is a success. *)
Lemma status_success code : (200 <=? code) || (code <=? 299) = true.
Proof. destruct (Z.leb_spec 200 code), (Z.leb_spec code 299); try done; lia. Qed.

Lemma attempt_status w n r code :
  net n w = Status code ->
  attempt w (n, r) = ('(_, r') ← successCallback (unwrapBatch (hw_body w)) r; Some (None, (S n, r'))).
Proof.
  intros H. unfold attempt. rewrite go_bind_eq. cbn. rewrite H, status_success, go_bind_eq.
  unfold on_rest. by destruct (successCallback _ r) as [[[] r']|].
Qed.

Definition answers (o : post_outcome) : bool := match o with Status _ => true | _ => false end.

Lemma attempt_error w n r :
  answers (net n w) = false ->
  exists err, attempt w (n, r) =
    ('(_, r') ← errorCallback (unwrapBatch (hw_body w)) r; Some (Some err, (S n, r'))).
Proof.
  intros H. unfold attempt. rewrite go_bind_eq. cbn. destruct (net n w) as [err|err|code] eqn:E; [| |done];
    exists err; rewrite go_bind_eq; unfold on_rest; by destruct (errorCallback _ r) as [[[] r']|].
Qed.

End Handler.

(** ** The works cover the jobs *)

Section Cover.
Context {json : ExecJson} {laws : ExecJsonLaws json} (configs : Scheduler0Configurations).

Definition at_url (url : string) (job : Job) : bool := String.eqb (CallbackUrl job) url.

Lemma group_by_url_snoc jobs job :
  group_by_url (jobs ++ [job]) =
  <[CallbackUrl job := default [] (group_by_url jobs !! CallbackUrl job) ++ [job]]> (group_by_url jobs).
Proof. unfold group_by_url. by rewrite foldl_app. Qed.

Lemma group_by_url_lookup jobs url :
  group_by_url jobs !! url =
  match List.filter (at_url url) jobs with [] => None | l => Some l end.
Proof.
  induction jobs as [|job jobs IH] using rev_ind; [done|]. rewrite group_by_url_snoc, List.filter_app.
  cbn [List.filter]. unfold at_url at 2. destruct (String.eqb_spec (CallbackUrl job) url) as [<-|Hne].
  - rewrite lookup_insert_eq, IH. by destruct (List.filter _ jobs).
  - rewrite lookup_insert_ne by done. by rewrite app_nil_r.
Qed.

(** The groups together are the jobs. *)
Lemma group_by_url_jobs jobs : concat (snd <$> map_to_list (group_by_url jobs)) ≡ₚ jobs.
Proof.
  induction jobs as [|job jobs IH] using rev_ind; [done|]. rewrite group_by_url_snoc.
  set (m := group_by_url jobs) in *. set (k := CallbackUrl job).
  rewrite <- insert_delete_eq, map_to_list_insert by apply lookup_delete_eq. rewrite fmap_cons. cbn [concat snd].
  destruct (m !! k) as [l|] eqn:E; cbn [from_option]; cbv beta delta [id].
  - rewrite <- (insert_id m k l E), <- insert_delete_eq, map_to_list_insert in IH by apply lookup_delete_eq.
    rewrite fmap_cons in IH. cbn [concat snd] in IH. rewrite <- IH. rewrite <- !app_assoc. f_equiv.
    apply Permutation_app_comm.
  - rewrite delete_id by done. rewrite IH. change ([] ++ [job]) with [job].
    apply Permutation_app_comm.
Qed.

Definition decoded (w : http_work) : list Job := unwrapBatch (hw_body w).

(** No group is cut into batches of no job. *)
Definition payload_fits (job : Job) : Prop :=
  items_per_batch (Z.of_nat (length (marshal_jobs [job]))) (i64 (HTTPExecutorPayloadMaxSizeMb configs)) <> 0.

Lemma imap_works url (l : list bytes) k :
  let works := imap (fun i batch => mkHttpWork url batch (Z.of_nat (k + i))) l in
  hw_body <$> works = l /\ (hw_url <$> works) = replicate (length l) url /\
  hw_chunkId <$> works = zseq (Z.of_nat k) (length l).
Proof.
  revert k. induction l as [|b l IH]; intros k; [done|]. cbn [imap]. rewrite !fmap_cons.
  destruct (IH (S k)) as (H1 & H2 & H3).
  assert (imap (fun i batch => mkHttpWork url batch (Z.of_nat (S k + i))) l =
          imap ((fun i batch => mkHttpWork url batch (Z.of_nat (k + i))) ∘ S) l) as E.
  { apply imap_ext. intros i x _. cbn. f_equal. lia. }
  rewrite E in *. cbn [length replicate zseq]. rewrite H1, H2, H3. cbn. rewrite Nat.add_0_r.
  split_and!; [done|done|]. f_equal. f_equal. lia.
Qed.

Lemma url_works_ok url job jobs :
  payload_fits job -> Forall (fun job => job_text job = true) (job :: jobs) ->
  exists works, url_works configs url (job :: jobs) = Some works /\
    Forall (fun w => hw_url w = url) works /\ hw_chunkId <$> works = zseq 0 (length works) /\
    concat (decoded <$> works) = wire_job <$> job :: jobs.
Proof.
  intros Hf Ht. unfold url_works.
  destruct (BatchByBytes marshal_jobs (job :: jobs) (i64 (HTTPExecutorPayloadMaxSizeMb configs))) as [l|] eqn:E.
  2: { exfalso. cbn in E. case_match eqn:E2; [|done]. apply Z.eqb_eq in E2. by apply Hf. }
  eexists. split; [reflexivity|]. apply BatchByBytes_chunks in E as (chunks & -> & Hc).
  destruct (imap_works url (marshal_jobs <$> chunks) 0) as (H1 & H2 & H3). cbn [Nat.add] in *.
  set (works := imap _ _) in *.
  assert (Hlen : length works = length (marshal_jobs <$> chunks)) by (by rewrite <- H1, length_fmap).
  split_and!.
  - apply Forall_forall. intros w Hw%(list_elem_of_fmap_2 hw_url). rewrite H2 in Hw.
    by apply elem_of_replicate in Hw as [-> _].
  - by rewrite H3, Hlen.
  - replace (decoded <$> works) with (unwrapBatch <$> (hw_body <$> works)) by (by rewrite <- list_fmap_compose).
    rewrite H1, <- Hc. clear -Ht Hc laws.
    rewrite <- Hc in Ht. clear Hc. induction chunks as [|c chunks IH]; [done|]. cbn [concat] in *.
    apply Forall_app in Ht as [Ht1 Ht2]. rewrite !fmap_cons, fmap_app. cbn [concat]. rewrite <- (IH Ht2).
    f_equal. unfold unwrapBatch. by rewrite unmarshal_marshal.
Qed.

Definition for_url (url : string) (w : http_work) : bool := String.eqb (hw_url w) url.

Lemma for_url_all url (works : list http_work) :
  Forall (fun w => hw_url w = url) works -> List.filter (for_url url) works = works.
Proof.
  intros H. apply filter_all. intros w Hw. rewrite Forall_forall in H. apply String.eqb_eq. by apply H.
Qed.

Lemma for_url_none url url' (works : list http_work) :
  Forall (fun w => hw_url w = url') works -> url' <> url -> List.filter (for_url url) works = [].
Proof.
  intros H Hne. apply filter_none. intros w Hw. rewrite Forall_forall in H. apply String.eqb_neq.
  by rewrite (H w Hw).
Qed.

(** The works of a list of groups. *)
Lemma groups_works (groups : list (string * list Job)) :
  NoDup (fst <$> groups) ->
  Forall (fun g => snd g <> [] /\ Forall (fun job => payload_fits job /\ job_text job = true) (snd g)) groups ->
  exists works, mapM (fun '(rurl, uJc) => url_works configs rurl uJc) groups = Some works /\
    concat (decoded <$> concat works) = wire_job <$> concat (snd <$> groups) /\
    (forall url, url ∉ fst <$> groups -> List.filter (for_url url) (concat works) = []) /\
    forall url jobs, (url, jobs) ∈ groups ->
      concat (decoded <$> List.filter (for_url url) (concat works)) = wire_job <$> jobs /\
      hw_chunkId <$> List.filter (for_url url) (concat works) =
        zseq 0 (length (List.filter (for_url url) (concat works))).
Proof.
  induction groups as [|[url jobs] groups IH]; intros Hnd HF.
  { exists []. split_and!; [done|done|done|]. by intros ? ? ?%not_elem_of_nil. }
  rewrite fmap_cons in Hnd. apply NoDup_cons in Hnd as [Hni Hnd].
  apply Forall_cons in HF as [[Hne Hg] HF]. cbn [fst snd] in *.
  destruct jobs as [|job jobs]; [done|].
  destruct (url_works_ok url job jobs) as (ws & Hws & Hurl & Hids & Hdec).
  { by apply Forall_cons in Hg as [[? _] _]. }
  { eapply Forall_impl; [exact Hg|]. by intros ? []. }
  destruct (IH Hnd HF) as (works & Hm & Hall & Hnone & Hsome).
  exists (ws :: works). cbn [mapM]. rewrite Hws. cbn. rewrite Hm. cbn [concat mbind option_bind].
  rewrite !fmap_app, !concat_app, Hdec, Hall, !fmap_cons. cbn [concat fst snd].
  split_and!; [done|done| |].
  - intros url' [Hu1 Hu2]%not_elem_of_cons. rewrite List.filter_app, (for_url_none url' url) by done.
    cbn. by apply Hnone.
  - intros url' jobs'. rewrite List.filter_app, elem_of_cons. intros [[= -> ->]|Hin].
    + rewrite for_url_all, Hnone by done. rewrite app_nil_r. by split.
    + rewrite (for_url_none url' url) by (try done; intros ->; apply Hni; by apply (list_elem_of_fmap_2 fst) in Hin).
      by apply Hsome.
Qed.

Lemma ExecuteHTTPJob_works order jobs :
  order (group_by_url jobs) ≡ₚ map_to_list (group_by_url jobs) ->
  Forall (fun job => payload_fits job /\ job_text job = true) jobs ->
  exists works, ExecuteHTTPJob configs order jobs = Some works /\
    concat (decoded <$> works) ≡ₚ wire_job <$> jobs /\
    forall url, let posted := List.filter (for_url url) works in
      concat (decoded <$> posted) = wire_job <$> List.filter (at_url url) jobs /\
      hw_chunkId <$> posted = zseq 0 (length posted).
Proof.
  intros Ho HF. unfold ExecuteHTTPJob. set (groups := order (group_by_url jobs)) in *.
  assert (Hin : forall url l, (url, l) ∈ groups <-> group_by_url jobs !! url = Some l).
  { intros url l. by rewrite Ho, elem_of_map_to_list. }
  destruct (groups_works groups) as (works & -> & Hall & Hnone & Hsome).
  { rewrite Ho. apply NoDup_fst_map_to_list. }
  { apply Forall_forall. intros [url l] Hg. apply Hin in Hg. rewrite group_by_url_lookup in Hg.
    destruct (List.filter (at_url url) jobs) as [|j l'] eqn:E; [done|]. injection Hg as <-. cbn. split; [done|].
    rewrite <- E. by apply Forall_filter. }
  eexists. split; [reflexivity|]. split.
  - rewrite Hall. apply fmap_Permutation. rewrite Ho. apply group_by_url_jobs.
  - intros url. destruct (group_by_url jobs !! url) as [l|] eqn:E.
    + destruct (Hsome url l) as [-> ->]; [by apply Hin|]. split; [|done].
      rewrite group_by_url_lookup in E. destruct (List.filter (at_url url) jobs); by simplify_eq.
    + rewrite (Hnone url); [|intros ([u l] & -> & Hg)%list_elem_of_fmap; apply Hin in Hg; cbn in *; congruence].
      rewrite group_by_url_lookup in E. by destruct (List.filter (at_url url) jobs).
Qed.

(** C20: The requests cover the jobs: for each callback url the payloads
    posted there, numbered from 0, hold exactly the jobs with that url, in
    order; no job is left out, posted twice, or posted elsewhere. *)
Theorem ExecuteHTTPJob_covers order jobs :
  order (group_by_url jobs) ≡ₚ map_to_list (group_by_url jobs) ->
  Forall (fun job => payload_fits job /\ job_text job = true) jobs ->
  exists works, ExecuteHTTPJob configs order jobs = Some works /\
    concat (decoded <$> works) ≡ₚ wire_job <$> jobs /\
    forall url, let posted := List.filter (for_url url) works in
      concat (decoded <$> posted) = wire_job <$> List.filter (at_url url) jobs /\
      hw_chunkId <$> posted = zseq 0 (length posted).
Proof. apply ExecuteHTTPJob_works. Qed.

End Cover.
