(* ===== verification/Execution.v ===== *)
(** * The life of an execution

    The executor, the debounced flush, the HTTP executor and its callbacks
    together: from a schedule that is due to the next one. *)

From stdpp Require Import base list gmap strings pretty.
From Stdlib Require Import ZArith Ascii Lia.
From S2P Require Import Prelude Models JobTime Batcher Sql Fsm Config Executor ExecutorFacts HttpExecutor.

#[local] Open Scope Z_scope.

Section Execution.
Context {W : Type} `{ExecutorLaws W} {json : ExecJson}.
Context (configs : Scheduler0Configurations) (net : nat -> http_work -> post_outcome).

(** The callbacks [flush] hands to [ExecuteHTTPJob]. *)
Notation success := (handleSuccessJobs (NodeId configs) (JobExecutionRetryMax configs)).
Notation failure := (handleFailedJobs (NodeId configs) (JobExecutionRetryMax configs)).
Notation try_work := (attempts (R := W * jobExecutor) net success failure).
Notation run_work := (run_http_work (R := W * jobExecutor) configs net success failure).

(** One of the requests from the [n]th on, [S m] at most, is answered. *)
Definition answered (w : http_work) (n m : nat) : bool := existsb (fun i => answers (net i w)) (seq n (S m)).
Definition end_state (w : http_work) (n m : nat) : Z :=
  if answered w n m then ExecutionLogSuccessState else ExecutionLogFailedState.

(** The execution in the cache has failed [k] times and has a next one. *)
Definition under_way (now : Time) (e : jobExecutor) (k : Z) (job : Job) : Prop :=
  (exists t, GetNextExecutionTime now job = Some (Ok t)) /\
  exists c t, jobExecutionsCache e !! ID job = Some c /\ m_FailCount c = k /\
    GetNextExecutionTime now (follow c job) = Some (Ok t).

Lemma under_way_plannable now e state k jobs :
  state <> ExecutionLogFailedState \/ JobExecutionRetryMax configs <= k ->
  Forall (under_way now e k) jobs ->
  Forall (fun job => exists t, GetNextExecutionTime now job = Some (Ok t)) jobs /\
  Forall (plannable (JobExecutionRetryMax configs) now state e) jobs.
Proof.
  intros Hs HF. split; (eapply Forall_impl; [exact HF|]); intros job (Ht & c & t & Hc & Hk & Hn); [done|].
  exists c, t. split_and!; [done| |done]. unfold retries. rewrite Hk.
  destruct Hs as [Hs|?]; [by rewrite (proj2 (Z.eqb_neq _ _) Hs)|]. rewrite (proj2 (Z.ltb_ge _ _)) by done. apply andb_false_r.
Qed.

(** A failed attempt keeps what the next execution is computed from. *)
Lemma counted_planned now state e e1 e2 jobs :
  Forall (counted e e1) jobs -> Forall (planned now state e1 e2) jobs -> Forall (planned now state e e2) jobs.
Proof.
  rewrite !Forall_forall. intros H1 H2 job Hj. destruct (H1 job Hj) as (c & Hc & Hc1).
  destruct (H2 job Hj) as (c1 & t & Hc1' & Ht & Hle & Ha & Hs). rewrite Hc1 in Hc1'. injection Hc1' as <-.
  exists c, t. by split_and!.
Qed.

Lemma counted_under_way now e e1 k jobs :
  0 <= k < MaxUint64 -> Forall (counted e e1) jobs -> Forall (under_way now e k) jobs ->
  Forall (under_way now e1 (k + 1)) jobs.
Proof.
  intros Hk. rewrite !Forall_forall. intros H1 H2 job Hj. destruct (H1 job Hj) as (c & Hc & Hc1).
  destruct (H2 job Hj) as (Ht & c' & t & Hc' & Hf & Hn). rewrite Hc in Hc'. injection Hc' as <-.
  split; [done|]. exists (failed_once c), t. split_and!; [done| |done].
  cbn. rewrite Hf, u64_small; [done|go_lia].
Qed.

(** What an attempt that ends the retries leaves. *)
Definition settled (state : Z) (jobs : list Job) (w w' : W) (e e' : jobExecutor) : Prop :=
  ex_ready w' /\ ex_clock w' = ex_clock w /\ Forall (planned (ex_clock w) state e e') jobs /\
  same_outside (ID <$> jobs) e e' /\ pendingJobInvocations e' = pendingJobInvocations e.

Lemma attempt_answered hw n w e k :
  let jobs := unwrapBatch (hw_body hw) in
  ex_ready w -> NoDup (ID <$> jobs) -> answers (net n hw) = true ->
  Forall (under_way (ex_clock w) e k) jobs ->
  exists w' e', attempt net success failure hw (n, (w, e)) = Some (None, (S n, (w', e'))) /\
    settled ExecutionLogSuccessState jobs w w' e e'.
Proof.
  intros jobs Hr Hnd Ha HF. destruct (net n hw) as [| |code] eqn:En; [done..|].
  destruct (under_way_plannable (ex_clock w) e ExecutionLogSuccessState k jobs) as [H1' H2']; [by left|done|].
  destruct (handleJobs_plans (NodeId configs) _ _ jobs w e Hr Hnd H1' H2') as (w' & e' & Hgo & Hrest).
  exists w', e'. split; [|done]. rewrite (attempt_status _ _ _ _ _ _ code) by done. unfold handleSuccessJobs.
  fold jobs. by rewrite Hgo.
Qed.

(** The last attempt fails. *)
Lemma attempt_exhausted hw n w e :
  let jobs := unwrapBatch (hw_body hw) in
  ex_ready w -> NoDup (ID <$> jobs) -> answers (net n hw) = false ->
  Forall (under_way (ex_clock w) e (JobExecutionRetryMax configs)) jobs ->
  exists err w' e', attempt net success failure hw (n, (w, e)) = Some (Some err, (S n, (w', e'))) /\
    settled ExecutionLogFailedState jobs w w' e e'.
Proof.
  intros jobs Hr Hnd Ha HF. destruct (attempt_error net success failure hw n (w, e) Ha) as [err ->].
  destruct (under_way_plannable (ex_clock w) e ExecutionLogFailedState _ jobs (or_intror (Z.le_refl _)) HF)
    as [H1' H2'].
  destruct (handleJobs_plans (NodeId configs) _ _ jobs w e Hr Hnd H1' H2') as (w' & e' & Hgo & Hrest).
  exists err, w', e'. split; [|done]. unfold handleFailedJobs. fold jobs. by rewrite Hgo.
Qed.

(** An attempt fails and others follow. *)
Lemma attempt_counted hw n w e k :
  let jobs := unwrapBatch (hw_body hw) in
  ex_ready w -> NoDup (ID <$> jobs) -> answers (net n hw) = false ->
  0 <= k < JobExecutionRetryMax configs -> JobExecutionRetryMax configs <= MaxUint64 ->
  Forall (under_way (ex_clock w) e k) jobs ->
  exists err w' e', attempt net success failure hw (n, (w, e)) = Some (Some err, (S n, (w', e'))) /\
    ex_ready w' /\ ex_clock w' = ex_clock w /\ Forall (under_way (ex_clock w) e' (k + 1)) jobs /\
    scheduledJobs e' = scheduledJobs e /\ pendingJobInvocations e' = pendingJobInvocations e /\
    (forall i, i ∉ ID <$> jobs -> jobExecutionsCache e' !! i = jobExecutionsCache e !! i) /\
    Forall (counted e e') jobs /\
    (forall state w'' e'', settled state jobs w' w'' e' e'' -> settled state jobs w w'' e e'').
Proof.
  intros jobs Hr Hnd Ha Hk HM HF. destruct (attempt_error net success failure hw n (w, e) Ha) as [err ->].
  destruct (handleFailedJobs_counts (NodeId configs) (JobExecutionRetryMax configs) jobs w e Hr Hnd)
    as (w' & e' & Hgo & Hr' & Hc' & Hs & Hp & Ho & Hct).
  { eapply Forall_impl; [exact HF|]. by intros job []. }
  { eapply Forall_impl; [exact HF|]. intros job (_ & c & t & ? & ? & _). exists c. split; [done|lia]. }
  exists err, w', e'. fold jobs. rewrite Hgo. split_and!; [done|done|done| |done..|].
  - eapply counted_under_way; [lia|exact Hct|done].
  - intros state w'' e'' (H1' & H2' & H3' & H4' & H5'). rewrite Hc' in *. split_and!; [done|done| | |congruence].
    + by eapply counted_planned.
    + intros i Hi. destruct (H4' i Hi) as [-> ->]. by rewrite Ho, Hs.
Qed.

(** The attempts of one payload, [m] of them left after the next one. *)
Lemma attempts_plan m hw n w e :
  let jobs := unwrapBatch (hw_body hw) in
  ex_ready w -> NoDup (ID <$> jobs) -> 0 <= JobExecutionRetryMax configs <= MaxUint64 ->
  Z.of_nat m <= JobExecutionRetryMax configs ->
  Forall (under_way (ex_clock w) e (JobExecutionRetryMax configs - Z.of_nat m)) jobs ->
  exists n' w' e', try_work (S m) hw (n, (w, e)) = Some (tt, (n', (w', e'))) /\
    settled (end_state hw n m) jobs w w' e e'.
Proof.
  intros jobs Hr Hnd HM Hm. revert n w e Hr. unfold end_state, answered.
  induction m as [|m IH]; intros n w e Hr HF; cbn [seq existsb];
    destruct (answers (net n hw)) eqn:Ea; cbn [orb].
  1, 3: destruct (attempt_answered hw n w e _ Hr Hnd Ea HF) as (w' & e' & Hgo & Hset);
        exists (S n), w', e'; split; [|done]; cbn [attempts]; by rewrite (go_bind_Some _ _ _ _ _ Hgo).
  - rewrite Z.sub_0_r in HF. destruct (attempt_exhausted hw n w e Hr Hnd Ea HF) as (err & w' & e' & Hgo & Hset).
    exists (S n), w', e'. split; [|done]. cbn [attempts]. by rewrite (go_bind_Some _ _ _ _ _ Hgo).
  - destruct (attempt_counted hw n w e (JobExecutionRetryMax configs - Z.of_nat (S m)) Hr Hnd Ea
                ltac:(lia) ltac:(lia) HF) as (err & w1 & e1 & Hgo & Hr1 & Hc1 & HF1 & _ & _ & _ & _ & Hset).
    destruct (IH ltac:(lia) (S n) w1 e1 Hr1) as (n' & w' & e' & Hgo' & Hset').
    { rewrite Hc1. replace (JobExecutionRetryMax configs - Z.of_nat m) with
        (JobExecutionRetryMax configs - Z.of_nat (S m) + 1) by lia. done. }
    exists n', w', e'. split; [|by apply Hset].
    cbn [attempts]. rewrite (go_bind_Some _ _ _ _ _ Hgo). exact Hgo'.
Qed.

Lemma run_work_settled hw n w e :
  let jobs := unwrapBatch (hw_body hw) in
  let retries := Z.to_nat (JobExecutionRetryMax configs) in
  ex_ready w -> NoDup (ID <$> jobs) -> 0 <= JobExecutionRetryMax configs <= MaxUint64 ->
  Forall (under_way (ex_clock w) e 0) jobs ->
  exists n' w' e', run_work hw (n, (w, e)) = Some (tt, (n', (w', e'))) /\
    settled (end_state hw n retries) jobs w w' e e'.
Proof.
  intros jobs retries Hr Hnd HM HF. rewrite run_http_work_attempts.
  apply attempts_plan; [done|done|done|lia|].
  unfold retries. by rewrite Z2Nat.id, Z.sub_diag by lia.
Qed.

(** C19: A payload that is posted is settled, whatever the network does:
    when one of the attempts [RetryOnError] makes is answered, its jobs have
    their next executions planned after a success, and when none is, after a
    failure; the failures in between only count.  No other job changes. *)
Theorem execution_settles hw n w e :
  let jobs := unwrapBatch (hw_body hw) in
  let retries := Z.to_nat (JobExecutionRetryMax configs) in
  ex_ready w -> NoDup (ID <$> jobs) -> 0 <= JobExecutionRetryMax configs <= MaxUint64 ->
  Forall (under_way (ex_clock w) e 0) jobs ->
  exists n' w' e', run_work hw (n, (w, e)) = Some (tt, (n', (w', e'))) /\
    settled (end_state hw n retries) jobs w w' e e'.
Proof. apply run_work_settled. Qed.

(** ** From one schedule to the next *)

(** What decides a job's activations survives the encoding. *)
Lemma GetNext_wire now c job :
  GetNextExecutionTime now (wire_job job) = GetNextExecutionTime now job /\
  GetNextExecutionTime now (follow c (wire_job job)) = GetNextExecutionTime now (follow c job).
Proof.
  unfold GetNextExecutionTime, ConvertTimeToJobTimezone, IsZero, In_loc, wire_job, follow. cbn.
  destruct (cron_parse (Spec job)); [|done]. destruct (load_location (Timezone job)); [|by repeat case_match].
  split.
  - by destruct (t_ns (LastExecutionDate job) =? 0).
  - by destruct (t_ns (m_NextExecutionDatetime c) =? 0).
Qed.

(** Works that have no job in common. *)
Lemma works_settled works n w e :
  let jobs := concat (decoded <$> works) in
  ex_ready w -> NoDup (ID <$> jobs) -> 0 <= JobExecutionRetryMax configs <= MaxUint64 ->
  Forall (under_way (ex_clock w) e 0) jobs ->
  exists n' w' e', go_for (fun _ hw => run_work hw) works tt (n, (w, e)) = Some (tt, (n', (w', e'))) /\
    ex_ready w' /\ ex_clock w' = ex_clock w /\
    Forall (fun job => exists state, state ∈ [ExecutionLogSuccessState; ExecutionLogFailedState] /\
              planned (ex_clock w) state e e' job) jobs /\
    same_outside (ID <$> jobs) e e' /\ pendingJobInvocations e' = pendingJobInvocations e.
Proof.
  intros jobs Hr. subst jobs. revert n w e Hr. induction works as [|hw works IH]; intros n w e Hr Hnd HM HF.
  { exists n, w, e. by split_and!. }
  rewrite fmap_cons in *. cbn [concat] in *. rewrite fmap_app in Hnd |- *. apply Forall_app in HF as [HF1 HF2].
  apply NoDup_app in Hnd as (Hnd1 & Hdis & Hnd2).
  destruct (run_work_settled hw n w e Hr Hnd1 HM HF1) as (n1 & w1 & e1 & Hgo & Hr1 & Hc1 & Hp1 & Ho1 & Hpd1).
  assert (Hsame : forall job, job ∈ concat (decoded <$> works) ->
            jobExecutionsCache e1 !! ID job = jobExecutionsCache e !! ID job).
  { intros job Hj. apply Ho1. intros Hin. apply (Hdis _ Hin). by apply list_elem_of_fmap_2. }
  destruct (IH n1 w1 e1 Hr1 Hnd2 HM) as (n' & w' & e' & Hgo' & Hr' & Hc' & Hp' & Ho' & Hpd').
  { rewrite Forall_forall in HF2 |- *. intros job Hj. rewrite Hc1. unfold under_way. rewrite Hsame by done.
    by apply HF2. }
  exists n', w', e'. cbn [go_for]. rewrite (go_bind_Some _ _ _ _ _ Hgo). split; [exact Hgo'|].
  split_and!; [done|congruence| | |congruence].
  - apply Forall_app. rewrite !Forall_forall in *. split; intros job Hj.
    + exists (end_state hw n (Z.to_nat (JobExecutionRetryMax configs))).
      split; [unfold end_state; case_match; set_solver|].
      destruct (Hp1 job Hj) as (c & t & Hc & Ht & Hle & Ha & Hs). exists c, t.
      destruct (Ho' (ID job)) as [-> ->]; [|by split_and!]. apply Hdis. by apply list_elem_of_fmap_2.
    + destruct (Hp' job Hj) as (state & Hst & c & t & Hc & Ht & Hle & Ha & Hs). exists state. split; [done|].
      exists c, t. rewrite <- Hsame by done. rewrite <- Hc1. by split_and!.
  - intros k [Hk1 Hk2]%not_elem_of_app. destruct (Ho' k Hk2) as [-> ->]. by apply Ho1.
Qed.

Lemma concat_fmap_perm {A B} (f : A -> list B) (l l' : list A) :
  l ≡ₚ l' -> concat (f <$> l) ≡ₚ concat (f <$> l').
Proof.
  induction 1 as [|x l l' _ IH|x y l|l1 l2 l3 _ IH1 _ IH2]; rewrite ?fmap_cons; cbn [concat].
  - done.
  - by rewrite IH.
  - rewrite !app_assoc. by rewrite (Permutation_app_comm (f y)).
  - by rewrite IH1.
Qed.

(** The jobs of the schedules that are due. *)
Definition due_jobs (now : Time) (e : jobExecutor) : list Job :=
  (fun en => js_Job (snd en)) <$> due_entries now (map_to_list (scheduledJobs e)).

Lemma due_jobs_ids now e :
  sched_wf (scheduledJobs e) -> ID <$> due_jobs now e = fst <$> due_entries now (map_to_list (scheduledJobs e)).
Proof.
  intros Hwf. unfold due_jobs. rewrite <- list_fmap_compose. apply list_fmap_ext. intros i [k s] Hi. cbn.
  apply list_elem_of_lookup_2, elem_of_filter_bool in Hi as [Hi _]. apply elem_of_map_to_list in Hi. by apply Hwf.
Qed.

Lemma due_jobs_nodup now e : sched_wf (scheduledJobs e) -> NoDup (ID <$> due_jobs now e).
Proof.
  intros Hwf. rewrite due_jobs_ids by done. unfold due_entries.
  assert (forall l : list (Z * JobSchedule), NoDup (fst <$> l) ->
            NoDup (fst <$> List.filter (fun en => due now (snd en)) l)) as Hf.
  { induction l as [|x l IH]; [done|]. rewrite fmap_cons. intros [Hn Hnd]%NoDup_cons. cbn [List.filter].
    case_match; [|by apply IH]. rewrite fmap_cons. apply NoDup_cons. split; [|by apply IH].
    intros (y & E & [Hy _]%elem_of_filter_bool)%list_elem_of_fmap. apply Hn. rewrite E. by apply list_elem_of_fmap_2. }
  apply Hf, NoDup_fst_map_to_list.
Qed.

(** A tick, the flush the debounced call ends in, and the works it queues. *)
Definition invoke (order : gmap Z JobSchedule -> list (Z * JobSchedule))
    (url_order : gmap string (list Job) -> list (string * list Job)) : Go (W * jobExecutor) (list http_work) :=
  tick order;;
  jobs ← flush;
  lift_opt (ExecuteHTTPJob configs url_order jobs).

(** C6: Every execution leads to the next one.  The schedules that are due
    at a tick are taken off, handed over and posted; in whatever order the
    worker pool runs the requests, and however many of them fail, each of
    these jobs is afterwards on the schedule at its next activation, not in
    the past, and the schedules that were not due are as before. *)
Theorem due_executions_replanned {laws : ExecJsonLaws json} order url_order w e n :
  let jobs := due_jobs (ex_clock w) e in
  ex_ready w -> sched_wf (scheduledJobs e) -> pendingJobInvocations e = [] ->
  order (scheduledJobs e) ≡ₚ map_to_list (scheduledJobs e) -> (forall m, url_order m ≡ₚ map_to_list m) ->
  (forall ids, ids ≡ₚ ID <$> jobs -> exists stored, ex_BatchGetJobsByID ids w = Some (Ok stored, w) /\
                                       ID <$> stored ≡ₚ ids) ->
  0 <= JobExecutionRetryMax configs <= MaxUint64 ->
  Forall (fun job => ExecutionType job = ExecutionTypeHTTP /\ payload_fits configs job /\
            job_text job = true /\ under_way (ex_clock w) e 0 job) jobs ->
  exists works e1, invoke order url_order (w, e) = Some (works, (w, e1)) /\
    forall works', works' ≡ₚ works ->
    exists n' w' e', go_for (fun _ hw => run_work hw) works' tt (n, (w, e1)) = Some (tt, (n', (w', e'))) /\
      Forall (fun job => exists state, state ∈ [ExecutionLogSuccessState; ExecutionLogFailedState] /\
                planned (ex_clock w) state e e' (wire_job job)) jobs /\
      pendingJobInvocations e' = [] /\
      forall k s, scheduledJobs e !! k = Some s -> due (ex_clock w) s = false -> scheduledJobs e' !! k = Some s.
Proof.
  intros jobs Hr Hwf Hpend Ho Hu Hget HM HF.
  destruct (tick_due order w e Hr Hwf Ho) as (e0 & Ht & Hp0 & Hs0 & Hc0). rewrite Hpend in Hp0. cbn [app] in Hp0.
  fold (due_jobs (ex_clock w) e) in Hp0. fold jobs in Hp0.
  assert (Hnd : NoDup (ID <$> jobs)) by (by apply due_jobs_nodup).
  destruct (Hget (ID <$> pendingJobInvocations e0)) as (stored & Hst & Hids); [by rewrite Hp0|].
  destruct (flush_all w e0 stored w Hst Hids) as (out & Hfl & Hout).
  { by rewrite Hp0. }
  { rewrite Hp0. eapply Forall_impl; [exact HF|]. by intros job []. }
  rewrite Hp0 in Hout.
  destruct (ExecuteHTTPJob_works configs url_order out) as (works & Hw & Hdec & _); [apply Hu| |].
  { rewrite Hout. eapply Forall_impl; [exact HF|]. by intros job (_ & ? & ? & _). }
  exists works, (with_pending [] e0). split.
  { unfold invoke. rewrite (go_bind_Some _ _ _ _ _ Ht), (go_bind_Some _ _ _ _ _ Hfl). unfold lift_opt.
    by rewrite Hw. }
  intros works' Hw'. rewrite Hout in Hdec.
  assert (Hjobs : concat (decoded <$> works') ≡ₚ wire_job <$> jobs).
  { by rewrite <- Hdec, (concat_fmap_perm decoded _ _ Hw'). }
  assert (Hid : ID <$> concat (decoded <$> works') ≡ₚ ID <$> jobs).
  { rewrite Hjobs, <- list_fmap_compose. done. }
  destruct (works_settled works' n w (with_pending [] e0) Hr) as (n' & w' & e' & Hgo & _ & _ & Hpl & Hsame & Hpd).
  { by rewrite Hid. }
  { done. }
  { rewrite Hjobs. apply Forall_fmap. eapply Forall_impl; [exact HF|].
    intros job (_ & _ & _ & (t & Hn) & c & t' & Hc & Hk & Hn').
    destruct (GetNext_wire (ex_clock w) c job) as [E1 E2]. split; [exists t; cbn; congruence|].
    exists c, t'. cbn. rewrite Hc0. split_and!; [done|done|congruence]. }
  exists n', w', e'. split_and!; [done| |done|].
  - rewrite Hjobs in Hpl. rewrite Forall_forall in Hpl |- *. intros job Hj.
    destruct (Hpl (wire_job job)) as (state & Hst' & c & t & Hc & Hrest); [by apply list_elem_of_fmap_2|].
    exists state. split; [done|]. exists c, t. cbn in Hc. rewrite Hc0 in Hc. by split.
  - intros k s Hk Hd. destruct (Hsame k) as [_ ->].
    + rewrite Hid. unfold jobs. rewrite due_jobs_ids, (elem_of_due (ex_clock w) (scheduledJobs e)) by done.
      intros (s' & Hs' & Hd'). congruence.
    + cbn. rewrite Hs0. apply map_lookup_filter_Some. by split.
Qed.

End Execution.
