(* ===== verification/ExecutionRuns.v ===== *)
(** * A concrete execution

    A codec for the payloads, and the due job of a node through failed and
    answered requests. *)

From Stdlib Require Import String.
From stdpp Require Import countable base list gmap strings pretty.
From Stdlib Require Import ZArith Ascii Lia.
From S2P Require Import Prelude Models JobTime Batcher Sql Fsm Replication Inserts JobQueueRepo JobRepo ExecutionsRepo.
From S2P Require Import Config ConfigFacts Executor ExecutorFacts ExecutorImpl HttpExecutor Execution.

#[local] Open Scope Z_scope.

(** A job as the list of its fields. *)
Definition job_fields (j : Job) : list (Z + string) :=
  [inl (ID j); inl (ProjectID j); inr (Spec j); inr (CallbackUrl j); inr (Data j); inr (ExecutionType j);
   inl (t_ns (StartDate j)); inr (t_loc (StartDate j)); inl (t_ns (EndDate j)); inr (t_loc (EndDate j));
   inl (t_ns (LastExecutionDate j)); inr (t_loc (LastExecutionDate j)); inr (Timezone j);
   inl (TimezoneOffset j); inr (ExecutionId j); inl (t_ns (DateCreated j)); inr (t_loc (DateCreated j))].
Definition fields_job (l : list (Z + string)) : option Job :=
  match l with
  | [inl a; inl b; inr c; inr d; inr e; inr f; inl g1; inr g2; inl h1; inr h2; inl i1; inr i2; inr j; inl k; inr l;
     inl m1; inr m2] =>
      Some (mkJob a b c d e f (mkTime g1 g2) (mkTime h1 h2) (mkTime i1 i2) j k l (mkTime m1 m2))
  | _ => None
  end.

#[local] Instance job_countable : Countable Job.
Proof. apply (inj_countable job_fields fields_job). by intros [? ? ? ? ? ? [] [] [] ? ? ? []]. Defined.

#[local] Instance bits_exec_json : ExecJson := {|
  marshal_jobs l := list_ascii_of_string (to_text l);
  unmarshal_jobs b := match of_text (string_of_list_ascii b) with
                      | Ok l => (l, None)
                      | Err e => ([], Some e)
                      end;
  wire_location t := t_loc t |}.

Lemma wire_job_id job : wire_job job = job.
Proof. by destruct job as [? ? ? ? ? ? [] [] [] ? ? ? []]. Qed.

#[local] Instance bits_exec_laws : ExecJsonLaws bits_exec_json.
Proof.
  split. intros jobs _. cbn [unmarshal_jobs marshal_jobs bits_exec_json].
  rewrite string_of_list_ascii_of_string, of_text_to_text. f_equal.
  rewrite (list_fmap_ext _ id); [by rewrite list_fmap_id|]. intros. apply wire_job_id.
Qed.

#[local] Existing Instance sample_env.
#[local] Existing Instance plain_codec.

Definition one_node : Scheduler0Configurations :=
  mkConfigurations "" "http" "a" "1" [] 0 0 0 true 1 "" "ra" 0 0 0 0 0 0 0 0 0 0 3 0 0 0 0 0 1.
(** Two requests are not answered, the third is. *)
Definition third_answered (n : nat) (_ : http_work) : post_outcome :=
  match n with O | S O => NotAnswered "timeout" | _ => Status 500 end.

Lemma payload_fits_4 : payload_fits one_node (sample_job 4) /\ job_text (sample_job 4) = true.
Proof. split; [|reflexivity]. unfold payload_fits. vm_compute. discriminate. Qed.

Lemma under_way_4 : under_way time10 busy 0 (sample_job 4).
Proof.
  split; [exists lagos10; vm_compute; reflexivity|]. exists mem4, lagos10.
  split_and!; vm_compute; reflexivity.
Qed.

Definition work_4 : http_work := mkHttpWork "http://x" (marshal_jobs [sample_job 4]) 0.

Lemma execution_settles_witness :
  exists n' w' e',
    run_http_work (R := World * jobExecutor) one_node third_answered (handleSuccessJobs 1 3)
      (handleFailedJobs 1 3) work_4 (0%nat, (exec_world, busy)) = Some (tt, (n', (w', e'))) /\
    settled ExecutionLogSuccessState [sample_job 4] exec_world w' busy e'.
Proof.
  assert (unwrapBatch (hw_body work_4) = [sample_job 4]) as E by (vm_compute; reflexivity). rewrite <- E.
  apply (execution_settles one_node third_answered work_4 0 exec_world busy); rewrite ?E.
  - apply exec_world_ready.
  - apply NoDup_singleton.
  - vm_compute. split; discriminate.
  - constructor; [apply under_way_4|constructor].
Defined.

Lemma due_executions_replanned_witness :
  exists works e1, invoke one_node map_to_list map_to_list (exec_world, busy) = Some (works, (exec_world, e1)) /\
    forall works', works' ≡ₚ works ->
    exists n' w' e',
      go_for (fun _ hw => run_http_work (R := World * jobExecutor) one_node third_answered (handleSuccessJobs 1 3)
                (handleFailedJobs 1 3) hw) works' tt (0%nat, (exec_world, e1)) = Some (tt, (n', (w', e'))) /\
      Forall (fun job => exists state, state ∈ [ExecutionLogSuccessState; ExecutionLogFailedState] /\
                planned time10 state busy e' (wire_job job)) [sample_job 4] /\
      pendingJobInvocations e' = [] /\
      forall k s, scheduledJobs busy !! k = Some s -> due time10 s = false -> scheduledJobs e' !! k = Some s.
Proof.
  assert (due_jobs (ex_clock exec_world) busy = [sample_job 4]) as E by (vm_compute; reflexivity).
  destruct (due_executions_replanned one_node third_answered map_to_list map_to_list exec_world busy 0)
    as (works & e1 & Hgo & Hall).
  - apply exec_world_ready.
  - apply busy_wf.
  - reflexivity.
  - reflexivity.
  - reflexivity.
  - rewrite E. intros ids Hp. exists [sample_job 4]. apply Permutation_singleton_r in Hp as ->.
    split; [vm_compute; reflexivity|reflexivity].
  - vm_compute. split; discriminate.
  - rewrite E. destruct payload_fits_4. constructor; [|constructor].
    split_and!; [reflexivity|done|done|apply under_way_4].
  - rewrite E in Hall. exists works, e1. split; [exact Hgo|exact Hall].
Defined.

(** Jobs of two urls. *)
Definition at_y (job : Job) : Job :=
  mkJob (ID job) (ProjectID job) (Spec job) "http://y" (Data job) (ExecutionType job) (StartDate job) (EndDate job)
    (LastExecutionDate job) (Timezone job) (TimezoneOffset job) (ExecutionId job) (DateCreated job).
Definition three_jobs : list Job := [sample_job 4; at_y (sample_job 5); sample_job 6].

Lemma ExecuteHTTPJob_covers_witness :
  exists works, ExecuteHTTPJob one_node map_to_list three_jobs = Some works /\
    List.concat (decoded <$> works) ≡ₚ wire_job <$> three_jobs /\
    forall url, let posted := List.filter (for_url url) works in
      List.concat (decoded <$> posted) = wire_job <$> List.filter (at_url url) three_jobs /\
      hw_chunkId <$> posted = zseq 0 (length posted).
Proof.
  apply (ExecuteHTTPJob_covers one_node map_to_list three_jobs); [reflexivity|].
  repeat constructor; unfold payload_fits; vm_compute; discriminate.
Defined.
