(* ===== verification/Node.v ===== *)
(** * The node service: pkg/service/node/node.go, node_http_client.go

    A node follows the leadership of raft.  A new leader stops the workers,
    commits its own uncommitted data, collects ("fans in") the uncommitted
    data of every peer over HTTP in three phases, and only then queues the
    jobs and accepts writes.  The state of a node is that of its services
    and its own flags; the answers of the peers come from the list
    [replies], one per request.  Each goroutine is a definition of its own;
    FanIn.v interleaves them. *)

From stdpp Require Import base list gmap strings pretty.
From Stdlib Require Import ZArith Lia.
From S2P Require Import Prelude Models JobTime Batcher Sql Fsm Replication Inserts Reads JobQueueRepo.
From S2P Require Import Queue JobRepo ExecutionsRepo AsyncRepo Executor ExecutorImpl Processor.
From S2P Require Import AsyncService AsyncImpl Config.

#[local] Open Scope Z_scope.

(** ** Data *)

Record LocalData := mkLocalData { ld_AsyncTasks : list AsyncTask; ld_ExecutionLogs : list JobExecutionLog }.

#[global] Instance local_data_eq_dec : EqDecision LocalData.
Proof. solve_decision. Defined.

Definition local_data_zero : LocalData := mkLocalData [] [].

Inductive PeerFanInState := PeerFanInStateNotStated | PeerFanInStateGetRequestId
                          | PeerFanInStateGetExecutionsLogs | PeerFanInStateComplete.

#[global] Instance peer_fan_in_state_eq_dec : EqDecision PeerFanInState.
Proof. solve_decision. Defined.

Record PeerFanIn := mkPeerFanIn {
  pf_PeerHTTPAddress : string;
  pf_RequestId : string;
  pf_State : PeerFanInState;
  pf_Data : LocalData }.

#[global] Instance peer_fan_in_eq_dec : EqDecision PeerFanIn.
Proof. solve_decision. Defined.

Record Status := mkStatus { IsLeader : bool; IsAuth : bool; IsAlive : bool }.

(** What [http.Client.Do] gives, and the body and its [Close]. *)
Record http_response := mkHttpResponse {
  hr_StatusCode : Z;
  hr_Location : string;
  hr_Body : result string string;
  hr_Close : option string }.
(** One attempt: the request could not be built, sent, or was answered. *)
Inductive http_reply := NoRequest (e : string) | NoReply (e : string) | Reply (r : http_response).

(** encoding/json on the documents the nodes exchange.  [decode_jobs] gives
    what is in the variable and the error. *)
Class PeerJson := {
  encode_LocalData : LocalData -> result string string;
  decode_LocalData : string -> result string LocalData;
  decode_AsyncTaskRes : string -> result string AsyncTask;
  decode_IsLeader : string -> result string bool;
  decode_jobs : string -> list Job * option string;
  encode_job_ids : option (list Z) -> string }.

(** A request the node sent: the address and the path. *)
Record request := mkRequest { rq_Address : string; rq_Path : string }.

(** ** State *)

Record nodeService := mkNodeService {
  n_world : World;
  n_queue : jobQueue;
  n_executor : jobExecutor;
  n_async : asyncTaskService;
  acceptClientWrites : bool;
  acceptRequest : bool;
  SingleNodeMode : bool;
  isExistingNode : bool;
  raftServers : list string;               (* GetServersOnRaftCluster, their raft addresses *)
  fanIns : gmap string PeerFanIn;
  completedFanInCh : gmap string PeerFanIn;
  fanInLoops : nat;                        (* goroutines of fanInLocalDataFromPeers *)
  replies : list http_reply;
  requests : list request;
  asyncTaskRepo : bool }.                  (* the field is not nil *)

(** [NewNode] does not set [asyncTaskRepo]. *)
Definition NewNode (w : World) (q : jobQueue) (e : jobExecutor) (a : asyncTaskService)
    (isExisting : bool) (servers : list string) (answers : list http_reply) : nodeService :=
  mkNodeService w q e a false false false isExisting servers ∅ ∅ 0 answers [] false.

Definition with_parts (w : World) (q : jobQueue) (e : jobExecutor) (a : asyncTaskService)
    (n : nodeService) : nodeService :=
  mkNodeService w q e a (acceptClientWrites n) (acceptRequest n) (SingleNodeMode n) (isExistingNode n)
    (raftServers n) (fanIns n) (completedFanInCh n) (fanInLoops n) (replies n) (requests n) (asyncTaskRepo n).
Definition with_writes (b : bool) (n : nodeService) : nodeService :=
  mkNodeService (n_world n) (n_queue n) (n_executor n) (n_async n) b (acceptRequest n)
    (SingleNodeMode n) (isExistingNode n) (raftServers n) (fanIns n) (completedFanInCh n)
    (fanInLoops n) (replies n) (requests n) (asyncTaskRepo n).
Definition with_requests_accepted (b : bool) (n : nodeService) : nodeService :=
  mkNodeService (n_world n) (n_queue n) (n_executor n) (n_async n) (acceptClientWrites n) b
    (SingleNodeMode n) (isExistingNode n) (raftServers n) (fanIns n) (completedFanInCh n)
    (fanInLoops n) (replies n) (requests n) (asyncTaskRepo n).
Definition with_single (b : bool) (n : nodeService) : nodeService :=
  mkNodeService (n_world n) (n_queue n) (n_executor n) (n_async n) (acceptClientWrites n)
    (acceptRequest n) b (isExistingNode n) (raftServers n) (fanIns n) (completedFanInCh n)
    (fanInLoops n) (replies n) (requests n) (asyncTaskRepo n).
Definition with_fanIns (m : gmap string PeerFanIn) (n : nodeService) : nodeService :=
  mkNodeService (n_world n) (n_queue n) (n_executor n) (n_async n) (acceptClientWrites n)
    (acceptRequest n) (SingleNodeMode n) (isExistingNode n) (raftServers n) m (completedFanInCh n)
    (fanInLoops n) (replies n) (requests n) (asyncTaskRepo n).
Definition with_completed (m : gmap string PeerFanIn) (n : nodeService) : nodeService :=
  mkNodeService (n_world n) (n_queue n) (n_executor n) (n_async n) (acceptClientWrites n)
    (acceptRequest n) (SingleNodeMode n) (isExistingNode n) (raftServers n) (fanIns n) m
    (fanInLoops n) (replies n) (requests n) (asyncTaskRepo n).
Definition with_loops (k : nat) (n : nodeService) : nodeService :=
  mkNodeService (n_world n) (n_queue n) (n_executor n) (n_async n) (acceptClientWrites n)
    (acceptRequest n) (SingleNodeMode n) (isExistingNode n) (raftServers n) (fanIns n)
    (completedFanInCh n) k (replies n) (requests n) (asyncTaskRepo n).
Definition with_http (answers : list http_reply) (sent : list request) (n : nodeService) : nodeService :=
  mkNodeService (n_world n) (n_queue n) (n_executor n) (n_async n) (acceptClientWrites n)
    (acceptRequest n) (SingleNodeMode n) (isExistingNode n) (raftServers n) (fanIns n)
    (completedFanInCh n) (fanInLoops n) answers sent (asyncTaskRepo n).

Notation Nd A := (Go nodeService A).

(** The methods of the services, on their part of the node. *)
Definition on_world {A} (m : Go World A) : Nd A := fun n =>
  match m (n_world n) with
  | Some (a, w) => Some (a, with_parts w (n_queue n) (n_executor n) (n_async n) n)
  | None => None
  end.
Definition on_queue {A} (m : Go (World * jobQueue) A) : Nd A := fun n =>
  match m (n_world n, n_queue n) with
  | Some (a, (w, q)) => Some (a, with_parts w q (n_executor n) (n_async n) n)
  | None => None
  end.
Definition on_executor {A} (m : Go (World * jobExecutor) A) : Nd A := fun n =>
  match m (n_world n, n_executor n) with
  | Some (a, (w, e)) => Some (a, with_parts w (n_queue n) e (n_async n) n)
  | None => None
  end.
Definition on_async {A} (m : Go (World * asyncTaskService) A) : Nd A := fun n =>
  match m (n_world n, n_async n) with
  | Some (a, (w, s)) => Some (a, with_parts w (n_queue n) (n_executor n) s n)
  | None => None
  end.

(** ** HTTP *)

(** Send a request; peers beyond the list do not answer. *)
Definition http_Do (address path : string) : Nd http_reply :=
  n ← gets id;
  match replies n with
  | [] => modify (with_http [] (requests n ++ [mkRequest address path]));; mret (NoReply "no answer")
  | NoRequest e :: rest => modify (with_http rest (requests n));; mret (NoRequest e)
  | r :: rest => modify (with_http rest (requests n ++ [mkRequest address path]));; mret r
  end.

Section Node.
Context {codec : CommandCodec} {env : Env} {mo : MapOrder} {uo : UnionOrder} {json : PeerJson}.
(** [node.scheduler0Config.GetConfigurations()] *)
Context (configs : Scheduler0Configurations).

Definition API : string := "//api/v1/".

Definition delete_fanIn (address : string) : Nd unit :=
  modify (fun n => with_fanIns (delete address (fanIns n)) n).
Definition store_fanIn (p : PeerFanIn) : Nd unit :=
  modify (fun n => with_fanIns (<[pf_PeerHTTPAddress p := p]> (fanIns n)) n).

(** ** node_http_client.go *)

(** One turn of the loop of phase 1; [inr] is the [return]. *)
Definition phase1_one (peerFanIn : PeerFanIn) : Nd (unit + unit) :=
  let address := pf_PeerHTTPAddress peerFanIn in
  r ← http_Do address (API +:+ "execution-logs");
  match r with
  | NoRequest _ | NoReply _ => delete_fanIn address;; mret (inl tt)
  | Reply res =>
      if hr_StatusCode res =? StatusAccepted then
        match hr_Close res with
        | Some _ => delete_fanIn address;; mret (inr tt)
        | None =>
            store_fanIn (mkPeerFanIn address (hr_Location res) PeerFanInStateGetRequestId
                           (pf_Data peerFanIn));;
            mret (inl tt)
        end
      else delete_fanIn address;; mret (inl tt)
  end.

Definition FetchUncommittedLogsFromPeersPhase1 (peerFanIns : list PeerFanIn) : Nd unit :=
  go_for_ret (fun _ p => phase1_one p) peerFanIns tt;; mret tt.

(** A request that cannot be built leaves the entry as it is. *)
Definition phase2_one (peerFanIn : PeerFanIn) : Nd unit :=
  let address := pf_PeerHTTPAddress peerFanIn in
  r ← http_Do address (pf_RequestId peerFanIn);
  match r with
  | NoRequest _ => mret tt
  | NoReply _ => delete_fanIn address
  | Reply res =>
      if hr_StatusCode res =? StatusOK then
        match hr_Body res with
        | Err _ => delete_fanIn address
        | Ok data =>
            match decode_AsyncTaskRes data with
            | Err _ => delete_fanIn address
            | Ok task =>
                match decode_LocalData (at_Output task) with
                | Err _ => delete_fanIn address
                | Ok localData =>
                    match hr_Close res with
                    | Some _ => delete_fanIn address
                    | None => store_fanIn (mkPeerFanIn address (pf_RequestId peerFanIn)
                                             PeerFanInStateGetExecutionsLogs localData)
                    end
                end
            end
        end
      else delete_fanIn address
  end.

Definition FetchUncommittedLogsFromPeersPhase2 (peerFanIns : list PeerFanIn) : Nd unit :=
  go_for (fun _ p => phase2_one p) peerFanIns tt.

Definition ConnectNode (rep : RaftNode) : Nd (result string Status) :=
  r ← http_Do (rn_Address rep) (API +:+ "peer-handshake");
  match r with
  | NoRequest e | NoReply e => mret (Err e)
  | Reply resp =>
      if hr_StatusCode resp =? StatusOK then
        match hr_Body resp with
        | Err e => mret (Err e)
        | Ok data =>
            match decode_IsLeader data with
            | Err e => mret (Err e)
            | Ok leader => mret (Ok (mkStatus leader true true))
            end
        end
      else if hr_StatusCode resp =? StatusUnauthorized then mret (Ok (mkStatus false false true))
      else mret (Ok (mkStatus false false false))
  end.

(** [StopJobs] and [StartJobs] of the client differ in the path and the
    message. *)
Definition post_to_peer (path message : string) (peer : RaftNode) : Nd (option string) :=
  r ← http_Do (rn_Address peer) (API +:+ path);
  match r with
  | NoRequest e | NoReply e => mret (Some e)
  | Reply res =>
      if hr_StatusCode res =? StatusAccepted then mret (hr_Close res) else mret (Some message)
  end.

Definition client_StopJobs : RaftNode -> Nd (option string) :=
  post_to_peer "stop-jobs" "failed to stop jobs".
Definition client_StartJobs : RaftNode -> Nd (option string) :=
  post_to_peer "start-jobs" "failed to start jobs".

(** ** Peers *)

(** [replica.Address != utils.GetServerHTTPAddress()] *)
Definition other_replicas : list RaftNode :=
  List.filter (fun replica => negb (String.eqb (rn_Address replica) (GetServerHTTPAddress configs)))
    (Replicas configs).

(** The callback puts the status in the map of results. *)
Definition connect_callback (rep : RaftNode) : Go (nodeService * gmap string Status) (option string) :=
  s ← on_fst (ConnectNode rep);
  match s with
  | Ok peerStatus => modify (fun '(n, results) => (n, <[rn_Address rep := peerStatus]> results));; mret None
  | Err e => mret (Some e)
  end.

(** The goroutines hold one lock while they connect: one after the other. *)
Definition authenticateWithPeersInConfig : Nd (gmap string Status) := fun n =>
  match go_for (fun _ rep => RetryOnError (connect_callback rep) (PeerConnectRetryMax configs);; mret tt)
          other_replicas tt (n, ∅) with
  | Some (_, (n', results)) => Some (results, n')
  | None => None
  end.

(** The servers raft is bootstrapped with: id and raft address. *)
Definition authRaftConfiguration : Nd (list (Z * string)) :=
  results ← authenticateWithPeersInConfig;
  mret ((NodeId configs, RaftAddress configs) ::
        omap (fun replica =>
                match results !! rn_Address replica with
                | Some st => if IsAlive st && IsAuth st
                             then Some (rn_NodeId replica, rn_RaftAddress replica) else None
                | None => None
                end) (Replicas configs)).

Definition DefaultRetryMaxConfig : Z := 30.

Definition stopAllJobsOnAllWorkerNodes : Nd unit :=
  go_for (fun _ rep => RetryOnError (client_StopJobs rep) DefaultRetryMaxConfig;; mret tt) other_replicas tt.
Definition startJobsOnWorkerNodes : Nd unit :=
  go_for (fun _ rep => RetryOnError (client_StartJobs rep) DefaultRetryMaxConfig;; mret tt) other_replicas tt.

(** ** What the node tells its services *)

Definition node_StopJobs : Nd unit := on_executor (modify (fun '(w, e) => (w, StopAll e))).
Definition node_StartJobs : Nd unit :=
  on_executor (RecoverJobs (NodeId configs) (JobExecutionRetryMax configs)).
Definition CanAcceptClientWriteRequest : nodeService -> bool := acceptClientWrites.
Definition CanAcceptRequest : nodeService -> bool := acceptRequest.

Definition beginAcceptingClientWriteRequest : Nd unit := modify (with_writes true).
Definition stopAcceptingClientWriteRequest : Nd unit := modify (with_writes false).
Definition beginAcceptingClientRequest : Nd unit := modify (with_requests_accepted true).

(** [GetUncommittedLogs]: the task is added, and the closure given to the
    worker pool does the rest. *)
Definition GetUncommittedLogs_begin (requestId : string) : Nd unit :=
  on_async (AddTasks (NodeId configs) "" requestId JobExecutorAsyncTaskService);; mret tt.

Definition GetUncommittedLogs_work (requestId : string) : Nd unit :=
  e ← on_async (UpdateTasksByRequestId requestId AsyncTaskInProgress "");
  match e with
  | Some _ => mret tt
  | None =>
      uncommittedLogs ← on_executor (GetUncommittedLogs (NodeId configs));
      r ← on_async GetUnCommittedTasks;
      match r with
      | Err _ => on_async (UpdateTasksByRequestId requestId AsyncTaskFail "");; mret tt
      | Ok uncommittedTasks =>
          match encode_LocalData (mkLocalData uncommittedTasks uncommittedLogs) with
          | Err _ => on_async (UpdateTasksByRequestId requestId AsyncTaskFail "");; mret tt
          | Ok data => on_async (UpdateTasksByRequestId requestId AsyncTaskSuccess data);; mret tt
          end
      end
  end.

(** One task of [handleUncommittedAsyncTasks]. *)
Definition handle_async_task (asyncTask : AsyncTask) : Nd unit :=
  let st := at_State asyncTask in
  (if (st =? AsyncTaskState_num AsyncTaskNotStated) ||
      ((st =? AsyncTaskState_num AsyncTaskInProgress) &&
       String.eqb (at_Service asyncTask) CreateJobAsyncTaskService)
   then
     let '(jobsPayload, _) := decode_jobs (at_Input asyncTask) in
     r ← on_world (BatchInsertJobs jobsPayload);
     let jobIds := match r with Ok ids => Some ids | Err _ => None end in
     on_async (UpdateTasksByRequestId (at_RequestId asyncTask) AsyncTaskSuccess (encode_job_ids jobIds));;
     mret tt
   else mret tt);;
  (if (st =? AsyncTaskState_num AsyncTaskInProgress) &&
      String.eqb (at_Service asyncTask) JobExecutorAsyncTaskService
   then on_async (UpdateTasksByRequestId (at_RequestId asyncTask) AsyncTaskSuccess "");; mret tt
   else mret tt).

Definition handleUncommittedAsyncTasks (asyncTasks : list AsyncTask) : Nd unit :=
  go_for (fun _ t => handle_async_task t) asyncTasks tt.

(** A call on a nil repository is a nil dereference; an error is logged. *)
Definition asyncTaskRepo_RaftBatchInsert (tasks : list AsyncTask) : Nd unit :=
  present ← gets asyncTaskRepo;
  if (present : bool) then on_world (RaftBatchInsert tasks (NodeId configs));; mret tt else crash.

(** What [handleRaftLeadershipChanges] and [commitFetchedUnCommittedLogs] do
    with uncommitted data. *)
Definition commit_local_data (d : LocalData) : Nd unit :=
  (match ld_ExecutionLogs d with
   | [] => mret tt
   | logs => on_world (RaftInsertExecutionLogs logs (NodeId configs))
   end);;
  match ld_AsyncTasks d with
  | [] => mret tt
  | tasks => asyncTaskRepo_RaftBatchInsert tasks
  end.

(** ** Leadership *)

(** The ids of the servers of the cluster, or a fatal error. *)
Definition server_ids (addresses : list string) : option (list Z) :=
  mapM (fun a => match GetNodeIdWithRaftAddress configs a with
                 | Ok nodeId => Some (u64 nodeId)
                 | Err _ => None
                 end) addresses.

Definition set_single_node_mode (b : bool) : Nd unit :=
  modify (fun n => with_single b
    (with_parts (n_world n) (Queue.SetSingleNodeMode b (n_queue n))
       (Executor.SetSingleNodeMode b (n_executor n)) (AsyncService.SetSingleNodeMode b (n_async n)) n)).

Definition change_queue (f : jobQueue -> jobQueue) : Nd unit :=
  modify (fun n => with_parts (n_world n) (f (n_queue n)) (n_executor n) (n_async n) n).

Definition handleRaftLeadershipChanges (isLeader : bool) : Nd unit :=
  stopAcceptingClientWriteRequest;;
  servers ← gets raftServers;
  nodeIds ← lift_opt (server_ids servers);
  change_queue (RemoveServers nodeIds);;
  if isLeader then
    change_queue (AddServers nodeIds);;
    stopAllJobsOnAllWorkerNodes;;
    let singleNodeMode := Nat.eqb (length servers) 1 in
    set_single_node_mode singleNodeMode;;
    if negb singleNodeMode then
      uncommittedLogs ← on_executor (GetUncommittedLogs (NodeId configs));
      r ← on_async GetUnCommittedTasks;
      match r with
      | Err _ => crash
      | Ok uncommittedAsyncTasks =>
          commit_local_data (mkLocalData uncommittedAsyncTasks uncommittedLogs);;
          handleUncommittedAsyncTasks uncommittedAsyncTasks;;
          modify (fun n => with_loops (S (fanInLoops n)) n)
      end
    else
      on_queue (StartJobs (NodeId configs));;
      beginAcceptingClientWriteRequest
  else mret tt.

(** A peer that resumed its heartbeat; other observations are logged. *)
Definition handleRaftObserverChannelChanges (isResumedHeartbeatObservation : bool) : Nd unit :=
  if isResumedHeartbeatObservation then startJobsOnWorkerNodes else mret tt.

Definition handleCompletedPeerFanIn (peerFanIn : PeerFanIn) : Nd unit :=
  modify (fun n => with_completed (<[pf_PeerHTTPAddress peerFanIn := peerFanIn]> (completedFanInCh n)) n);;
  n ← gets id;
  let completed := Z.of_nat (size (completedFanInCh n)) in
  if (completed =? Z.of_nat (length (Replicas configs)) - 1) && negb (CanAcceptClientWriteRequest n)
  then on_queue (StartJobs (NodeId configs));; beginAcceptingClientWriteRequest
  else mret tt.

(** ** Choosing peers *)

(** [l[i], l[j]] exchanged as the loop does; out of range is a panic. *)
Definition exchange {A} (i j : nat) (l : list A) : option (list A) :=
  temp ← l !! i; x ← l !! j; Some (<[j := temp]> (<[i := x]> l)).

(** The loop [for lastIndex > 0]; [Intn n] is the next random number below [n]. *)
Fixpoint shuffle {A} (Intn : nat -> nat) (lastIndex : nat) (l : list A) : option (list A) :=
  match lastIndex with
  | O => Some l
  | S k => l' ← exchange lastIndex (Intn lastIndex) l; shuffle Intn k l'
  end.

Definition getRandomFanInPeerHTTPAddresses (Intn : nat -> nat) (excludeList : gset string)
    (cluster : list string) : option (list string) :=
  let servers := List.filter (fun a => negb (String.eqb a (RaftAddress configs))) cluster in
  let keep := fun a => negb (bool_decide (a ∈ excludeList)) in
  httpAddresses ←
    (if Z.of_nat (length servers) <? ExecutionLogFetchFanIn configs
     then Some (List.filter keep (GetNodeServerAddressWithRaftAddress configs <$> servers))
     else
       shuffledServers ← shuffle Intn (length servers - 1) servers;
       Some (List.filter keep (GetNodeServerAddressWithRaftAddress configs <$> shuffledServers)));
  if i64 (ExecutionLogFetchFanIn configs) <? Z.of_nat (length httpAddresses) then
    if ExecutionLogFetchFanIn configs <=? Z.of_nat (length httpAddresses)
    then Some (take (Z.to_nat (ExecutionLogFetchFanIn configs)) httpAddresses)
    else None
  else Some httpAddresses.

(** One address of [selectRandomPeersToFanIn]. *)
Definition select_one (peerFanIns : list PeerFanIn) (httpAddress : string) : Nd (list PeerFanIn) :=
  n ← gets id;
  match fanIns n !! httpAddress with
  | Some _ => mret peerFanIns
  | None =>
      let newFanIn := mkPeerFanIn httpAddress "" PeerFanInStateNotStated local_data_zero in
      store_fanIn newFanIn;; mret (peerFanIns ++ [newFanIn])
  end.

Definition selectRandomPeersToFanIn (Intn : nat -> nat) : Nd (list PeerFanIn) :=
  n ← gets id;
  httpAddresses ← lift_opt (getRandomFanInPeerHTTPAddresses Intn (dom (fanIns n)) (raftServers n));
  go_for select_one httpAddresses [].

(** The fan-ins of a phase. *)
Definition in_phase (st : PeerFanInState) (l : list PeerFanIn) : list PeerFanIn :=
  List.filter (fun p => bool_decide (pf_State p = st)) l.

(** One tick of [fanInLocalDataFromPeers]: the lists given to the goroutines
    of the three phases; [order] is the order of [Range]. *)
Definition fan_in_tick (Intn : nat -> nat) (order : gmap string PeerFanIn -> list (string * PeerFanIn))
    : Nd (list PeerFanIn * list PeerFanIn * list PeerFanIn) :=
  peers ← selectRandomPeersToFanIn Intn;
  n ← gets id;
  let all := peers ++ (snd <$> order (fanIns n)) in
  mret (in_phase PeerFanInStateNotStated all, in_phase PeerFanInStateGetRequestId all,
        in_phase PeerFanInStateGetExecutionsLogs all).

(** One peer of [commitFetchedUnCommittedLogs], up to the send on [fanInCh]. *)
Definition commit_one (peerFanIn : PeerFanIn) : Nd unit :=
  commit_local_data (pf_Data peerFanIn);;
  delete_fanIn (pf_PeerHTTPAddress peerFanIn).

(** ** The post-process channel *)

Definition dispatch_to (p : PostProcess) (target : Z) : Nd unit :=
  if target =? NodeId configs then
    if pp_Action p =? CommandActionQueueJob then
      on_executor (QueueExecutions (NodeId configs) (JobExecutionRetryMax configs)
                     (LastInsertedId (pp_Data p)) (RowsAffected (pp_Data p)))
    else mret tt
  else mret tt.

Definition dispatch (p : PostProcess) : Nd unit :=
  go_for (fun _ target => dispatch_to p target) (pp_TargetNodes p) tt.

(** ** The input channels *)

(** What the select of [listenOnInputQueues] receives. *)
Inductive input :=
| LeaderChange (isLeader : bool)
| PeerObserved (isResumedHeartbeatObservation : bool)
| PeerCollected (peerFanIn : PeerFanIn)
| PostProcessed (postProcess : PostProcess).

Definition handle_input (i : input) : Nd unit :=
  match i with
  | LeaderChange isLeader => handleRaftLeadershipChanges isLeader
  | PeerObserved o => handleRaftObserverChannelChanges o
  | PeerCollected peerFanIn => handleCompletedPeerFanIn peerFanIn
  | PostProcessed postProcess => dispatch postProcess
  end.

(** The loop on the messages [inputs], when the goroutine each starts ends
    before the next message; [run_step] has their interleavings. *)
Definition listenOnInputQueues (inputs : list input) : Nd unit :=
  go_for (fun _ i => handle_input i) inputs tt.

End Node.
