(* ===== verification/NodeFacts.v ===== *)
(** * The fan-in of a new leader

    The goroutines of the node service interleave at every peer.  Whatever
    the interleaving, the answers of the peers and the random choices, a
    node of a cluster accepts writes only after it committed the data of
    every peer. *)

From stdpp Require Import base list gmap strings pretty.
From Stdlib Require Import ZArith Lia.
From S2P Require Import Prelude Models JobTime Batcher Sql Fsm Replication Inserts Reads JobQueueRepo.
From S2P Require Import Queue JobRepo ExecutionsRepo AsyncRepo Executor ExecutorImpl Processor.
From S2P Require Import AsyncService AsyncImpl Config Node.

#[local] Open Scope Z_scope.

(** ** Choosing peers *)

Lemma exchange_perm {A} i j (l l' : list A) : exchange i j l = Some l' -> l' ≡ₚ l.
Proof.
  unfold exchange. destruct (l !! i) as [x|] eqn:Ei; [|done]. destruct (l !! j) as [y|] eqn:Ej; [|done].
  intros [= <-]. by apply Permutation_insert_swap.
Qed.

Lemma shuffle_perm {A} Intn k (l : list A) :
  (forall n, (0 < n)%nat -> (Intn n < n)%nat) -> (k = 0 \/ k < length l)%nat ->
  exists l', shuffle Intn k l = Some l' /\ l' ≡ₚ l.
Proof.
  intros HI. revert l. induction k as [|k IH]; intros l Hk; [by exists l|].
  cbn [shuffle]. destruct (lookup_lt_is_Some_2 l (S k)) as [x Hx]; [lia|].
  destruct (lookup_lt_is_Some_2 l (Intn (S k))) as [y Hy]; [specialize (HI (S k)); lia|].
  assert (HE : exchange (S k) (Intn (S k)) l = Some (<[Intn (S k) := x]> (<[S k := y]> l)))
    by (unfold exchange; by rewrite Hx; cbn; rewrite Hy).
  rewrite HE. cbn. destruct (IH (<[Intn (S k) := x]> (<[S k := y]> l))) as (l' & Hl & Hp).
  { rewrite !length_insert. lia. }
  exists l'. split; [done|]. rewrite Hp. by apply (exchange_perm (S k) (Intn (S k))).
Qed.

(** ** A service's call, as a step of the node *)

Lemma on_world_run {A} (m : Go World A) n a w' :
  m (n_world n) = Some (a, w') ->
  on_world m n = Some (a, with_parts w' (n_queue n) (n_executor n) (n_async n) n).
Proof. intros E. unfold on_world. by rewrite E. Qed.

Lemma on_queue_run {A} (m : Go (World * jobQueue) A) n a w' q' :
  m (n_world n, n_queue n) = Some (a, (w', q')) ->
  on_queue m n = Some (a, with_parts w' q' (n_executor n) (n_async n) n).
Proof. intros E. unfold on_queue. by rewrite E. Qed.

Lemma on_executor_run {A} (m : Go (World * jobExecutor) A) n a w' e' :
  m (n_world n, n_executor n) = Some (a, (w', e')) ->
  on_executor m n = Some (a, with_parts w' (n_queue n) e' (n_async n) n).
Proof. intros E. unfold on_executor. by rewrite E. Qed.

Lemma on_async_run {A} (m : Go (World * asyncTaskService) A) n a w' s' :
  m (n_world n, n_async n) = Some (a, (w', s')) ->
  on_async m n = Some (a, with_parts w' (n_queue n) (n_executor n) s' n).
Proof. intros E. unfold on_async. by rewrite E. Qed.

Lemma http_Do_reply address path r rest n :
  replies n = Reply r :: rest ->
  http_Do address path n = Some (Reply r, with_http rest (requests n ++ [mkRequest address path]) n).
Proof. intros E. unfold http_Do. rewrite go_bind_gets. cbn [id]. by rewrite E. Qed.

Section Peers.
Context (configs : Scheduler0Configurations).

(** The replicas of the configuration are distinct, this node is one of
    them, and the fan-in is a number that fits. *)
Record config_ok : Prop := {
  co_raft : NoDup (rn_RaftAddress <$> Replicas configs);
  co_http : NoDup (rn_Address <$> Replicas configs);
  co_self : RaftAddress configs ∈ rn_RaftAddress <$> Replicas configs;
  co_fan_in : 0 <= ExecutionLogFetchFanIn configs <= MaxInt64 }.

(** The HTTP addresses of the other replicas. *)
Definition is_peer (r : RaftNode) : bool := negb (String.eqb (rn_RaftAddress r) (RaftAddress configs)).
Definition peers : list string := rn_Address <$> List.filter is_peer (Replicas configs).

(** The servers of raft's configuration are replicas. *)
Definition servers_ok (servers : list string) : Prop :=
  NoDup servers /\ servers ⊆ rn_RaftAddress <$> Replicas configs.

Lemma address_of_raft r :
  config_ok -> r ∈ Replicas configs ->
  GetNodeServerAddressWithRaftAddress configs (rn_RaftAddress r) = rn_Address r.
Proof.
  intros [Hnd _ _ _] Hr. unfold GetNodeServerAddressWithRaftAddress.
  induction (Replicas configs) as [|x l IH]; [by apply elem_of_nil in Hr|].
  rewrite fmap_cons in Hnd. apply NoDup_cons in Hnd as [Hx Hnd]. cbn [List.find].
  destruct (String.eqb_spec (rn_RaftAddress x) (rn_RaftAddress r)) as [E|Hne].
  - apply elem_of_cons in Hr as [->|Hr]; [done|]. exfalso. apply Hx. rewrite E.
    by apply list_elem_of_fmap_2.
  - apply elem_of_cons in Hr as [->|Hr]; [done|]. by apply IH.
Qed.

Lemma length_filter_not_self l :
  NoDup (rn_RaftAddress <$> l) -> RaftAddress configs ∈ rn_RaftAddress <$> l ->
  length l = S (length (List.filter is_peer l)).
Proof.
  induction l as [|x l IH]; [by intros _ H%elem_of_nil|]. rewrite fmap_cons.
  intros [Hx Hnd]%NoDup_cons Hin. cbn [List.filter length]. unfold is_peer at 1.
  destruct (String.eqb_spec (rn_RaftAddress x) (RaftAddress configs)) as [E|Hne]; cbn [negb].
  - f_equal. symmetry. f_equal. apply filter_all. intros y Hy. apply negb_true_iff, String.eqb_neq.
    intros E'. apply Hx. rewrite E, <- E'. by apply list_elem_of_fmap_2.
  - cbn [length]. f_equal. apply IH; [done|]. apply elem_of_cons in Hin as [E|]; [by rewrite E in Hne|done].
Qed.

Lemma length_peers : config_ok -> Z.of_nat (length peers) = Z.of_nat (length (Replicas configs)) - 1.
Proof.
  intros [Hnd _ Hs _]. unfold peers. rewrite length_fmap. rewrite (length_filter_not_self _ Hnd Hs). lia.
Qed.

Lemma NoDup_peers : config_ok -> NoDup peers.
Proof.
  intros [_ Hnd _ _]. unfold peers. revert Hnd. induction (Replicas configs) as [|x l IH]; [constructor|].
  rewrite fmap_cons. intros [Hx Hnd]%NoDup_cons. cbn [List.filter]. destruct (is_peer x); [|by apply IH].
  rewrite fmap_cons. constructor; [|by apply IH].
  intros (y & Hy & [Hin _]%elem_of_filter_bool)%list_elem_of_fmap. apply Hx. rewrite Hy.
  by apply list_elem_of_fmap_2.
Qed.

(** The other servers of the cluster are peers, each its own. *)
Definition other_servers (servers : list string) : list string :=
  List.filter (fun a => negb (String.eqb a (RaftAddress configs))) servers.

Lemma other_server_replica servers a :
  servers_ok servers -> a ∈ other_servers servers ->
  exists r, r ∈ Replicas configs /\ rn_RaftAddress r = a /\ is_peer r = true.
Proof.
  intros [_ Hs] [Ha Hn]%elem_of_filter_bool. apply Hs in Ha as (r & -> & Hr)%list_elem_of_fmap.
  by exists r.
Qed.

Lemma other_servers_peers servers :
  config_ok -> servers_ok servers ->
  NoDup (GetNodeServerAddressWithRaftAddress configs <$> other_servers servers) /\
  GetNodeServerAddressWithRaftAddress configs <$> other_servers servers ⊆ peers.
Proof.
  intros Hc Hs. split.
  - apply NoDup_fmap_2_strong.
    + intros a b Ha Hb Hab.
      destruct (other_server_replica servers a Hs Ha) as (r & Hr & <- & _).
      destruct (other_server_replica servers b Hs Hb) as (r' & Hr' & <- & _).
      rewrite !address_of_raft in Hab by done. f_equal. by eapply (NoDup_fmap_inj rn_Address); [apply Hc|..].
    + unfold other_servers. destruct Hs as [Hnd _]. rewrite <- (list_fmap_id servers) in Hnd.
      clear -Hnd. rewrite list_fmap_id in Hnd. induction Hnd as [|a l Ha _ IH]; [constructor|].
      cbn [List.filter]. case_match; [|done]. constructor; [|done]. by intros [? _]%elem_of_filter_bool.
  - intros x (a & -> & Ha)%list_elem_of_fmap.
    destruct (other_server_replica servers a Hs Ha) as (r & Hr & <- & Hp).
    rewrite address_of_raft by done. apply list_elem_of_fmap_2, elem_of_filter_bool. done.
Qed.

(** What is chosen: new peers, each once, no more than the fan-in; and all
    the new peers when they fit. *)
Lemma getRandom_spec Intn exclude servers :
  config_ok -> servers_ok servers -> (forall n, (0 < n)%nat -> (Intn n < n)%nat) ->
  exists l, getRandomFanInPeerHTTPAddresses configs Intn exclude servers = Some l /\
    NoDup l /\ l ⊆ peers /\ (forall a, a ∈ l -> a ∉ exclude) /\
    Z.of_nat (length l) <= ExecutionLogFetchFanIn configs /\
    let new := List.filter (fun a => negb (bool_decide (a ∈ exclude)))
                 (GetNodeServerAddressWithRaftAddress configs <$> other_servers servers) in
    (Z.of_nat (length new) <= ExecutionLogFetchFanIn configs -> l ≡ₚ new).
Proof.
  intros Hc Hs HI. destruct (other_servers_peers servers Hc Hs) as [Hnd Hsub].
  set (new := List.filter _ _). pose proof (co_fan_in Hc) as HF.
  unfold getRandomFanInPeerHTTPAddresses. fold (other_servers servers). cbn zeta.
  set (choice := if Z.of_nat (length (other_servers servers)) <? ExecutionLogFetchFanIn configs then _ else _).
  assert (exists h, choice = Some h /\ h ≡ₚ new) as (h & -> & Hh).
  { unfold choice. case_match; [by eexists|].
    destruct (shuffle_perm Intn (length (other_servers servers) - 1) (other_servers servers) HI)
      as (l' & Hl & Hp); [lia|].
    rewrite Hl. cbn. eexists. split; [done|]. unfold new. by rewrite Hp. }
  cbn. rewrite i64_small by go_lia.
  assert (Hsub' : forall a, a ∈ h -> a ∈ peers /\ a ∉ exclude).
  { intros a. rewrite Hh. intros [Ha Hn]%elem_of_filter_bool. split; [by apply Hsub|].
    by apply negb_true_iff, bool_decide_eq_false in Hn. }
  assert (Hndh : NoDup h).
  { rewrite Hh. unfold new. clear -Hnd. induction Hnd as [|a l Ha _ IH]; [constructor|].
    cbn [List.filter]. case_match; [|done]. constructor; [|done]. by intros [? _]%elem_of_filter_bool. }
  pose proof (Permutation_length Hh) as Hlen.
  destruct (Z.ltb_spec (ExecutionLogFetchFanIn configs) (Z.of_nat (length h))).
  - rewrite (proj2 (Z.leb_le _ _)) by lia. eexists. split; [done|].
    assert (Ht : forall a, a ∈ take (Z.to_nat (ExecutionLogFetchFanIn configs)) h -> a ∈ h).
    { intros a Ha. rewrite <- (take_drop (Z.to_nat (ExecutionLogFetchFanIn configs)) h).
      apply elem_of_app. by left. }
    split_and!.
    + rewrite <- (take_drop (Z.to_nat (ExecutionLogFetchFanIn configs)) h) in Hndh.
      apply NoDup_app in Hndh. tauto.
    + intros a Ha. by apply Hsub', Ht.
    + intros a Ha. by apply Hsub', Ht.
    + rewrite length_take. lia.
    + lia.
  - exists h. split_and!; [done|done|intros a Ha; by apply Hsub'|intros a Ha; by apply Hsub'|lia|done].
Qed.

End Peers.

(** ** What a computation leaves of the node's own state *)

Definition flags (n : nodeService) :=
  (acceptClientWrites n, SingleNodeMode n, fanIns n, completedFanInCh n, raftServers n).

(** Calls of the services and requests to peers change none of it. *)
Definition keeps {A} (m : Nd A) : Prop := forall n a n', m n = Some (a, n') -> flags n' = flags n.

Lemma keeps_bind {A B} (m : Nd A) (f : A -> Nd B) : keeps m -> (forall a, keeps (f a)) -> keeps (m ≫= f).
Proof.
  intros Hm Hf n b n'' (a & n' & H1 & H2)%go_bind_inv. rewrite (Hf _ _ _ _ H2). by eapply Hm.
Qed.

Lemma keeps_mret {A} (a : A) : keeps (mret a).
Proof. by intros n b n' [= _ <-]. Qed.
Lemma keeps_crash {A} : keeps (crash : Nd A).
Proof. by intros n b n'. Qed.
Lemma keeps_gets {A} (f : nodeService -> A) : keeps (gets f).
Proof. by intros n b n' [= _ <-]. Qed.
Lemma keeps_modify f : (forall n, flags (f n) = flags n) -> keeps (modify f).
Proof. intros Hf n b n' [= _ <-]. apply Hf. Qed.
Lemma keeps_lift_opt {A} (o : option A) : keeps (lift_opt o).
Proof. intros n b n'. destruct o; [|done]. by intros [= _ <-]. Qed.
Lemma keeps_on_world {A} (m : Go World A) : keeps (on_world m).
Proof. intros n b n'. unfold on_world. destruct (m _) as [[]|]; [|done]. by intros [= _ <-]. Qed.
Lemma keeps_on_queue {A} (m : Go (World * jobQueue) A) : keeps (on_queue m).
Proof. intros n b n'. unfold on_queue. destruct (m _) as [[? []]|]; [|done]. by intros [= _ <-]. Qed.
Lemma keeps_on_executor {A} (m : Go (World * jobExecutor) A) : keeps (on_executor m).
Proof. intros n b n'. unfold on_executor. destruct (m _) as [[? []]|]; [|done]. by intros [= _ <-]. Qed.
Lemma keeps_on_async {A} (m : Go (World * asyncTaskService) A) : keeps (on_async m).
Proof. intros n b n'. unfold on_async. destruct (m _) as [[? []]|]; [|done]. by intros [= _ <-]. Qed.

Create HintDb keeps.
#[export] Hint Resolve keeps_mret keeps_crash keeps_gets keeps_lift_opt keeps_on_world keeps_on_queue
  keeps_on_executor keeps_on_async : keeps.

(** Decompose a computation into its calls. *)
Ltac keeps :=
  repeat first [ progress intros
               | apply keeps_bind
               | solve [auto with keeps]
               | apply keeps_modify; reflexivity
               | match goal with |- keeps (match ?x with _ => _ end) => destruct x end ].

Lemma keeps_go_for {A S} (body : S -> A -> Nd S) l s : (forall s a, keeps (body s a)) -> keeps (go_for body l s).
Proof. intros Hb. revert s. induction l as [|a l IH]; intros s; cbn [go_for]; keeps. Qed.
#[export] Hint Resolve keeps_go_for : keeps.

Lemma keeps_retry {E} (m : Nd (option E)) max : keeps m -> keeps (RetryOnError m max).
Proof.
  intros Hm. assert (Hl : forall k e, keeps (retry_loop m k e)).
  { induction k as [|k IH]; intros e; cbn [retry_loop]; keeps. }
  unfold RetryOnError. keeps.
Qed.

Lemma keeps_http address path : keeps (http_Do address path).
Proof. unfold http_Do. keeps. Qed.
#[export] Hint Resolve keeps_retry keeps_http : keeps.

Section Keeps.
Context {codec : CommandCodec} {env : Env} {mo : MapOrder} {uo : UnionOrder} {json : PeerJson}.
Context (configs : Scheduler0Configurations).

Lemma keeps_post path message peer : keeps (post_to_peer path message peer).
Proof. unfold post_to_peer. keeps. Qed.
Hint Resolve keeps_post : keeps.

Lemma keeps_stop : keeps (stopAllJobsOnAllWorkerNodes configs).
Proof. unfold stopAllJobsOnAllWorkerNodes, client_StopJobs. keeps. apply keeps_go_for. keeps. Qed.

Lemma keeps_start : keeps (startJobsOnWorkerNodes configs).
Proof. unfold startJobsOnWorkerNodes, client_StartJobs. apply keeps_go_for. keeps. Qed.

Lemma keeps_commit d : keeps (commit_local_data configs d).
Proof. unfold commit_local_data, asyncTaskRepo_RaftBatchInsert. keeps. Qed.

Lemma keeps_async_tasks ts : keeps (handleUncommittedAsyncTasks ts).
Proof. unfold handleUncommittedAsyncTasks, handle_async_task. apply keeps_go_for. keeps. Qed.

Lemma keeps_dispatch p : keeps (dispatch configs p).
Proof. unfold dispatch, dispatch_to. apply keeps_go_for. keeps. Qed.
Hint Resolve keeps_stop keeps_start keeps_commit keeps_async_tasks keeps_dispatch : keeps.

(** A change of leadership leaves the fan-in as it was; writes are accepted
    afterwards only on a single node. *)
Lemma leadership_flags isLeader n a n' :
  handleRaftLeadershipChanges configs isLeader n = Some (a, n') ->
  fanIns n' = fanIns n /\ completedFanInCh n' = completedFanInCh n /\ raftServers n' = raftServers n /\
  (acceptClientWrites n' = true -> SingleNodeMode n' = true).
Proof.
  unfold handleRaftLeadershipChanges. intros (? & n1 & [= _ <-] & H)%go_bind_inv.
  rewrite go_bind_gets in H. apply go_bind_inv in H as (ids & n2 & H2 & H).
  pose proof (keeps_lift_opt _ _ _ _ H2) as E2. apply go_bind_inv in H as (? & n3 & [= _ <-] & H).
  destruct isLeader; [|injection H as _ <-; unfold flags in E2; cbn in *; simplify_eq; split_and!; congruence].
  apply go_bind_inv in H as (? & n4 & [= _ <-] & H).
  apply go_bind_inv in H as (? & n5 & H5 & H). pose proof (keeps_stop _ _ _ H5) as E5.
  apply go_bind_inv in H as (? & n6 & [= _ <-] & H).
  set (single := Nat.eqb _ _) in H. destruct single; cbn [negb] in H.
  - apply go_bind_inv in H as (? & n7 & H7 & [= _ <-]).
    pose proof (keeps_on_queue _ _ _ _ H7) as E7. unfold flags in *. cbn in *. simplify_eq.
    split_and!; congruence.
  - match type of H with ?m ?x = _ => assert (Hk : keeps m) end.
    { keeps. }
    apply Hk in H. unfold flags in *. cbn in *. simplify_eq. split_and!; congruence.
Qed.

End Keeps.
