(* ===== verification/Delivery.v ===== *)
(** * What the workers make of an announcement

    The leader writes queue logs through raft ([InsertJobQueueLogs]); each
    replica applies them and puts a message on its post-process channel; the
    loop of the node ([dispatch]) hands the message to the executor, which
    looks the logs up and schedules the jobs of an interval
    ([QueueExecutions]).  Here the four are composed. *)

From stdpp Require Import base list gmap strings pretty.
From Stdlib Require Import ZArith Lia.
From S2P Require Import Prelude Models JobTime Batcher Sql Fsm Replication Inserts Reads JobQueueRepo.
From S2P Require Import Queue JobRepo ExecutionsRepo AsyncRepo Executor ExecutorFacts ExecutorImpl.
From S2P Require Import AsyncService AsyncImpl Config ConfigFacts Node NodeFacts.

#[local] Open Scope Z_scope.

(** ** The interval *)

(** A log whose range starts and ends no later than those of [logs]. *)
Definition least_range (f : JobQueueLog) (logs : list JobQueueLog) : Prop :=
  Forall (fun x => q_LowerBoundJobId f <= q_LowerBoundJobId x /\
                   q_UpperBoundJobId f <= q_UpperBoundJobId x) logs.

Lemma foldl_min_least m a l :
  m ∈ a :: l -> Forall (Z.le m) (a :: l) -> foldl Z.min a l = m.
Proof.
  revert a. induction l as [|b l IH]; intros a Hm [Ha Hl]%Forall_cons.
  { by apply list_elem_of_singleton in Hm. }
  apply Forall_cons in Hl as [Hb Hl]. cbn [foldl]. apply IH.
  - rewrite !elem_of_cons in Hm. apply elem_of_cons. destruct Hm as [?|[?|?]]; [left; lia..|by right].
  - constructor; [lia|done].
Qed.

(** [queue_bounds] does not depend on the order the rows are read in. *)
Lemma queue_bounds_of f logs :
  Forall (fun l => 0 <= q_LowerBoundJobId l <= MaxInt64 /\ 0 <= q_UpperBoundJobId l <= MaxInt64) logs ->
  f ∈ logs -> least_range f logs ->
  queue_bounds logs = (q_LowerBoundJobId f, q_UpperBoundJobId f).
Proof.
  intros Hr Hf Hle. destruct logs as [|l logs]; [by apply elem_of_nil in Hf|].
  rewrite queue_bounds_spec by done. f_equal; apply foldl_min_least; rewrite <- fmap_cons.
  1, 3: by apply list_elem_of_fmap_2.
  all: apply Forall_fmap; eapply Forall_impl; [exact Hle|]; by intros x [].
Qed.

(** The ranges the executor fetches for an interval. *)
Definition fetched_ranges (lo hi : Z) : list (Z * Z) :=
  if JobMaxBatchSize <? hi - lo then walk_ranges (S (Z.to_nat (hi - lo))) lo hi else [(lo, hi)].

Lemma walk_ranges_within fuel lo hi lo' :
  lo' <= lo -> Forall (fun r => lo' <= fst r /\ snd r <= hi) (walk_ranges fuel lo hi).
Proof.
  revert lo. induction fuel as [|fuel IH]; intros lo Hlo; [constructor|]. cbn [walk_ranges].
  destruct (Z.ltb_spec lo hi); [|constructor]. cbn zeta.
  constructor; [cbn; lia|]. apply IH. unfold JobMaxBatchSize. lia.
Qed.

Lemma fetched_ranges_within lo hi :
  Forall (fun r => lo <= fst r /\ snd r <= hi) (fetched_ranges lo hi).
Proof.
  unfold fetched_ranges. destruct (_ <? _); [by apply walk_ranges_within|].
  constructor; [by cbn|constructor].
Qed.

Section Delivery.
Context {codec : CommandCodec} {env : Env}.

Lemma QueueExecutions_visits NodeId retryMax last rows logs f w e :
  GetJobQueueByLastInsertedAndRowsAffected last rows w = Some (logs, w) ->
  Forall queue_log_small logs -> f ∈ logs -> least_range f logs ->
  q_UpperBoundJobId f <= 4503599627370496 ->
  QueueExecutions NodeId retryMax last rows (w, e) =
  visit NodeId retryMax (fetched_ranges (q_LowerBoundJobId f) (q_UpperBoundJobId f)) (w, e).
Proof.
  intros Hget Hs Hf Hle Hup. unfold QueueExecutions.
  erewrite go_bind_Some by (unfold on_fst; cbn; by rewrite Hget).
  rewrite (queue_bounds_of f) by (done || (eapply Forall_impl; [exact Hs|];
    unfold queue_log_small, small; intros x (_ & ? & ? & _); go_lia)).
  cbv iota beta. rewrite Forall_forall in Hs. destruct (Hs f Hf) as (_ & Hlo & Hhi & _).
  unfold small in Hlo, Hhi. rewrite i64_small by go_lia. unfold fetched_ranges.
  destruct (Z.ltb_spec JobMaxBatchSize (q_UpperBoundJobId f - q_LowerBoundJobId f)).
  - rewrite i64_small by (unfold JobMaxBatchSize in *; go_lia).
    rewrite <- queue_walk_visits by (unfold JobMaxBatchSize in *; lia). by rewrite Z.min_l by lia.
  - cbn [visit]. rewrite !go_bind_eq.
    destruct (on_fst _ (w, e)) as [[[jobs|] [w1 e1]]|]; [|done..].
    rewrite go_bind_eq. by destruct (ScheduleJobs _ _ jobs (w1, e1)) as [[[] ?]|].
Qed.

(** ** One message *)

Context (configs : Scheduler0Configurations).

Lemma dispatch_not_target p targets n :
  NodeId configs ∉ targets ->
  go_for (fun _ target => dispatch_to configs p target) targets tt n = Some (tt, n).
Proof.
  induction targets as [|t targets IH]; intros Ht; [done|]. apply not_elem_of_cons in Ht as [Hne Ht].
  cbn [go_for]. rewrite (go_bind_Some _ _ n tt n); [by apply IH|].
  unfold dispatch_to. by rewrite (proj2 (Z.eqb_neq _ _)) by congruence.
Qed.

Lemma dispatch_target p n :
  NoDup (pp_TargetNodes p) -> NodeId configs ∈ pp_TargetNodes p -> pp_Action p = CommandActionQueueJob ->
  dispatch configs p n =
  on_executor (QueueExecutions (NodeId configs) (JobExecutionRetryMax configs)
                 (LastInsertedId (pp_Data p)) (RowsAffected (pp_Data p))) n.
Proof.
  intros Hnd Hin Ha. unfold dispatch. revert n.
  induction Hnd as [|t targets Ht _ IH]; intros n; [by apply elem_of_nil in Hin|]. cbn [go_for].
  destruct (decide (t = NodeId configs)) as [->|Hne].
  - rewrite go_bind_eq. unfold dispatch_to at 1. rewrite Z.eqb_refl, Ha. cbn [Z.eqb].
    change (CommandActionQueueJob =? CommandActionQueueJob) with true. cbv iota.
    destruct (on_executor _ n) as [[[] n']|]; [|done]. by apply dispatch_not_target.
  - rewrite (go_bind_Some _ _ n tt n).
    + apply IH. by apply elem_of_cons in Hin as [?|?].
    + unfold dispatch_to. by rewrite (proj2 (Z.eqb_neq _ _)) by done.
Qed.

End Delivery.

(** ** An announcement, from the leader to the executors *)

Section Announcement.
Context {codec : CommandCodec} {env : Env}.

(** The id of the last queue log stored before. *)
Definition last_log_id (w : World) : Z := t_seq (db_table (w_db w) JobQueuesTableName).

(** The leader can write [logs] in one batch, each for a node of its own, on
    top of the [old] logs. *)
Record announceable (w : World) (old logs : list JobQueueLog) : Prop := {
  an_quiet : quiet w;
  an_codec : codec_total;
  an_channel : w_channel w = true;
  an_time : json_marshalable (VTime (t_ns (w_now w))) = true;
  an_some : logs <> [];
  an_batch : Z.of_nat (length logs) <= 6553;
  an_nodes : NoDup (q_NodeId <$> logs);
  an_old : queue_abs (w_db w) old;
  an_ids : Forall (fun l => q_Id l <= last_log_id w) old;
  an_room : last_log_id w + 6553 <= MaxInt64 }.

(** The logs a node looks up: the one written before, if any, and the new. *)
Definition looked_up (w : World) (old logs : list JobQueueLog) : list JobQueueLog :=
  List.filter (fun x => q_Id x =? last_log_id w) old ++ logs.

(** What a node does with the logs depends on their nodes, bounds and version. *)
Definition log_content (l : JobQueueLog) : Z * Z * Z * Z :=
  (q_NodeId l, q_LowerBoundJobId l, q_UpperBoundJobId l, q_Version l).

Lemma stamp_content now seq logs : log_content <$> stamp now seq logs = log_content <$> logs.
Proof.
  revert seq. induction logs as [|l logs IH]; intros seq; [done|].
  cbn [stamp]. rewrite !fmap_cons, IH. done.
Qed.

(** Permuted and stamped, the logs have the same least range. *)
Lemma least_range_content f l logs :
  log_content <$> l ≡ₚ log_content <$> logs -> f ∈ logs -> least_range f logs ->
  Forall queue_log_small logs ->
  exists f', f' ∈ l /\ least_range f' l /\ Forall queue_log_small l /\
    q_LowerBoundJobId f' = q_LowerBoundJobId f /\ q_UpperBoundJobId f' = q_UpperBoundJobId f.
Proof.
  intros Hp Hf Hle Hs.
  assert (Hf' : log_content f ∈ log_content <$> l) by (rewrite Hp; by apply list_elem_of_fmap_2).
  apply list_elem_of_fmap in Hf' as (f' & Hc & Hf'). injection Hc as Hn Hl Hu Hv.
  assert (Hall : forall y, y ∈ l -> exists x, x ∈ logs /\ log_content x = log_content y).
  { intros y Hy%(list_elem_of_fmap_2 log_content). rewrite Hp in Hy.
    apply list_elem_of_fmap in Hy as (x & ? & ?). by exists x. }
  unfold least_range in *. rewrite Forall_forall in Hs, Hle. exists f'. split; [done|].
  split; [|split; [|done]]; apply Forall_forall; intros y (x & Hx & Hc)%Hall;
    injection Hc as Hxn Hxl Hxu Hxv.
  - rewrite <- Hl, <- Hu, <- Hxl, <- Hxu. by apply Hle.
  - unfold queue_log_small. rewrite <- Hxn, <- Hxl, <- Hxu, <- Hxv. by apply Hs.
Qed.


End Announcement.

(** ** A concrete run *)

#[local] Existing Instance plain_codec.
#[local] Existing Instance sample_env.

(** The jobs 5 to 9 are queued to the workers 2 and 3 after the jobs 1 to 4
    were queued to worker 2. *)
Definition next_logs : list JobQueueLog :=
  [mkJobQueueLog 0 2 5 7 3 time_zero; mkJobQueueLog 0 3 8 9 3 time_zero].

Lemma next_logs_announceable : announceable sample_world1 [prev_log] next_logs.
Proof.
  split; try done.
  - apply plain_codec_total.
  - apply (bool_decide_unpack _). vm_compute. exact I.
  - split; [reflexivity|]. split; [|vm_compute; discriminate].
    constructor; [|constructor]. vm_compute. repeat split; discriminate.
  - constructor; [vm_compute; discriminate|constructor].
Qed.

