(* ===== verification/FanIn.v ===== *)
(** * Collecting the peers' data before accepting writes

    The goroutines of the node service as a transition system, one peer per
    step, and the invariant of every run. *)

From stdpp Require Import base list gmap strings pretty.
From Stdlib Require Import ZArith Lia.
From S2P Require Import Prelude Models JobTime Batcher Sql Fsm Replication Inserts Reads JobQueueRepo.
From S2P Require Import Queue JobRepo ExecutionsRepo AsyncRepo Executor ExecutorImpl Processor.
From S2P Require Import AsyncService AsyncImpl Config Node NodeFacts.

#[local] Open Scope Z_scope.

(** A goroutine, and the peers it has still to serve. *)
Inductive goroutine :=
| Phase1 (l : list PeerFanIn)
| Phase2 (l : list PeerFanIn)
| Commit (l : list PeerFanIn)
| Sending (p : PeerFanIn) (l : list PeerFanIn)  (* of Commit, at the send on fanInCh *)
| Completing (p : PeerFanIn)                    (* handleCompletedPeerFanIn *)
| Finished.

(** A running node; [r_committed] records the fan-ins that were committed. *)
Record run := mkRun {
  r_node : nodeService;
  r_gos : list goroutine;
  r_committed : list PeerFanIn }.

Section FanIn.
Context {codec : CommandCodec} {env : Env} {mo : MapOrder} {uo : UnionOrder} {json : PeerJson}.
Context (configs : Scheduler0Configurations).

(** A goroutine per phase that has peers. *)
Definition spawn (p1 p2 p3 : list PeerFanIn) : list goroutine :=
  (match p1 with [] => [] | _ => [Phase1 p1] end) ++
  (match p2 with [] => [] | _ => [Phase2 p2] end) ++
  (match p3 with [] => [] | _ => [Commit p3] end).

(** What the rest of the program may change of the node. *)
Definition elsewhere (n n' : nodeService) : Prop :=
  acceptClientWrites n' = acceptClientWrites n /\ SingleNodeMode n' = SingleNodeMode n /\
  fanIns n' = fanIns n /\ completedFanInCh n' = completedFanInCh n /\
  servers_ok configs (raftServers n').

Inductive run_step : run -> run -> Prop :=
| run_tick Intn order n gos h p1 p2 p3 n' :
    (forall k, (0 < k)%nat -> (Intn k < k)%nat) -> (forall m, order m ≡ₚ map_to_list m) ->
    (0 < fanInLoops n)%nat -> fan_in_tick configs Intn order n = Some ((p1, p2, p3), n') ->
    run_step (mkRun n gos h) (mkRun n' (gos ++ spawn p1 p2 p3) h)
| run_phase1 i p l n gos h r n' :
    gos !! i = Some (Phase1 (p :: l)) -> phase1_one p n = Some (r, n') ->
    run_step (mkRun n gos h)
      (mkRun n' (<[i := Phase1 (match r with inl _ => l | inr _ => [] end)]> gos) h)
| run_phase2 i p l n gos h r n' :
    gos !! i = Some (Phase2 (p :: l)) -> phase2_one p n = Some (r, n') ->
    run_step (mkRun n gos h) (mkRun n' (<[i := Phase2 l]> gos) h)
| run_commit i p l n gos h r n' :
    gos !! i = Some (Commit (p :: l)) -> commit_one configs p n = Some (r, n') ->
    run_step (mkRun n gos h) (mkRun n' (<[i := Sending p l]> gos) (h ++ [p]))
| run_receive i p l n gos h :
    gos !! i = Some (Sending p l) ->
    run_step (mkRun n gos h) (mkRun n (<[i := Commit l]> gos ++ [Completing p]) h)
| run_complete i p n gos h r n' :
    gos !! i = Some (Completing p) -> handleCompletedPeerFanIn configs p n = Some (r, n') ->
    run_step (mkRun n gos h) (mkRun n' (<[i := Finished]> gos) h)
| run_leadership isLeader n gos h r n' :
    handleRaftLeadershipChanges configs isLeader n = Some (r, n') ->
    run_step (mkRun n gos h) (mkRun n' gos h)
| run_elsewhere n gos h n' :
    elsewhere n n' -> run_step (mkRun n gos h) (mkRun n' gos h).

(** ** The invariant *)

Notation peers := (peers configs).

(** Fan-ins sit under their address, which is a peer's. *)
Definition fan_ok (m : gmap string PeerFanIn) : Prop :=
  forall a p, m !! a = Some p -> pf_PeerHTTPAddress p = a /\ a ∈ peers.

Definition a_peer (p : PeerFanIn) : Prop := pf_PeerHTTPAddress p ∈ peers.
Definition fetched (p : PeerFanIn) : Prop := a_peer p /\ pf_State p = PeerFanInStateGetExecutionsLogs.

Definition go_ok (h : list PeerFanIn) (g : goroutine) : Prop :=
  match g with
  | Phase1 l | Phase2 l => Forall a_peer l
  | Commit l => Forall fetched l
  | Sending p l => p ∈ h /\ fetched p /\ Forall fetched l
  | Completing p => p ∈ h /\ fetched p
  | Finished => True
  end.

Definition completed_ok (h : list PeerFanIn) (m : gmap string PeerFanIn) : Prop :=
  forall a p, m !! a = Some p -> pf_PeerHTTPAddress p = a /\ fetched p /\ p ∈ h.

Record run_ok (r : run) : Prop := {
  ro_servers : servers_ok configs (raftServers (r_node r));
  ro_fan : fan_ok (fanIns (r_node r));
  ro_gos : Forall (go_ok (r_committed r)) (r_gos r);
  ro_completed : completed_ok (r_committed r) (completedFanInCh (r_node r));
  ro_writes : acceptClientWrites (r_node r) = true -> SingleNodeMode (r_node r) = false ->
    forall a, a ∈ peers -> is_Some (completedFanInCh (r_node r) !! a) }.

Lemma go_ok_more h p g : go_ok h g -> go_ok (h ++ [p]) g.
Proof. destruct g; cbn; rewrite ?elem_of_app; tauto. Qed.

Lemma completed_ok_more h p m : completed_ok h m -> completed_ok (h ++ [p]) m.
Proof. intros Hc a q Hq. destruct (Hc a q Hq) as (? & ? & ?). rewrite elem_of_app. tauto. Qed.

Lemma fan_ok_insert m p : fan_ok m -> a_peer p -> fan_ok (<[pf_PeerHTTPAddress p := p]> m).
Proof. intros Hm Hp a q. rewrite lookup_insert_Some. intros [[<- <-]|[_ Hq]]; [done|by apply Hm]. Qed.

Lemma fan_ok_delete m a : fan_ok m -> fan_ok (delete a m).
Proof. intros Hm b q. rewrite lookup_delete_Some. intros [_ Hq]. by apply Hm. Qed.

(** The node after a step that touched the fan-ins only. *)
Definition fan_only (n n' : nodeService) : Prop :=
  acceptClientWrites n' = acceptClientWrites n /\ SingleNodeMode n' = SingleNodeMode n /\
  completedFanInCh n' = completedFanInCh n /\ raftServers n' = raftServers n.

Lemma fan_only_refl n : fan_only n n.
Proof. by split_and!. Qed.

Lemma flags_fan_only n n' : flags n' = flags n -> fan_only n n' /\ fanIns n' = fanIns n.
Proof. unfold flags, fan_only. intros E. simplify_eq. by split_and!. Qed.

(** ** One tick *)

Lemma select_all_ok l acc n acc' n' :
  go_for select_one l acc n = Some (acc', n') -> l ⊆ peers -> fan_ok (fanIns n) ->
  (forall p, p ∈ acc -> fanIns n !! pf_PeerHTTPAddress p = Some p) ->
  fan_only n n' /\ fan_ok (fanIns n') /\ forall p, p ∈ acc' -> fanIns n' !! pf_PeerHTTPAddress p = Some p.
Proof.
  intros Hr Hl Hf Ha.
  apply (go_for_inv _ (fun acc m => fan_only n m /\ fan_ok (fanIns m) /\
           forall p, p ∈ acc -> fanIns m !! pf_PeerHTTPAddress p = Some p) _ _ _ _ _) in Hr; [done| |].
  - clear -Hl. intros a acc m acc' m' Ha (Ho & Hf & Hin). unfold select_one. rewrite go_bind_gets. cbn [id].
    destruct (fanIns m !! a) eqn:E; [by intros [= <- <-]|]. intros [= <- <-].
    split_and!; [by destruct Ho as (? & ? & ? & ?)|by apply fan_ok_insert; [|apply Hl]|].
    intros p [Hp%Hin|Hp%list_elem_of_singleton]%elem_of_app; cbn [fanIns with_fanIns pf_PeerHTTPAddress].
    + rewrite lookup_insert_ne by congruence. done.
    + subst p. cbn. by rewrite lookup_insert_eq.
  - split_and!; [apply fan_only_refl|done|done].
Qed.

Lemma tick_ok Intn order n p1 p2 p3 n' :
  config_ok configs -> servers_ok configs (raftServers n) -> fan_ok (fanIns n) ->
  (forall k, (0 < k)%nat -> (Intn k < k)%nat) -> (forall m, order m ≡ₚ map_to_list m) ->
  fan_in_tick configs Intn order n = Some ((p1, p2, p3), n') ->
  fan_only n n' /\ fan_ok (fanIns n') /\ Forall a_peer p1 /\ Forall a_peer p2 /\ Forall fetched p3.
Proof.
  intros Hc Hs Hf HI Ho (chosen & n1 & Hsel & [= <- <- <- <-])%go_bind_inv.
  unfold selectRandomPeersToFanIn in Hsel. rewrite go_bind_gets in Hsel.
  destruct (getRandom_spec configs Intn (dom (fanIns n)) (raftServers n) Hc Hs HI)
    as (l & Hl & _ & Hsub & _). erewrite go_bind_lift in Hsel by exact Hl.
  apply select_all_ok in Hsel as (Hn & Hf' & Hp); [|done|done|by intros ? ?%elem_of_nil].
  assert (Hall : Forall a_peer (chosen ++ (snd <$> order (fanIns n1)))).
  { apply Forall_app; split; apply Forall_forall.
    - intros p Hin%Hp. by apply Hf' in Hin as [_ ?].
    - intros p ([a q] & -> & Hin)%list_elem_of_fmap. rewrite Ho in Hin. apply elem_of_map_to_list in Hin.
      apply Hf' in Hin as [He Ha]. unfold a_peer. cbn. by rewrite He. }
  split_and!; [done|done|by apply Forall_filter|by apply Forall_filter|].
  rewrite Forall_forall in Hall |- *. intros p [Hin Hst]%elem_of_filter_bool. split; [by apply Hall|].
  by apply bool_decide_eq_true in Hst.
Qed.

Lemma spawn_ok h p1 p2 p3 :
  Forall a_peer p1 -> Forall a_peer p2 -> Forall fetched p3 -> Forall (go_ok h) (spawn p1 p2 p3).
Proof.
  intros H1 H2 H3. assert (Hone : forall l (g : list PeerFanIn -> goroutine), go_ok h (g l) ->
    Forall (go_ok h) (match l with [] => [] | _ => [g l] end)).
  { intros l g Hg. destruct l; [apply Forall_nil_2|]. by apply Forall_singleton. }
  unfold spawn. apply Forall_app_2; [by apply (Hone p1 Phase1)|].
  apply Forall_app_2; [by apply (Hone p2 Phase2)|by apply (Hone p3 Commit)].
Qed.

(** ** One peer *)

Lemma phase1_one_ok p n r n' :
  phase1_one p n = Some (r, n') -> a_peer p -> fan_ok (fanIns n) -> fan_only n n' /\ fan_ok (fanIns n').
Proof.
  unfold phase1_one. intros (rep & n1 & H1 & H2)%go_bind_inv Hp Hf.
  apply keeps_http, flags_fan_only in H1 as [Ho E]. rewrite <- E in Hf. revert H2.
  repeat case_match; intros [= <- <-]; split; (done || by apply fan_ok_delete || by apply (fan_ok_insert _ (mkPeerFanIn _ _ _ _))).
Qed.

Lemma phase2_one_ok p n r n' :
  phase2_one p n = Some (r, n') -> a_peer p -> fan_ok (fanIns n) -> fan_only n n' /\ fan_ok (fanIns n').
Proof.
  unfold phase2_one. intros (rep & n1 & H1 & H2)%go_bind_inv Hp Hf.
  apply keeps_http, flags_fan_only in H1 as [Ho E]. rewrite <- E in Hf. revert H2.
  repeat case_match; intros [= <- <-]; split; (done || by apply fan_ok_delete || by apply (fan_ok_insert _ (mkPeerFanIn _ _ _ _))).
Qed.

Lemma commit_one_ok p n r n' :
  commit_one configs p n = Some (r, n') -> fan_ok (fanIns n) -> fan_only n n' /\ fan_ok (fanIns n').
Proof.
  unfold commit_one. intros (u & n1 & H1 & [= <- <-])%go_bind_inv Hf.
  apply keeps_commit, flags_fan_only in H1 as [Ho E]. rewrite <- E in Hf. split; [done|].
  by apply fan_ok_delete.
Qed.

Lemma complete_ok p n r n' :
  handleCompletedPeerFanIn configs p n = Some (r, n') ->
  fanIns n' = fanIns n /\ raftServers n' = raftServers n /\ SingleNodeMode n' = SingleNodeMode n /\
  completedFanInCh n' = <[pf_PeerHTTPAddress p := p]> (completedFanInCh n) /\
  (acceptClientWrites n' = true -> acceptClientWrites n = true \/
   Z.of_nat (size (completedFanInCh n')) = Z.of_nat (length (Replicas configs)) - 1).
Proof.
  unfold handleCompletedPeerFanIn. intros (u & n1 & [= _ <-] & H)%go_bind_inv. rewrite go_bind_gets in H.
  cbn [id completedFanInCh with_completed CanAcceptClientWriteRequest acceptClientWrites] in H.
  destruct (Z.eqb_spec (Z.of_nat (size (<[pf_PeerHTTPAddress p := p]> (completedFanInCh n))))
              (Z.of_nat (length (Replicas configs)) - 1)) as [E|_]; cbn [andb] in H.
  - destruct (negb _) eqn:En.
    + apply go_bind_inv in H as (? & n2 & H2 & [= _ <-]). apply keeps_on_queue in H2.
      unfold flags in H2. cbn in *. simplify_eq. split_and!; try congruence.
      intros _. right. by rewrite <- E; f_equal; f_equal.
    + injection H as _ <-. split_and!; try done. intros _. left. by apply negb_false_iff in En.
  - injection H as _ <-. split_and!; try done. by left.
Qed.

(** As many completed fan-ins as there are peers are all of them. *)
Lemma all_completed h m :
  config_ok configs -> completed_ok h m ->
  Z.of_nat (size m) = Z.of_nat (length (Replicas configs)) - 1 ->
  forall a, a ∈ peers -> is_Some (m !! a).
Proof.
  intros Hc Hm Hs a Ha. apply elem_of_dom.
  assert (Hd : dom m = list_to_set peers); [|by rewrite Hd; apply elem_of_list_to_set].
  apply set_subseteq_size_eq.
  - intros b (p & Hp)%elem_of_dom. destruct (Hm b p Hp) as (<- & [Hb _] & _). by apply elem_of_list_to_set.
  - rewrite size_list_to_set by (by apply NoDup_peers). rewrite size_dom.
    pose proof (length_peers configs Hc). lia.
Qed.

(** ** Every step keeps the invariant *)

(** A step of a goroutine that touches the fan-ins only. *)
Lemma run_ok_fan n n' gos gos' h h' :
  run_ok (mkRun n gos h) -> fan_only n n' -> fan_ok (fanIns n') ->
  Forall (go_ok h') gos' -> completed_ok h' (completedFanInCh n) -> run_ok (mkRun n' gos' h').
Proof.
  intros [Hs _ _ _ Hw] (E1 & E2 & E3 & E4) Hf Hg Hc. cbn in *.
  split; cbn; rewrite ?E1, ?E2, ?E3, ?E4; done.
Qed.

Lemma Forall_go_insert h gos i g : Forall (go_ok h) gos -> go_ok h g -> Forall (go_ok h) (<[i := g]> gos).
Proof. intros. by apply Forall_insert. Qed.

Lemma Forall_go_lookup h gos i g : Forall (go_ok h) gos -> gos !! i = Some g -> go_ok h g.
Proof. intros HF Hi. by eapply Forall_lookup_1. Qed.

Lemma run_step_ok r r' : config_ok configs -> run_step r r' -> run_ok r -> run_ok r'.
Proof.
  intros Hc Hstep Hr. pose proof Hr as [Hs Hf Hg Hcm Hw]. destruct Hstep; cbn in *.
  - destruct (tick_ok _ _ _ _ _ _ _ Hc Hs Hf H H0 H2) as (Ho & Hf' & H1' & H2' & H3').
    eapply run_ok_fan; eauto. apply Forall_app_2; [done|by apply spawn_ok].
  - pose proof (Forall_go_lookup _ _ _ _ Hg H) as [Hp Hl]%Forall_cons.
    destruct (phase1_one_ok _ _ _ _ H0 Hp Hf). eapply run_ok_fan; eauto.
    apply Forall_go_insert; [done|]. destruct r; [done|constructor].
  - pose proof (Forall_go_lookup _ _ _ _ Hg H) as [Hp Hl]%Forall_cons.
    destruct (phase2_one_ok _ _ _ _ H0 Hp Hf). eapply run_ok_fan; eauto. by apply Forall_go_insert.
  - pose proof (Forall_go_lookup _ _ _ _ Hg H) as [Hp Hl]%Forall_cons.
    destruct (commit_one_ok _ _ _ _ H0 Hf). eapply run_ok_fan; eauto using completed_ok_more.
    apply Forall_go_insert; [eapply Forall_impl; [exact Hg|]; intros; by apply go_ok_more|].
    split_and!; [apply elem_of_app; right; by left|done|done].
  - pose proof (Forall_go_lookup _ _ _ _ Hg H) as (Hin & Hp & Hl).
    eapply run_ok_fan; eauto using fan_only_refl. apply Forall_app_2; [by apply Forall_go_insert|].
    by apply Forall_singleton.
  - pose proof (Forall_go_lookup _ _ _ _ Hg H) as (Hin & Hp).
    destruct (complete_ok _ _ _ _ H0) as (E1 & E2 & E3 & E4 & Hacc).
    assert (Hcm' : completed_ok h (completedFanInCh n')).
    { rewrite E4. intros a q. rewrite lookup_insert_Some. intros [[<- <-]|[_ Hq]]; [done|by apply Hcm]. }
    split; cbn; [by rewrite E2|by rewrite E1|by apply Forall_go_insert|done|].
    rewrite E3. intros [Ha|Hn]%Hacc Hsg; [|by eapply all_completed].
    intros a Hin'. rewrite E4. destruct (decide (pf_PeerHTTPAddress p = a)) as [->|Hne].
    + rewrite lookup_insert_eq. by eexists.
    + rewrite lookup_insert_ne by done. by apply Hw.
  - destruct (leadership_flags _ _ _ _ _ H) as (E1 & E2 & E3 & Hacc).
    split; cbn; rewrite ?E1, ?E2, ?E3; try done. intros ?%Hacc. congruence.
  - destruct H as (E1 & E2 & E3 & E4 & E5). split; cbn; rewrite ?E1, ?E2, ?E3, ?E4; done.
Qed.

Lemma run_steps_ok r r' : config_ok configs -> rtc run_step r r' -> run_ok r -> run_ok r'.
Proof. intros Hc. induction 1; eauto using run_step_ok. Qed.

(** A node that has just been created. *)
Definition fresh (n : nodeService) : Prop :=
  acceptClientWrites n = false /\ fanIns n = ∅ /\ completedFanInCh n = ∅ /\
  servers_ok configs (raftServers n).

Lemma fresh_run_ok n r : config_ok configs -> fresh n -> rtc run_step (mkRun n [] []) r -> run_ok r.
Proof.
  intros Hc (E1 & E2 & E3 & Hs) Hr. eapply run_steps_ok; [done|exact Hr|].
  split; cbn; rewrite ?E1, ?E2, ?E3; [done|done|constructor|done|done].
Qed.

(** What acceptance says of a replica. *)
Lemma accepted_committed r replica :
  run_ok r -> acceptClientWrites (r_node r) = true -> SingleNodeMode (r_node r) = false ->
  replica ∈ Replicas configs -> rn_RaftAddress replica <> RaftAddress configs ->
  exists p, p ∈ r_committed r /\ pf_PeerHTTPAddress p = rn_Address replica /\
    pf_State p = PeerFanInStateGetExecutionsLogs.
Proof.
  intros Hok Ha Hm Hin Hne. destruct (ro_writes r Hok Ha Hm (rn_Address replica)) as [p Hp].
  - apply list_elem_of_fmap_2, elem_of_filter_bool. split; [done|].
    by apply negb_true_iff, String.eqb_neq.
  - destruct (ro_completed r Hok _ _ Hp) as (Hadr & [_ Hst] & Hh). by exists p.
Qed.


(** The completed fan-ins are never forgotten: after a new election the
    first peer that is served opens the node for writes, whatever the others
    hold. *)
Theorem reelection_waits_for_one n r n1 p u n2 :
  config_ok configs -> fresh n -> rtc run_step (mkRun n [] []) r ->
  acceptClientWrites (r_node r) = true -> SingleNodeMode (r_node r) = false ->
  handleRaftLeadershipChanges configs true (r_node r) = Some (tt, n1) ->
  acceptClientWrites n1 = false -> pf_PeerHTTPAddress p ∈ peers ->
  handleCompletedPeerFanIn configs p n1 = Some (u, n2) -> acceptClientWrites n2 = true.
Proof.
  intros Hc Hf Hr Ha Hm Hl Hno Hp. assert (Hok : run_ok r) by (by eapply fresh_run_ok).
  destruct (leadership_flags _ _ _ _ _ Hl) as (_ & Ec & _ & _).
  assert (Hd : dom (<[pf_PeerHTTPAddress p := p]> (completedFanInCh n1)) = list_to_set peers).
  { apply set_eq. intros a. rewrite Ec, elem_of_dom, elem_of_list_to_set, lookup_insert_is_Some'. split.
    - intros [<-|[q Hq]]; [done|]. by destruct (ro_completed r Hok a q Hq) as (<- & [? _] & _).
    - intros Hin. right. by apply (ro_writes r Hok Ha Hm). }
  unfold handleCompletedPeerFanIn. intros (v & n3 & [= _ <-] & H)%go_bind_inv. rewrite go_bind_gets in H.
  cbn [id completedFanInCh with_completed CanAcceptClientWriteRequest acceptClientWrites] in H.
  rewrite <- size_dom, Hd, size_list_to_set, (length_peers configs Hc), Z.eqb_refl, Hno in H
    by (by apply NoDup_peers).
  cbn [andb negb] in H. apply go_bind_inv in H as (? & n4 & _ & [= _ <-]). done.
Qed.

End FanIn.
