(* ===== verification/FanInFacts.v ===== *)
(** * What the fan-in carries from a peer to the replicated table

    The peer's side (it gathers its uncommitted data into a task) and the
    leader's side (it asks for the task, reads it and commits the data). *)

From stdpp Require Import base list gmap strings pretty.
From Stdlib Require Import ZArith Lia.
From S2P Require Import Prelude Models JobTime Batcher Sql Fsm Replication Inserts Reads JobQueueRepo.
From S2P Require Import Queue JobRepo ExecutionsRepo ExecutionsFacts AsyncRepo Executor ExecutorImpl Processor.
From S2P Require Import AsyncService AsyncImpl Config Node NodeFacts FanIn.

#[local] Open Scope Z_scope.

Section Facts.
Context {codec : CommandCodec} {env : Env} {mo : MapOrder} {uo : UnionOrder} {json : PeerJson}.
Context (configs : Scheduler0Configurations).

(** ** The leader's side *)


(** The nil repository: data with a task in it ends the process. *)
Lemma commit_nil_repo d n :
  asyncTaskRepo n = false -> ld_AsyncTasks d <> [] -> commit_local_data configs d n = None.
Proof.
  intros Hn Hd. destruct (commit_local_data configs d n) as [[a n']|] eqn:E0; [exfalso|done].
  unfold commit_local_data in E0. apply go_bind_inv in E0 as (u & n1 & E & E').
  assert (asyncTaskRepo n1 = false) as Hn1.
  { revert E. destruct (ld_ExecutionLogs d); [by intros [= _ <-]|]. unfold on_world.
    destruct (RaftInsertExecutionLogs _ _ _) as [[]|]; [|done]. by intros [= _ <-]. }
  destruct (ld_AsyncTasks d) as [|t ts]; [done|]. unfold asyncTaskRepo_RaftBatchInsert in E'.
  rewrite go_bind_gets, Hn1 in E'. done.
Qed.

(** ** The peer's side *)

(** C16: A follower that is asked for its uncommitted data gathers all its
    own uncommitted executions and every task of its own table into the
    output of a task that its caller can then read by the request id.  The
    task itself is in that table, so the data is never free of tasks: a
    leader created by [NewNode], whose task repository is nil, panics when
    it commits it. *)
Theorem peer_reports_itself requestId ts com unc n (leader : nodeService) :
  (forall d, exists s, encode_LocalData d = Ok s) ->
  role false (n_world n) (n_async n) ->
  async_abs (w_db (n_world n)) false ts -> async_abs (w_db (n_world n)) true com ->
  let id := t_seq (db_table (w_db (n_world n)) UnCommittedAsyncTableName) + 1 in
  0 < id <= 9007199254740992 -> Forall (fun t => at_Id t < id) ts -> Forall (fun t => at_Id t <> id) com ->
  execs_abs (w_db (n_world n)) false unc -> NoDup (el_Id <$> unc) -> NodeId configs <= MaxInt64 ->
  asyncTaskRepo leader = false ->
  exists n1 n2 d data t,
    GetUncommittedLogs_begin configs requestId n = Some (tt, n1) /\
    GetUncommittedLogs_work configs requestId n1 = Some (tt, n2) /\
    encode_LocalData d = Ok data /\
    ld_ExecutionLogs d ≡ₚ List.filter (of_node (NodeId configs)) unc /\
    (exists own, own ∈ ld_AsyncTasks d /\ at_Id own = id /\ at_RequestId own = requestId) /\
    GetTaskWithRequestIdNonBlocking requestId (n_world n2, n_async n2) =
      Some (Ok t, (n_world n2, n_async n2)) /\
    at_State t = AsyncTaskState_num AsyncTaskSuccess /\ at_Output t = data /\
    commit_local_data configs d leader = None.
Proof.
  intros Henc Hr Ha Hb id Hid Hts Hos Hunc Hnd Hnode Hnil.
  destruct (tracked_add (NodeId configs) false "" requestId JobExecutorAsyncTaskService ts com (n_world n)
              (n_async n) Hr Ha Hb Hid Hts Hos) as (w1 & H1 & Ho1 & T1). fold id in H1, T1.
  set (nt := new_task "" requestId JobExecutorAsyncTaskService) in *.
  destruct (tracked_update _ _ _ _ _ _ AsyncTaskInProgress "" _ _ T1) as (m & w2 & H2 & _ & _ & _ & Ho2 & T2).
  assert (Hex : execs_abs (w_db w2) false unc).
  { destruct Hunc as [Hu Hw]. split; [|done]. rewrite <- Hu. unfold db_rows.
    by rewrite (proj1 Ho2), (proj1 Ho1). }
  assert (Hh : healthy w2) by (eapply async_ready_healthy, (tr_role _ _ _ _ _ _ _ _ T2)).
  destruct (GetUncommittedExecutionsLogForNode_abs (NodeId configs) unc w2 Hh Hex Hnd Hnode) as (logs & HL & Hp).
  destruct (GetAllTasks_abs false _ w2 Hh (tr_own _ _ _ _ _ _ _ _ T2)) as (tasks & HT & HTp).
  { apply Forall_app_2; [eapply Forall_impl; [exact Hts|]; cbn beta; intros; go_lia|].
    apply Forall_singleton. cbn. go_lia. }
  destruct (Henc (mkLocalData tasks logs)) as [data Hd].
  destruct (tracked_update _ _ _ _ _ _ AsyncTaskSuccess data _ _ T2) as (m' & w3 & H3 & _ & _ & _ & _ & T3).
  set (own := set_Output "" (set_State AsyncTaskInProgress (stored_task (w_now (n_world n)) id nt))) in *.
  assert (Hown : own ∈ tasks) by (rewrite HTp; apply elem_of_app; right; by left).
  eexists _, _, (mkLocalData tasks logs), data, _. split_and!.
  - unfold GetUncommittedLogs_begin. erewrite go_bind_Some by (by apply on_async_run, H1). reflexivity.
  - unfold GetUncommittedLogs_work. erewrite go_bind_Some by (by apply on_async_run, H2).
    cbv iota beta. erewrite go_bind_Some.
    2: { apply on_executor_run. unfold GetUncommittedLogs, on_fst. cbn [fst snd n_world n_executor with_parts].
         cbn. by rewrite HL. }
    erewrite go_bind_Some.
    2: { apply on_async_run. unfold GetUnCommittedTasks, on_fst. cbn. by rewrite HT. }
    cbv iota beta. rewrite Hd. cbv iota. erewrite go_bind_Some by (by apply on_async_run, H3). reflexivity.
  - exact Hd.
  - exact Hp.
  - by exists own.
  - exact (tracked_read _ _ _ _ _ _ _ _ T3).
  - done.
  - done.
  - apply commit_nil_repo; [done|]. cbn. intros E. rewrite E in Hown. by apply elem_of_nil in Hown.
Qed.

End Facts.
