(* ===== verification/FanInRuns.v ===== *)
(** * Concrete runs of the fan-in

    An executable scheduler for the goroutines, an instance of the JSON
    codec, and runs of a cluster of two nodes. *)

From stdpp Require Import countable base list gmap strings pretty.
From Stdlib Require Import ZArith Lia Ascii.
From S2P Require Import Prelude Models JobTime Batcher Sql Fsm Replication Inserts Reads JobQueueRepo.
From S2P Require Import Queue JobRepo ExecutionsRepo ExecutionsFacts AsyncRepo Executor ExecutorImpl Processor.
From S2P Require Import AsyncService AsyncImpl Config ConfigFacts Node NodeFacts FanIn FanInFacts.

#[local] Open Scope Z_scope.

(** ** A scheduler *)

(** What to run next: a tick, a goroutine, a change of leadership. *)
Inductive action := Tick | RunGo (i : nat) | Lead (isLeader : bool).

Section Scheduler.
Context {codec : CommandCodec} {env : Env} {mo : MapOrder} {uo : UnionOrder} {json : PeerJson}.
Context (configs : Scheduler0Configurations).

Definition zero_below (_ : nat) : nat := O.

Definition exec_action (a : action) (r : run) : option run :=
  let '(mkRun n gos h) := r in
  match a with
  | Tick =>
      match fanInLoops n, fan_in_tick configs zero_below map_to_list n with
      | S _, Some ((p1, p2, p3), n') => Some (mkRun n' (gos ++ spawn p1 p2 p3) h)
      | _, _ => None
      end
  | Lead b =>
      match handleRaftLeadershipChanges configs b n with
      | Some (_, n') => Some (mkRun n' gos h)
      | None => None
      end
  | RunGo i =>
      match gos !! i with
      | Some (Phase1 (p :: l)) =>
          '(x, n') ← phase1_one p n;
          Some (mkRun n' (<[i := Phase1 (match x with inl _ => l | inr _ => [] end)]> gos) h)
      | Some (Phase2 (p :: l)) => '(_, n') ← phase2_one p n; Some (mkRun n' (<[i := Phase2 l]> gos) h)
      | Some (Commit (p :: l)) =>
          '(_, n') ← commit_one configs p n; Some (mkRun n' (<[i := Sending p l]> gos) (h ++ [p]))
      | Some (Sending p l) => Some (mkRun n (<[i := Commit l]> gos ++ [Completing p]) h)
      | Some (Completing p) =>
          '(_, n') ← handleCompletedPeerFanIn configs p n; Some (mkRun n' (<[i := Finished]> gos) h)
      | _ => None
      end
  end.

Lemma exec_action_sound a r r' : exec_action a r = Some r' -> run_step configs r r'.
Proof.
  destruct r as [n gos h], a as [|i|b]; cbn [exec_action].
  - destruct (fanInLoops n) eqn:El; [done|].
    destruct (fan_in_tick configs zero_below map_to_list n) as [[[[p1 p2] p3] n']|] eqn:E; [|done].
    intros [= <-]. eapply run_tick; [|done|lia|exact E]. intros k Hk. exact Hk.
  - destruct (gos !! i) as [[[|p l]|[|p l]|[|p l]|p l|p|]|] eqn:E; try done.
    + destruct (phase1_one p n) as [[x n']|] eqn:E'; [|done]. intros [= <-]. by eapply run_phase1.
    + destruct (phase2_one p n) as [[x n']|] eqn:E'; [|done]. intros [= <-]. by eapply run_phase2.
    + destruct (commit_one configs p n) as [[x n']|] eqn:E'; [|done]. intros [= <-]. by eapply run_commit.
    + intros [= <-]. by apply run_receive.
    + destruct (handleCompletedPeerFanIn configs p n) as [[x n']|] eqn:E'; [|done]. intros [= <-].
      by eapply run_complete.
  - destruct (handleRaftLeadershipChanges configs b n) as [[? ?]|] eqn:E; [|done].
    intros [= <-]. by econstructor.
Qed.

Definition exec_actions (l : list action) (r : run) : option run :=
  foldl (fun o a => o ≫= exec_action a) (Some r) l.

Lemma exec_actions_sound l r r' : exec_actions l r = Some r' -> rtc (run_step configs) r r'.
Proof.
  unfold exec_actions. intros H. assert (Hx : forall r0, rtc (run_step configs) r r0 ->
    foldl (fun o a => o ≫= exec_action a) (Some r0) l = Some r' -> rtc (run_step configs) r r').
  { clear H. induction l as [|a l IH]; intros r0 Hr0 H; cbn [foldl] in H; [by injection H as <-|].
    cbn in H. destruct (exec_action a r0) as [r1|] eqn:E.
    - apply (IH r1); [|done]. eapply rtc_r; [done|]. by eapply exec_action_sound.
    - exfalso. clear -H. induction l as [|b l IHl]; [done|]. by apply IHl. }
  by eapply Hx.
Qed.

End Scheduler.

(** ** A codec for the documents of the nodes *)

(** A record as the list of its fields. *)
Notation fields := (list (Z + string)).
Definition task_fields (t : AsyncTask) : fields :=
  [inl (at_Id t); inr (at_RequestId t); inr (at_Input t); inr (at_Output t); inr (at_Service t);
   inl (at_State t); inl (t_ns (at_DateCreated t)); inr (t_loc (at_DateCreated t))].
Definition task_of (f : fields) : option AsyncTask :=
  match f with
  | [inl a; inr b; inr c; inr d; inr e; inl g; inl h; inr i] => Some (mkAsyncTask a b c d e g (mkTime h i))
  | _ => None
  end.
Definition log_fields (l : JobExecutionLog) : fields :=
  [inl (el_Id l); inr (el_UniqueId l); inl (el_State l); inl (el_NodeId l);
   inl (t_ns (el_LastExecutionDatetime l)); inr (t_loc (el_LastExecutionDatetime l));
   inl (t_ns (el_NextExecutionDatetime l)); inr (t_loc (el_NextExecutionDatetime l));
   inl (el_JobId l); inl (el_JobQueueVersion l); inl (el_ExecutionVersion l);
   inl (t_ns (el_DataCreated l)); inr (t_loc (el_DataCreated l))].
Definition log_of_fields (f : fields) : option JobExecutionLog :=
  match f with
  | [inl a; inr b; inl c; inl d; inl e; inr g; inl h; inr i; inl j; inl k; inl l; inl m; inr n] =>
      Some (mkJobExecutionLog a b c d (mkTime e g) (mkTime h i) j k l (mkTime m n))
  | _ => None
  end.

Lemma mapM_fields {A} (f : A -> fields) (g : fields -> option A) (l : list A) :
  (forall a, g (f a) = Some a) -> mapM g (f <$> l) = Some l.
Proof. intros H. induction l as [|a l IH]; [done|]. rewrite fmap_cons. cbn. rewrite H. cbn. by rewrite IH. Qed.

Definition document (d : LocalData) : list fields * list fields :=
  (task_fields <$> ld_AsyncTasks d, log_fields <$> ld_ExecutionLogs d).
Definition of_document (x : list fields * list fields) : option LocalData :=
  ts ← mapM task_of (fst x); ls ← mapM log_of_fields (snd x); Some (mkLocalData ts ls).

Lemma of_document_document d : of_document (document d) = Some d.
Proof.
  unfold of_document, document. cbn [fst snd].
  rewrite (mapM_fields task_fields task_of) by (by intros [? ? ? ? ? ? []]). cbn.
  rewrite (mapM_fields log_fields log_of_fields) by (by intros [? ? ? ? [] [] ? ? ? []]). by destruct d.
Qed.

#[local] Instance local_data_countable : Countable LocalData :=
  inj_countable document of_document of_document_document.

#[local] Instance bits_json : PeerJson := {|
  encode_LocalData d := Ok (to_text d);
  decode_LocalData s := of_text s;
  decode_AsyncTaskRes s := Ok (mkAsyncTask 1 "" "" s "" 2 time_zero);
  decode_IsLeader _ := Ok false;
  decode_jobs _ := ([], None);
  encode_job_ids _ := "" |}.

(** ** A cluster of two *)

Definition two_nodes : Scheduler0Configurations :=
  mkConfigurations "" "http" "a" "1" [mkRaftNode "http://a:1" "ra" 1; mkRaftNode "http://b:1" "rb" 2]
    0 0 0 true 1 "" "ra" 0 0 0 0 0 0 0 0 0 0 3 1 0 0 1 0 0.

Definition peer_data : LocalData := mkLocalData [] [sample_exec 3 3 0 4 2].
Definition accepted : http_reply := Reply (mkHttpResponse StatusAccepted "/t/1" (Ok "") None).
Definition answered : http_reply := Reply (mkHttpResponse StatusOK "" (Ok (to_text peer_data)) None).

(** The leader, before its election; the peers' answers in the order of the
    requests: to stop the jobs, twice to report, twice with the data. *)
Definition elected : nodeService :=
  NewNode exec_sample NewJobQueue NewJobExecutor NewAsyncTaskManager false ["ra"; "rb"]
    [accepted; accepted; accepted; answered].

#[local] Existing Instance plain_codec.
#[local] Existing Instance sample_env.
#[local] Instance first_union : UnionOrder := {| union_order l := l; union_order_perm l := Permutation_refl l |}.

Lemma two_nodes_ok : config_ok two_nodes.
Proof.
  split; [apply (bool_decide_unpack _); vm_compute; exact I|apply (bool_decide_unpack _); vm_compute; exact I
         |left|split; vm_compute; discriminate].
Qed.

Lemma elected_fresh : fresh two_nodes elected.
Proof.
  split_and!; [done|done|done|]. split; [apply (bool_decide_unpack _); vm_compute; exact I|].
  change (["ra"; "rb"] ⊆ ["ra"; "rb"]). done.
Qed.

(** Election; the request to report (once for the new peer and once for the
    entry just stored); the data; the commit. *)
Definition whole_run : list action :=
  [Lead true; Tick; RunGo 0; RunGo 0; Tick; RunGo 1; Tick; RunGo 2; RunGo 2; RunGo 3].
Definition run_end : run :=
  default (mkRun elected [] []) (exec_actions two_nodes whole_run (mkRun elected [] [])).


(** The same peer in the lists of two ticks. *)
Definition twice_run : list action :=
  [Lead true; Tick; RunGo 0; RunGo 0; Tick; RunGo 1; Tick; Tick; RunGo 2; RunGo 3].

(** A tick that comes before the commit of the last one commits the same
    data again: the peer's execution is in the replicated table twice. *)
Theorem fan_in_commits_twice :
  exists r p, rtc (run_step two_nodes) (mkRun elected [] []) r /\ r_committed r = [p; p] /\
    db_rows (w_db (n_world (r_node r))) ExecutionsCommittedTableName =
      exec_row <$> sample_com ++ number 2 (ld_ExecutionLogs peer_data) ++
                   number 3 (ld_ExecutionLogs peer_data).
Proof.
  exists (default (mkRun elected [] []) (exec_actions two_nodes twice_run (mkRun elected [] []))).
  eexists. split; [|split].
  - apply (exec_actions_sound two_nodes twice_run). vm_compute. reflexivity.
  - vm_compute. reflexivity.
  - vm_compute. reflexivity.
Qed.

(** The leader's phases for peer b. *)
Definition asked : nodeService := with_http [accepted; answered] [] elected.
Definition peer_b : PeerFanIn := mkPeerFanIn "http://b:1" "" PeerFanInStateNotStated local_data_zero.


(** A follower with two uncommitted executions of its own. *)
Definition asked_peer : nodeService :=
  NewNode (mkWorld ExecutionsFacts.exec_db sample_now RaftNotLeader true [] []) NewJobQueue NewJobExecutor NewAsyncTaskManager
    false ["ra"; "rb"] [].
Definition node_b : Scheduler0Configurations :=
  mkConfigurations "" "http" "b" "1" (Replicas two_nodes)
    0 0 0 true 2 "" "rb" 0 0 0 0 0 0 0 0 0 0 3 1 0 0 1 0 0.

Lemma peer_reports_itself_witness :
  exists n1 n2 d data t,
    GetUncommittedLogs_begin node_b "r" asked_peer = Some (tt, n1) /\
    GetUncommittedLogs_work node_b "r" n1 = Some (tt, n2) /\
    encode_LocalData d = Ok data /\
    ld_ExecutionLogs d ≡ₚ List.filter (of_node 2) sample_unc /\
    (exists own, own ∈ ld_AsyncTasks d /\ at_Id own = 1 /\ at_RequestId own = "r") /\
    GetTaskWithRequestIdNonBlocking "r" (n_world n2, n_async n2) = Some (Ok t, (n_world n2, n_async n2)) /\
    at_State t = 2 /\ at_Output t = data /\
    commit_local_data node_b d elected = None.
Proof.
  apply (peer_reports_itself node_b "r" [] [] sample_unc asked_peer elected).
  - intros d. by eexists.
  - split; [reflexivity|]. intros _. split; [reflexivity|discriminate].
  - split; [reflexivity|constructor].
  - split; [reflexivity|constructor].
  - vm_compute. split; [reflexivity|discriminate].
  - constructor.
  - constructor.
  - apply exec_sample_unc.
  - apply (bool_decide_unpack _). vm_compute. exact I.
  - vm_compute. discriminate.
  - reflexivity.
Defined.
