(* ===== verification/Lone.v ===== *)
(** * A node alone

    A cluster of one node: when raft makes it leader it queues all its jobs
    to itself, accepts writes, and the announcement it then gets from its own
    post-process channel puts every job on its schedule.  The parts are
    [handleRaftLeadershipChanges] and [dispatch] of node.go, [StartJobs] of
    processor.go, [Queue] of queue.go, [InsertJobQueueLogs] of job_queues.go
    and [QueueExecutions] of executor.go. *)

From stdpp Require Import base list gmap strings pretty.
From Stdlib Require Import ZArith Lia.
From S2P Require Import Prelude Models JobTime Batcher Sql Fsm Replication Inserts Reads JobQueueRepo.
From S2P Require Import Queue JobRepo JobFacts ExecutionsRepo ExecutionsFacts AccountRepos AsyncRepo Executor ExecutorFacts ExecutorImpl.
From S2P Require Import Processor Takeup AsyncService AsyncImpl Config ConfigFacts Node NodeFacts Delivery FanIn FanInRuns.

#[local] Open Scope Z_scope.

#[local] Existing Instance world_repo.

Section Lone.
Context {codec : CommandCodec} {env : Env} {mo : MapOrder} {uo : UnionOrder} {json : PeerJson} (total : codec_total).
Context (configs : Scheduler0Configurations).

Notation self := (NodeId configs).

#[local] Instance lone_laws : JobQueuesRepoLaws World := world_repo_laws total.

(** The queue of a node that has just become leader of itself. *)
Record lone_queue (q : jobQueue) : Prop := {
  lq_single : Queue.singleNodeMode q = true;
  lq_min : minId q = MaxInt64;
  lq_max : maxId q < 0;
  lq_self : dom (allocations q) = {[ self ]} }.

(** The interval of the ids of [js], as a log. *)
Definition spans (js : list Job) (l : JobQueueLog) : Prop :=
  q_LowerBoundJobId l ∈ ID <$> js /\ q_UpperBoundJobId l ∈ ID <$> js /\
  Forall (fun job => q_LowerBoundJobId l <= ID job <= q_UpperBoundJobId l) js /\
  0 <= q_LowerBoundJobId l <= q_UpperBoundJobId l /\ q_UpperBoundJobId l <= max_exact_id.

Lemma spans_ids js js' l : ID <$> js ≡ₚ ID <$> js' -> spans js l -> spans js' l.
Proof.
  intros Hp (Hl & Hu & Hall & Hr & Hm). rewrite Hp in Hl, Hu. split; [done|]. split; [done|]. split; [|done].
  apply (Forall_fmap ID (fun i => q_LowerBoundJobId l <= i <= q_UpperBoundJobId l)). rewrite <- Hp.
  by apply Forall_fmap.
Qed.

(** The jobs of the only project are inserted as one log. *)
Lemma start_project_lone p js w q :
  world_ready w -> jobs_abs (w_db w) js -> lone_queue q -> p_ID p <= MaxInt64 ->
  js <> [] -> Forall (fun j => 0 <= ID j <= max_exact_id /\ ProjectID j = p_ID p) js ->
  Z.of_nat (length js) <= MaxUint64 ->
  exists q' l,
    (forall w', InsertJobQueueLogs [l] w = Some (tt, w') ->
       start_project self p (w, q) = Some (tt, (w', q'))) /\
    q_NodeId l = self /\ q_Version l = max_version (versions (w_db w)) /\ spans js l.
Proof using total.
  intros Hr Hj [] Hp Hne Hjs Hlen. assert (Hw : healthy w) by (destruct Hr as [[] _]; done).
  assert (Hall : List.filter (in_project (p_ID p)) js = js).
  { clear -Hjs. induction Hjs as [|j js [_ Hj] _ IH]; [done|]. cbn. unfold in_project at 1.
    by rewrite Hj, Z.eqb_refl, IH. }
  destruct (GetJobsPaginated_abs (p_ID p) 0 (Z.of_nat (length js)) js w Hw Hj Hp) as (sorted & Hperm & _ & Hg).
  rewrite Hall in Hperm. rewrite Nat2Z.id in Hg. cbn [Z.to_nat drop] in Hg.
  rewrite take_ge in Hg by (by rewrite Hperm).
  set (jobs := (fun job => set_LastExecutionDate (DateCreated job) job) <$> sorted).
  assert (Hids : ID <$> jobs ≡ₚ ID <$> js).
  { unfold jobs. rewrite <- list_fmap_compose, <- Hperm. done. }
  destruct (Queue_single_inserts self jobs w q) as (q' & l & HQ & Hn & Hv & Hs); try done.
  { intros E. apply Hne. apply (fmap_nil_inv ID), Permutation_nil_r. by rewrite <- Hids, E. }
  { apply (Forall_fmap ID (fun i => 0 <= i <= max_exact_id)). rewrite Hids. apply Forall_fmap.
    eapply Forall_impl; [exact Hjs|]. cbn. tauto. }
  exists q', l. split_and!; [|done|done|].
  - intros w' Hi. unfold start_project.
    erewrite go_bind_on_fst by (by apply GetJobsTotalCountByProjectID_abs). rewrite Hall, u64_small by lia.
    erewrite go_bind_on_fst by exact Hg. cbv iota beta. by apply HQ.
  - apply (spans_ids jobs); [done|]. unfold spans. tauto.
Qed.

(** What the node finds when it is elected: one project with the jobs [js],
    which never ran, and the queue logs [old] of earlier elections. *)
Record lone (w : World) (p : Project) (js : list Job) (old : list JobQueueLog) : Prop := {
  ln_world : world_ready w;
  ln_channel : w_channel w = true;
  ln_version : max_version (versions (w_db w)) < 9007199254740992;
  ln_node : small self;
  ln_old : queue_abs (w_db w) old;
  ln_old_small : Forall queue_log_small old;
  ln_old_ids : Forall (fun l => q_Id l <= last_log_id w) old;
  ln_room : last_log_id w + 6553 <= MaxInt64;
  ln_project : projects_abs (w_db w) [p];
  ln_jobs : jobs_abs (w_db w) js;
  ln_ids : NoDup (ID <$> js);
  ln_some : js <> [];
  ln_few : Z.of_nat (length js) <= MaxUint64;
  ln_of_project : Forall (fun j => 0 <= ID j <= max_exact_id /\ ProjectID j = p_ID p) js;
  ln_batch : forall i j, i ∈ js -> j ∈ js -> ID i - ID j <= JobMaxBatchSize;
  ln_new : unlogged (fun i => i ∈ ID <$> js) (w_db w);
  (* the log written last starts no earlier and ends no earlier than the jobs *)
  ln_last : forall x, x ∈ old -> q_Id x = last_log_id w ->
    (exists j, j ∈ js /\ ID j <= q_LowerBoundJobId x) /\ (forall j, j ∈ js -> ID j <= q_UpperBoundJobId x) }.

(** The queue version is raised and the interval of the jobs is queued, which
    leaves a message for the node itself. *)
Lemma StartJobs_lone p js old w q :
  lone w p js old -> lone_queue q ->
  exists w' q' l unheard data logs,
    StartJobs self (w, q) = Some (tt, (w', q')) /\ world_ready w' /\ world_rest w w' /\
    w_post w' = w_post w ++ unheard ++ [mkPostProcess CommandActionQueueJob [self] data] /\
    Forall (fun m => pp_TargetNodes m = []) unheard /\ spans js l /\ queue_log_small l /\
    logs ≡ₚ List.filter (fun x => q_Id x =? last_log_id w) old ++ stamp (w_now w) (last_log_id w) [l] /\
    forall wn, healthy wn -> w_db wn = w_db w' ->
      GetJobQueueByLastInsertedAndRowsAffected (LastInsertedId data) (RowsAffected data) wn = Some (logs, wn).
Proof using total.
  intros [] Hq. pose proof Hq as [].
  assert (Hsize : small (Z.of_nat (size (allocations q)))).
  { rewrite <- size_dom, lq_self0, size_singleton. unfold small. lia. }
  destruct (StartJobs_opens total self [p] old w q)
    as (w1 & unheard & Hrun & Hr1 & _ & Hrest1 & Ha1 & Hpost1 & Hun & Htab); try done.
  assert (Hseq : last_log_id w1 = last_log_id w) by (unfold last_log_id; by rewrite Htab).
  pose proof (jobs_abs_rest w w1 js Hrest1 ln_jobs0) as Hj1. destruct ln_project0 as [_ Hpw].
  destruct (start_project_lone p js w1 q) as (q' & l & Hst & Hln & Hlv & Hsp); try done.
  { apply Forall_cons in Hpw as [[? _] _]. lia. }
  assert (Hl : queue_log_small l).
  { destruct Hsp as (_ & _ & _ & ? & ?). destruct Hr1 as (_ & _ & ?). unfold queue_log_small, max_exact_id in *.
    rewrite Hln, Hlv. split_and!; try done; unfold small; lia. }
  pose proof Hr1 as (Hquiet1 & Hnow1 & _). pose proof Hrest1 as (Hclock1 & Hchan1 & _).
  destruct (announced_rows [l] old w1) as (w2 & logs & data & Hi & Hpost & Hget & Hperm);
    fold (last_log_id w1) in *; rewrite ?Hseq; try done; [by constructor|congruence|].
  destruct (world_insert_law total [l] old w1) as (w2' & Hi' & Hr2 & _ & Hrest2 & _); try done.
  { by constructor. }
  rewrite Hi in Hi'. injection Hi' as <-.
  exists w2, q', l, unheard, data, logs. split_and!; try done.
  - rewrite Hrun. cbn [go_for]. by rewrite (go_bind_Some _ _ _ _ _ (Hst w2 Hi)).
  - by rewrite Hrest1.
  - rewrite Hpost, Hpost1, fmap_cons, Hln. by rewrite <- app_assoc.
  - rewrite Hperm. fold (last_log_id w1). rewrite Hseq. by destruct Hrest1 as (-> & _).
Qed.

Lemma unlogged_rest P w w' : world_rest w w' -> unlogged P (w_db w) -> unlogged P (w_db w').
Proof. intros (_ & _ & H) Hu r i Hr. apply Hu. unfold all_executions, db_rows in *. by rewrite !H in Hr. Qed.

Lemma between_all lo hi (js : list Job) :
  Forall (fun j => lo <= ID j <= hi) js -> List.filter (between lo hi) js = js.
Proof.
  induction 1 as [|j js Hj _ IH]; [done|]. cbn. unfold between at 1.
  by rewrite !(proj2 (Z.leb_le _ _)), IH by lia.
Qed.

(** The log of the jobs is the least of those the node looks up. *)
Lemma lone_least p js old w l logs :
  lone w p js old -> spans js l -> queue_log_small l ->
  logs ≡ₚ List.filter (fun x => q_Id x =? last_log_id w) old ++ stamp (w_now w) (last_log_id w) [l] ->
  exists f, f ∈ logs /\ least_range f logs /\ Forall queue_log_small logs /\
    q_LowerBoundJobId f = q_LowerBoundJobId l /\ q_UpperBoundJobId f = q_UpperBoundJobId l.
Proof.
  intros [] (_ & Hu & Hall & _) Hl Hp. apply (least_range_content l _ (List.filter (fun x => q_Id x =? last_log_id w) old ++ [l])).
  - by rewrite Hp, !fmap_app, stamp_content.
  - apply elem_of_app. right. by left.
  - apply Forall_app_2; [|by repeat constructor]. apply Forall_forall.
    intros x [Hx Hi%Z.eqb_eq]%elem_of_filter_bool. destruct (ln_last0 x Hx Hi) as [(j & Hj & Hlo) Hup].
    rewrite Forall_forall in Hall. specialize (Hall j Hj). cbn beta in Hall.
    apply list_elem_of_fmap in Hu as (k & -> & Hk). specialize (Hup k Hk). lia.
  - apply Forall_app_2; [by apply Forall_filter|by constructor].
Qed.

(** The message puts the jobs on the schedule. *)
Lemma dispatch_lone p js old w n l logs data :
  lone w p js old -> Forall (can_start (w_now w)) js ->
  world_ready (n_world n) -> world_rest w (n_world n) -> spans js l -> queue_log_small l ->
  logs ≡ₚ List.filter (fun x => q_Id x =? last_log_id w) old ++ stamp (w_now w) (last_log_id w) [l] ->
  GetJobQueueByLastInsertedAndRowsAffected (LastInsertedId data) (RowsAffected data) (n_world n) =
    Some (logs, n_world n) ->
  exists n', dispatch configs (mkPostProcess CommandActionQueueJob [self] data) n = Some (tt, n') /\
    Forall (started (w_now w) (n_executor n')) js /\ same_outside (ID <$> js) (n_executor n) (n_executor n').
Proof using total.
  intros Hln Hcan Hr Hrest Hsp Hl Hp Hget. pose proof Hln as [].
  assert (Hw : healthy (n_world n)) by (destruct Hr as [[] _]; done).
  destruct (lone_least p js old w l logs) as (f & Hf & Hle & Hs & Hlo & Hhi); [done..|].
  destruct Hsp as (Hlj & Huj & Hall & Hb & Hm).
  assert (Hrange : fetched_ranges (q_LowerBoundJobId f) (q_UpperBoundJobId f) =
                   [(q_LowerBoundJobId l, q_UpperBoundJobId l)]).
  { rewrite Hlo, Hhi. apply list_elem_of_fmap in Hlj as (i & Ei & Hi), Huj as (j & Ej & Hj).
    unfold fetched_ranges. rewrite (proj2 (Z.ltb_ge _ _)); [done|]. rewrite Ei, Ej. by apply ln_batch0. }
  assert (Hjobs : BatchGetJobsWithIDRange (q_LowerBoundJobId l) (q_UpperBoundJobId l) (n_world n) = Some (Ok js, n_world n)).
  { rewrite (BatchGetJobsWithIDRange_abs _ _ js) by (try done; try (by eapply jobs_abs_rest); unfold max_exact_id in *; go_lia).
    by rewrite between_all. }
  assert (Hlast : GetLastExecutionLogForJobIds (ID <$> js) (n_world n) = Some (∅, n_world n)).
  { apply GetLastExecutionLog_unlogged; [done| |by eapply unlogged_rest]. apply Forall_fmap.
    eapply Forall_impl; [exact Hall|]. cbn. unfold max_exact_id in *. go_lia. }
  pose proof Hrest as (Hnow & _).
  destruct (ScheduleJobs_new self (JobExecutionRetryMax configs) js ∅ (n_world n) (n_executor n))
    as (w' & e' & Hsch & _ & Hst & Hout & _); try done.
  { split; [done|]. destruct Hr as (_ & _ & [? _]). done. }
  { apply Forall_forall. intros. apply lookup_empty. }
  { cbn. by rewrite Hnow. }
  cbn in Hst. rewrite Hnow in Hst.
  exists (with_parts w' (n_queue n) e' (n_async n) n). split; [|by split].
  rewrite dispatch_target by (done || apply NoDup_singleton || (cbn; by left)). cbn [pp_Data].
  apply on_executor_run. rewrite (QueueExecutions_visits _ _ _ _ logs f), Hrange
    by (try done; rewrite Hhi; unfold max_exact_id in *; lia).
  cbn [visit]. rewrite (go_bind_on_fst _ _ _ _ _ _ Hjobs). by rewrite (go_bind_Some _ _ _ _ _ Hsch).
Qed.

(** Messages for nobody are passed over. *)
Lemma dispatch_unheard unheard p n n' :
  Forall (fun m => pp_TargetNodes m = []) unheard -> dispatch configs p n = Some (tt, n') ->
  listenOnInputQueues configs (PostProcessed <$> unheard ++ [p]) n = Some (tt, n').
Proof.
  unfold listenOnInputQueues. intros Hun Hd.
  induction Hun as [|m unheard Hm _ IH]; cbn [app]; rewrite fmap_cons; cbn [go_for handle_input].
  - by rewrite (go_bind_Some _ _ _ _ _ Hd).
  - rewrite (go_bind_Some _ _ n tt n); [done|]. unfold dispatch. by rewrite Hm.
Qed.

(** The node is the only server raft knows and has no other replica. *)
Record alone (n : nodeService) : Prop := {
  al_server : exists a, raftServers n = [a] /\ GetNodeIdWithRaftAddress configs a = Ok self;
  al_replicas : other_replicas configs = [];
  al_min : minId (n_queue n) = MaxInt64;
  al_max : maxId (n_queue n) < 0;
  al_allocations : dom (allocations (n_queue n)) ⊆ {[ self ]} }.

Lemma elected_queue n : alone n ->
  lone_queue (Queue.SetSingleNodeMode true (AddServers [self] (RemoveServers [self] (n_queue n)))).
Proof.
  intros [_ _ ? ? Hd]. split; try done. cbn. rewrite dom_insert_L, dom_delete_L. set_solver.
Qed.


End Lone.

(** ** A run *)

#[local] Existing Instance plain_codec.
#[local] Existing Instance sample_env.
#[local] Existing Instance natural_order.
#[local] Existing Instance bits_json.
#[local] Existing Instance first_union.

(** Node 1 is elected with the jobs 4 and 6; in an earlier election it queued
    the interval from 4 to 9. *)
Definition one_node : Scheduler0Configurations :=
  mkConfigurations "" "http" "a" "1" [mkRaftNode "http://a:1" "ra" 1]
    0 0 0 true 1 "" "ra" 0 0 0 0 0 0 0 0 0 0 3 1 0 0 1 0 0.
Definition lone_jobs : list Job := [sample_job 4; sample_job 6].
Definition earlier_log : JobQueueLog := mkJobQueueLog 1 1 4 9 1 (mkTime 1 "UTC").
Definition lone_db : Db :=
  mkDb (<[JobQueuesTableName := Table [queue_row earlier_log] 1]>
        (<[JobQueuesVersionTableName := Table [[("id", VInt 1); ("version", VInt 1); ("number_of_active_nodes", VInt 1)]] 1]>
        (<["projects" := Table [proj_row (proj 1 "a")] 1]>
        (<[JobsTableName := Table (job_row <$> lone_jobs) 6]> (db_tabs db_empty))))) 6.
Definition lone_node : nodeService :=
  NewNode (mkWorld lone_db time10 RaftLeader true [] []) NewJobQueue NewJobExecutor NewAsyncTaskManager false ["ra"] [].

Lemma lone_node_lone :
  lone one_node (n_world lone_node) (proj 1 "a") lone_jobs [earlier_log].
Proof.
  split.
  - split; [by split|]. split; [reflexivity|]. vm_compute. split; discriminate.
  - reflexivity.
  - vm_compute. reflexivity.
  - vm_compute. split; discriminate.
  - split; [reflexivity|]. split; [|vm_compute; discriminate].
    constructor; [|constructor]. vm_compute. repeat split; discriminate.
  - constructor; [|constructor]. vm_compute. repeat split; discriminate.
  - constructor; [|constructor]. vm_compute. discriminate.
  - vm_compute. discriminate.
  - split; [reflexivity|]. repeat constructor; vm_compute; discriminate.
  - split; [reflexivity|]. repeat (constructor; [split; [reflexivity|];
      split; (split; [vm_compute; discriminate|]); [vm_compute; reflexivity|vm_compute; discriminate]|]). constructor.
  - apply (bool_decide_unpack _). vm_compute. exact I.
  - discriminate.
  - vm_compute. discriminate.
  - repeat constructor; vm_compute; discriminate.
  - intros i j Hi Hj. apply list_elem_of_In in Hi, Hj.
    destruct Hi as [<-|[<-|[]]], Hj as [<-|[<-|[]]]; vm_compute; discriminate.
  - intros r i Hr. vm_compute in Hr. by apply elem_of_nil in Hr.
  - intros x ->%list_elem_of_singleton _. split.
    + exists (sample_job 4). split; [left|vm_compute; discriminate].
    + intros j Hj. apply list_elem_of_In in Hj. destruct Hj as [<-|[<-|[]]]; vm_compute; discriminate.
Qed.

