(* ===== verification/Cluster.v ===== *)
(** * A cluster, from the collected peers to the workers' schedules

    When the data of the last peer was committed, the leader queues every job
    ([handleCompletedPeerFanIn] of node.go, [StartJobs] of processor.go,
    [Queue] of queue.go); the queue logs are replicated; and a worker that is
    told to start its jobs ([StartJobs] of node.go, [RecoverJobs] of
    processor.go) takes up its share.  Here they are composed: every job is
    on the schedule of a worker. *)

From stdpp Require Import base list gmap strings pretty.
From Stdlib Require Import ZArith Lia.
From S2P Require Import Prelude Models JobTime Batcher Sql Fsm Replication Inserts Reads JobQueueRepo.
From S2P Require Import Queue JobRepo JobFacts ExecutionsRepo AccountRepos AsyncRepo Executor ExecutorFacts ExecutorImpl.
From S2P Require Import Processor Takeup AsyncService AsyncImpl Config ConfigFacts Node NodeFacts FanIn FanInRuns.

#[local] Open Scope Z_scope.

#[local] Existing Instance world_repo.

(** ** Parts of a partition *)

Lemma elem_of_concat_filter {A B} (f : A -> bool) (g : A -> list B) (l : list A) x :
  x ∈ concat (g <$> List.filter f l) <-> exists a, a ∈ l /\ f a = true /\ x ∈ g a.
Proof.
  rewrite elem_of_concat. split.
  - intros (? & (a & -> & [Ha Hf]%elem_of_filter_bool)%list_elem_of_fmap & Hx). by exists a.
  - intros (a & Ha & Hf & Hx). exists (g a). split; [|done]. apply list_elem_of_fmap_2, elem_of_filter_bool. done.
Qed.

Lemma separate_filter M f logs : separate M logs -> separate M (List.filter f logs).
Proof.
  intros [Hnd HF]. split; [|by apply Forall_filter]. clear HF.
  induction logs as [|l logs IH]; [constructor|]. rewrite fmap_cons in Hnd. cbn [concat] in Hnd.
  apply NoDup_app in Hnd as (Hl & Hdis & Hnd). cbn [List.filter]. destruct (f l); [|by apply IH].
  rewrite fmap_cons. cbn [concat]. apply NoDup_app. split_and!; [done| |by apply IH].
  intros i Hi (l' & Hl' & _ & Hi')%elem_of_concat_filter. apply (Hdis i Hi), elem_of_concat.
  exists (log_ids l'). split; [by apply list_elem_of_fmap_2|done].
Qed.

Lemma separate_mono M M' logs : M <= M' -> separate M logs -> separate M' logs.
Proof. intros HM [? HF]. split; [done|]. eapply Forall_impl; [exact HF|]. cbn beta. lia. Qed.

Lemma separate_bound M logs i : separate M logs -> i ∈ concat (log_ids <$> logs) -> 0 <= i <= M.
Proof.
  intros [_ HF] (? & (l & -> & Hl)%list_elem_of_fmap & Hi)%elem_of_concat. rewrite Forall_forall in HF.
  specialize (HF l Hl). unfold log_ids in Hi. apply elem_of_zseq in Hi. cbn beta in HF. lia.
Qed.

(** Logs of an earlier version are not read. *)
Lemma filter_older node v (old new : list JobQueueLog) :
  Forall (fun l => q_Version l < v) old ->
  List.filter (log_of node v) (old ++ new) = List.filter (log_of node v) new.
Proof.
  intros HF. rewrite List.filter_app. replace (List.filter (log_of node v) old) with (@nil JobQueueLog); [done|].
  induction HF as [|l old Hl _ IH]; [done|]. cbn. unfold log_of at 1.
  rewrite (proj2 (Z.eqb_neq (q_Version l) v)), andb_false_r by lia. done.
Qed.

(** ** Replicas of the tables *)

Lemma queue_abs_rep a b qs : rep_eq a b -> queue_abs a qs -> queue_abs b qs.
Proof.
  intros H (Hr & ? & ?). unfold queue_abs, db_rows in *. by rewrite <- (rep_eq_table a b _ H).
Qed.

Lemma jobs_abs_rep a b js : rep_eq a b -> jobs_abs a js -> jobs_abs b js.
Proof. intros H [Hr ?]. split; [|done]. by rewrite <- (rep_eq_rows a b _ H). Qed.

Lemma versions_rep a b : rep_eq a b -> versions a = versions b.
Proof. intros H. unfold versions. by rewrite (rep_eq_rows a b _ H). Qed.

Section Cluster.
Context {codec : CommandCodec} {env : Env} {mo : MapOrder} {uo : UnionOrder} {json : PeerJson} (total : codec_total).
Context (configs : Scheduler0Configurations).

Notation self := (NodeId configs).

#[local] Instance cluster_laws : JobQueuesRepoLaws World := world_repo_laws total.

(** What the leader finds: one project with the jobs [js], and queue logs of
    earlier versions. *)
Record leading (M : Z) (w : World) (q : jobQueue) (p : Project) (js : list Job) (old : list JobQueueLog) : Prop := {
  ld_world : world_ready w;
  ld_version : max_version (versions (w_db w)) < 9007199254740992;
  ld_old : queue_abs (w_db w) old;
  ld_older : Forall (fun l => q_Version l <= max_version (versions (w_db w))) old;
  ld_project : projects_abs (w_db w) [p];
  ld_jobs : jobs_abs (w_db w) js;
  ld_ids : NoDup (ID <$> js);
  ld_few : Z.of_nat (length js) <= MaxUint64;
  ld_of_project : Forall (fun j => 0 <= ID j <= M /\ ProjectID j = p_ID p) js;
  ld_bound : 0 <= M <= max_exact_id;
  ld_queue : queue_ready self 0 q;
  ld_servers : small (Z.of_nat (size (allocations q))) }.

(** The new queue logs of the leader: separate ranges that cover the jobs. *)
Lemma StartJobs_leading M w q p js old :
  leading M w q p js old ->
  let v := max_version (versions (w_db w)) + 1 in
  exists w' q' new,
    StartJobs self (w, q) = Some (tt, (w', q')) /\ jobs_abs (w_db w') js /\
    max_version (versions (w_db w')) = v /\ queue_abs (w_db w') (old ++ new) /\ separate M new /\
    forall j, j ∈ js -> exists l, l ∈ new /\ assigned self (allocations q) v (ID j) l.
Proof using total.
  intros [] v.
  destruct (StartJobs_opens total self [p] old w q) as (w1 & _ & Hrun & Hr1 & Hv1 & Hrest & Ha1 & _); [done..|].
  destruct (start_project_ok total self p js old 0 M w1 q)
    as (w2 & q2 & new & H2 & Hr2 & Hrest2 & Hv2 & Ha2 & _ & _ & _ & Hc & Hsep); try done.
  { by eapply jobs_abs_rest. }
  { destruct ld_project0 as [_ Hpw]. apply Forall_cons in Hpw as [[? _] _]. lia. }
  { eapply Forall_impl; [exact ld_of_project0|]. cbn. tauto. }
  rewrite Hv1 in *. exists w2, q2, new. split_and!; try done.
  - rewrite Hrun. cbn [go_for]. by rewrite (go_bind_Some _ _ _ _ _ H2).
  - eapply jobs_abs_rest; [|exact ld_jobs0]. by rewrite Hrest.
  - intros j Hj. apply Hc; [done|]. rewrite Forall_forall in ld_of_project0. by apply ld_of_project0.
Qed.

(** A worker that has the tables of the leader, and has logged nothing. *)
Record follows (M : Z) (leader : Db) (wn : nodeService) : Prop := {
  fo_healthy : healthy (n_world wn);
  fo_tables : rep_eq leader (w_db (n_world wn));
  fo_new : unlogged (fun i => 0 <= i <= M) (w_db (n_world wn));
  fo_mode : Executor.singleNodeMode (n_executor wn) = false }.

Lemma worker_takes_up wconfigs M db wn js old new v :
  follows M db wn -> jobs_abs db js -> NoDup (ID <$> js) -> queue_abs db (old ++ new) ->
  max_version (versions db) = v -> 0 < v <= MaxInt64 -> 0 < NodeId wconfigs <= MaxInt64 -> M <= max_exact_id ->
  Forall (fun l => q_Version l < v) old -> separate M new ->
  Forall (can_start (w_now (n_world wn))) js ->
  exists wn', node_StartJobs wconfigs wn = Some (tt, wn') /\
    forall j l, j ∈ js -> l ∈ new -> q_NodeId l = NodeId wconfigs -> q_Version l = v -> ID j ∈ log_ids l ->
      started (w_now (n_world wn)) (n_executor wn') j.
Proof.
  intros [] Hj Hnd Hq Hv Hv0 Hn HM Hold Hsep Hcan. rewrite (versions_rep _ _ fo_tables0) in Hv.
  assert (Hmine : my_logs (NodeId wconfigs) (n_world wn) (old ++ new) = List.filter (log_of (NodeId wconfigs) v) new).
  { unfold my_logs. rewrite Hv. by apply filter_older. }
  pose proof (separate_filter M (log_of (NodeId wconfigs) v) new Hsep) as Hsep'.
  destruct (RecoverJobs_schedules (NodeId wconfigs) (JobExecutionRetryMax wconfigs) (n_world wn) (old ++ new) js (n_executor wn))
    as (w' & e' & Hrun & _ & Hst & _); [| | | | |done|].
  - split; [done|by rewrite Hv|done|by eapply jobs_abs_rep|done].
  - by eapply queue_abs_rep.
  - rewrite Hmine. eapply separate_mono; [|done]. unfold max_exact_id in HM. go_lia.
  - eapply unlogged_mono; [|exact fo_new0]. unfold my_ids. rewrite Hmine. intros i. by apply separate_bound.
  - intros job Hjob _. rewrite Forall_forall in Hcan. by apply Hcan.
  - eexists. split; [by apply on_executor_run|]. intros j l Hjj Hl Hnode Hver Hin. apply Hst; [done|].
    unfold my_ids. rewrite Hmine. apply elem_of_concat_filter. exists l. split_and!; [done| |done].
    unfold log_of. by rewrite Hnode, Hver, !Z.eqb_refl.
Qed.


End Cluster.

(** ** A run *)

#[local] Existing Instance plain_codec.
#[local] Existing Instance sample_env.
#[local] Existing Instance natural_order.
#[local] Existing Instance bits_json.
#[local] Existing Instance first_union.

(** Nodes 1 and 2, of which 1 leads, with the jobs 4 and 6. *)
Definition shared_jobs : list Job := [sample_job 4; sample_job 6].
Definition shared_db : Db :=
  mkDb (<["projects" := Table [proj_row (proj 1 "a")] 1]>
        (<[JobsTableName := Table (job_row <$> shared_jobs) 6]> (db_tabs db_empty))) 6.
Definition two_servers : jobQueue := AddServers [1; 2] NewJobQueue.
Definition leader_node : nodeService :=
  NewNode (mkWorld shared_db time10 RaftLeader true [] []) two_servers NewJobExecutor NewAsyncTaskManager
    false ["ra"; "rb"] [].
Definition second : Scheduler0Configurations :=
  mkConfigurations "" "http" "b" "1" [mkRaftNode "http://a:1" "ra" 1; mkRaftNode "http://b:1" "rb" 2]
    0 0 0 true 2 "" "rb" 0 0 0 0 0 0 0 0 0 0 3 1 0 0 1 0 0.
Definition collected : PeerFanIn :=
  mkPeerFanIn "http://b:1" "" PeerFanInStateGetExecutionsLogs local_data_zero.
(** The second node, with the tables of the first. *)
Definition second_node (n : nodeService) : nodeService :=
  NewNode (mkWorld (w_db (n_world n)) time10 RaftNotLeader true [] []) NewJobQueue NewJobExecutor NewAsyncTaskManager
    true ["ra"; "rb"] [].

Lemma two_servers_ready : queue_ready 1 0 two_servers.
Proof.
  split; try reflexivity.
  - exists 2. split; [|discriminate]. apply elem_of_dom. by exists 0.
  - assert (dom (allocations two_servers) = {[1; 2]}) as -> by (vm_compute; reflexivity).
    intros x Hx. assert (x = 1 \/ x = 2) as Hx' by set_solver. unfold small. lia.
  - intros s a Hs. assert (a = 0) as ->; [|lia]. revert Hs. unfold two_servers, AddServers. cbn.
    rewrite !lookup_insert. by repeat case_decide; intros [= <-] || done.
Qed.

Lemma leader_leading : leading two_nodes 6 (n_world leader_node) two_servers (proj 1 "a") shared_jobs [].
Proof.
  split.
  - split; [by split|]. split; [reflexivity|]. vm_compute. split; discriminate.
  - vm_compute. reflexivity.
  - split; [reflexivity|]. split; [constructor|vm_compute; discriminate].
  - constructor.
  - split; [reflexivity|]. repeat constructor; vm_compute; discriminate.
  - split; [reflexivity|]. repeat (constructor; [split; [reflexivity|];
      split; (split; [vm_compute; discriminate|]); [vm_compute; reflexivity|vm_compute; discriminate]|]). constructor.
  - apply (bool_decide_unpack _). vm_compute. exact I.
  - vm_compute. discriminate.
  - repeat constructor; vm_compute; discriminate.
  - vm_compute. split; discriminate.
  - apply two_servers_ready.
  - vm_compute. split; discriminate.
Qed.

