(* ===== verification/Lifetime.v ===== *)
(** * An executor that runs

    The ticker, the debounced flush, the requests of the worker pool with
    their retries, and the passing of time as a transition system over the
    executor: whatever their order, no job is lost or executed twice at a
    time, and every step comes back. *)

From stdpp Require Import base list gmap strings pretty relations.
From Stdlib Require Import ZArith Ascii Lia.
From S2P Require Import Prelude Models JobTime Batcher Sql Fsm Config Executor ExecutorFacts HttpExecutor Execution.

#[local] Open Scope Z_scope.

(** ** Jobs that can be executed for as long as the clock is in a window *)

Section Durable.
Context {env : Env} {json : ExecJson} (configs : Scheduler0Configurations).
(** No date is before [origin], the clock stays within [horizon], and an
    activation counted from before [horizon] is not after [latest]. *)
Context (origin horizon latest : Z).

Definition datable (t : Time) : Prop := origin <= t_ns t <= latest.

(** What executions do not change of a job. *)
Definition lasting_part (job : Job) :=
  (ID job, ProjectID job, Spec job, CallbackUrl job, Data job, ExecutionType job, Timezone job,
   TimezoneOffset job, t_ns (StartDate job), t_ns (EndDate job), t_ns (DateCreated job)).

(** What they set: the activation they count from, and the id of the next. *)
Definition dated (job : Job) : Prop :=
  exists d t, datable d /\ datable t /\ t_ns (LastExecutionDate job) = t_ns d /\
    ExecutionId job = id_for (set_LastExecutionDate d job) t.

Definition timed (job : Job) : Prop :=
  exists next loc, cron_parse (Spec job) = Ok next /\ advances next /\
    (forall t, t_ns t < horizon -> t_ns (next t) <= latest) /\ load_location (Timezone job) = Ok loc /\
    datable (DateCreated job).

(** A job with a schedule and a payload of acceptable size at every date. *)
Record executable (job : Job) : Prop := {
  xj_http : ExecutionType job = ExecutionTypeHTTP;
  xj_timed : timed job;
  xj_posts : forall job', lasting_part job' = lasting_part job -> dated job' ->
    payload_fits configs job' /\ job_text job' = true }.

Definition durable (job : Job) : Prop := executable job /\ dated job.

Lemma durable_posts job : durable job -> payload_fits configs job /\ job_text job = true.
Proof. intros [[_ _ Hp] Hd]. by apply Hp. Qed.

Lemma lasting_executable job job' : lasting_part job' = lasting_part job -> executable job -> executable job'.
Proof.
  intros E [Hh (next & loc & Ht) Hp]. pose proof E as [= ? ? Es ? ? Et Ez ? ? ? Ec]. split; [congruence| |].
  - exists next, loc. unfold datable. by rewrite Es, Ez, Ec.
  - intros j' Hj'. apply Hp. congruence.
Qed.

Context (fuel_enough : (Z.to_nat (horizon - origin) <= loop_fuel)%nat).

Lemma timed_next now job :
  timed job -> datable (LastExecutionDate job) -> t_ns now <= horizon ->
  exists t, GetNextExecutionTime now job = Some (Ok t) /\ datable t.
Proof.
  intros (next & loc & Hp & Hadv & Hb & Hl & Hc) Hd Hnow.
  unfold GetNextExecutionTime, ConvertTimeToJobTimezone. rewrite Hp, Hl.
  set (from := In_loc loc _).
  assert (Hf : origin <= t_ns from <= latest) by (unfold from; cbn; by destruct (IsZero _)).
  clearbody from. destruct (next_loop_first loop_fuel next now from Hadv) as (k & -> & Hge & Hlt); [lia|].
  eexists. split; [reflexivity|]. destruct k as [|k]; [done|].
  specialize (Hlt k ltac:(lia)). change (Nat.iter (S k) next from) with (next (Nat.iter k next from)).
  pose proof (Hadv (Nat.iter k next from)). enough (origin <= t_ns (Nat.iter k next from)).
  { split; [lia|]. apply Hb. lia. }
  clear -Hf Hadv. induction k as [|k IH]; [apply Hf|].
  change (Nat.iter (S k) next from) with (next (Nat.iter k next from)).
  pose proof (Hadv (Nat.iter k next from)). lia.
Qed.

Lemma durable_next now job :
  durable job -> t_ns now <= horizon -> exists t, GetNextExecutionTime now job = Some (Ok t) /\ datable t.
Proof.
  intros [[_ Ht _] (d & t & Hd & _ & E & _)] Hn. apply timed_next; [done| |done]. unfold datable. by rewrite E.
Qed.

Lemma follow_next now c job :
  durable job -> datable (m_NextExecutionDatetime c) -> t_ns now <= horizon ->
  exists t, GetNextExecutionTime now (follow c job) = Some (Ok t) /\ datable t.
Proof.
  intros [[_ (next & loc & Ht) _] _] Hd Hn. apply timed_next; [|done|done]. by exists next, loc.
Qed.

Lemma durable_wire job : durable job -> durable (wire_job job).
Proof.
  intros [Hx (d & t & ? & ? & ? & ?)]. split; [by apply (lasting_executable job)|]. exists d, t. by split_and!.
Qed.

(** The next execution of a durable job is durable. *)
Lemma durable_replanned c t job :
  durable job -> datable (m_NextExecutionDatetime c) -> datable t ->
  durable (set_ExecutionId (id_for (follow c job) t) (follow c job)).
Proof.
  intros [Hx _] Hd Hdt. split; [by apply (lasting_executable job)|].
  exists (m_NextExecutionDatetime c), t. by split_and!.
Qed.

(** The first one too. *)
Lemma durable_first now loc job t :
  executable job -> t_ns now <= horizon -> load_location (Timezone job) = Ok loc ->
  GetNextExecutionTime now (born loc job) = Some (Ok t) -> durable (first_job loc job t) /\ datable t.
Proof.
  intros Hx Hn Hl Ht. assert (Hc : datable (In_loc loc (DateCreated job))).
  { by destruct Hx as [_ (? & ? & _ & _ & _ & _ & ?) _]. }
  assert (Hd : datable t).
  { destruct (timed_next now (born loc job)) as (t' & Ht' & ?); [|done..|congruence].
    by destruct Hx as [_ (next & loc' & ?) _]; exists next, loc'. }
  split; [|done]. split; [by apply (lasting_executable job)|]. exists (In_loc loc (DateCreated job)), t. by split_and!.
Qed.

Lemma executable_start now job : executable job -> t_ns now <= horizon -> can_start now job.
Proof.
  intros [_ (next & loc & ? & ? & ? & Hl & Hc) _] Hn.
  destruct (timed_next now (born loc job)) as (t & Ht & _); [by exists next, loc|done..|]. by exists loc, t.
Qed.

End Durable.

(** ** The transition system *)

Section Running.
Context {W : Type} `{ExecutorLaws W} {json : ExecJson} {laws : ExecJsonLaws json}.
Context (configs : Scheduler0Configurations) (net : nat -> http_work -> post_outcome).
Context (origin horizon latest : Z).
Context (fuel_enough : (Z.to_nat (horizon - origin) <= loop_fuel)%nat).
Context (retries_ok : 0 <= JobExecutionRetryMax configs <= MaxUint64).

Notation success := (handleSuccessJobs (NodeId configs) (JobExecutionRetryMax configs)).
Notation failure := (handleFailedJobs (NodeId configs) (JobExecutionRetryMax configs)).
Notation try := (attempt (R := W * jobExecutor) net success failure).
Notation retries := (Z.to_nat (JobExecutionRetryMax configs)).

(** The executor, the requests made so far, and the works of the pool that
    are not finished, with the attempts each has after the next. *)
Record running := mkRunning {
  rn_requests : nat;
  rn_world : W;
  rn_exec : jobExecutor;
  rn_works : list (http_work * nat) }.

(** What [RetryOnError] has still to do after an attempt. *)
Definition left_over (r : option string) (hw : http_work) (m : nat) : list (http_work * nat) :=
  match r, m with Some _, S m' => [(hw, m')] | _, _ => [] end.

(** The debounced closure: the works it queues. *)
Definition submit (url_order : gmap string (list Job) -> list (string * list Job))
    : Go (W * jobExecutor) (list http_work) :=
  jobs ← flush;
  lift_opt (ExecuteHTTPJob configs url_order jobs).

Inductive exec_step : running -> running -> Prop :=
| step_tick order n w e works w' e' :
    (forall m, order m ≡ₚ map_to_list m) -> tick order (w, e) = Some (tt, (w', e')) ->
    exec_step (mkRunning n w e works) (mkRunning n w' e' works)
| step_submit url_order n w e works new w' e' :
    (forall m, url_order m ≡ₚ map_to_list m) -> submit url_order (w, e) = Some (new, (w', e')) ->
    exec_step (mkRunning n w e works) (mkRunning n w' e' (works ++ ((fun hw => (hw, retries)) <$> new)))
| step_attempt n w e works1 hw m works2 r n' w' e' :
    try hw (n, (w, e)) = Some (r, (n', (w', e'))) ->
    exec_step (mkRunning n w e (works1 ++ (hw, m) :: works2))
      (mkRunning n' w' e' (works1 ++ left_over r hw m ++ works2))
| step_elsewhere n w e works w' :
    ex_ready w' -> t_ns (ex_clock w) <= t_ns (ex_clock w') <= horizon ->
    exec_step (mkRunning n w e works) (mkRunning n w' e works).

(** The attempts of a work, taken one after the other, are what the pool runs. *)
Lemma run_work_steps hw n w e works1 works2 n' w' e' :
  run_http_work (R := W * jobExecutor) configs net success failure hw (n, (w, e)) = Some (tt, (n', (w', e'))) ->
  rtc exec_step (mkRunning n w e (works1 ++ (hw, retries) :: works2)) (mkRunning n' w' e' (works1 ++ works2)).
Proof.
  rewrite run_http_work_attempts. generalize retries as m. intros m. revert n w e.
  induction m as [|m IH]; intros n w e (r & [n1 [w1 e1]] & Hgo & Hrest)%go_bind_inv;
    (eapply rtc_l; [apply step_attempt; exact Hgo|]); destruct r as [err|]; cbn [left_over app];
    try (injection Hrest as <- <- <-; apply rtc_refl).
  by apply IH.
Qed.

(** ** The invariant *)

Definition in_flight (works : list (http_work * nat)) : list Job := concat ((fun x => decoded (fst x)) <$> works).

(** The ids of the jobs, wherever they are. *)
Definition whereabouts (s : running) : list Z :=
  (fst <$> map_to_list (scheduledJobs (rn_exec s))) ++ (ID <$> pendingJobInvocations (rn_exec s)) ++
  (ID <$> in_flight (rn_works s)).

(** The cache has the execution, which failed [k] times. *)
Definition awaits (e : jobExecutor) (k : Z) (job : Job) : Prop :=
  exists c, jobExecutionsCache e !! ID job = Some c /\ m_FailCount c = k /\
    datable origin latest (m_NextExecutionDatetime c).

Definition waiting (e : jobExecutor) (k : Z) (job : Job) : Prop :=
  durable configs origin horizon latest job /\ awaits e k job.

(** A schedule is at the time the cache has for the execution. *)
Definition schedule_ok (e : jobExecutor) (k : Z) (s : JobSchedule) : Prop :=
  ID (js_Job s) = k /\ durable configs origin horizon latest (js_Job s) /\
  exists c, jobExecutionsCache e !! k = Some c /\ m_FailCount c = 0 /\
    m_NextExecutionDatetime c = js_ExecutionTime s /\ datable origin latest (js_ExecutionTime s).

Definition work_ok (e : jobExecutor) (x : http_work * nat) : Prop :=
  Z.of_nat (snd x) <= JobExecutionRetryMax configs /\
  Forall (waiting e (JobExecutionRetryMax configs - Z.of_nat (snd x))) (decoded (fst x)).

Record running_ok (ids : list Z) (s : running) : Prop := {
  rk_ready : ex_ready (rn_world s);
  rk_clock : t_ns (ex_clock (rn_world s)) <= horizon;
  rk_ids : whereabouts s ≡ₚ ids;
  rk_scheduled : map_Forall (schedule_ok (rn_exec s)) (scheduledJobs (rn_exec s));
  rk_pending : Forall (waiting (rn_exec s) 0) (pendingJobInvocations (rn_exec s));
  rk_works : Forall (work_ok (rn_exec s)) (rn_works s) }.

(** What the callbacks need of a job. *)
Lemma awaits_under_way now e k job :
  t_ns now <= horizon -> durable configs origin horizon latest job -> awaits e k job -> under_way now e k job.
Proof.
  intros Hn Ht (c & Hc & Hk & Hd).
  destruct (durable_next _ _ _ _ fuel_enough now job Ht Hn) as (t & Hnt & _).
  destruct (follow_next _ _ _ _ fuel_enough now c job Ht Hd Hn) as (t' & Hnt' & _).
  split; [by exists t|]. by exists c, t'.
Qed.

(** Only the cache of the jobs of a place matters to it. *)
Lemma schedule_ok_same e e' k s :
  jobExecutionsCache e' !! k = jobExecutionsCache e !! k -> schedule_ok e k s -> schedule_ok e' k s.
Proof. intros E. unfold schedule_ok. by rewrite E. Qed.
Lemma waiting_same e e' k jobs :
  (forall job, job ∈ jobs -> jobExecutionsCache e' !! ID job = jobExecutionsCache e !! ID job) ->
  Forall (waiting e k) jobs -> Forall (waiting e' k) jobs.
Proof.
  rewrite !Forall_forall. intros E HF job Hj. destruct (HF job Hj) as [? Ha]. split; [done|].
  unfold awaits. by rewrite E.
Qed.

Lemma works_same e e' works :
  (forall job, job ∈ in_flight works -> jobExecutionsCache e' !! ID job = jobExecutionsCache e !! ID job) ->
  Forall (work_ok e) works -> Forall (work_ok e') works.
Proof.
  intros E. induction 1 as [|x works [Hm Hx] _ IH]; [constructor|].
  unfold in_flight in *. rewrite fmap_cons in E. cbn [concat] in E. constructor.
  - split; [done|]. eapply waiting_same; [|exact Hx]. intros job Hj. apply E, elem_of_app. by left.
  - apply IH. intros job Hj. apply E, elem_of_app. by right.
Qed.

(** ** The steps keep the invariant *)

Ltac places :=
  unfold whereabouts in *;
  cbn [rn_world rn_exec rn_works scheduledJobs pendingJobInvocations jobExecutionsCache with_pending] in *.

Notation durable := (durable configs origin horizon latest).

Lemma due_split now (m : gmap Z JobSchedule) :
  map_to_list (filter (fun ks => due now (snd ks) = false) m) ++ due_entries now (map_to_list m) ≡ₚ map_to_list m.
Proof.
  unfold due_entries. apply NoDup_Permutation; [|apply NoDup_map_to_list|].
  - apply NoDup_app. split_and!; [apply NoDup_map_to_list| |].
    + intros [k x]. rewrite elem_of_map_to_list, map_lookup_filter_Some. intros [_ Hd] [_ Hd']%elem_of_filter_bool.
      cbn in *. congruence.
    + apply NoDup_ListNoDup, List.NoDup_filter, NoDup_ListNoDup, NoDup_map_to_list.
  - intros [k x]. rewrite elem_of_app, elem_of_filter_bool, !elem_of_map_to_list, map_lookup_filter_Some. cbn.
    destruct (due now x); intuition congruence.
Qed.

Lemma ok_sched_wf ids s : running_ok ids s -> sched_wf (scheduledJobs (rn_exec s)).
Proof. intros Hok k x Hx. by apply (rk_scheduled _ _ Hok) in Hx as [? _]. Qed.

Lemma tick_keeps ids order n w e works :
  running_ok ids (mkRunning n w e works) -> (forall m, order m ≡ₚ map_to_list m) ->
  exists e', tick order (w, e) = Some (tt, (w, e')) /\ running_ok ids (mkRunning n w e' works) /\
    map_Forall (fun _ x => due (ex_clock w) x = false) (scheduledJobs e').
Proof.
  intros Hok Ho. pose proof (ok_sched_wf _ _ Hok) as Hwf. destruct Hok as [Hr Hck Hids Hsch Hpend Hworks].
  places.
  destruct (tick_due order w e Hr Hwf (Ho _)) as (e' & Ht & Hp & Hs & Hc).
  fold (due_jobs (ex_clock w) e) in Hp.
  exists e'. split_and!; [done| |by intros k x; rewrite Hs, map_lookup_filter_Some; intros []].
  split; places; try done.
  - rewrite <- Hids, Hp, Hs, fmap_app, due_jobs_ids by done. 
    rewrite <- (fmap_Permutation fst _ _ (due_split (ex_clock w) (scheduledJobs e))), fmap_app. solve_Permutation.
  - intros k x. rewrite Hs, map_lookup_filter_Some. intros [Hx _]. eapply schedule_ok_same; [by rewrite Hc|by apply Hsch].
  - rewrite Hp. apply Forall_app. split; [eapply waiting_same; [by intros; rewrite Hc|done]|].
    unfold due_jobs. apply Forall_fmap, Forall_forall. intros [k x] [Hx _]%elem_of_filter_bool.
    apply elem_of_map_to_list, Hsch in Hx as (Hk & Hd & c & ? & ? & Hn & ?). cbn in *. split; [done|].
    exists c. by rewrite Hk, Hc, Hn.
  - eapply works_same; [by intros; rewrite Hc|done].
Qed.

Lemma in_flight_app works1 works2 : in_flight (works1 ++ works2) = in_flight works1 ++ in_flight works2.
Proof. unfold in_flight. by rewrite fmap_app, concat_app. Qed.
Lemma in_flight_cons hw m works : in_flight ((hw, m) :: works) = decoded hw ++ in_flight works.
Proof. done. Qed.
Lemma in_flight_new (new : list http_work) m : in_flight ((fun hw => (hw, m)) <$> new) = concat (decoded <$> new).
Proof. unfold in_flight. by rewrite <- list_fmap_compose. Qed.

Context (ids : list Z) (ids_nodup : NoDup ids).
(** The jobs are in the repository. *)
Context (ids_stored : forall l w, ex_ready w -> NoDup l -> l ⊆ ids ->
  exists stored, ex_BatchGetJobsByID l w = Some (Ok stored, w) /\ ID <$> stored ≡ₚ l).

Lemma submit_keeps url_order n w e works :
  running_ok ids (mkRunning n w e works) -> (forall m, url_order m ≡ₚ map_to_list m) ->
  exists new e', submit url_order (w, e) = Some (new, (w, e')) /\
    running_ok ids (mkRunning n w e' (works ++ ((fun hw => (hw, retries)) <$> new))) /\
    pendingJobInvocations e' = [] /\ scheduledJobs e' = scheduledJobs e.
Proof.
  intros [Hr Hck Hids Hsch Hpend Hworks] Hu. places.
  assert (Hnd : NoDup (ID <$> pendingJobInvocations e) /\ (ID <$> pendingJobInvocations e) ⊆ ids).
  { split; [|rewrite <- Hids; set_solver]. rewrite <- Hids, !NoDup_app in ids_nodup. tauto. }
  destruct (ids_stored _ w Hr (proj1 Hnd) (proj2 Hnd)) as (stored & Hst & Hperm).
  destruct (flush_all w e stored w Hst Hperm (proj1 Hnd)) as (out & Hfl & Hout).
  { eapply Forall_impl; [exact Hpend|]. by intros job [[[]]]. }
  destruct (ExecuteHTTPJob_works configs url_order out (Hu _)) as (new & Hw & Hdec & _).
  { rewrite Hout. eapply Forall_impl; [exact Hpend|]. intros job [Hd _]. by eapply durable_posts. }
  exists new, (with_pending [] e). split_and!; [|split|done..]; places; try done.
  - unfold submit. rewrite (go_bind_Some _ _ _ _ _ Hfl). unfold lift_opt. by rewrite Hw.
  - rewrite <- Hids, in_flight_app, in_flight_new, Hdec, Hout, fmap_app, <- list_fmap_compose.
    change (ID ∘ wire_job) with ID. solve_Permutation.
  - apply Forall_app. split; [done|].
    assert (HF : Forall (waiting e 0) (concat (decoded <$> new))).
    { rewrite Hdec, Hout. apply Forall_fmap. eapply Forall_impl; [exact Hpend|].
      intros job [Hd Ha]. split; [by apply durable_wire|done]. }
    clear -HF retries_ok. induction new as [|hw new IH]; [constructor|]. rewrite !fmap_cons in *. cbn [concat] in HF.
    apply Forall_app in HF as [HF1 HF2]. constructor; [|by apply IH]. split; cbn; [lia|].
    by rewrite Z2Nat.id, Z.sub_diag by lia.
Qed.

(** The jobs of a work are nowhere else. *)
Lemma work_apart n w e works1 hw m works2 :
  running_ok ids (mkRunning n w e (works1 ++ (hw, m) :: works2)) ->
  NoDup (ID <$> decoded hw) /\
  (forall k, is_Some (scheduledJobs e !! k) -> k ∉ ID <$> decoded hw) /\
  (forall job, job ∈ pendingJobInvocations e \/ job ∈ in_flight (works1 ++ works2) -> ID job ∉ ID <$> decoded hw).
Proof.
  intros [_ _ Hids _ _ _]. places. rewrite in_flight_app, in_flight_cons, !fmap_app in Hids.
  assert (Hnd : NoDup ((ID <$> decoded hw) ++ (fst <$> map_to_list (scheduledJobs e)) ++
            (ID <$> pendingJobInvocations e) ++ (ID <$> in_flight works1) ++ (ID <$> in_flight works2))).
  { match goal with |- NoDup ?l => enough (l ≡ₚ ids) as -> by done end. rewrite <- Hids. solve_Permutation. }
  apply NoDup_app in Hnd as (Hnd & Hdis & _). split_and!; [done| |].
  - intros k [x Hx] Hk. apply (Hdis k Hk), elem_of_app. left. apply (list_elem_of_fmap_2 fst _ (k, x)).
    by apply elem_of_map_to_list.
  - rewrite in_flight_app. intros job Hj Hk. apply (Hdis _ Hk). rewrite !elem_of_app in *.
    destruct Hj as [Hj|[Hj|Hj]]; apply (list_elem_of_fmap_2 ID) in Hj; tauto.
Qed.

Lemma elem_of_keys (m : gmap Z JobSchedule) k : k ∈ fst <$> map_to_list m <-> is_Some (m !! k).
Proof.
  rewrite list_elem_of_fmap. split.
  - intros ([? x] & -> & Hx%elem_of_map_to_list). by exists x.
  - intros [x Hx]. exists (k, x). split; [done|]. by apply elem_of_map_to_list.
Qed.

(** A job whose next execution is planned is on the schedule, not in the past. *)
Lemma planned_schedule now state e e' k job :
  t_ns now <= horizon -> waiting e k job -> planned now state e e' job ->
  exists x, scheduledJobs e' !! ID job = Some x /\ schedule_ok e' (ID job) x /\ due now x = false.
Proof.
  intros Hn [Hd (c & Hc & _ & Hdt)] (c' & t & Hc' & Ht & Hle & Ha & Hsj). rewrite Hc in Hc'. injection Hc' as <-.
  assert (Htd : datable origin latest t).
  { destruct (follow_next _ _ _ _ fuel_enough now c job Hd Hdt Hn) as (t' & Ht' & ?). congruence. }
  eexists. split; [exact Hsj|]. split.
  - split_and!; [done|by apply durable_replanned|]. exists (advanced state c t). by split_and!.
  - unfold due, After. cbn. by apply Z.ltb_ge.
Qed.

(** The jobs of a settled work are back on the schedule. *)
Lemma settled_keeps n w e works1 hw m works2 state n' w' e' :
  running_ok ids (mkRunning n w e (works1 ++ (hw, m) :: works2)) -> settled state (decoded hw) w w' e e' ->
  running_ok ids (mkRunning n' w' e' (works1 ++ works2)) /\
  forall k x, scheduledJobs e' !! k = Some x -> scheduledJobs e !! k = Some x \/ due (ex_clock w) x = false.
Proof.
  intros Hok (Hr' & Hck' & Hpl & Hout & Hpd). destruct (work_apart _ _ _ _ _ _ _ Hok) as (Hnd & Hs & Hrest).
  destruct Hok as [Hr Hck Hids Hsch Hpend Hworks]. places.
  apply Forall_app in Hworks as [Hw1 [[_ Hw] Hw2]%Forall_cons].
  assert (Hnew : forall k, k ∈ ID <$> decoded hw -> exists x, scheduledJobs e' !! k = Some x /\
            schedule_ok e' k x /\ due (ex_clock w) x = false).
  { intros k (job & -> & Hj)%list_elem_of_fmap. rewrite Forall_forall in Hpl, Hw. eapply planned_schedule; eauto. }
  assert (Hold : forall k x, scheduledJobs e' !! k = Some x -> schedule_ok e' k x /\
            (scheduledJobs e !! k = Some x \/ due (ex_clock w) x = false)).
  { intros k x Hx. destruct (decide (k ∈ ID <$> decoded hw)) as [Hk|Hk].
    - destruct (Hnew k Hk) as (x' & Hx' & ? & ?). rewrite Hx in Hx'. injection Hx' as <-. by split; [|right].
    - destruct (Hout k Hk) as [Ec Es]. rewrite Es in Hx. split; [|by left].
      eapply schedule_ok_same; [exact Ec|by apply Hsch]. }
  split; [split|intros k x Hx; by apply Hold]; places; try done.
  - by rewrite Hck'.
  - rewrite <- Hids, Hpd, !in_flight_app, in_flight_cons, !fmap_app.
    assert (fst <$> map_to_list (scheduledJobs e') ≡ₚ
            (fst <$> map_to_list (scheduledJobs e)) ++ (ID <$> decoded hw)) as ->; [|solve_Permutation].
    apply NoDup_Permutation; [apply NoDup_fst_map_to_list| |].
    + apply NoDup_app. split_and!; [apply NoDup_fst_map_to_list| |done]. intros k Hk%elem_of_keys. by apply Hs.
    + intros k. rewrite elem_of_app, !elem_of_keys. destruct (decide (k ∈ ID <$> decoded hw)) as [Hk|Hk].
      * destruct (Hnew k Hk) as (x & -> & _). split; [by right|by eexists].
      * destruct (Hout k Hk) as [_ ->]. tauto.
  - intros k x Hx. by apply Hold.
  - rewrite Hpd. eapply waiting_same; [|done]. intros job Hj. apply Hout, Hrest. by left.
  - eapply works_same; [|by apply Forall_app]. intros job Hj. apply Hout, Hrest. by right.
Qed.

(** A work that failed once more. *)
Lemma counted_keeps n w e works1 hw m works2 n' w' e' :
  running_ok ids (mkRunning n w e (works1 ++ (hw, S m) :: works2)) ->
  ex_ready w' -> ex_clock w' = ex_clock w -> scheduledJobs e' = scheduledJobs e ->
  pendingJobInvocations e' = pendingJobInvocations e ->
  (forall k, k ∉ ID <$> decoded hw -> jobExecutionsCache e' !! k = jobExecutionsCache e !! k) ->
  Forall (counted e e') (decoded hw) ->
  running_ok ids (mkRunning n' w' e' (works1 ++ (hw, m) :: works2)).
Proof.
  intros Hok Hr' Hck' Es Ep Hout Hct. destruct (work_apart _ _ _ _ _ _ _ Hok) as (Hnd & Hs & Hrest).
  destruct Hok as [Hr Hck Hids Hsch Hpend Hworks]. places.
  apply Forall_app in Hworks as [Hw1 [[Hm Hw] Hw2]%Forall_cons]. cbn [fst snd] in Hm, Hw.
  split; places; rewrite ?Es, ?Ep; try done.
  - by rewrite Hck'.
  - by rewrite in_flight_app, in_flight_cons in *.
  - intros k x Hx. eapply schedule_ok_same; [|by apply Hsch]. apply Hout, Hs. by eexists.
  - eapply waiting_same; [|done]. intros job Hj. apply Hout, Hrest. by left.
  - assert (HF : Forall (work_ok e') (works1 ++ works2)).
    { eapply works_same; [|by apply Forall_app]. intros job Hj. apply Hout, Hrest. by right. }
    apply Forall_app in HF as [HF1 HF2]. apply Forall_app. split; [done|]. constructor; [|done].
    split; cbn [fst snd]; [lia|]. rewrite Forall_forall in Hct, Hw |- *. intros job Hj.
    destruct (Hw job Hj) as [Hd (c & Hc & Hk & Hdt)]. destruct (Hct job Hj) as (c' & Hc' & Hf).
    rewrite Hc in Hc'. injection Hc' as <-. split; [done|]. exists (failed_once c). split_and!; [done| |done].
    cbn. rewrite Hk, u64_small; go_lia.
Qed.

(** An attempt comes back; it leaves the clock and what is pending, and what
    it schedules is not in the past. *)
Lemma attempt_keeps n w e works1 hw m works2 :
  running_ok ids (mkRunning n w e (works1 ++ (hw, m) :: works2)) ->
  exists r w' e', try hw (n, (w, e)) = Some (r, (S n, (w', e'))) /\
    running_ok ids (mkRunning (S n) w' e' (works1 ++ left_over r hw m ++ works2)) /\
    ex_clock w' = ex_clock w /\ pendingJobInvocations e' = pendingJobInvocations e /\
    forall k x, scheduledJobs e' !! k = Some x -> scheduledJobs e !! k = Some x \/ due (ex_clock w) x = false.
Proof.
  intros Hok. destruct (work_apart _ _ _ _ _ _ _ Hok) as (Hnd & _).
  pose proof (rk_ready _ _ Hok) as Hr. pose proof (rk_clock _ _ Hok) as Hck.
  pose proof (rk_works _ _ Hok) as Hworks. places. apply Forall_app in Hworks as [_ [[Hm Hw] _]%Forall_cons].
  cbn [fst snd] in Hm, Hw.
  assert (HF : Forall (under_way (ex_clock w) e (JobExecutionRetryMax configs - Z.of_nat m)) (decoded hw)).
  { eapply Forall_impl; [exact Hw|]. intros job []. by apply awaits_under_way. }
  destruct (answers (net n hw)) eqn:Ea.
  - destruct (attempt_answered configs net hw n w e _ Hr Hnd Ea HF) as (w' & e' & Hgo & Hset).
    destruct (settled_keeps _ _ _ _ _ _ _ _ (S n) _ _ Hok Hset) as [Hok' Hnew].
    exists None, w', e'. destruct Hset as (_ & ? & _ & _ & ?). by split_and!.
  - destruct m as [|m].
    + rewrite Z.sub_0_r in HF. destruct (attempt_exhausted configs net hw n w e Hr Hnd Ea HF) as (err & w' & e' & Hgo & Hset).
      destruct (settled_keeps _ _ _ _ _ _ _ _ (S n) _ _ Hok Hset) as [Hok' Hnew].
      exists (Some err), w', e'. destruct Hset as (_ & ? & _ & _ & ?). by split_and!.
    + destruct (attempt_counted configs net hw n w e (JobExecutionRetryMax configs - Z.of_nat (S m)) Hr Hnd Ea
                  ltac:(lia) ltac:(lia) HF)
        as (err & w' & e' & Hgo & Hr' & Hck' & _ & Es & Ep & Ec & Hct & _).
      exists (Some err), w', e'. split_and!; [done| |done|done|by rewrite Es; left].
      by eapply counted_keeps.
Qed.

Lemma step_keeps s s' : exec_step s s' -> running_ok ids s -> running_ok ids s'.
Proof.
  intros [order n w e works w' e' Ho Hgo|url_order n w e works new w' e' Hu Hgo|n w e works1 hw m works2 r n' w' e' Hgo
         |n w e works w' Hr' Hck'] Hok.
  - destruct (tick_keeps _ _ _ _ _ _ Hok Ho) as (e1 & Hgo1 & Hok1 & _). rewrite Hgo in Hgo1. by injection Hgo1 as -> ->.
  - destruct (submit_keeps _ _ _ _ _ Hok Hu) as (new1 & e1 & Hgo1 & Hok1 & _). rewrite Hgo in Hgo1.
    by injection Hgo1 as -> -> ->.
  - destruct (attempt_keeps _ _ _ _ _ _ _ Hok) as (r1 & w1 & e1 & Hgo1 & Hok1 & _). rewrite Hgo in Hgo1.
    by injection Hgo1 as -> -> -> ->.
  - destruct Hok. split; try done. by apply Hck'.
Qed.

Lemma steps_keep s s' : rtc exec_step s s' -> running_ok ids s -> running_ok ids s'.
Proof. induction 1 as [|s1 s2 s3 H12 _ IH]; [done|]. intros Hok. by apply IH, (step_keeps s1). Qed.

(** ** Every state can be settled *)

(** Attempts that can still be made. *)
Definition attempts_left (works : list (http_work * nat)) : nat := foldr (fun x n => S (snd x) + n)%nat 0%nat works.

Lemma drains fuel n w e works :
  (attempts_left works <= fuel)%nat -> running_ok ids (mkRunning n w e works) ->
  map_Forall (fun _ x => due (ex_clock w) x = false) (scheduledJobs e) ->
  exists n' w' e', rtc exec_step (mkRunning n w e works) (mkRunning n' w' e' []) /\
    ex_clock w' = ex_clock w /\ pendingJobInvocations e' = pendingJobInvocations e /\
    map_Forall (fun _ x => due (ex_clock w) x = false) (scheduledJobs e').
Proof.
  revert n w e works. induction fuel as [|fuel IH]; intros n w e [|[hw m] works] Hf Hok Hcalm; cbn in Hf;
    try lia; try (exists n, w, e; by split_and!; [apply rtc_refl|..]).
  destruct (attempt_keeps _ _ _ [] _ _ _ Hok) as (r & w1 & e1 & Hgo & Hok1 & Hck & Hpd & Hnew).
  destruct (IH (S n) w1 e1 (left_over r hw m ++ works)) as (n' & w' & e' & Hst & Hck' & Hpd' & Hcalm').
  - destruct r, m; cbn; lia.
  - exact Hok1.
  - rewrite Hck. intros k x [Hx|Hx]%Hnew; [by apply (Hcalm k)|done].
  - exists n', w', e'. rewrite Hck in *. split_and!; [|congruence..|done].
    eapply rtc_l; [|exact Hst]. by apply (step_attempt _ _ _ []).
Qed.

(** All jobs are on the schedule, and none is due. *)
Definition at_rest (now : Time) (s : running) : Prop :=
  rn_works s = [] /\ pendingJobInvocations (rn_exec s) = [] /\
  fst <$> map_to_list (scheduledJobs (rn_exec s)) ≡ₚ ids /\
  map_Forall (fun _ x => t_ns now <= t_ns (js_ExecutionTime x)) (scheduledJobs (rn_exec s)).

Lemma settles s :
  running_ok ids s ->
  exists s', rtc exec_step s s' /\ ex_clock (rn_world s') = ex_clock (rn_world s) /\
    at_rest (ex_clock (rn_world s)) s'.
Proof.
  destruct s as [n w e works]. intros Hok.
  destruct (tick_keeps _ map_to_list _ _ _ _ Hok) as (e1 & Ht & Hok1 & Hcalm1); [done|].
  destruct (submit_keeps map_to_list _ _ _ _ Hok1) as (new & e2 & Hs & Hok2 & Hpd2 & Es2); [done|].
  rewrite <- Es2 in Hcalm1.
  destruct (drains _ _ _ _ _ (Nat.le_refl _) Hok2 Hcalm1) as (n' & w' & e' & Hst & Hck & Hpd & Hcalm).
  assert (Hsteps : rtc exec_step (mkRunning n w e works) (mkRunning n' w' e' [])).
  { eapply rtc_l; [by apply (step_tick map_to_list)|]. eapply rtc_l; [by apply (step_submit map_to_list)|]. done. }
  exists (mkRunning n' w' e' []). split_and!; [done|done|]. unfold at_rest. places. split_and!; [done|congruence| |].
  - pose proof (rk_ids _ _ (steps_keep _ _ Hsteps Hok)) as Hids. places.
    rewrite Hpd, Hpd2 in Hids. change (ID <$> in_flight []) with (@nil Z) in Hids. by rewrite app_nil_r in Hids.
  - intros k x Hx%Hcalm. unfold due, After in Hx. by apply Z.ltb_ge in Hx.
Qed.

(** Whatever the executor is about to do comes back. *)
Definition comes_back (s : running) : Prop :=
  (forall order, (forall m, order m ≡ₚ map_to_list m) -> is_Some (tick order (rn_world s, rn_exec s))) /\
  (forall url_order, (forall m, url_order m ≡ₚ map_to_list m) -> is_Some (submit url_order (rn_world s, rn_exec s))) /\
  (forall hw m, (hw, m) ∈ rn_works s -> is_Some (try hw (rn_requests s, (rn_world s, rn_exec s)))).

Lemma ok_comes_back s : running_ok ids s -> comes_back s.
Proof.
  destruct s as [n w e works]. intros Hok. unfold comes_back. cbn [rn_requests rn_world rn_exec rn_works]. split_and!.
  - intros order Ho. by destruct (tick_keeps _ _ _ _ _ _ Hok Ho) as (e1 & -> & _).
  - intros url_order Hu. by destruct (submit_keeps _ _ _ _ _ Hok Hu) as (new & e1 & -> & _).
  - intros hw m (works1 & works2 & E)%list_elem_of_split. cbn in E. subst works.
    by destruct (attempt_keeps _ _ _ _ _ _ _ Hok) as (r & w1 & e1 & -> & _).
Qed.

(** ** Jobs that start *)

Lemma started_ok jobs now n w e :
  ex_ready w -> t_ns (ex_clock w) <= horizon -> t_ns now <= horizon -> pendingJobInvocations e = [] ->
  Forall (executable configs origin horizon latest) jobs -> Forall (started now e) jobs -> ID <$> jobs ≡ₚ ids ->
  (forall k, is_Some (scheduledJobs e !! k) -> k ∈ ids) -> running_ok ids (mkRunning n w e []).
Proof.
  intros Hr Hck Hn Hpd Hx Hst Hids Hdom.
  assert (Hjob : forall k, k ∈ ids -> exists x, scheduledJobs e !! k = Some x /\ schedule_ok e k x).
  { intros k Hk. rewrite <- Hids in Hk. apply list_elem_of_fmap in Hk as (job & -> & Hj).
    rewrite Forall_forall in Hst, Hx. destruct (Hst job Hj) as (loc & t & Hl & Ht & _ & Hc & Hs).
    destruct (durable_first configs origin horizon latest fuel_enough now loc job t) as [Hd Hdt]; [by apply Hx|done..|].
    eexists. split; [exact Hs|]. split_and!; [done|done|]. exists (first_mem job t). by split_and!. }
  split; places; rewrite ?Hpd; try done.
  - rewrite !app_nil_r. apply NoDup_Permutation; [apply NoDup_fst_map_to_list|done|].
    intros k. rewrite elem_of_keys. split; [apply Hdom|]. intros (x & Hx' & _)%Hjob. by exists x.
  - intros k x Hk. destruct (Hjob k) as (x' & Hx' & ?); [apply Hdom; by exists x|]. congruence.
Qed.

End Running.
