(* ===== verification/JobService.v ===== *)
(** * The job service: pkg/service/job/job.go

    What the HTTP layer asks of jobs.  Creating jobs is asynchronous: the
    request is validated and recorded as a task, and a closure handed to the
    worker pool stores the jobs, queues them and closes the task. *)

From stdpp Require Import base list gmap strings pretty.
From Stdlib Require Import ZArith Lia.
From S2P Require Import Prelude Models JobTime Batcher Sql Fsm Replication Inserts Reads JobQueueRepo.
From S2P Require Import Queue JobRepo AccountRepos ExecutionsRepo AsyncRepo Executor ExecutorImpl Processor.
From S2P Require Import AsyncService AsyncImpl Config Node.

#[local] Open Scope Z_scope.
#[local] Existing Instance world_repo.

(** encoding/json on jobs and errors *)
Class JobJson := {
  encode_jobs : list Job -> result string string;
  encode_error : GenericError -> result string string }.

Record PaginatedJob := mkPaginatedJob {
  pj_Total : Z; pj_Offset : Z; pj_Limit : Z; pj_Data : list Job }.

Definition set_Data (v : string) (j : Job) : Job :=
  mkJob (ID j) (ProjectID j) (Spec j) (CallbackUrl j) v (ExecutionType j) (StartDate j) (EndDate j)
    (LastExecutionDate j) (Timezone j) (TimezoneOffset j) (ExecutionId j) (DateCreated j).
Definition set_CallbackUrl (v : string) (j : Job) : Job :=
  mkJob (ID j) (ProjectID j) (Spec j) v (Data j) (ExecutionType j) (StartDate j) (EndDate j)
    (LastExecutionDate j) (Timezone j) (TimezoneOffset j) (ExecutionId j) (DateCreated j).
Definition set_ExecutionType (v : string) (j : Job) : Job :=
  mkJob (ID j) (ProjectID j) (Spec j) (CallbackUrl j) (Data j) v (StartDate j) (EndDate j)
    (LastExecutionDate j) (Timezone j) (TimezoneOffset j) (ExecutionId j) (DateCreated j).

Section JobService.
Context {codec : CommandCodec} {env : Env} {mo : MapOrder} {uo : UnionOrder} {jj : JobJson}.
Context (configs : Scheduler0Configurations).

Definition GetJobsByProjectID (projectID offset limit : Z) (orderBy : string)
    : Nd (result GenericError PaginatedJob) :=
  c ← on_world (GetJobsTotalCountByProjectID projectID);
  match c with
  | Err getCountError => mret (Err getCountError)
  | Ok count =>
      let offset := if count <? offset then count else offset in
      r ← on_world (GetAllByProjectID projectID offset limit orderBy);
      match r with
      | Err err => mret (Err err)
      | Ok jobs => mret (Ok (mkPaginatedJob count offset limit jobs))
      end
  end.

Definition GetJob (job : Job) : Nd (result GenericError Job) := on_world (JobRepo.GetOneByID job).

(** The checks of one job of the payload; [Some] is the error returned. *)
Definition check_job (job : Job) : option GenericError :=
  let invalid_spec := HTTPGenericError StatusBadRequest ("job spec is not valid " +:+ Spec job) in
  let invalid_zone := HTTPGenericError StatusBadRequest
    ("job timezone is not valid, provided timezone is " +:+ Timezone job) in
  if String.eqb (Spec job) "" then Some invalid_spec
  else match cron_parse (Spec job) with
       | Err _ => Some invalid_spec
       | Ok _ =>
           if String.eqb (Timezone job) "" || String.eqb (Timezone job) "Local" then Some invalid_zone
           else match load_location (Timezone job) with
                | Err _ => Some invalid_zone
                | Ok _ => None
                end
       end.

(** The first error of a loop that returns on errors. *)
Fixpoint first_error {A} (check : A -> option GenericError) (l : list A) : option GenericError :=
  match l with
  | [] => None
  | a :: l' => match check a with Some e => Some e | None => first_error check l' end
  end.

Definition check_project (projects : list Project) (job : Job) : option GenericError :=
  if existsb (fun project => p_ID project =? ProjectID job) projects then None
  else Some (HTTPGenericError StatusNotFound
               ("a project in the payload does not exitst. project id " +:+ pretty (ProjectID job))).

(** [jobs[i]] gets the id at [i]; an id beyond the jobs is a panic. *)
Fixpoint assign_ids (now : Time) (ids : list Z) (jobs : list Job) : option (list Job) :=
  match ids, jobs with
  | [], _ => Some jobs
  | id :: ids', job :: jobs' =>
      rest ← assign_ids now ids' jobs';
      Some (set_LastExecutionDate now (set_DateCreated now (set_ID id job)) :: rest)
  | _ :: _, [] => None
  end.

Definition QueueJobs (jobs : list Job) : Nd unit := on_queue (Queue.Queue (NodeId configs) jobs).

(** The closure given to the worker pool. *)
Definition create_jobs (taskIds : list Z) (jobs : list Job) : Nd unit :=
  taskId ← lift_opt (head taskIds);
  inProgress ← on_async (UpdateTasksById taskId AsyncTaskInProgress "");
  match inProgress with
  | Some _ => mret tt
  | None =>
      r ← on_world (BatchInsertJobs jobs);
      match r with
      | Err iErr =>
          match encode_error (HTTPGenericError StatusInternalServerError
                  ("failed to batch insert job repository: " +:+ Message iErr)) with
          | Err _ => mret tt
          | Ok errJson => on_async (UpdateTasksById taskId AsyncTaskFail errJson);; mret tt
          end
      | Ok insertedIds =>
          now ← gets (fun n => w_now (n_world n));
          jobs ← lift_opt (assign_ids now insertedIds jobs);
          QueueJobs jobs;;
          match encode_jobs jobs with
          | Err _ => mret tt
          | Ok jobsJson => on_async (UpdateTasksById taskId AsyncTaskSuccess jobsJson);; mret tt
          end
      end
  end.

(** The answer, and the closure that was handed to the pool. *)
Definition service_BatchInsertJobs (requestId : string) (jobs : list Job)
    : Nd (result GenericError (list Z) * option (Nd unit)) :=
  match jobs with
  | [] => mret (Ok [], None)
  | _ =>
      match first_error check_job jobs with
      | Some e => mret (Err e, None)
      | None =>
          p ← on_world (ProjectRepo.GetBatchProjectsByIDs (ProjectID <$> jobs));
          match p with
          | Err err => mret (Err err, None)
          | Ok projects =>
              match first_error (check_project projects) jobs with
              | Some e => mret (Err e, None)
              | None =>
                  match encode_jobs jobs with
                  | Err _ =>
                      mret (Err (HTTPGenericError StatusInternalServerError
                                   "failed to convert json to string"), None)
                  | Ok jobsBytes =>
                      t ← on_async (AddTasks (NodeId configs) jobsBytes requestId CreateJobAsyncTaskService);
                      match t with
                      | Err addTaskErr =>
                          mret (Err (HTTPGenericError StatusInternalServerError
                                       ("failed to create async tasks " +:+ Message addTaskErr)), None)
                      | Ok taskIds => mret (Ok taskIds, Some (create_jobs taskIds jobs))
                      end
                  end
              end
          end
      end
  end.

(** An empty field keeps the stored value. *)
Definition merge_job (job current : Job) : Job :=
  let current := if String.eqb (Data job) "" then current else set_Data (Data job) current in
  let current := if String.eqb (CallbackUrl job) "" then current else set_CallbackUrl (CallbackUrl job) current in
  if String.eqb (ExecutionType job) "" then current else set_ExecutionType (ExecutionType job) current.

Definition UpdateJob (job : Job) : Nd (result GenericError Job) :=
  r ← on_world (JobRepo.GetOneByID (set_ID (ID job) job_zero));
  match r with
  | Err getErr => mret (Err getErr)
  | Ok current =>
      let currentJobState := merge_job job current in
      u ← on_world (JobRepo.UpdateOneByID currentJobState);
      match u with
      | Err e => mret (Err e)
      | Ok _ => on_world (JobRepo.GetOneByID currentJobState)
      end
  end.

Definition DeleteJob (job : Job) : Nd (option GenericError) :=
  r ← on_world (JobRepo.GetOneByID job);
  match r with
  | Err err => mret (Some err)
  | Ok job =>
      d ← on_world (JobRepo.DeleteOneByID job);
      match d with
      | Err delError => mret (Some (HTTPGenericError StatusInternalServerError (Message delError)))
      | Ok count =>
          if count <? 1
          then mret (Some (HTTPGenericError StatusInternalServerError "could not find and delete job"))
          else mret None
      end
  end.

End JobService.
