(* ===== verification/JobServiceFacts.v ===== *)
(** * What the job service promises

    Invalid payloads are refused without a trace; a valid one becomes a task
    whose closure stores the jobs, queues ranges and answers the client.  The
    proof composes the task service, the job repository and the queue. *)

From stdpp Require Import base list gmap strings pretty.
From Stdlib Require Import ZArith Lia.
From S2P Require Import Prelude Models JobTime Batcher Sql Fsm Replication Inserts Reads JobQueueRepo.
From S2P Require Import Queue JobRepo JobFacts AccountRepos ExecutionsRepo AsyncRepo Executor ExecutorImpl.
From S2P Require Import Processor AsyncService AsyncImpl Config Node NodeFacts JobService.

#[local] Open Scope Z_scope.
#[local] Existing Instance world_repo.

(** ** Tables that a step leaves alone *)

Lemma jobs_abs_same db db' js :
  db_table db' JobsTableName = db_table db JobsTableName -> jobs_abs db js -> jobs_abs db' js.
Proof. intros E [Hr ?]. split; [|done]. unfold db_rows in *. by rewrite E. Qed.

Lemma queue_abs_same db db' logs :
  db_table db' JobQueuesTableName = db_table db JobQueuesTableName -> queue_abs db logs -> queue_abs db' logs.
Proof. intros E H. unfold queue_abs, db_rows in *. by rewrite E. Qed.

Lemma projects_abs_same db db' ps :
  db_table db' ProjectRepo.ProjectsTableName = db_table db ProjectRepo.ProjectsTableName ->
  projects_abs db ps -> projects_abs db' ps.
Proof. intros E [Hr ?]. split; [|done]. unfold db_rows in *. by rewrite E. Qed.

Lemma async_abs_same b db db' ts :
  db_table db' (async_table b) = db_table db (async_table b) -> async_abs db b ts -> async_abs db' b ts.
Proof. intros E [Hr ?]. split; [|done]. unfold db_rows in *. by rewrite E. Qed.

Lemma world_ready_same w w' :
  quiet w' -> w_now w' = w_now w ->
  db_table (w_db w') JobQueuesVersionTableName = db_table (w_db w) JobQueuesVersionTableName ->
  world_ready w -> world_ready w'.
Proof.
  intros Hq Hn E (_ & Hj & Hv). split_and!; [done|by rewrite Hn|]. unfold versions, db_rows in *. by rewrite E.
Qed.

Lemma quiet_only t w w' : only_table t w w' -> quiet w -> quiet w'.
Proof. intros (_ & _ & E1 & E2). unfold quiet, healthy. by rewrite E1, E2. Qed.

(** ** Validation *)

Section Facts.
Context {codec : CommandCodec} {env : Env} {mo : MapOrder} {uo : UnionOrder} {jj : JobJson}.
Context (configs : Scheduler0Configurations).

(** What a payload must satisfy. *)
Definition valid_job (j : Job) : Prop :=
  Spec j <> "" /\ (exists next, cron_parse (Spec j) = Ok next) /\
  Timezone j <> "" /\ Timezone j <> "Local" /\ exists l, load_location (Timezone j) = Ok l.

Lemma check_job_valid j : check_job j = None <-> valid_job j.
Proof.
  unfold check_job, valid_job. destruct (String.eqb_spec (Spec j) ""); [naive_solver|].
  destruct (cron_parse (Spec j)); [|naive_solver].
  destruct (String.eqb_spec (Timezone j) ""), (String.eqb_spec (Timezone j) "Local"); cbn;
    try (naive_solver; fail).
  destruct (load_location (Timezone j)); naive_solver.
Qed.

Lemma first_error_None {A} (check : A -> option GenericError) l :
  first_error check l = None <-> Forall (fun a => check a = None) l.
Proof.
  induction l as [|a l IH]; cbn; [by split; [constructor|]|]. destruct (check a) eqn:E.
  - split; [done|]. intros H%Forall_inv. congruence.
  - rewrite IH, Forall_cons. naive_solver.
Qed.

Lemma first_error_Some {A} (check : A -> option GenericError) l e :
  first_error check l = Some e -> exists a, a ∈ l /\ check a = Some e.
Proof.
  induction l as [|a l IH]; cbn; [done|]. destruct (check a) eqn:E.
  - intros [= <-]. exists a. split; [by left|done].
  - intros (x & ? & ?)%IH. exists x. split; [by right|done].
Qed.

Lemma GetBatchProjectsByIDs_abs (ids : list Z) ps w :
  healthy w -> projects_abs (w_db w) ps -> ids <> [] ->
  Z.of_nat (length ids) <= DBMaxVariableSize -> Forall (fun i => i <= MaxInt64) ids ->
  ProjectRepo.GetBatchProjectsByIDs ids w =
  Some (Ok (List.filter (fun p => bool_decide (p_ID p ∈ ids)) ps), w).
Proof.
  intros Hw [Hr Hwf] Hne Hlen Hi. unfold ProjectRepo.GetBatchProjectsByIDs. destruct ids as [|i ids]; [done|].
  set (l := i :: ids) in *.
  assert (Hd : (length (remove_dups l) <= length l)%nat).
  { clear. induction l as [|x l IH]; [done|]. cbn. case_decide; cbn; lia. }
  erewrite db_query_then; [reflexivity|done| |].
  - apply query_refused_ok; [rewrite length_fmap; lia|]. apply bindable_ids. apply Forall_forall.
    intros x Hx. rewrite Forall_forall in Hi. apply Hi. by apply elem_of_remove_dups.
  - unfold ProjectRepo.project_rows. rewrite Hr.
    rewrite (sql_select_enc proj_row _ (fun p => bool_decide (p_ID p ∈ l))).
    + by apply scan_projects, Forall_filter.
    + intros p _. cbn [holds]. unfold key_is. change (col "id" (proj_row p)) with (VInt (p_ID p)).
      rewrite bool_decide_VInt_in. apply bool_decide_ext. apply elem_of_remove_dups.
Qed.

(** The projects of the payload are those the service looks for. *)
Lemma check_project_abs (jobs : list Job) ps j :
  j ∈ jobs ->
  check_project (List.filter (fun p => bool_decide (p_ID p ∈ ProjectID <$> jobs)) ps) j = None <->
  ProjectID j ∈ p_ID <$> ps.
Proof.
  intros Hj. unfold check_project. destruct (existsb _ _) eqn:E.
  - apply existsb_exists in E as (p & [Hp _]%list_elem_of_In%elem_of_filter_bool & Hid%Z.eqb_eq).
    split; [intros _|done]. rewrite <- Hid. by apply list_elem_of_fmap_2.
  - split; [done|]. intros (p & Hid & Hp)%list_elem_of_fmap. exfalso.
    assert (existsb (fun project => p_ID project =? ProjectID j)
              (List.filter (fun p => bool_decide (p_ID p ∈ ProjectID <$> jobs)) ps) = true) as E'; [|congruence].
    apply existsb_exists. exists p. split; [|by rewrite Hid, Z.eqb_refl].
    apply list_elem_of_In, elem_of_filter_bool. split; [done|]. apply bool_decide_eq_true_2.
    rewrite <- Hid. by apply list_elem_of_fmap_2.
Qed.

(** A payload the service accepts. *)
Definition payload_ok (ps : list Project) (jobs : list Job) : Prop :=
  Forall (fun j => valid_job j /\ ProjectID j ∈ p_ID <$> ps) jobs.

Definition payload_fits (jobs : list Job) : Prop :=
  jobs <> [] /\ Z.of_nat (length jobs) <= DBMaxVariableSize /\ Forall (fun j => ProjectID j <= MaxInt64) jobs.

(** Either every check passes and only the recording of the task is left, or
    the request is refused. *)
Lemma service_checks requestId jobs ps n :
  healthy (n_world n) -> projects_abs (w_db (n_world n)) ps -> payload_fits jobs ->
  (payload_ok ps jobs /\
   service_BatchInsertJobs configs requestId jobs n =
     match encode_jobs jobs with
     | Err _ => Some ((Err (HTTPGenericError StatusInternalServerError "failed to convert json to string"),
                       None), n)
     | Ok jobsBytes =>
         (t ← on_async (AddTasks (NodeId configs) jobsBytes requestId CreateJobAsyncTaskService);
          match t with
          | Err addTaskErr =>
              mret (Err (HTTPGenericError StatusInternalServerError
                           ("failed to create async tasks " +:+ Message addTaskErr)), None)
          | Ok taskIds => mret (Ok taskIds, Some (create_jobs configs taskIds jobs))
          end) n
     end) \/
  (~ payload_ok ps jobs /\ exists e,
     service_BatchInsertJobs configs requestId jobs n = Some ((Err e, None), n) /\
     (Type_ e = StatusBadRequest \/ Type_ e = StatusNotFound)).
Proof.
  intros Hw Hp (Hne & Hlen & Hids). unfold service_BatchInsertJobs.
  destruct jobs as [|j0 js] eqn:Ej; [done|]. rewrite <- Ej in *. clear Ej j0 js.
  destruct (first_error check_job jobs) as [e|] eqn:E1.
  { right. split.
    - apply first_error_Some in E1 as (j & Hj & He). unfold payload_ok. rewrite Forall_forall.
      intros H. destruct (H j Hj) as [Hv%check_job_valid _]. congruence.
    - exists e. split; [done|]. left. apply first_error_Some in E1 as (j & _ & He). revert He.
      unfold check_job. repeat case_match; by intros [= <-]. }
  apply first_error_None in E1.
  pose proof (GetBatchProjectsByIDs_abs (ProjectID <$> jobs) ps (n_world n) Hw Hp ltac:(by destruct jobs)
                ltac:(by rewrite length_fmap) ltac:(by apply Forall_fmap)) as HG.
  rewrite (go_bind_Some _ _ _ _ _ (on_world_run _ n _ _ HG)). cbv iota beta.
  assert (Hn : with_parts (n_world n) (n_queue n) (n_executor n) (n_async n) n = n) by (by destruct n).
  rewrite Hn. set (projects := List.filter _ ps).
  destruct (first_error (check_project projects) jobs) as [e|] eqn:E2.
  - right. split.
    + apply first_error_Some in E2 as (j & Hj & He). unfold payload_ok. rewrite Forall_forall.
      intros H. destruct (H j Hj) as [_ Hpj]. apply (check_project_abs jobs ps j Hj) in Hpj.
      fold projects in Hpj. congruence.
    + exists e. split; [done|]. right. apply first_error_Some in E2 as (j & _ & He). revert He.
      unfold check_project. case_match; by intros [= <-].
  - left. split.
    + apply first_error_None in E2. unfold payload_ok. rewrite Forall_forall in E1, E2 |- *.
      intros j Hj. split; [by apply check_job_valid, E1|]. by apply (check_project_abs jobs ps j Hj), E2.
    + by destruct (encode_jobs jobs).
Qed.

(** C22: A request to create jobs is refused unless every job has a cron
    spec that parses, a time zone that loads and a project that exists; a
    refused request leaves the node as it was and starts no work. *)
Theorem create_request_validated requestId jobs ps n :
  healthy (n_world n) -> projects_abs (w_db (n_world n)) ps -> payload_fits jobs ->
  (~ payload_ok ps jobs ->
   exists e, service_BatchInsertJobs configs requestId jobs n = Some ((Err e, None), n) /\
     (Type_ e = StatusBadRequest \/ Type_ e = StatusNotFound)) /\
  (forall taskIds work n',
     service_BatchInsertJobs configs requestId jobs n = Some ((Ok taskIds, work), n') -> payload_ok ps jobs).
Proof.
  intros Hw Hp Hf. destruct (service_checks requestId jobs ps n Hw Hp Hf) as [[Hok Hs]|(Hno & e' & Hs & Ht)].
  - split; [done|]. done.
  - split; [by eauto|]. intros *. rewrite Hs. intros [=].
Qed.

(** ** Creating jobs *)

(** What passes the service's check, the repository stores. *)
Lemma creatable_valid db now ps j :
  projects_abs db ps -> ProjectID j ∈ p_ID <$> ps -> params_ok (job_params now j) = true ->
  creatable db now j = true.
Proof.
  intros [Hr _] (p & Hid & Hp)%list_elem_of_fmap Hok. unfold creatable, acceptable. rewrite Hok. cbn [andb].
  unfold storable. change (Nat.eqb _ _) with true. change (not_null_ok _ _) with true. cbn [andb].
  unfold fk_ok. change (td_fk jobs_td) with (Some ("project_id", ProjectRepo.ProjectsTableName)). cbv iota.
  rewrite Hr. apply orb_true_iff. right. apply existsb_exists. exists (proj_row p).
  split; [by apply list_elem_of_In, list_elem_of_fmap_2|]. apply bool_decide_eq_true_2. cbn. by rewrite Hid.
Qed.

Lemma tracked_same requestId id t ts others w w' s :
  quiet w' -> w_now w' = w_now w ->
  (forall b, db_table (w_db w') (async_table b) = db_table (w_db w) (async_table b)) ->
  tracked true requestId id t ts others w s -> tracked true requestId id t ts others w' s.
Proof.
  intros Hq Hn Ht [[(Hq0 & Hc & Hj) _] Ho1 Ho2 ? ? ? ? ?]. split; try done.
  - split; [|done]. split_and!; [done|done|by rewrite Hn].
  - by apply (async_abs_same true (w_db w)); [apply Ht|].
  - by apply (async_abs_same false (w_db w)); [apply Ht|].
Qed.

Lemma assign_ids_zseq now k jobs :
  exists jobs', assign_ids now (zseq k (length jobs)) jobs = Some jobs' /\
    ID <$> jobs' = zseq k (length jobs).
Proof.
  revert k. induction jobs as [|j js IH]; intros k; [by exists []|]. cbn [length zseq assign_ids].
  destruct (IH (k + 1)) as (js' & -> & Hids). cbn. eexists. split; [reflexivity|].
  rewrite fmap_cons. by rewrite Hids.
Qed.

(** The queue, given the ids from 1. *)
Lemma QueueJobs_from_one jobs logs b n :
  codec_total -> world_ready (n_world n) -> queue_abs (w_db (n_world n)) logs ->
  queue_ready (NodeId configs) b (n_queue n) -> 0 <= b <= 4611686018427387904 ->
  jobs <> [] -> Z.of_nat (length jobs) <= max_exact_id -> ID <$> jobs = zseq 1 (length jobs) ->
  exists w' q' new,
    QueueJobs configs jobs n = Some (tt, with_parts w' q' (n_executor n) (n_async n) n) /\
    world_ready w' /\ world_rest (n_world n) w' /\ queue_abs (w_db w') (logs ++ new) /\
    concat (log_ids <$> new) = zseq 1 (length jobs).
Proof.
  intros total Hr Ha Hq Hb Hne Hlen Hids.
  assert (Hall : forall j, j ∈ jobs -> 1 <= ID j <= Z.of_nat (length jobs)).
  { intros j Hj. apply (list_elem_of_fmap_2 ID) in Hj. rewrite Hids in Hj. apply elem_of_zseq in Hj. lia. }
  assert (Hpos : (0 < length jobs)%nat) by (destruct jobs; [done|cbn; lia]).
  destruct (@Queue_spec World world_repo (world_repo_laws total) mo (NodeId configs) jobs logs b (n_world n)
              (n_queue n) Hr Ha Hq Hb Hne) as (w' & q' & l & lo & hi & HQ & Hr' & _ & Hrest & Ha' & Hqd & _).
  { apply Forall_forall. intros j Hj%Hall. lia. }
  exists w', q', (stamp (w_now (n_world n)) (t_seq (db_table (w_db (n_world n)) JobQueuesTableName)) l).
  split_and!; [by apply on_queue_run|done|done|done|].
  rewrite log_ids_stamp. destruct Hqd as [Hlo Hhi Hbd -> _ _]. rewrite Hids in Hlo, Hhi.
  apply elem_of_zseq in Hlo, Hhi. rewrite Forall_forall in Hbd.
  assert (1 ∈ ID <$> jobs) as (j1 & E1 & H1)%list_elem_of_fmap by (rewrite Hids; apply elem_of_zseq; lia).
  assert (Z.of_nat (length jobs) ∈ ID <$> jobs) as (j2 & E2 & H2)%list_elem_of_fmap
    by (rewrite Hids; apply elem_of_zseq; lia).
  apply Hbd in H1, H2. cbn beta in H1, H2. replace lo with 1 by lia. f_equal. lia.
Qed.

(** Storing a payload the service accepted. *)
Lemma store_payload jobs ps old w :
  quiet w -> codec_total -> projects_abs (w_db w) ps -> jobs_abs (w_db w) old ->
  payload_ok ps jobs -> jobs <> [] -> Z.of_nat (length jobs) <= 4095 ->
  Forall (fun j => 0 <= ProjectID j <= MaxInt64 /\ params_ok (job_params (w_now w) j) = true) jobs ->
  let seq := t_seq (db_table (w_db w) JobsTableName) in
  0 <= seq -> seq + Z.of_nat (length jobs) < MaxInt64 ->
  exists w', BatchInsertJobs jobs w = Some (Ok (zseq 1 (length jobs)), w') /\
    quiet w' /\ w_now w' = w_now w /\
    jobs_abs (w_db w') (old ++ number_jobs (w_now w) seq jobs) /\
    forall t, t <> JobsTableName -> db_table (w_db w') t = db_table (w_db w) t.
Proof.
  intros Hq Hc Hp Hj Hok Hne Hlen Hjobs seq Hs Hm.
  destruct (BatchInsertJobs_quiet jobs old w) as (w' & H & Hrest); try done.
  { apply forallb_forall. intros j Hj'%list_elem_of_In. unfold payload_ok in Hok.
    rewrite Forall_forall in Hok, Hjobs.
    apply (creatable_valid _ _ ps); [done|by apply Hok|by apply Hjobs]. }
  { eapply Forall_impl; [exact Hjobs|]. cbn. tauto. }
  exists w'. rewrite Batch_small in H by (lia || by change (32766 / 8) with 4095).
  cbn [fmap list_fmap concat] in H. by rewrite app_nil_r in H.
Qed.

(** A leader with its tables, before it stores a payload. *)
Record can_create (jobs : list Job) (ps : list Project) (old : list Job) (logs : list JobQueueLog) (b : Z)
    (w : World) (q : jobQueue) : Prop := {
  cc_codec : codec_total;
  cc_json : forall l, exists s, encode_jobs l = Ok s;
  cc_ready : world_ready w;
  cc_queue : queue_ready (NodeId configs) b q;
  cc_count : 0 <= b <= 4611686018427387904;
  cc_projects : projects_abs (w_db w) ps;
  cc_jobs : jobs_abs (w_db w) old;
  cc_logs : queue_abs (w_db w) logs;
  cc_payload : payload_ok ps jobs;
  cc_nonempty : jobs <> [];
  cc_batch : Z.of_nat (length jobs) <= 4095;
  cc_values : Forall (fun j => 0 <= ProjectID j <= MaxInt64 /\
                               params_ok (job_params (w_now w) j) = true) jobs;
  cc_seq : 0 <= t_seq (db_table (w_db w) JobsTableName);
  cc_room : t_seq (db_table (w_db w) JobsTableName) + Z.of_nat (length jobs) < MaxInt64 }.

(** Steps on the tasks do not matter to it. *)
Lemma can_create_only raft jobs ps old logs b w w' q :
  only_table (async_table raft) w w' -> can_create jobs ps old logs b w q ->
  can_create jobs ps old logs b w' q.
Proof.
  intros O H. pose proof O as (Htab & Hnow & _ & _).
  assert (forall t, t ∈ [JobsTableName; JobQueuesTableName; JobQueuesVersionTableName;
                         ProjectRepo.ProjectsTableName] -> db_table (w_db w') t = db_table (w_db w) t) as E.
  { intros t Ht. apply Htab. rewrite !elem_of_cons in Ht. destruct raft; set_solver. }
  destruct H. split; try done; rewrite ?Hnow, ?E by set_solver; try done.
  - apply (world_ready_same w); [|done|apply E; set_solver|done]. by eapply quiet_only, cc_ready0.
  - by apply (projects_abs_same (w_db w)); [apply E; set_solver|].
  - by apply (jobs_abs_same (w_db w)); [apply E; set_solver|].
  - by apply (queue_abs_same (w_db w)); [apply E; set_solver|].
Qed.

(** The closure: the jobs are stored, ranges are queued, the task succeeds. *)
Lemma create_jobs_run requestId id t ts others jobs ps old logs b n :
  can_create jobs ps old logs b (n_world n) (n_queue n) ->
  tracked true requestId id t ts others (n_world n) (n_async n) ->
  let seq := t_seq (db_table (w_db (n_world n)) JobsTableName) in
  exists n' answered answer new,
    create_jobs configs [id] jobs n = Some (tt, n') /\
    jobs_abs (w_db (n_world n')) (old ++ number_jobs (w_now (n_world n)) seq jobs) /\
    encode_jobs answered = Ok answer /\ ID <$> answered = zseq 1 (length jobs) /\
    tracked true requestId id (set_Output answer (set_State AsyncTaskSuccess
      (set_Output "" (set_State AsyncTaskInProgress t)))) ts others (n_world n') (n_async n') /\
    queue_abs (w_db (n_world n')) (logs ++ new) /\ concat (log_ids <$> new) = zseq 1 (length jobs).
Proof.
  intros Hcc T1 seq.
  (* in progress *)
  destruct (tracked_update_id true requestId id _ ts others AsyncTaskInProgress "" _ _ T1)
    as (m2 & w2 & H2 & O2 & T2).
  set (n2 := with_parts w2 (n_queue n) (n_executor n) (task_changed m2 (n_async n)) n).
  pose proof O2 as (Htab & Hnow & _ & _). pose proof (can_create_only true _ _ _ _ _ _ _ _ O2 Hcc) as [].
  (* the jobs *)
  destruct (store_payload jobs ps old w2) as (w3 & H3 & Hq3 & Hnow3 & Ha3 & Hoth3); try done; [by apply cc_ready0|].
  rewrite Htab, Hnow in Ha3 by done.
  set (n3 := with_parts w3 (n_queue n) (n_executor n) (n_async n2) n).
  (* the queue *)
  destruct (assign_ids_zseq (w_now w3) 1 jobs) as (jobs' & Has & Hids').
  assert (Hl' : length jobs' = length jobs) by (rewrite <- (length_fmap ID), Hids'; apply length_zseq).
  destruct (QueueJobs_from_one jobs' logs b n3) as (w4 & q4 & new & H4 & Hr4 & Hrest4 & Ha4 & Htile);
    rewrite ?Hl'; try done.
  { by apply (world_ready_same w2); [..|apply Hoth3|]. }
  { by apply (queue_abs_same (w_db w2)); [apply Hoth3|]. }
  { by destruct jobs, jobs'. }
  { unfold max_exact_id. lia. }
  set (n4 := with_parts w4 q4 (n_executor n) (n_async n2) n). destruct Hrest4 as (Hnow4 & _ & Htab4).
  (* the task *)
  assert (T4 := tracked_same _ _ _ _ _ w2 w4 _ (proj1 Hr4) ltac:(cbn in Hnow4; congruence)
                  ltac:(intros []; rewrite Htab4, Hoth3; done) T2).
  destruct (cc_json0 jobs') as [answer Hans].
  destruct (tracked_update_id true requestId id _ ts others AsyncTaskSuccess answer _ _ T4)
    as (m5 & w5 & H5 & (O5 & _) & T5).
  exists (with_parts w5 q4 (n_executor n) (task_changed m5 (n_async n2)) n), jobs', answer, new.
  rewrite Hl' in Htile. split_and!; [|..|exact Hans|exact Hids'|exact T5| |exact Htile].
  - unfold create_jobs. erewrite go_bind_lift by reflexivity.
    rewrite (go_bind_Some _ _ _ _ _ (on_async_run _ n _ _ _ H2)).
    rewrite (go_bind_Some _ _ _ _ _ (on_world_run _ n2 _ _ H3)). rewrite go_bind_gets.
    erewrite go_bind_lift by exact Has. erewrite go_bind_Some by exact H4. rewrite Hans.
    by rewrite (go_bind_Some _ _ _ _ _ (on_async_run _ n4 _ _ _ H5)).
  - eapply jobs_abs_same; [|exact Ha3]. cbn. by rewrite O5, Htab4.
  - eapply queue_abs_same; [|exact Ha4]. cbn. by rewrite O5.
Qed.

(** C18: A valid request on the leader of a cluster is answered with the
    number of a task; the closure it starts stores every job of the payload
    in order under the ids after the last one, and the client then reads the
    task, by its request id, as a success.  The ids that are queued and
    answered are not those: they count from 1 in every request, because of
    what the repository answers, so jobs created after the first request are
    not queued by it. *)
Theorem create_jobs_stored requestId jobs ps old logs ts others b n :
  can_create jobs ps old logs b (n_world n) (n_queue n) ->
  async_abs (w_db (n_world n)) true ts -> async_abs (w_db (n_world n)) false others ->
  let id := t_seq (db_table (w_db (n_world n)) CommittedAsyncTableName) + 1 in
  0 < id <= 9007199254740992 -> Forall (fun t => at_Id t < id) ts -> Forall (fun t => at_Id t <> id) others ->
  let seq := t_seq (db_table (w_db (n_world n)) JobsTableName) in
  exists n1 work n2 answered answer task new,
    service_BatchInsertJobs configs requestId jobs n = Some ((Ok [id], Some work), n1) /\
    work n1 = Some (tt, n2) /\
    jobs_abs (w_db (n_world n2)) (old ++ number_jobs (w_now (n_world n)) seq jobs) /\
    GetTaskWithRequestIdNonBlocking requestId (n_world n2, n_async n2) =
      Some (Ok task, (n_world n2, n_async n2)) /\
    at_State task = AsyncTaskState_num AsyncTaskSuccess /\ at_Output task = answer /\
    encode_jobs answered = Ok answer /\ ID <$> answered = zseq 1 (length jobs) /\
    queue_abs (w_db (n_world n2)) (logs ++ new) /\ concat (log_ids <$> new) = zseq 1 (length jobs).
Proof.
  intros Hcc Hts Hos id Hid Hlt Hap seq. destruct (cc_json _ _ _ _ _ _ _ Hcc jobs) as [input Hin].
  assert (role true (n_world n) (n_async n)) as Hrole.
  { destruct Hcc as [? ? (? & ? & _)]. by split; [split_and!|]. }
  destruct (tracked_add (NodeId configs) true input requestId CreateJobAsyncTaskService ts others (n_world n)
              (n_async n) Hrole Hts Hos Hid Hlt Hap) as (w1 & H1 & O1 & T1).
  set (n1 := with_parts w1 (n_queue n) (n_executor n)
               (task_known id (new_task input requestId CreateJobAsyncTaskService) (n_async n)) n).
  destruct (create_jobs_run requestId _ _ ts others jobs ps old logs b n1
              (can_create_only true _ _ _ _ _ _ _ _ O1 Hcc) T1)
    as (n2 & answered & answer & new & Hrun & Hj & Hans & Hids & T2 & Hlogs & Htile).
  destruct O1 as (Htab & Hnow & _). cbn in Hj. rewrite Htab, Hnow in Hj by done.
  exists n1, (create_jobs configs [id] jobs), n2, answered, answer. do 2 eexists.
  split_and!; [|exact Hrun|exact Hj|exact (tracked_read _ _ _ _ _ _ _ _ T2)|done|done|exact Hans|exact Hids
              |exact Hlogs|exact Htile].
  destruct Hcc. destruct (service_checks requestId jobs ps n) as [[_ ->]|(Hno & _)]; [..|done].
  - by apply quiet_healthy, cc_ready0.
  - done.
  - split_and!; [done|unfold DBMaxVariableSize; lia|]. eapply Forall_impl; [exact cc_values0|]. cbn. lia.
  - rewrite Hin, (go_bind_Some _ _ _ _ _ (on_async_run _ n _ _ _ H1)). reflexivity.
Qed.

(** ** Updating a job *)

(** The scan fills every field that has a column. *)
Lemma GetOneByID_zero j :
  StartDate j = time_zero -> EndDate j = time_zero -> LastExecutionDate j = time_zero -> ExecutionId j = "" ->
  JobRepo.GetOneByID j = JobRepo.GetOneByID (set_ID (ID j) job_zero).
Proof. destruct j. cbn. by intros -> -> -> ->. Qed.

Lemma merge_job_wf job stored : job_wf stored -> job_wf (merge_job job stored).
Proof.
  intros H. unfold merge_job. destruct (String.eqb (Data job) ""), (String.eqb (CallbackUrl job) ""),
    (String.eqb (ExecutionType job) ""); destruct H as (Hj & ? & ?);
    (split; [|done]); rewrite Hj; done.
Qed.

Lemma merge_job_kept job stored :
  ID (merge_job job stored) = ID stored /\ Spec (merge_job job stored) = Spec stored /\
  ProjectID (merge_job job stored) = ProjectID stored /\ Timezone (merge_job job stored) = Timezone stored.
Proof.
  unfold merge_job. destruct (String.eqb (Data job) ""), (String.eqb (CallbackUrl job) ""),
    (String.eqb (ExecutionType job) ""); done.
Qed.

(** A stored job that is overwritten with its own merge becomes it. *)
Lemma overwrite_merge job stored : overwrite (merge_job job stored) stored = merge_job job stored.
Proof.
  unfold overwrite, merge_job. destruct (String.eqb (Data job) ""), (String.eqb (CallbackUrl job) ""),
    (String.eqb (ExecutionType job) ""); destruct stored; cbn; by rewrite Z.eqb_refl.
Qed.

(** Updating a job on the leader writes the data, the callback and the
    execution type the request gives, keeps what it leaves empty and the
    spec, the project and the time zone in any case, touches no other job,
    and answers the job as it is stored afterwards. *)
Theorem UpdateJob_merges job stored jobs n :
  quiet (n_world n) -> codec_total -> jobs_abs (w_db (n_world n)) jobs -> NoDup (ID <$> jobs) ->
  stored ∈ jobs -> ID stored = ID job -> params_ok (update_params (merge_job job stored)) = true ->
  exists n', UpdateJob job n = Some (Ok (merge_job job stored), n') /\
    jobs_abs (w_db (n_world n'))
      ((fun j => if ID j =? ID job then merge_job job stored else j) <$> jobs) /\
    JobRepo.GetOneByID (set_ID (ID job) job_zero) (n_world n') = Some (Ok (merge_job job stored), n_world n').
Proof.
  intros Hq Hc Ha Hnd Hin Hid Hp. set (m := merge_job job stored).
  destruct (merge_job_kept job stored) as (Hmid & Hspec & _). fold m in Hmid, Hspec.
  assert (Hwf : job_wf stored) by (destruct Ha as [_ Hwf]; rewrite Forall_forall in Hwf; by apply Hwf).
  assert (Hmax : ID stored <= MaxInt64) by (destruct Hwf as (_ & ? & _); lia).
  destruct (UpdateOneByID_run m stored jobs (n_world n)) as (w' & Hu & Hq' & Ha' & _); try done.
  { left. done. }
  assert (Hover : overwrite m <$> jobs = (fun j => if ID j =? ID job then m else j) <$> jobs).
  { apply list_fmap_ext. intros i j Hj%list_elem_of_lookup_2. destruct (Z.eqb_spec (ID j) (ID job)) as [E|E].
    - assert (j = stored) as -> by (apply (NoDup_fmap_inj ID jobs); [done..|congruence]).
      apply overwrite_merge.
    - unfold overwrite. rewrite Hmid, Hid. by rewrite (proj2 (Z.eqb_neq _ _)). }
  assert (Hfil : List.filter (with_id (ID job)) (overwrite m <$> jobs) = [m]).
  { rewrite <- Hid, <- Hmid. apply filter_with_id.
    - rewrite Hover, <- list_fmap_compose. erewrite list_fmap_ext; [exact Hnd|].
      intros i j _. unfold compose. destruct (Z.eqb_spec (ID j) (ID job)); [|done]. by rewrite Hmid, Hid.
    - rewrite Hover. apply list_elem_of_fmap. exists stored. by rewrite Hid, Z.eqb_refl. }
  assert (Hget : JobRepo.GetOneByID (set_ID (ID job) job_zero) w' = Some (Ok m, w')).
  { rewrite (GetOneByID_abs _ (overwrite m <$> jobs)); [|by apply quiet_healthy|done|lia]. by rewrite Hfil. }
  exists (with_parts w' (n_queue n) (n_executor n) (n_async n) n). rewrite <- Hover. split_and!; [|done|done].
  assert (H1 : JobRepo.GetOneByID (set_ID (ID job) job_zero) (n_world n) = Some (Ok stored, n_world n)).
  { rewrite (GetOneByID_abs _ jobs); [|by apply quiet_healthy|done|lia]. by rewrite <- Hid, filter_with_id. }
  unfold UpdateJob. rewrite (go_bind_Some _ _ _ _ _ (on_world_run _ n _ _ H1)). fold m.
  rewrite (go_bind_Some _ _ _ _ _ (on_world_run _ (with_parts _ _ _ _ n) _ _ Hu)).
  destruct (merge_job_wf job stored Hwf) as (Hz & _). fold m in Hz.
  rewrite GetOneByID_zero by (rewrite Hz; done). rewrite Hmid, Hid.
  by rewrite (on_world_run _ (with_parts _ _ _ _ (with_parts _ _ _ _ n)) _ _ Hget).
Qed.

End Facts.

(** ** Concrete runs: the leader of three nodes, two projects, three jobs *)

#[local] Existing Instance plain_codec.
#[local] Existing Instance sample_env.
#[local] Instance plain_union : UnionOrder := {| union_order l := l; union_order_perm l := Permutation_refl l |}.

#[local] Instance ids_json : JobJson := {|
  encode_jobs jobs := Ok (foldr (fun j s => pretty (ID j) +:+ "," +:+ s) "" jobs);
  encode_error e := Ok (Message e) |}.

Definition leader_configs : Scheduler0Configurations :=
  mkConfigurations "" "http" "a" "1" [mkRaftNode "http://a:1" "ra" 1; mkRaftNode "http://b:1" "rb" 2]
    0 0 0 true 1 "" "ra" 0 0 0 0 0 0 0 0 0 0 3 1 0 0 1 0 0.
Definition leader_node : nodeService :=
  NewNode start_world cluster NewJobExecutor NewAsyncTaskManager false ["ra"; "rb"; "rc"] [].

(** A request for one job of project 2, and one for a project that is not there. *)
Definition wanted (project : Z) : Job :=
  mkJob 0 project "@every" "http://x" "" "http" time_zero time_zero time_zero "UTC" 0 "" time_zero.

Lemma start_projects_abs : projects_abs start_db two_projects.
Proof. split; [reflexivity|]. repeat constructor; vm_compute; discriminate. Qed.

Lemma wanted_ok : payload_ok two_projects [wanted 2].
Proof.
  constructor; [|constructor]. split; [|right; left].
  split_and!; try done; by eexists.
Qed.

Lemma leader_can_create :
  can_create leader_configs [wanted 2] two_projects three_jobs [] 0 start_world cluster.
Proof.
  split.
  - apply plain_codec_total.
  - intros l. by eexists.
  - apply start_world_ready.
  - apply cluster_ready.
  - vm_compute. split; discriminate.
  - apply start_projects_abs.
  - apply start_jobs_abs.
  - split_and!; [reflexivity|constructor|vm_compute; discriminate].
  - apply wanted_ok.
  - discriminate.
  - vm_compute. discriminate.
  - repeat constructor; vm_compute; discriminate.
  - vm_compute. discriminate.
  - vm_compute. reflexivity.
Qed.

Lemma create_jobs_stored_witness :
  exists n1 work n2 answered answer task new,
    service_BatchInsertJobs leader_configs "r" [wanted 2] leader_node = Some ((Ok [1], Some work), n1) /\
    work n1 = Some (tt, n2) /\
    jobs_abs (w_db (n_world n2)) (three_jobs ++ number_jobs sample_now 3 [wanted 2]) /\
    GetTaskWithRequestIdNonBlocking "r" (n_world n2, n_async n2) =
      Some (Ok task, (n_world n2, n_async n2)) /\
    at_State task = AsyncTaskState_num AsyncTaskSuccess /\ at_Output task = answer /\
    encode_jobs answered = Ok answer /\ ID <$> answered = [1] /\
    queue_abs (w_db (n_world n2)) ([] ++ new) /\ concat (log_ids <$> new) = [1].
Proof.
  apply (create_jobs_stored leader_configs "r" [wanted 2] two_projects three_jobs [] [] [] 0 leader_node).
  - apply leader_can_create.
  - split; [reflexivity|constructor].
  - split; [reflexivity|constructor].
  - vm_compute. split; [reflexivity|discriminate].
  - constructor.
  - constructor.
Defined.

Lemma create_request_validated_witness :
  (~ payload_ok two_projects [wanted 2; wanted 9] ->
   exists e, service_BatchInsertJobs leader_configs "r" [wanted 2; wanted 9] leader_node =
               Some ((Err e, None), leader_node) /\
     (Type_ e = StatusBadRequest \/ Type_ e = StatusNotFound)) /\
  (forall taskIds work n',
     service_BatchInsertJobs leader_configs "r" [wanted 2; wanted 9] leader_node =
       Some ((Ok taskIds, work), n') -> payload_ok two_projects [wanted 2; wanted 9]).
Proof.
  apply (create_request_validated leader_configs "r" [wanted 2; wanted 9] two_projects leader_node).
  - reflexivity.
  - apply start_projects_abs.
  - split_and!; [discriminate|vm_compute; discriminate|repeat constructor; vm_compute; discriminate].
Defined.

Lemma UpdateJob_merges_witness :
  let job := set_ID 2 (set_Data "new" job_zero) in
  exists n', UpdateJob job leader_node = Some (Ok (set_Data "new" (job_in 2 2)), n') /\
    jobs_abs (w_db (n_world n')) [job_in 1 1; set_Data "new" (job_in 2 2); job_in 3 1] /\
    JobRepo.GetOneByID (set_ID 2 job_zero) (n_world n') = Some (Ok (set_Data "new" (job_in 2 2)), n_world n').
Proof.
  apply (UpdateJob_merges (set_ID 2 (set_Data "new" job_zero)) (job_in 2 2) three_jobs leader_node).
  - by split.
  - apply plain_codec_total.
  - apply start_jobs_abs.
  - apply (bool_decide_unpack _). vm_compute. exact I.
  - right. left.
  - reflexivity.
  - vm_compute. reflexivity.
Defined.
