(* ===== verification/Encrypt.v ===== *)
(** * Keys: pkg/utils/encrypt.go and [GetRandomSha256] of pkg/utils/misc.go

    The API key and secret of a credential are random hashes encrypted with
    the secret key of the cluster: AES-GCM with a random nonce that is sent
    along, in hexadecimal.  A byte slice is a [string]. *)

From stdpp Require Import base list strings.
From Stdlib Require Import ZArith NArith Ascii Lia.
From S2P Require Import Prelude.

#[local] Open Scope N_scope.

(** ** Hexadecimal *)

(** [fmt.Sprintf("%x", b)] *)
Definition hex_digit (n : N) : ascii := ascii_of_N (if n <? 10 then 48 + n else 87 + n).

Fixpoint hex_encode (b : string) : string :=
  match b with
  | EmptyString => EmptyString
  | String c b' =>
      String (hex_digit (N_of_ascii c / 16)) (String (hex_digit (N_of_ascii c mod 16)) (hex_encode b'))
  end.

(** A digit of [hex.DecodeString], of either case. *)
Definition hex_value (c : ascii) : option N :=
  let n := N_of_ascii c in
  if (48 <=? n) && (n <=? 57) then Some (n - 48)
  else if (97 <=? n) && (n <=? 102) then Some (n - 87)
  else if (65 <=? n) && (n <=? 70) then Some (n - 55)
  else None.

(** The bytes [hex.DecodeString] gives beside its error, which the source
    does not look at: those before the first wrong or unpaired digit. *)
Fixpoint hex_decode (s : string) : string :=
  match s with
  | String a (String b s') =>
      match hex_value a, hex_value b with
      | Some x, Some y => String (ascii_of_N (16 * x + y)) (hex_decode s')
      | _, _ => EmptyString
      end
  | _ => EmptyString
  end.

Lemma hex_value_digit n : n < 16 -> hex_value (hex_digit n) = Some n.
Proof.
  intros H. assert (n ∈ [0; 1; 2; 3; 4; 5; 6; 7; 8; 9; 10; 11; 12; 13; 14; 15]) as Hn
    by (rewrite !elem_of_cons; lia).
  repeat (apply elem_of_cons in Hn as [->|Hn]; [reflexivity|]). by apply elem_of_nil in Hn.
Qed.

Lemma hex_decode_encode b : hex_decode (hex_encode b) = b.
Proof.
  induction b as [|c b IH]; [done|]. cbn [hex_encode hex_decode].
  pose proof (N_ascii_bounded c) as Hc.
  rewrite !hex_value_digit by (try apply N.mod_lt; try apply N.Div0.div_lt_upper_bound; lia).
  rewrite IH, <- N.div_mod by lia. by rewrite ascii_N_embedding.
Qed.

(** ** AES-GCM *)

(** crypto/aes and crypto/cipher: what [Seal] made with a key and a nonce,
    [Open] gives back with them. *)
Class AEAD := {
  aead_Seal : string -> string -> string -> string;
  aead_Open : string -> string -> string -> option string;
  aead_Open_Seal key nonce plaintext :
    aead_Open key nonce (aead_Seal key nonce plaintext) = Some plaintext }.

Definition NonceSize : nat := 12.

(** The keys [aes.NewCipher] takes; another is a panic. *)
Definition aes_key (key : string) : bool :=
  bool_decide (String.length key ∈ [16; 24; 32]%nat).

Section Encrypt.
Context {aead : AEAD} {hash : string -> string}.

(** [nonce] is what [rand.Reader] gives. *)
Definition Encrypt (nonce stringToEncrypt keyString : string) : option string :=
  let key := hex_decode keyString in
  if aes_key key then Some (hex_encode (nonce +:+ aead_Seal key nonce stringToEncrypt)) else None.

(** [b[:n]], [b[n:]]; beyond the length is a panic. *)
Fixpoint split_at (n : nat) (b : string) : option (string * string) :=
  match n, b with
  | O, _ => Some (EmptyString, b)
  | S n', String c b' => '(x, y) ← split_at n' b'; Some (String c x, y)
  | S _, EmptyString => None
  end.

(** A text that does not authenticate is a panic. *)
Definition Decrypt (encryptedString keyString : string) : option string :=
  let key := hex_decode keyString in
  let enc := hex_decode encryptedString in
  if aes_key key then '(nonce, ciphertext) ← split_at NonceSize enc; aead_Open key nonce ciphertext
  else None.

(** [hash] is sha256; [randomId] what ksuid gives. *)
Definition GetRandomSha256 (randomId : string) : string := hex_encode (hash randomId).

(** What a call draws: two ids and two nonces. *)
Record draws := mkDraws { dr_id1 : string; dr_nonce1 : string; dr_id2 : string; dr_nonce2 : string }.

Definition GenerateApiAndSecretKey (d : draws) (secretKey : string) : option (string * string) :=
  apiKey ← Encrypt (dr_nonce1 d) (GetRandomSha256 (dr_id1 d)) secretKey;
  apiSecret ← Encrypt (dr_nonce2 d) (GetRandomSha256 (dr_id2 d)) secretKey;
  Some (apiKey, apiSecret).

Lemma split_at_app x y : split_at (String.length x) (x +:+ y) = Some (x, y).
Proof. induction x as [|c x IH]; [done|]. change (String c x +:+ y) with (String c (x +:+ y)). cbn. by rewrite IH. Qed.

(** What is encrypted with a key that AES takes is decrypted with the
    same key to the text it was, whatever the nonce. *)
Theorem Decrypt_Encrypt nonce s keyString :
  aes_key (hex_decode keyString) = true -> String.length nonce = NonceSize ->
  exists e, Encrypt nonce s keyString = Some e /\ Decrypt e keyString = Some s.
Proof.
  intros Hk Hn. unfold Encrypt, Decrypt. rewrite Hk. eexists. split; [reflexivity|].
  rewrite hex_decode_encode, <- Hn, split_at_app. cbn. apply aead_Open_Seal.
Qed.

End Encrypt.

(** ** A concrete cipher: the text after the key and the nonce *)

Definition sample_key : string := "000102030405060708090a0b0c0d0e0f".

Fixpoint strip (p s : string) : option string :=
  match p, s with
  | EmptyString, _ => Some s
  | String a p', String b s' => if Ascii.eqb a b then strip p' s' else None
  | _, EmptyString => None
  end.

Lemma strip_app p s : strip p (p +:+ s) = Some s.
Proof.
  induction p as [|a p IH]; [done|]. change (String a p +:+ s) with (String a (p +:+ s)). cbn.
  by rewrite Ascii.eqb_refl.
Qed.

#[local] Program Instance tagged_aead : AEAD := {|
  aead_Seal key nonce plaintext := key +:+ plaintext;
  aead_Open key nonce ciphertext := strip key ciphertext |}.
Next Obligation. intros. apply strip_app. Defined.

Lemma Decrypt_Encrypt_witness :
  exists e, Encrypt "abcdefghijkl" "a secret" sample_key = Some e /\ Decrypt e sample_key = Some "a secret".
Proof. apply (Decrypt_Encrypt "abcdefghijkl" "a secret" sample_key); reflexivity. Defined.
