(* ===== verification/Accounts.v ===== *)
(** * The project and credential services

    pkg/service/project/project.go and pkg/service/credential/credential.go,
    over their repositories. *)

From stdpp Require Import base list gmap strings pretty.
From Stdlib Require Import ZArith Lia.
From S2P Require Import Prelude Models Batcher Sql Fsm Replication Inserts Reads JobQueueRepo JobRepo.
From S2P Require Import AccountRepos Encrypt.

#[local] Open Scope Z_scope.

(** ** Projects *)

Module ProjectService.

Record PaginatedProject := mkPaginatedProject {
  pp_Total : Z; pp_Offset : Z; pp_Limit : Z; pp_Projects : list Project }.

Section ProjectService.
Context {codec : CommandCodec}.

(** The repository fills the caller's copy, which is answered. *)
Definition CreateOne (project : Project) : Go World (result GenericError Project) :=
  r ← ProjectRepo.CreateOne project;
  match snd r with
  | Err err => mret (Err err)
  | Ok _ => mret (Ok (fst r))
  end.

(** The methods below that take a pointer give the pointed value back. *)
Definition GetOneByID (project : Project) : Go World (Project * option GenericError) :=
  ProjectRepo.GetOneByID project.

Definition GetOneByName (project : Project) : Go World (Project * option GenericError) :=
  ProjectRepo.GetOneByName project.

Definition UpdateOneByID (project : Project) : Go World (Project * option GenericError) :=
  if Nat.ltb (String.length (p_Name project)) 1
  then mret (project, Some (HTTPGenericError StatusBadRequest "project name is required"))
  else
    r ← ProjectRepo.UpdateOneByID project;
    match r with
    | Err err => mret (project, Some err)
    | Ok count =>
        if count <? 1
        then mret (project, Some (HTTPGenericError StatusNotFound
                                    ("Cannot find ProjectID = " +:+ pretty (p_ID project))))
        else GetOneByID project
    end.

(** A [uint64] is never below 0: the test has no effect. *)
Definition DeleteOneByID (project : Project) : Go World (option GenericError) :=
  r ← ProjectRepo.DeleteOneByID project;
  match r with
  | Err err => mret (Some err)
  | Ok count =>
      if count <? 0
      then mret (Some (HTTPGenericError StatusNotFound
                         ("Cannot find ProjectUUID = " +:+ pretty (p_ID project))))
      else mret None
  end.

Definition List_ (offset limit : Z) : Go World (result GenericError PaginatedProject) :=
  r ← ProjectRepo.List_ offset limit;
  match r with
  | Err err => mret (Err err)
  | Ok projects =>
      c ← ProjectRepo.Count;
      match c with
      | Err err => mret (Err err)
      | Ok count => mret (Ok (mkPaginatedProject count offset limit projects))
      end
  end.

Definition BatchGetProjects (projectIds : list Z) : Go World (result GenericError (list Project)) :=
  match projectIds with
  | [] => mret (Ok [])
  | _ => ProjectRepo.GetBatchProjectsByIDs projectIds
  end.

End ProjectService.
End ProjectService.

(** ** Credentials *)

Module CredentialService.

Record PaginatedCredential := mkPaginatedCredential {
  pc_Total : Z; pc_Offset : Z; pc_Limit : Z; pc_Data : list Credential }.

(** An [error] is an error of the driver, of this package or of the HTTP
    layer; only the last is a [GenericError]. *)
Definition service_error : Type := string + GenericError.

Section CredentialService.
Context {codec : CommandCodec} {aead : AEAD} {hash : string -> string}.

(** The closure runs on the worker pool while the caller waits.  It sends a
    pointer on the error channel and the caller asserts a value, so an error
    of the repository is a panic. *)
Definition CreateNewCredential (SecretKey : string) (d : draws) (credential : Credential)
    : Go World (result GenericError Z) :=
  '(apiKey, apiSecret) ← lift_opt (GenerateApiAndSecretKey (hash := hash) d SecretKey);
  r ← CredentialRepo.CreateOne (mkCredential (cr_ID credential) (cr_Archived credential) apiKey apiSecret
                                  (cr_DateCreated credential));
  match r with
  | Ok newCredentialId => mret (Ok newCredentialId)
  | Err _ => crash
  end.

Definition FindOneCredentialByID (id : Z) : Go World (result service_error Credential) :=
  r ← CredentialRepo.GetOneID (mkCredential id false "" "" time_zero);
  match snd r with
  | Some err => mret (Err err)
  | None => mret (Ok (fst r))
  end.

Definition UpdateOneCredential (credential : Credential) : Go World (result service_error Credential) :=
  if Nat.ltb (String.length (cr_ApiKey credential)) 1 || Nat.ltb (String.length (cr_ApiSecret credential)) 1
  then mret (Err (inr (HTTPGenericError StatusBadRequest "api_key or api_secret cannot be empty")))
  else
    r ← CredentialRepo.GetOneID (mkCredential (cr_ID credential) false "" "" time_zero);
    match snd r with
    | Some err => mret (Err err)
    | None =>
        let placeholder := fst r in
        if negb (String.eqb (cr_ApiKey placeholder) (cr_ApiKey credential)) &&
           Nat.ltb 1 (String.length (cr_ApiKey credential))
        then mret (Err (inl "cannot update api key"))
        else if negb (String.eqb (cr_ApiSecret placeholder) (cr_ApiSecret credential)) &&
                Nat.ltb 1 (String.length (cr_ApiSecret credential))
        then mret (Err (inl "cannot update api secret"))
        else
          let credential := mkCredential (cr_ID credential) (cr_Archived credential) (cr_ApiKey placeholder)
                              (cr_ApiSecret placeholder) (cr_DateCreated placeholder) in
          u ← CredentialRepo.UpdateOneByID credential;
          match u with
          | Err err => mret (Err (inr err))
          | Ok _ => mret (Ok credential)
          end
    end.

Definition DeleteOneCredential (id : Z) : Go World (result service_error Credential) :=
  let credentialDto := mkCredential id false "" "" time_zero in
  r ← CredentialRepo.DeleteOneByID credentialDto;
  match r with
  | Err err => mret (Err (inr err))
  | Ok _ => mret (Ok credentialDto)
  end.

Definition ListCredentials (offset limit : Z) (orderBy : string)
    : Go World (result GenericError PaginatedCredential) :=
  c ← CredentialRepo.Count;
  match c with
  | Err err => mret (Err err)
  | Ok total =>
      if total <? 1 then mret (Err (HTTPGenericError StatusNotFound "there no credentials"))
      else
        r ← CredentialRepo.List_ offset limit orderBy;
        match r with
        | Err err => mret (Err err)
        | Ok credentials => mret (Ok (mkPaginatedCredential total offset limit credentials))
        end
  end.

Definition ValidateServerAPIKey (apiKey apiSecret : string) : Go World (result GenericError bool) :=
  r ← CredentialRepo.GetByAPIKey (mkCredential 0 false apiKey "" time_zero);
  match snd r with
  | Some getApIError => mret (Err getApIError)
  | None => mret (Ok (String.eqb apiSecret (cr_ApiSecret (fst r))))
  end.

End CredentialService.
End CredentialService.
