(* ===== verification/AccountsFacts.v ===== *)
(** * What the account services promise

    A credential that was created authenticates its owner and nobody else;
    names of projects stay unique. *)

From stdpp Require Import base list gmap strings pretty.
From Stdlib Require Import ZArith Ascii Lia.
From S2P Require Import Prelude Models Batcher Sql Fsm Replication Inserts Reads JobQueueRepo JobRepo.
From S2P Require Import AccountRepos Processor Encrypt Accounts.

#[local] Open Scope Z_scope.

(** ** Credentials as a list *)

Definition cred_row (c : Credential) : row :=
  [("id", VInt (cr_ID c)); ("archived", VInt (if cr_Archived c then 1 else 0));
   ("api_key", VText (cr_ApiKey c)); ("api_secret", VText (cr_ApiSecret c));
   ("date_created", VTime (t_ns (cr_DateCreated c)))].

Definition cred_wf (c : Credential) : Prop := 0 <= cr_ID c <= MaxInt64 /\ t_loc (cr_DateCreated c) = "UTC".

Definition creds_abs (db : Db) (cs : list Credential) : Prop :=
  db_rows db CredentialRepo.CredentialTableName = cred_row <$> cs /\ Forall cred_wf cs.

Definition creds_td : tabdef := default (Tab "" [] None) (find_tabdef CredentialRepo.CredentialTableName).

Lemma scan_cred_row c :
  cred_wf c ->
  CredentialRepo.scan_credential (project_cols CredentialRepo.credential_select (cred_row c)) = Some c.
Proof.
  intros [? Hl]. destruct c as [id arch k sec [ns loc]]. cbn in *. subst. unfold scan_uint64.
  rewrite (proj2 (Z.leb_le _ _)) by lia. cbn. by destruct arch.
Qed.

Lemma scan_creds cs :
  Forall cred_wf cs ->
  mapM CredentialRepo.scan_credential
    (project_cols CredentialRepo.credential_select <$> (cred_row <$> cs)) = Some cs.
Proof.
  induction 1 as [|c cs Hc _ IH]; [done|]. rewrite !fmap_cons. cbn [mapM].
  rewrite scan_cred_row by done. cbn. by rewrite IH.
Qed.

Definition has_key (key : string) (c : Credential) : bool := String.eqb (cr_ApiKey c) key.

Lemma GetByAPIKey_abs key cs w :
  healthy w -> creds_abs (w_db w) cs ->
  CredentialRepo.GetByAPIKey (mkCredential 0 false key "" time_zero) w =
  Some (match last (List.filter (has_key key) cs) with
        | Some c => (c, None)
        | None => (mkCredential 0 false key "" time_zero,
                   Some (HTTPGenericError StatusNotFound "credential doesn't exist"))
        end, w).
Proof.
  intros Hw [Hr Hwf]. unfold CredentialRepo.GetByAPIKey.
  erewrite (db_query_then _ _ _ (List.filter (has_key key) cs)); [by case_match|done|done|].
  unfold CredentialRepo.credential_rows. rewrite Hr. cbn [cr_ApiKey].
  rewrite (sql_select_enc cred_row _ (has_key key)); [by apply scan_creds, Forall_filter|].
  intros c _. cbn. unfold has_key. destruct (String.eqb_spec (cr_ApiKey c) key) as [->|Hne].
  - by apply bool_decide_eq_true_2.
  - apply bool_decide_eq_false_2. congruence.
Qed.

Section Facts.
Context {codec : CommandCodec} {aead : AEAD} {hash : string -> string}.

Lemma ValidateServerAPIKey_abs key secret cs w :
  healthy w -> creds_abs (w_db w) cs ->
  CredentialService.ValidateServerAPIKey key secret w =
  Some (match last (List.filter (has_key key) cs) with
        | Some c => Ok (String.eqb secret (cr_ApiSecret c))
        | None => Err (HTTPGenericError StatusNotFound "credential doesn't exist")
        end, w).
Proof.
  intros Hw Ha. unfold CredentialService.ValidateServerAPIKey.
  erewrite go_bind_Some by (by apply GetByAPIKey_abs). by destruct (last _).
Qed.

(** The stored form of a new credential. *)
Definition stored_cred (now : Time) (id : Z) (archived : bool) (key secret : string) : Credential :=
  mkCredential id archived key secret (mkTime (t_ns now) "UTC").

Lemma CreateOne_cred c cs w :
  quiet w -> codec_total -> creds_abs (w_db w) cs -> json_marshalable (VTime (t_ns (w_now w))) = true ->
  let seq := t_seq (db_table (w_db w) CredentialRepo.CredentialTableName) in
  0 <= seq < MaxInt64 ->
  exists w', CredentialRepo.CreateOne c w = Some (Ok (seq + 1), w') /\ quiet w' /\
    creds_abs (w_db w')
      (cs ++ [stored_cred (w_now w) (seq + 1) (cr_Archived c) (cr_ApiKey c) (cr_ApiSecret c)]).
Proof.
  intros Hq Hc [Hr Hwf] Hj seq Hs. unfold CredentialRepo.CreateOne. rewrite go_bind_gets.
  set (cols := ["archived"; "api_key"; "api_secret"; "date_created"]).
  set (vals := [VBool (cr_Archived c); VText (cr_ApiKey c); VText (cr_ApiSecret c); VTime (t_ns (w_now w))]).
  pose proof (raft_insert CredentialRepo.CredentialTableName creds_td cols [vals] [] 0 w Hq Hc) as HW.
  assert (Hacc : forallb (acceptable (w_db w) creds_td cols) [vals] = true).
  { cbn [forallb]. rewrite andb_true_r. unfold acceptable. apply andb_true_iff. split; [|done].
    unfold params_ok. cbn -[json_marshalable]. by rewrite Hj. }
  specialize (HW eq_refl eq_refl ltac:(done) ltac:(done) Hacc). eexists. split_and!.
  - erewrite go_bind_Some by exact HW. cbn [f_Data LastInsertedId length]. fold seq.
    rewrite u64_small by go_lia. reflexivity.
  - by auto with go.
  - cbn [w_db with_post with_db]. split.
    + unfold db_rows in *. rewrite db_append_table. cbn [t_rows tuple_rows]. by rewrite Hr, fmap_app.
    + apply Forall_app_2; [done|]. constructor; [|constructor]. split; cbn; [lia|done].
Qed.

Definition has_id (id : Z) (c : Credential) : bool := cr_ID c =? id.

Lemma FindOneCredentialByID_abs id cs w :
  healthy w -> creds_abs (w_db w) cs -> 0 <= id <= MaxInt64 ->
  CredentialService.FindOneCredentialByID id w =
  Some (match last (List.filter (has_id id) cs) with
        | Some c => Ok c
        | None => Err (inr (HTTPGenericError StatusNotFound "credential not found"))
        end, w).
Proof.
  intros Hw [Hr Hwf] Hid. unfold CredentialService.FindOneCredentialByID, CredentialRepo.GetOneID.
  rewrite go_bind_assoc. cbn [cr_ID].
  erewrite (db_query_then _ _ _ (List.filter (has_id id) cs)); [by destruct (last _)|done| |].
  - apply query_refused_ok; [done|]. cbn [forallb]. rewrite bindable_int; [done|go_lia].
  - unfold CredentialRepo.credential_rows. rewrite Hr.
    rewrite (sql_select_enc cred_row _ (has_id id)); [by apply scan_creds, Forall_filter|].
    intros c _. cbn. unfold has_id. by rewrite bool_decide_VInt.
Qed.

(** The new credential is added to those that are there. *)
Lemma CreateNewCredential_abs SecretKey d c cs w :
  quiet w -> codec_total -> creds_abs (w_db w) cs -> json_marshalable (VTime (t_ns (w_now w))) = true ->
  let seq := t_seq (db_table (w_db w) CredentialRepo.CredentialTableName) in
  0 <= seq < MaxInt64 -> aes_key (hex_decode SecretKey) = true ->
  exists w' key secret,
    GenerateApiAndSecretKey (hash := hash) d SecretKey = Some (key, secret) /\
    CredentialService.CreateNewCredential (hash := hash) SecretKey d c w = Some (Ok (seq + 1), w') /\
    quiet w' /\ creds_abs (w_db w') (cs ++ [stored_cred (w_now w) (seq + 1) (cr_Archived c) key secret]).
Proof.
  intros Hq Hc Ha Hj seq Hs Hk.
  assert (exists key secret, GenerateApiAndSecretKey (hash := hash) d SecretKey = Some (key, secret))
    as (key & secret & Hg).
  { unfold GenerateApiAndSecretKey, Encrypt. rewrite Hk. by do 2 eexists. }
  destruct (CreateOne_cred (mkCredential (cr_ID c) (cr_Archived c) key secret (cr_DateCreated c)) cs w
              Hq Hc Ha Hj Hs) as (w' & Hcr & Hq' & Ha').
  exists w', key, secret. split_and!; [done| |done|done].
  unfold CredentialService.CreateNewCredential. erewrite go_bind_lift by exact Hg.
  cbv iota beta. by erewrite go_bind_Some by exact Hcr.
Qed.

(** The last credential with a key decides. *)
Lemma ValidateServerAPIKey_last cs c w s :
  healthy w -> creds_abs (w_db w) (cs ++ [c]) ->
  CredentialService.ValidateServerAPIKey (cr_ApiKey c) s w = Some (Ok (String.eqb s (cr_ApiSecret c)), w).
Proof.
  intros Hw Ha. erewrite ValidateServerAPIKey_abs by done. rewrite List.filter_app. cbn [List.filter].
  unfold has_key at 2. rewrite String.eqb_refl, last_snoc. done.
Qed.

(** C23: A credential created on the leader authenticates exactly its own
    secret: a request with the new key is let in when its secret is the one
    that was generated, and every key that existed is answered as before. *)
Theorem credential_authenticates SecretKey d c cs w :
  quiet w -> codec_total -> creds_abs (w_db w) cs -> json_marshalable (VTime (t_ns (w_now w))) = true ->
  let seq := t_seq (db_table (w_db w) CredentialRepo.CredentialTableName) in
  0 <= seq < MaxInt64 -> aes_key (hex_decode SecretKey) = true ->
  exists w' key secret,
    GenerateApiAndSecretKey (hash := hash) d SecretKey = Some (key, secret) /\
    CredentialService.CreateNewCredential (hash := hash) SecretKey d c w = Some (Ok (seq + 1), w') /\
    (forall s, CredentialService.ValidateServerAPIKey key s w' = Some (Ok (String.eqb s secret), w')) /\
    (forall k s, k <> key ->
       fst <$> CredentialService.ValidateServerAPIKey k s w' =
       fst <$> CredentialService.ValidateServerAPIKey k s w).
Proof.
  intros Hq Hc Ha Hj seq Hs Hk.
  destruct (CreateNewCredential_abs SecretKey d c cs w) as (w' & key & secret & Hg & Hcr & Hq' & Ha'); [done..|].
  exists w', key, secret. split_and!; [done|done| |].
  - intros s. by apply (ValidateServerAPIKey_last _ _ w' s (quiet_healthy _ Hq') Ha').
  - intros k s Hne. erewrite !ValidateServerAPIKey_abs by (try done; by apply quiet_healthy).
    rewrite List.filter_app. cbn [List.filter]. unfold has_key at 2. cbn [stored_cred cr_ApiKey].
    rewrite (proj2 (String.eqb_neq key k)) by congruence. by rewrite app_nil_r.
Qed.

End Facts.

(** ** Projects *)

Section Projects.
Context {codec : CommandCodec}.

Definition named (name : string) (p : Project) : bool := String.eqb (p_Name p) name.

Lemma GetOneByName_abs project ps w :
  healthy w -> projects_abs (w_db w) ps ->
  ProjectRepo.GetOneByName project w =
  Some (match last (List.filter (named (p_Name project)) ps) with
        | Some p => (p, None)
        | None => (project, Some (HTTPGenericError StatusNotFound
                     ("project with name : " +:+ p_Name project +:+ " does not exist")))
        end, w).
Proof.
  intros Hw [Hr Hwf]. unfold ProjectRepo.GetOneByName.
  erewrite (db_query_then _ _ _ (List.filter (named (p_Name project)) ps));
    [unfold ProjectRepo.read_project; by case_match|done|done|].
  unfold ProjectRepo.project_rows. rewrite Hr.
  rewrite (sql_select_enc proj_row _ (named (p_Name project))); [by apply scan_projects, Forall_filter|].
  intros p _. cbn. unfold named. destruct (String.eqb_spec (p_Name p) (p_Name project)) as [->|Hne].
  - by apply bool_decide_eq_true_2.
  - apply bool_decide_eq_false_2. congruence.
Qed.

Definition projects_td : tabdef := default (Tab "" [] None) (find_tabdef ProjectRepo.ProjectsTableName).

(** The name of a stored project cannot be used again. *)
Lemma name_taken db ps p id rest :
  projects_abs db ps -> p ∈ ps ->
  unique_ok projects_td (db_table db ProjectRepo.ProjectsTableName)
    (tuple_row projects_td ["name"; "description"; "date_created"] id (VText (p_Name p) :: rest)) = false.
Proof.
  intros [Hr _] Hp. unfold unique_ok. apply not_true_iff_false. rewrite forallb_forall. intros H.
  specialize (H (col_unique "name") ltac:(by left)). cbn [c_unique col_unique negb orb c_name] in H.
  rewrite forallb_forall in H. fold (db_rows db ProjectRepo.ProjectsTableName) in H.
  rewrite Hr in H. specialize (H (proj_row p)). rewrite bool_decide_eq_true_2 in H by done.
  discriminate H. by apply list_elem_of_In, list_elem_of_fmap_2.
Qed.

(** A second project of the same name is refused on the leader and
    changes nothing, although the service's own check for it never holds:
    the UNIQUE constraint of the table refuses it, so the client is answered
    with an internal error instead of a bad request. *)
Theorem CreateOne_duplicate_name project other ps w :
  quiet w -> codec_total -> projects_abs (w_db w) ps -> json_marshalable (VTime (t_ns (w_now w))) = true ->
  p_Name project <> "" -> p_Description project <> "" -> other ∈ ps -> p_Name other = p_Name project ->
  exists e, ProjectService.CreateOne project w = Some (Err e, w) /\ Type_ e = StatusInternalServerError.
Proof.
  intros Hq Hc Ha Hj Hn Hd Hin Hname. unfold ProjectService.CreateOne, ProjectRepo.CreateOne.
  assert (Hlen : forall s, s <> "" -> Nat.ltb (String.length s) 1 = false) by (by intros []).
  rewrite !Hlen by done.
  destruct (last (List.filter (named (p_Name project)) ps)) as [p|] eqn:El.
  2: { apply last_None in El. exfalso. eapply (not_elem_of_nil other). rewrite <- El.
       apply elem_of_filter_bool. split; [done|]. by apply String.eqb_eq. }
  assert (p ∈ ps /\ p_Name p = p_Name project) as [Hp Hpn].
  { apply last_Some_elem_of, elem_of_filter_bool in El as [? ?%String.eqb_eq]. done. }
  rewrite go_bind_assoc.
  erewrite go_bind_Some by (apply GetOneByName_abs; [by apply quiet_healthy|done]). rewrite El. cbv iota beta zeta.
  cbn [fst p_ID]. change (0 <? 0) with false. cbv iota. rewrite go_bind_assoc, go_bind_gets, go_bind_assoc.
  set (ps' := [VText (p_Name p); VText (p_Description p); VTime (t_ns (w_now w))]).
  set (st := Insert ProjectRepo.ProjectsTableName ["name"; "description"; "date_created"] 1).
  destruct (Hc (mkCommand CommandTypeDbExecute st (Some ps') [] (u64 0))) as [b Hb].
  pose proof (WriteCommandToRaftLog_quiet st ps' [] 0 b w Hq) as HW. unfold raft_effect in HW.
  assert (Hx : sql_exec (w_db w) st ps' = Err "UNIQUE constraint failed").
  { unfold sql_exec, st, ps'. cbn -[unique_ok db_table db_rows tuple_row].
    by rewrite (name_taken (w_db w) ps) by done. }
  rewrite Hx in HW. erewrite go_bind_Some by (apply HW; [|done]; unfold params_ok; cbn -[json_marshalable]; by rewrite Hj).
  by eexists.
Qed.

End Projects.

(** ** Concrete runs *)

#[local] Existing Instance plain_codec.
#[local] Existing Instance tagged_aead.

Definition sample_draws : draws := mkDraws "id1" "abcdefghijkl" "id2" "mnopqrstuvwx".

Lemma credential_authenticates_witness :
  exists w' key secret,
    GenerateApiAndSecretKey (hash := id) sample_draws sample_key = Some (key, secret) /\
    CredentialService.CreateNewCredential (hash := id) sample_key sample_draws
      (mkCredential 0 false "" "" time_zero) sample_world = Some (Ok 1, w') /\
    (forall s, CredentialService.ValidateServerAPIKey key s w' = Some (Ok (String.eqb s secret), w')) /\
    (forall k s, k <> key ->
       fst <$> CredentialService.ValidateServerAPIKey k s w' =
       fst <$> CredentialService.ValidateServerAPIKey k s sample_world).
Proof.
  apply (credential_authenticates (hash := id) sample_key sample_draws (mkCredential 0 false "" "" time_zero) []
           sample_world).
  - by split.
  - apply plain_codec_total.
  - split; [reflexivity|constructor].
  - reflexivity.
  - vm_compute. split; [discriminate|reflexivity].
  - reflexivity.
Defined.

Lemma CreateOne_duplicate_name_witness :
  exists e, ProjectService.CreateOne (mkProject 0 "a" "another" time_zero) start_world =
              Some (Err e, start_world) /\ Type_ e = StatusInternalServerError.
Proof.
  apply (CreateOne_duplicate_name (mkProject 0 "a" "another" time_zero) (proj 1 "a") two_projects start_world);
    try done.
  - apply plain_codec_total.
  - split; [reflexivity|]. repeat constructor; vm_compute; discriminate.
  - left.
Defined.
