(* ===== verification/Http.v ===== *)
(** * The HTTP server

    pkg/http/server: the routes of http_server.go, the middlewares and the
    controllers, and the helpers of pkg/utils/controllers.go.  A handler runs
    on the state of the node; closures it hands to the worker pool are part
    of its answer.  The middlewares of other packages only set headers. *)

From stdpp Require Import base list gmap strings pretty.
From Stdlib Require Import ZArith Ascii Lia.
From S2P Require Import Prelude Models JobTime Batcher Sql Fsm Replication Inserts Reads JobQueueRepo.
From S2P Require Import Queue JobRepo AccountRepos ExecutionsRepo AsyncRepo Executor ExecutorImpl Processor.
From S2P Require Import AsyncService AsyncImpl Config Node JobService Encrypt Accounts.

#[local] Open Scope Z_scope.

(** ** Requests and answers *)

Record http_request := mkHttpRequest {
  hq_Method : string;
  hq_Path : string;
  hq_Header : gmap string string;
  hq_BasicAuth : option (string * string);
  hq_Query : gmap string (list string);
  hq_Body : result string string;
  hq_Vars : gmap string string;             (* mux.Vars *)
  hq_RequestID : string }.                  (* set by ContextMiddleware *)

(** [Header.Get] *)
Definition header (key : string) (r : http_request) : string := default "" (hq_Header r !! key).

(** The data of a response. *)
Inductive http_data :=
| DNil | DText (s : string) | DError (e : GenericError) | DIsLeader (b : bool)
| DJob (j : Job) | DJobs (p : PaginatedJob) | DIds (l : list Z)
| DProject (p : Project) | DProjects (p : ProjectService.PaginatedProject)
| DCredential (c : Credential) | DCredentials (p : CredentialService.PaginatedCredential)
| DTask (t : AsyncTask) | DHealth (leaderAddress leaderId : string) (raftStats : gmap string string)
| DOpaqueError.                              (* an [error] value: marshals to {} *)

(** What the client sees: the first status written, the location, the
    bodies in order. *)
Record response := mkResponse {
  rs_Status : Z; rs_Location : string; rs_Bodies : list (http_data * bool) }.

Definition SendJSON (data : http_data) (success : bool) (status : Z) : response :=
  mkResponse status "" (if status =? StatusNoContent then [] else [(data, success)]).

(** A second [SendJSON] on the same writer: its status is ignored, its body
    follows. *)
Definition send_more (first second : response) : response :=
  mkResponse (rs_Status first) (rs_Location first) (rs_Bodies first ++ rs_Bodies second).

Definition with_location (l : string) (r : response) : response :=
  mkResponse (rs_Status r) l (rs_Bodies r).

Definition ValidateQueryString (queryString : string) (r : http_request) : result string string :=
  match hq_Query r !! queryString with
  | Some (p :: _) =>
      if Nat.ltb (String.length p) 1 then Err (queryString +:+ " is not provided") else Ok p
  | _ => Err (queryString +:+ " is not provided")
  end.

(** The body, or the answer that was sent. *)
Definition ExtractBody (r : http_request) : result response string :=
  match hq_Body r with
  | Err _ => Err (SendJSON (DText "request body required") false StatusUnprocessableEntity)
  | Ok body =>
      if Nat.ltb (String.length body) 1
      then Err (SendJSON (DText "request body required") false StatusBadRequest)
      else Ok body
  end.

(** ** strconv.Atoi *)

(** Digits of an [int]; a value beyond [limit] is an error. *)
Fixpoint atoi_digits (limit : Z) (s : string) (acc : Z) : option Z :=
  match s with
  | EmptyString => Some acc
  | String c s' =>
      d ← digit c;
      if acc * 10 + d <=? limit then atoi_digits limit s' (acc * 10 + d) else None
  end.

Definition Atoi (s : string) : option Z :=
  match s with
  | EmptyString => None
  | String c s' =>
      if Ascii.eqb c "-" then
        match s' with
        | EmptyString => None
        | _ => n ← atoi_digits (MaxInt64 + 1) s' 0; Some (- n)
        end
      else if Ascii.eqb c "+" then
        match s' with EmptyString => None | _ => atoi_digits MaxInt64 s' 0 end
      else atoi_digits MaxInt64 s 0
  end.

(** ** strings.Split *)

Fixpoint split_slash (s : string) : list string :=
  match s with
  | EmptyString => [EmptyString]
  | String c s' =>
      if Ascii.eqb c "/" then EmptyString :: split_slash s'
      else match split_slash s' with
           | [] => [String c EmptyString]
           | w :: ws => String c w :: ws
           end
  end.

(** ** Outside code *)

(** encoding/json on request bodies: the target after [Unmarshal], and the
    error. *)
Class BodyJson := {
  body_jobs : string -> list Job * option string;
  body_job : string -> Job -> Job * option string;
  body_project : string -> Project -> Project * option string;
  body_credential : string -> Credential -> Credential * option string }.

(** A path whose segments are names. *)
Definition clean_path (path : string) : bool :=
  match split_slash path with
  | first :: segments =>
      String.eqb first "" && negb (Nat.eqb (length segments) 0) &&
      forallb (fun s => negb (String.eqb s "" || String.eqb s "." || String.eqb s "..")) segments
  | [] => false
  end.

(** gorilla/mux: the variables of a path that matches a pattern.  A pattern
    without braces matches itself; [{id}] matches one segment.  A path that
    is not clean is cleaned first, which takes doubled slashes away; the
    client is sent to the clean path, with its query. *)
Class Mux := {
  mux_match : string -> string -> option (gmap string string);
  mux_clean : string -> string;
  mux_query : gmap string (list string) -> string }.

Fixpoint has_char (a : ascii) (s : string) : bool :=
  match s with EmptyString => false | String c s' => Ascii.eqb c a || has_char a s' end.

Class MuxLaws (M : Mux) : Prop := {
  mux_plain pattern path vars :
    has_char "{" pattern = false -> mux_match pattern path = Some vars -> path = pattern /\ vars = ∅;
  mux_plain_match pattern : has_char "{" pattern = false -> mux_match pattern pattern = Some ∅;
  mux_id prefix path vars :
    has_char "{" prefix = false -> mux_match (prefix +:+ "/{id}") path = Some vars ->
    exists x, path = prefix +:+ "/" +:+ x /\ x <> "" /\ has_char "/" x = false /\ vars = {["id" := x]};
  mux_id_match prefix x :
    has_char "{" prefix = false -> x <> "" -> has_char "/" x = false ->
    mux_match (prefix +:+ "/{id}") (prefix +:+ "/" +:+ x) = Some {["id" := x]};
  mux_clean_id path : clean_path path = true -> mux_clean path = path;
  mux_clean_slash path : clean_path path = true -> mux_clean ("/" +:+ path) = path;
  mux_query_none : mux_query ∅ = "" }.

(** ** Middlewares *)

Definition APIKeyHeader : string := "x-api-key".
Definition SecretKeyHeader : string := "x-secret-key".
Definition PeerHeader : string := "x-peer".
Definition PeerHeaderValue : string := "peer".
Definition PeerHeaderCMDValue : string := "cmd".

(** What raft says of itself. *)
Record raft_view := mkRaftView { rv_LeaderAddress : string; rv_LeaderID : string; rv_Stats : gmap string string }.

(** A handler answers, with the closures it queued, or waits on a channel
    (nil for a task that failed) with a subscription. *)
Inductive answer :=
| Answered (r : response) (work : list (Nd unit))
| Waiting (taskCh : option chan) (subId : Z).
Notation Handler := (http_request -> Nd answer).

Section Server.
Context {codec : CommandCodec} {env : Env} {mo : MapOrder} {uo : UnionOrder} {jj : JobJson} {bj : BodyJson}.
Context {aead : AEAD} {hash : string -> string}.
Context (configs : Scheduler0Configurations) (secrets : scheduler0Secrets) (raft : raft_view).

Definition respond (r : response) : Nd answer := mret (Answered r []).

Definition IsServerClient (req : http_request) : bool :=
  negb (String.eqb (header APIKeyHeader req) "") && negb (String.eqb (header SecretKeyHeader req) "").

Definition IsAuthorizedServerClient (req : http_request) : Nd (result GenericError bool) :=
  on_world (CredentialService.ValidateServerAPIKey (header APIKeyHeader req) (header SecretKeyHeader req)).

Definition IsPeerClient (req : http_request) : bool :=
  String.eqb (header PeerHeader req) "cmd" || String.eqb (header PeerHeader req) "peer".

(** [hash] is sha256; the comparison of the digests is in constant time. *)
Definition IsAuthorizedPeerClient (req : http_request) : bool :=
  match hq_BasicAuth req with
  | Some (username, password) =>
      String.eqb (hash username) (hash (AuthUsername secrets)) &&
      String.eqb (hash password) (hash (AuthPassword secrets))
  | None => false
  end.

Definition unauthorized : response := SendJSON (DText "unauthorized requests") false StatusUnauthorized.

(** An index beyond the slice is a panic. *)
Definition AuthMiddleware (next : Handler) : Handler := fun r =>
  path ← lift_opt (split_slash (hq_Path r) !! 3%nat);
  if String.eqb path "api-docs" || String.eqb path "healthcheck" then next r
  else if IsServerClient r then
    v ← IsAuthorizedServerClient r;
    match v with
    | Ok true => next r
    | _ => respond unauthorized
    end
  else if IsPeerClient r then
    if IsAuthorizedPeerClient r then next r else respond unauthorized
  else respond unauthorized.

Definition is_write (method : string) : bool :=
  String.eqb method "POST" || String.eqb method "DELETE" || String.eqb method "PUT".

Definition EnsureRaftLeaderMiddleware (next : Handler) : Handler := fun r =>
  path ← lift_opt (split_slash (hq_Path r) !! 3%nat);
  n ← gets id;
  if String.eqb path "peer-handshake" then next r
  else if negb (CanAcceptRequest n)
  then respond (SendJSON (DText "peer cannot accept requests") false StatusServiceUnavailable)
  else if negb (CanAcceptClientWriteRequest n) && is_write (hq_Method r) then
    if String.eqb path "start-jobs" || String.eqb path "stop-jobs" then next r
    else
      let redirectUrl :=
        match List.find (fun p => String.eqb (rn_RaftAddress p) (rv_LeaderAddress raft)) (Replicas configs) with
        | Some leaderPeer => rn_Address leaderPeer
        | None => ""
        end in
      if String.eqb redirectUrl ""
      then respond (SendJSON (DText "service is unavailable") false StatusServiceUnavailable)
      else
        let redirectUrl := redirectUrl +:+ hq_Path r in
        let requester := header PeerHeader r in
        if String.eqb requester PeerHeaderCMDValue || String.eqb requester PeerHeaderValue
        then respond (mkResponse StatusMovedPermanently redirectUrl [])
        else respond (with_location redirectUrl (SendJSON DNil false StatusFound))
  else next r.

(** ** Job controller *)

(** Continue with a value, or answer 400 with the message. *)
Definition or_bad_request {A} (x : result string A) (k : A -> Nd answer) : Nd answer :=
  match x with
  | Ok a => k a
  | Err e => respond (SendJSON (DText e) false StatusBadRequest)
  end.

(** The error of [strconv.Atoi] *)
Definition atoi (s : string) : result string Z :=
  match Atoi s with
  | Some n => Ok n
  | None => Err ("strconv.Atoi: parsing " +:+ s)
  end.

Definition var (key : string) (r : http_request) : string := default "" (hq_Vars r !! key).

Definition send_error (e : GenericError) : Nd answer :=
  respond (SendJSON (DText (Message e)) false (Type_ e)).

Definition ListJobs : Handler := fun r =>
  or_bad_request (ValidateQueryString "projectId" r) (fun projectIDQueryParam =>
  or_bad_request (atoi projectIDQueryParam) (fun projectID =>
  or_bad_request (ValidateQueryString "limit" r) (fun limitParam =>
  or_bad_request (ValidateQueryString "offset" r) (fun offsetParam =>
  or_bad_request (atoi offsetParam) (fun offset =>
  or_bad_request (atoi limitParam) (fun limit =>
  jobs ← GetJobsByProjectID (u64 projectID) (u64 offset) (u64 limit) "date_created";
  match jobs with
  | Err e => send_error e
  | Ok p => respond (SendJSON (DJobs p) true StatusOK)
  end)))))).

Definition BatchCreateJobs : Handler := fun r =>
  match ExtractBody r with
  | Err sent => respond sent
  | Ok body =>
      match body_jobs body with
      | (_, Some err) => respond (SendJSON (DText err) false StatusUnprocessableEntity)
      | (jobs, None) =>
          x ← service_BatchInsertJobs configs (hq_RequestID r) jobs;
          match x with
          | (Err err, _) => respond (SendJSON (DText (Message err)) false StatusBadRequest)
          | (Ok createdJobs, work) =>
              mret (Answered (with_location ("/async-tasks/" +:+ hq_RequestID r)
                                (SendJSON (DIds createdJobs) true StatusAccepted)) (option_list work))
          end
      end
  end.

Definition GetOneJob : Handler := fun r =>
  or_bad_request (atoi (var "id" r)) (fun jobID =>
  j ← GetJob (set_ID (u64 jobID) job_zero);
  match j with
  | Err e => send_error e
  | Ok job => respond (SendJSON (DJob job) true StatusOK)
  end).

(** A body that was refused is parsed all the same, and fails: the client
    gets two bodies. *)
Definition UpdateOneJob : Handler := fun r =>
  let '(before, body) := match ExtractBody r with Ok b => (None, b) | Err sent => (Some sent, "") end in
  let finish resp := match before with Some sent => send_more sent resp | None => resp end in
  let '(jobBody, err) := body_job body job_zero in
  match atoi (var "id" r) with
  | Err e => respond (finish (SendJSON (DText e) false StatusBadRequest))
  | Ok jobID =>
      match err with
      | Some e => respond (finish (SendJSON (DText e) false StatusBadRequest))
      | None =>
          j ← UpdateJob (set_ID (u64 jobID) jobBody);
          match j with
          | Err e => respond (finish (SendJSON (DText (Message e)) false (Type_ e)))
          | Ok job => respond (finish (SendJSON (DJob job) true StatusOK))
          end
      end
  end.

Definition DeleteOneJob : Handler := fun r =>
  or_bad_request (atoi (var "id" r)) (fun jobID =>
  e ← DeleteJob (set_ID (u64 jobID) job_zero);
  match e with
  | Some e => send_error e
  | None => respond (SendJSON DNil true StatusNoContent)
  end).

(** ** Project controller *)

(** An [error] as data marshals to an empty object. *)
Definition no_project_id : response := SendJSON DOpaqueError false StatusBadRequest.

(** A body that cannot be read ends the process. *)
Definition CreateOneProject : Handler := fun r =>
  body ← lift_opt (match hq_Body r with Ok b => Some b | Err _ => None end);
  match body_project body (mkProject 0 "" "" time_zero) with
  | (_, Some err) => respond (SendJSON (DText err) false StatusBadRequest)
  | (project, None) =>
      p ← on_world (ProjectService.CreateOne project);
      match p with
      | Err e => respond (SendJSON (DError e) false (Type_ e))
      | Ok p => respond (SendJSON (DProject p) true StatusCreated)
      end
  end.

Definition GetOneProject : Handler := fun r =>
  match Atoi (var "id" r) with
  | None => respond no_project_id
  | Some projectId =>
      p ← on_world (ProjectService.GetOneByID (mkProject (u64 projectId) "" "" time_zero));
      match snd p with
      | Some e => send_error e
      | None => respond (SendJSON (DProject (fst p)) true StatusOK)
      end
  end.

Definition ListProjects : Handler := fun r =>
  or_bad_request (ValidateQueryString "limit" r) (fun limitParam =>
  or_bad_request (ValidateQueryString "offset" r) (fun offsetParam =>
  or_bad_request (atoi offsetParam) (fun offset =>
  or_bad_request (atoi limitParam) (fun limit =>
  p ← on_world (ProjectService.List_ (u64 offset) (u64 limit));
  match p with
  | Err e => send_error e
  | Ok p => respond (SendJSON (DProjects p) true StatusOK)
  end)))).

Definition DeleteOneProject : Handler := fun r =>
  match Atoi (var "id" r) with
  | None => respond no_project_id
  | Some projectId =>
      e ← on_world (ProjectService.DeleteOneByID (mkProject (u64 projectId) "" "" time_zero));
      match e with
      | Some e => send_error e
      | None => respond (SendJSON DNil true StatusNoContent)
      end
  end.

Definition UpdateOneProject : Handler := fun r =>
  match Atoi (var "id" r) with
  | None => respond no_project_id
  | Some projectId =>
      body ← lift_opt (match hq_Body r with Ok b => Some b | Err _ => None end);
      match body_project body (mkProject 0 "" "" time_zero) with
      | (_, Some err) => respond (SendJSON (DText err) false StatusBadRequest)
      | (project, None) =>
          p ← on_world (ProjectService.UpdateOneByID
                 (mkProject (u64 projectId) (p_Name project) (p_Description project) (p_DateCreated project)));
          match snd p with
          | Some e => send_error e
          | None => respond (SendJSON (DProject (fst p)) true StatusOK)
          end
      end
  end.

(** ** Credential controller *)

(** [err.Error()] *)
Definition error_text (e : CredentialService.service_error) : string :=
  match e with inl s => s | inr g => ErrorString g end.

(** [d] is what the key generation draws. *)
Definition CreateOneCredential (d : draws) : Handler := fun r =>
  match ExtractBody r with
  | Err sent => respond sent
  | Ok body =>
      match body_credential body (mkCredential 0 false "" "" time_zero) with
      | (_, Some err) => respond (SendJSON (DText err) false StatusUnprocessableEntity)
      | (credentialBody, None) =>
          c ← on_world (CredentialService.CreateNewCredential (hash := hash) (SecretKey secrets) d credentialBody);
          match c with
          | Err e => send_error e
          | Ok newCredentialUUID =>
              f ← on_world (CredentialService.FindOneCredentialByID newCredentialUUID);
              match f with
              | Err e => respond (SendJSON (DText (error_text e)) false StatusInternalServerError)
              | Ok credential => respond (SendJSON (DCredential credential) true StatusCreated)
              end
          end
      end
  end.

Definition GetOneCredential : Handler := fun r =>
  or_bad_request (atoi (var "id" r)) (fun credentialId =>
  c ← on_world (CredentialService.FindOneCredentialByID (u64 credentialId));
  match c with
  | Err e => respond (SendJSON (DText (error_text e)) false StatusBadRequest)
  | Ok credential => respond (SendJSON (DCredential credential) true StatusOK)
  end).

(** An error of the update is answered with status 200. *)
Definition UpdateOneCredential : Handler := fun r =>
  body ← lift_opt (match hq_Body r with Ok b => Some b | Err _ => None end);
  if Nat.ltb (String.length body) 1
  then respond (SendJSON (DText "request body required") false StatusBadRequest)
  else
    or_bad_request (atoi (var "id" r)) (fun credentialId =>
    match body_credential body (mkCredential (u64 credentialId) false "" "" time_zero) with
    | (_, Some err) => respond (SendJSON (DText err) false StatusUnprocessableEntity)
    | (credentialBody, None) =>
        c ← on_world (CredentialService.UpdateOneCredential credentialBody);
        match c with
        | Err e => respond (SendJSON (DText (error_text e)) false StatusOK)
        | Ok credential => respond (SendJSON (DCredential credential) true StatusOK)
        end
    end).

Definition DeleteOneCredential : Handler := fun r =>
  or_bad_request (atoi (var "id" r)) (fun credentialId =>
  c ← on_world (CredentialService.DeleteOneCredential (u64 credentialId));
  match c with
  | Err e => respond (SendJSON (DText (error_text e)) false StatusBadRequest)
  | Ok _ => respond (SendJSON DNil true StatusNoContent)
  end).

Definition ListCredentials : Handler := fun r =>
  or_bad_request (ValidateQueryString "limit" r) (fun limitParam =>
  or_bad_request (ValidateQueryString "offset" r) (fun offsetParam =>
  or_bad_request (atoi offsetParam) (fun offset =>
  or_bad_request (atoi limitParam) (fun limit =>
  c ← on_world (CredentialService.ListCredentials (u64 offset) (u64 limit) "date_created DESC");
  match c with
  | Err e => send_error e
  | Ok credentials => respond (SendJSON (DCredentials credentials) true StatusOK)
  end)))).

(** ** Peers, health and tasks *)

Definition Handshake : Handler := fun _ => respond (SendJSON (DIsLeader (Bootstrap configs)) true StatusOK).

Definition ExecutionLogs {json : PeerJson} : Handler := fun r =>
  GetUncommittedLogs_begin configs (hq_RequestID r);;
  mret (Answered (with_location ("/v1/async-tasks/" +:+ hq_RequestID r) (SendJSON DNil true StatusAccepted))
          [GetUncommittedLogs_work configs (hq_RequestID r)]).

Definition handle_StopJobs : Handler := fun _ =>
  node_StopJobs;; respond (SendJSON DNil true StatusAccepted).
Definition handle_StartJobs : Handler := fun _ =>
  node_StartJobs configs;; respond (SendJSON DNil true StatusAccepted).

Definition HealthCheck : Handler := fun _ =>
  respond (SendJSON (DHealth (rv_LeaderAddress raft) (rv_LeaderID raft) (rv_Stats raft)) true StatusOK).

Definition handle_GetTask : Handler := fun r =>
  let requestID := var "id" r in
  t ← on_async (GetTaskWithRequestIdNonBlocking requestID);
  match t with
  | Err e => respond (SendJSON (DText (ErrorString e)) false (Type_ e))
  | Ok task =>
      if at_State task =? AsyncTaskState_num AsyncTaskSuccess
      then respond (SendJSON (DTask task) true StatusOK)
      else
        b ← on_async (GetTaskWithRequestIdBlocking requestID);
        let '(taskCh, subId, err) := b in
        match err with
        | Some e => respond (SendJSON (DText (ErrorString e)) false (Type_ e))
        | None => mret (Waiting taskCh subId)
        end
  end.

(** The channel has a task. *)
Definition GetTask_receive (taskCh : option chan) : Nd (option response) :=
  match taskCh with
  | None => mret None
  | Some c =>
      t ← on_async (receive c);
      mret ((fun task => SendJSON (DTask task) true StatusOK) <$> t)
  end.

(** The client went away: the subscription is removed.  The channel, closed
    afterwards, has no sender left. *)
Definition GetTask_cancel (requestID : string) (subId : Z) : Nd unit :=
  taskId ← on_async (GetTaskIdWithRequestId requestID);
  on_async (DeleteSubscriber taskId subId);;
  mret tt.

(** ** Routes *)

Definition APIV1Base : string := "/api/v1".

Inductive handler :=
| HCreateOneCredential | HListCredentials | HGetOneCredential | HUpdateOneCredential | HDeleteOneCredential
| HBatchCreateJobs | HListJobs | HGetOneJob | HUpdateOneJob | HDeleteOneJob
| HCreateOneProject | HListProjects | HGetOneProject | HUpdateOneProject | HDeleteOneProject
| HHealthCheck | HHandshake | HExecutionLogs | HStartJobs | HStopJobs | HGetTask.

Definition routes : list (string * string * handler) :=
  [(APIV1Base +:+ "/credentials", "POST", HCreateOneCredential);
   (APIV1Base +:+ "/credentials", "GET", HListCredentials);
   (APIV1Base +:+ "/credentials/{id}", "GET", HGetOneCredential);
   (APIV1Base +:+ "/credentials/{id}", "PUT", HUpdateOneCredential);
   (APIV1Base +:+ "/credentials/{id}", "DELETE", HDeleteOneCredential);
   (APIV1Base +:+ "/jobs", "POST", HBatchCreateJobs);
   (APIV1Base +:+ "/jobs", "GET", HListJobs);
   (APIV1Base +:+ "/jobs/{id}", "GET", HGetOneJob);
   (APIV1Base +:+ "/jobs/{id}", "PUT", HUpdateOneJob);
   (APIV1Base +:+ "/jobs/{id}", "DELETE", HDeleteOneJob);
   (APIV1Base +:+ "/projects", "POST", HCreateOneProject);
   (APIV1Base +:+ "/projects", "GET", HListProjects);
   (APIV1Base +:+ "/projects/{id}", "GET", HGetOneProject);
   (APIV1Base +:+ "/projects/{id}", "PUT", HUpdateOneProject);
   (APIV1Base +:+ "/projects/{id}", "DELETE", HDeleteOneProject);
   (APIV1Base +:+ "/healthcheck", "GET", HHealthCheck);
   (APIV1Base +:+ "/peer-handshake", "GET", HHandshake);
   (APIV1Base +:+ "/execution-logs", "GET", HExecutionLogs);
   (APIV1Base +:+ "/start-jobs", "POST", HStartJobs);
   (APIV1Base +:+ "/stop-jobs", "POST", HStopJobs);
   (APIV1Base +:+ "/async-tasks/{id}", "GET", HGetTask)].

(** The first route whose pattern and method match. *)
Fixpoint find_route {mux : Mux} (rs : list (string * string * handler)) (method path : string)
    : option (handler * gmap string string) :=
  match rs with
  | [] => None
  | (pattern, m, h) :: rs' =>
      match mux_match pattern path with
      | Some vars => if String.eqb m method then Some (h, vars) else find_route rs' method path
      | None => find_route rs' method path
      end
  end.

(** [d] is what a new credential draws. *)
Definition run_handler {json : PeerJson} (d : draws) (h : handler) : Handler :=
  match h with
  | HCreateOneCredential => CreateOneCredential d
  | HListCredentials => ListCredentials
  | HGetOneCredential => GetOneCredential
  | HUpdateOneCredential => UpdateOneCredential
  | HDeleteOneCredential => DeleteOneCredential
  | HBatchCreateJobs => BatchCreateJobs
  | HListJobs => ListJobs
  | HGetOneJob => GetOneJob
  | HUpdateOneJob => UpdateOneJob
  | HDeleteOneJob => DeleteOneJob
  | HCreateOneProject => CreateOneProject
  | HListProjects => ListProjects
  | HGetOneProject => GetOneProject
  | HUpdateOneProject => UpdateOneProject
  | HDeleteOneProject => DeleteOneProject
  | HHealthCheck => HealthCheck
  | HHandshake => Handshake
  | HExecutionLogs => ExecutionLogs
  | HStartJobs => handle_StartJobs
  | HStopJobs => handle_StopJobs
  | HGetTask => handle_GetTask
  end.

(** [id] is a new ksuid. *)
Definition ContextMiddleware (id : string) (next : Handler) : Handler := fun r =>
  next (mkHttpRequest (hq_Method r) (hq_Path r) (hq_Header r) (hq_BasicAuth r) (hq_Query r) (hq_Body r)
          (hq_Vars r) id).

Definition with_vars (vars : gmap string string) (r : http_request) : http_request :=
  mkHttpRequest (hq_Method r) (hq_Path r) (hq_Header r) (hq_BasicAuth r) (hq_Query r) (hq_Body r)
    vars (hq_RequestID r).

Definition StatusMethodNotAllowed : Z := 405.

(** The router: the client of a path that is not clean is sent to the clean
    one; middlewares run for a route that matches; a path that matches with
    another method is answered 405, another path 404. *)
Definition ServeHTTP {json : PeerJson} {mux : Mux} (id : string) (d : draws) : Handler := fun r =>
  if negb (String.eqb (mux_clean (hq_Path r)) (hq_Path r))
  then respond (mkResponse StatusMovedPermanently (mux_clean (hq_Path r) +:+ mux_query (hq_Query r)) [])
  else
  match find_route routes (hq_Method r) (hq_Path r) with
  | Some (h, vars) =>
      ContextMiddleware id (AuthMiddleware (EnsureRaftLeaderMiddleware (run_handler d h))) (with_vars vars r)
  | None =>
      if existsb (fun '(pattern, _, _) => match mux_match pattern (hq_Path r) with Some _ => true | None => false end)
           routes
      then respond (mkResponse StatusMethodNotAllowed "" [])
      else respond (mkResponse StatusNotFound "" [])
  end.

End Server.
