(* ===== verification/HttpFacts.v ===== *)
(** * What reaches the controllers

    The middlewares against their specification: who is let in, and which
    writes a node takes. *)

From stdpp Require Import base list gmap strings pretty.
From Stdlib Require Import ZArith Ascii Lia.
From S2P Require Import Prelude Models JobTime Batcher Sql Fsm Replication Inserts Reads JobQueueRepo.
From S2P Require Import Queue JobRepo AccountRepos ExecutionsRepo AsyncRepo Executor ExecutorImpl Processor.
From S2P Require Import AsyncService AsyncImpl Config Node NodeFacts FanIn JobService Encrypt Accounts.
From S2P Require Import AccountsFacts Http.

#[local] Open Scope Z_scope.

Section Facts.
Context {codec : CommandCodec} {env : Env} {mo : MapOrder} {uo : UnionOrder} {jj : JobJson} {bj : BodyJson}.
Context {aead : AEAD} {hash : string -> string} {json : PeerJson} {mux : Mux}.
Context (configs : Scheduler0Configurations) (secrets : scheduler0Secrets) (raft : raft_view).

(** ** Who is let in *)

(** The specification: a public page; a key with the secret stored for it;
    or, without a key, a peer with the password of the cluster. *)
Definition authorized (cs : list Credential) (path : string) (r : http_request) : bool :=
  String.eqb path "api-docs" || String.eqb path "healthcheck" ||
  (if IsServerClient r then
     match last (List.filter (has_key (header APIKeyHeader r)) cs) with
     | Some c => String.eqb (header SecretKeyHeader r) (cr_ApiSecret c)
     | None => false
     end
   else IsPeerClient r && IsAuthorizedPeerClient (hash := hash) secrets r).

Lemma AuthMiddleware_spec (next : http_request -> Nd answer) r cs n path :
  healthy (n_world n) -> creds_abs (w_db (n_world n)) cs -> split_slash (hq_Path r) !! 3%nat = Some path ->
  AuthMiddleware (hash := hash) secrets next r n =
  (if authorized cs path r then next r else respond unauthorized) n.
Proof.
  intros Hw Ha Hp. unfold AuthMiddleware, authorized. erewrite go_bind_lift by exact Hp.
  destruct (String.eqb path "api-docs" || String.eqb path "healthcheck"); [done|]. cbn [orb].
  destruct (IsServerClient r).
  - unfold IsAuthorizedServerClient.
    erewrite go_bind_Some by (apply on_world_run; by apply ValidateServerAPIKey_abs).
    assert (with_parts (n_world n) (n_queue n) (n_executor n) (n_async n) n = n) as -> by (by destruct n).
    destruct (last _) as [c|]; [|done]. by destruct (String.eqb _ _).
  - destruct (IsPeerClient r); [|done]. by destruct (IsAuthorizedPeerClient secrets r).
Qed.


(** ** Which writes a node takes *)

(** The last part of the route a handler is at. *)
Definition client_write (h : handler) : bool :=
  match h with
  | HCreateOneCredential | HUpdateOneCredential | HDeleteOneCredential
  | HBatchCreateJobs | HUpdateOneJob | HDeleteOneJob
  | HCreateOneProject | HUpdateOneProject | HDeleteOneProject => true
  | _ => false
  end.

(** The middleware stops a write that is not for peers. *)
Lemma leader_middleware_stops (next : http_request -> Nd answer) r n a n' path :
  split_slash (hq_Path r) !! 3%nat = Some path -> is_write (hq_Method r) = true ->
  acceptClientWrites n = false -> path <> "peer-handshake" -> path <> "start-jobs" -> path <> "stop-jobs" ->
  EnsureRaftLeaderMiddleware configs raft next r n = Some (a, n') ->
  n' = n /\ exists resp, a = Answered resp [] /\
    (rs_Status resp = StatusServiceUnavailable \/
     (rs_Status resp = StatusMovedPermanently \/ rs_Status resp = StatusFound) /\
     exists p, p ∈ Replicas configs /\ rn_RaftAddress p = rv_LeaderAddress raft /\
       rs_Location resp = rn_Address p +:+ hq_Path r).
Proof.
  intros Hp Hw Ha H1 H2 H3. unfold EnsureRaftLeaderMiddleware. erewrite go_bind_lift by exact Hp.
  rewrite go_bind_gets, Hw. unfold CanAcceptClientWriteRequest. cbn [id]. rewrite Ha. cbn [negb andb].
  rewrite (proj2 (String.eqb_neq _ _) H1), (proj2 (String.eqb_neq _ _) H2), (proj2 (String.eqb_neq _ _) H3).
  cbn [orb]. destruct (CanAcceptRequest n); cbn [negb].
  2: { intros [= <- <-]. split; [done|]. eexists. split; [done|]. by left. }
  destruct (List.find _ _) as [p|] eqn:Ef.
  2: { intros [= <- <-]. split; [done|]. eexists. split; [done|]. by left. }
  apply find_some in Ef as [Hin%list_elem_of_In E%String.eqb_eq].
  destruct (String.eqb (rn_Address p) "").
  { intros [= <- <-]. split; [done|]. eexists. split; [done|]. by left. }
  case_match; intros [= <- <-]; (split; [done|]); eexists; (split; [done|]); right;
    (split; [by (left + right)|]); by exists p.
Qed.

(** A route that matches, with its method and the part the middlewares look at. *)
Lemma find_route_elem rs method path h vars :
  find_route rs method path = Some (h, vars) ->
  exists pattern, (pattern, method, h) ∈ rs /\ mux_match pattern path = Some vars.
Proof.
  induction rs as [|[[pattern m] h'] rs IH]; cbn; [done|]. destruct (mux_match pattern path) as [v|] eqn:E.
  - destruct (String.eqb_spec m method) as [->|].
    + intros [= -> ->]. exists pattern. split; [by left|done].
    + intros (p & ? & ?)%IH. exists p. split; [by right|done].
  - intros (p & ? & ?)%IH. exists p. split; [by right|done].
Qed.

Context {laws : MuxLaws mux}.

(** A pattern for one resource, or for all of them. *)
Lemma mux_resource prefix path vars :
  has_char "{" prefix = false ->
  mux_match prefix path = Some vars \/ mux_match (prefix +:+ "/{id}") path = Some vars ->
  path = prefix \/ exists x, path = prefix +:+ "/" +:+ x.
Proof.
  intros Hb [H|H].
  - apply mux_plain in H as [-> _]; [by left|done].
  - apply mux_id in H as (x & -> & _); [|done]. right. by exists x.
Qed.

(** The routes for client writes are those of three resources. *)
Lemma write_routes pattern method h :
  (pattern, method, h) ∈ routes -> client_write h = true ->
  is_write method = true /\
  exists part, part ∈ ["credentials"; "jobs"; "projects"] /\
    (pattern = "/api/v1/" +:+ part \/ pattern = ("/api/v1/" +:+ part) +:+ "/{id}").
Proof.
  intros Hin Hw. unfold routes, APIV1Base in Hin.
  repeat (apply elem_of_cons in Hin as [Hin|Hin];
    [injection Hin as -> -> ->; first [discriminate Hw | split; [reflexivity|]]|]);
    [..|by apply elem_of_nil in Hin].
  1-3: exists "credentials". 4-6: exists "jobs". 7-9: exists "projects".
  all: split; [rewrite !elem_of_cons; tauto|]; first [by left|by right].
Qed.

(** The part of the path the middlewares look at. *)
Lemma write_route_path method path h vars :
  find_route routes method path = Some (h, vars) -> client_write h = true ->
  is_write method = true /\
  exists part, split_slash path !! 3%nat = Some part /\ part ∈ ["credentials"; "jobs"; "projects"].
Proof.
  intros (pattern & Hin & Hm)%find_route_elem Hw. destruct (write_routes _ _ _ Hin Hw) as (? & part & Hp & Hpat).
  split; [done|]. exists part. split; [|done].
  assert (Hshape : path = "/api/v1/" +:+ part \/ exists x, path = ("/api/v1/" +:+ part) +:+ "/" +:+ x).
  { apply (mux_resource _ _ vars); [|destruct Hpat as [-> | ->]; auto].
    rewrite !elem_of_cons, elem_of_nil in Hp. by destruct Hp as [-> |[-> |[-> |[]]]]. }
  rewrite !elem_of_cons, elem_of_nil in Hp.
  destruct Hp as [-> |[-> |[-> |[]]]]; destruct Hshape as [-> |[x ->]]; reflexivity.
Qed.

(** A write of a client (creating, updating or deleting a job, a
    project or a credential) that comes to a node that does not accept
    writes does not reach a controller: the node is left as it was, no work
    is queued, and the client is refused, sent to the leader, or told that
    the service is unavailable. *)
Lemma write_stopped id d r n a n' h vars cs :
  healthy (n_world n) -> creds_abs (w_db (n_world n)) cs -> acceptClientWrites n = false ->
  find_route routes (hq_Method r) (hq_Path r) = Some (h, vars) -> client_write h = true ->
  ServeHTTP (hash := hash) configs secrets raft id d r n = Some (a, n') ->
  n' = n /\ exists resp, a = Answered resp [] /\
    rs_Status resp ∈ [StatusUnauthorized; StatusServiceUnavailable; StatusMovedPermanently; StatusFound].
Proof.
  intros Hw Ha Hno Hr Hcw. unfold ServeHTTP. destruct (String.eqb (mux_clean (hq_Path r)) (hq_Path r)).
  2:{ intros [= <- <-]. split; [done|]. eexists. split; [done|]. right. right. left. }
  cbn [negb]. rewrite Hr. unfold ContextMiddleware.
  destruct (write_route_path _ _ _ _ Hr Hcw) as (His & part & Hpart & Hin).
  set (r' := mkHttpRequest _ _ _ _ _ _ _ _). rewrite (AuthMiddleware_spec _ r' cs n part) by done.
  assert (part <> "peer-handshake" /\ part <> "start-jobs" /\ part <> "stop-jobs") as (H1 & H2 & H3).
  { rewrite !elem_of_cons, elem_of_nil in Hin. by destruct Hin as [-> |[-> |[-> |[]]]]. }
  destruct (authorized cs part r').
  - intros H0. destruct (leader_middleware_stops _ r' n a n' part Hpart His Hno H1 H2 H3 H0)
      as (-> & resp & -> & Hst). split; [done|]. exists resp. split; [done|]. rewrite !elem_of_cons. tauto.
  - intros [= <- <-]. split; [done|]. eexists. split; [done|]. by left.
Qed.


(** ** The location of a peer's answer *)

(** Every route is under the base path. *)
Lemma route_base pattern m h path vars :
  (pattern, m, h) ∈ routes -> mux_match pattern path = Some vars -> exists x, path = APIV1Base +:+ x.
Proof.
  intros Hin Hm.
  assert (exists part, has_char "{" part = false /\
            (pattern = APIV1Base +:+ part \/ pattern = (APIV1Base +:+ part) +:+ "/{id}")) as (part & Hb & Hpat).
  { unfold routes in Hin. repeat (apply elem_of_cons in Hin as [Hin|Hin]; [injection Hin as -> -> ->|]);
      [..|by apply elem_of_nil in Hin].
    1-2: exists "/credentials". 3-5: exists "/credentials". 6-7: exists "/jobs". 8-10: exists "/jobs".
    11-12: exists "/projects". 13-15: exists "/projects". 16: exists "/healthcheck".
    17: exists "/peer-handshake". 18: exists "/execution-logs". 19: exists "/start-jobs".
    20: exists "/stop-jobs". 21: exists "/async-tasks".
    all: split; [reflexivity|first [by left|by right]]. }
  destruct (mux_resource (APIV1Base +:+ part) path vars) as [-> |[x ->]].
  - done.
  - destruct Hpat as [-> | ->]; auto.
  - by exists part.
  - exists (part +:+ "/" +:+ x). reflexivity.
Qed.

Lemma unrouted path method :
  (forall x, path <> APIV1Base +:+ x) ->
  find_route routes method path = None /\
  existsb (fun '(pattern, _, _) => match mux_match pattern path with Some _ => true | None => false end) routes
    = false.
Proof.
  intros Hno. split.
  - destruct (find_route routes method path) as [[h vars]|] eqn:E; [|done].
    apply find_route_elem in E as (pattern & Hin & Hm). destruct (route_base _ _ _ _ _ Hin Hm) as [x Hx].
    by destruct (Hno x).
  - apply not_true_iff_false. intros ([[pattern m] h] & Hin%list_elem_of_In & Hm)%existsb_exists.
    destruct (mux_match pattern path) as [vars|] eqn:E; [|done].
    destruct (route_base _ _ _ _ _ Hin E) as [x Hx]. by destruct (Hno x).
Qed.

Lemma split_slash_name x : has_char "/" x = false -> split_slash x = [x].
Proof.
  induction x as [|c x IH]; [done|]. cbn [has_char split_slash].
  intros [Hc Hx]%orb_false_iff. by rewrite Hc, IH.
Qed.

(** A path that ends in a name. *)
Lemma clean_task_path x :
  x <> "" -> x <> "." -> x <> ".." -> has_char "/" x = false -> clean_path ("/v1/async-tasks/" +:+ x) = true.
Proof.
  intros H1 H2 H3 Hx. unfold clean_path. cbn [split_slash String.app].
  change (split_slash ("/v1/async-tasks/" +:+ x)) with ("" :: "v1" :: "async-tasks" :: split_slash x).
  rewrite split_slash_name by done. cbn [forallb length Nat.eqb].
  apply String.eqb_neq in H1, H2, H3. by rewrite H1, H2, H3.
Qed.

(** C33: The location a peer answers the request for its data with is not a
    path the peer's server routes, whatever name the request id is: a request
    for it is answered 404, and a leader that gets this answer in the second phase
    drops the fan-in, which starts again. *)
Theorem fan_in_location_unrouted r resp work n n1 id d (p : PeerFanIn) reply rest leader :
  ExecutionLogs configs r n = Some (Answered resp work, n1) ->
  hq_RequestID r <> "" -> hq_RequestID r <> "." -> hq_RequestID r <> ".." ->
  has_char "/" (hq_RequestID r) = false ->
  (forall r' n2, hq_Path r' = rs_Location resp ->
     ServeHTTP (hash := hash) configs secrets raft id d r' n2 =
       Some (Answered (mkResponse StatusNotFound "" []) [], n2)) /\
  (replies leader = Reply reply :: rest -> hr_StatusCode reply = StatusNotFound ->
   exists leader', phase2_one p leader = Some (tt, leader') /\
     fanIns leader' = delete (pf_PeerHTTPAddress p) (fanIns leader)).
Proof.
  intros He Hid1 Hid2 Hid3 Hid4. split.
  - intros r' n2 Hp. assert (rs_Location resp = "/v1/async-tasks/" +:+ hq_RequestID r) as Hl.
    { unfold ExecutionLogs in He. apply go_bind_inv in He as (? & ? & _ & [= <- _ _]). done. }
    assert (forall x, hq_Path r' <> APIV1Base +:+ x) as Hno.
    { intros x Hx. rewrite Hp, Hl in Hx. injection Hx as Hx. discriminate. }
    destruct (unrouted (hq_Path r') (hq_Method r') Hno) as [Hf Hx]. unfold ServeHTTP.
    rewrite mux_clean_id by (rewrite Hp, Hl; by apply clean_task_path).
    rewrite String.eqb_refl. cbn [negb]. by rewrite Hf, Hx.
  - intros Hr Hs. eexists. split.
    + unfold phase2_one. rewrite (go_bind_Some _ _ _ _ _ (http_Do_reply _ _ _ _ _ Hr)), Hs. reflexivity.
    + reflexivity.
Qed.

End Facts.
