(* ===== verification/HttpRuns.v ===== *)
(** * Concrete requests

    A matcher for the routes, and requests to a leader and to a follower. *)

From stdpp Require Import countable base list gmap strings pretty.
From Stdlib Require Import ZArith Ascii Lia.
From S2P Require Import Prelude Models JobTime Batcher Sql Fsm Replication Inserts Reads JobQueueRepo.
From S2P Require Import Queue JobRepo AccountRepos ExecutionsRepo ExecutionsFacts AsyncRepo Executor ExecutorImpl.
From S2P Require Import Processor AsyncService AsyncImpl Config ConfigFacts Node NodeFacts FanIn FanInFacts FanInRuns.
From S2P Require Import JobService Encrypt Accounts AccountsFacts Http HttpFacts.

#[local] Open Scope Z_scope.

(** ** A matcher *)

(** A pattern that ends in [/{id}]. *)
Fixpoint match_id (pattern path : string) : option (gmap string string) :=
  if String.eqb pattern "/{id}" then
    match path with
    | String c x =>
        if Ascii.eqb c "/" && negb (String.eqb x "") && negb (has_char "/" x)
        then Some {["id" := x]} else None
    | EmptyString => None
    end
  else
    match pattern, path with
    | String c pattern', String c' path' => if Ascii.eqb c c' then match_id pattern' path' else None
    | _, _ => None
    end.

#[local] Instance simple_mux : Mux := {|
  mux_match pattern path :=
    if has_char "{" pattern then match_id pattern path
    else if String.eqb path pattern then Some ∅ else None;
  mux_clean path :=
    match path with
    | String c (String c' _ as rest) => if Ascii.eqb c "/" && Ascii.eqb c' "/" then rest else path
    | _ => path
    end;
  mux_query q := if bool_decide (q = ∅) then "" else "?" |}.

Lemma clean_starts path :
  clean_path path = true -> exists c rest, path = String "/" (String c rest) /\ c <> "/"%char.
Proof.
  unfold clean_path. destruct path as [|c path]; [done|]. cbn [split_slash].
  destruct (Ascii.eqb_spec c "/") as [->|Hc].
  - destruct path as [|c' rest]; [done|]. intros H. exists c', rest. split; [done|]. intros ->.
    cbn [split_slash] in H. by rewrite Ascii.eqb_refl in H.
  - by destruct (split_slash path).
Qed.

Lemma has_char_app a s t : has_char a (s +:+ t) = has_char a s || has_char a t.
Proof.
  induction s as [|c s IH]; [done|]. change (String c s +:+ t) with (String c (s +:+ t)). cbn [has_char].
  rewrite IH. by destruct (Ascii.eqb c a).
Qed.

Lemma match_id_cons c prefix path :
  match_id (String c prefix +:+ "/{id}") path =
  match path with
  | String c' path' => if Ascii.eqb c c' then match_id (prefix +:+ "/{id}") path' else None
  | EmptyString => None
  end.
Proof.
  change (String c prefix +:+ "/{id}") with (String c (prefix +:+ "/{id}")). cbn [match_id].
  destruct (String.eqb_spec (String c (prefix +:+ "/{id}")) "/{id}") as [E|_]; [|done].
  apply (f_equal String.length) in E. cbn in E. rewrite string_length_app in E. cbn in E. lia.
Qed.

Lemma match_id_nil path :
  match_id "/{id}" path =
  match path with
  | String c x =>
      if Ascii.eqb c "/" && negb (String.eqb x "") && negb (has_char "/" x)
      then Some {["id" := x]} else None
  | EmptyString => None
  end.
Proof. by destruct path. Qed.

#[local] Instance simple_mux_laws : MuxLaws simple_mux.
Proof.
  split; cbn [mux_match simple_mux].
  - intros pattern path vars ->. destruct (String.eqb_spec path pattern); [|done]. by intros [= <-].
  - intros pattern ->. by rewrite String.eqb_refl.
  - intros prefix path vars Hb. rewrite has_char_app, Hb. cbn [orb]. clear Hb.
    change (has_char "{" "/{id}") with true. cbv iota. revert path.
    induction prefix as [|c prefix IH]; intros path H.
    + change ("" +:+ "/{id}") with "/{id}" in H. rewrite match_id_nil in H. destruct path as [|c x]; [done|].
      destruct (Ascii.eqb_spec c "/") as [->|]; [|done]. destruct (String.eqb_spec x ""); [done|].
      destruct (has_char "/" x) eqn:E; [done|]. injection H as <-. by exists x.
    + rewrite match_id_cons in H. destruct path as [|c' path]; [done|].
      destruct (Ascii.eqb_spec c c') as [->|]; [|done]. apply IH in H as (x & -> & ?). by exists x.
  - intros prefix x Hb Hx Hs. rewrite has_char_app, Hb. change (has_char "{" "/{id}") with true. cbn [orb]. clear Hb.
    induction prefix as [|c prefix IH].
    + change ("" +:+ "/{id}") with "/{id}". rewrite match_id_nil.
      change ("" +:+ "/" +:+ x) with (String "/" x). cbv iota. rewrite Hs, (proj2 (String.eqb_neq _ _) Hx). done.
    + rewrite match_id_cons. change (String c prefix +:+ "/" +:+ x) with (String c (prefix +:+ "/" +:+ x)).
      cbv iota. by rewrite Ascii.eqb_refl.
  - intros path (c & rest & -> & Hc)%clean_starts. cbn. by destruct (Ascii.eqb_spec c "/").
  - intros path (c & rest & -> & Hc)%clean_starts. done.
  - done.
Qed.

(** ** Requests *)

#[local] Existing Instance plain_codec.
#[local] Existing Instance sample_env.
#[local] Existing Instance tagged_aead.
#[local] Existing Instance first_union.
#[local] Existing Instance bits_json.

#[local] Instance plain_job_json : JobJson := {| encode_jobs _ := Ok ""; encode_error _ := Ok "" |}.
#[local] Instance plain_body_json : BodyJson := {|
  body_jobs _ := ([], None);
  body_job _ j := (j, None);
  body_project name p := (mkProject (p_ID p) name "a project" (p_DateCreated p), None);
  body_credential _ c := (c, None) |}.

Definition sample_secrets : scheduler0Secrets := mkSecrets sample_key "user" "password".
Definition sample_raft : raft_view := mkRaftView "ra" "1" ∅.

(** [POST /projects] by the command line client. *)
Definition create_project : http_request :=
  mkHttpRequest "POST" "/api/v1/projects" {[PeerHeader := PeerHeaderCMDValue]} (Some ("user", "password"))
    ∅ (Ok "name") ∅ "".

Definition next : http_request -> Nd answer := HealthCheck sample_raft.


(** A project is created, once the peer's data is in. *)
Definition started : nodeService := with_requests_accepted true elected.
Definition run_started : run :=
  default (mkRun started [] []) (exec_actions two_nodes whole_run (mkRun started [] [])).
Definition created : answer * nodeService :=
  default (Answered unauthorized [], started)
    (ServeHTTP (hash := id) two_nodes sample_secrets sample_raft "id" sample_draws create_project (r_node run_started)).


(** [GET /execution-logs] to a follower. *)
Definition ask_peer : http_request :=
  mkHttpRequest "GET" "/api/v1/execution-logs" {[PeerHeader := PeerHeaderValue]} (Some ("user", "password"))
    ∅ (Ok "") ∅ "r".
Definition not_found : http_response := mkHttpResponse StatusNotFound "" (Ok "") None.
Definition accepted_peer : nodeService :=
  match GetUncommittedLogs_begin node_b "r" asked_peer with Some (_, n) => n | None => asked_peer end.

Definition leader : nodeService := with_http [Reply not_found] [] elected.

Lemma fan_in_location_unrouted_witness :
  (forall r' n2, hq_Path r' = "/v1/async-tasks/r" ->
     ServeHTTP (hash := id) node_b sample_secrets sample_raft "id" sample_draws r' n2 =
       Some (Answered (mkResponse StatusNotFound "" []) [], n2)) /\
  exists leader', phase2_one peer_b leader = Some (tt, leader') /\
     fanIns leader' = delete "http://b:1" (fanIns leader).
Proof.
  destruct (fan_in_location_unrouted (hash := id) node_b sample_secrets sample_raft ask_peer
    (with_location "/v1/async-tasks/r" (SendJSON DNil true StatusAccepted))
    [GetUncommittedLogs_work node_b "r"] asked_peer accepted_peer "id" sample_draws peer_b not_found [] leader)
    as [H1 H2].
  - unfold ExecutionLogs. erewrite (go_bind_Some _ _ _ tt accepted_peer); [reflexivity|].
    vm_compute. reflexivity.
  - discriminate.
  - discriminate.
  - discriminate.
  - reflexivity.
  - split; [exact H1|]. apply H2; reflexivity.
Defined.
