(* ===== verification/Startup.v ===== *)
(** * Starting a node

    [Start] of pkg/service/node/node.go, the raft configuration of
    [InitRaft] in pkg/fsm/fsm_store.go, the clock of pkg/scheduler0time and
    the memory checker of pkg/utils that pkg/service/service.go sets up. *)

From stdpp Require Import base list gmap strings pretty.
From Stdlib Require Import ZArith Lia.
From S2P Require Import Prelude Models JobTime Batcher Sql Fsm Replication Inserts Reads JobQueueRepo.
From S2P Require Import Queue JobRepo ExecutionsRepo AsyncRepo Snapshot Recovery RecoveryFacts Executor ExecutorImpl Processor.
From S2P Require Import AsyncService AsyncImpl Config Node NodeFacts FanIn FanInRuns.

#[local] Open Scope Z_scope.

(** ** The clock *)

Record SchedulerTime := mkSchedulerTime { loc : option string }.

Definition GetSchedulerTime : SchedulerTime := mkSchedulerTime None.
Definition SetTimezone {env : Env} (tz : string) (s : SchedulerTime) : result string SchedulerTime :=
  match load_location tz with
  | Err e => Err e
  | Ok location => Ok (mkSchedulerTime (Some location))
  end.
Definition GetTime (s : SchedulerTime) (t : Time) : Time :=
  match loc s with None => t | Some l => In_loc l t end.

(** ** The memory checker *)

(** [maxMem] in bytes. *)
Definition NewMemoryLimitChecker (maxMemMB : Z) : Z := u64 (u64 (maxMemMB * 1024) * 1024).
(** Whether a signal is sent, for the memory [sys] obtained from the system. *)
Definition CheckMemoryUsage (maxMem sys : Z) : bool := u64 (maxMem * 7) / 10 <=? sys.

(** The goroutine of the checker: a tick with the memory in use, or the
    closing of the stop channel.  The answer is how many ticks it takes until
    it signals, if it does: [NewService] panics at the first signal. *)
Inductive mem_event := MemTick (sys : Z) | MemStop.

Fixpoint StartMemoryUsageChecker (maxMem : Z) (events : list mem_event) : option nat :=
  match events with
  | [] | MemStop :: _ => None
  | MemTick sys :: events' =>
      if CheckMemoryUsage maxMem sys then Some O else S <$> StartMemoryUsageChecker maxMem events'
  end.

(** The checker signals at the first tick whose memory is in excess, unless
    it was stopped before. *)
Theorem StartMemoryUsageChecker_first maxMem events k :
  StartMemoryUsageChecker maxMem events = Some k <->
  exists (quiet : list Z) sys rest, events = (MemTick <$> quiet) ++ MemTick sys :: rest /\ length quiet = k /\
    Forall (fun s => CheckMemoryUsage maxMem s = false) quiet /\ CheckMemoryUsage maxMem sys = true.
Proof.
  split.
  - revert k. induction events as [|[sys|] events IH]; intros k H; [done| |done].
    cbn in H. destruct (CheckMemoryUsage maxMem sys) eqn:E.
    + injection H as <-. by exists [], sys, events.
    + apply fmap_Some in H as (k' & H & ->). destruct (IH _ H) as (quiet & sys' & rest & -> & <- & Hq & Hs).
      exists (sys :: quiet), sys', rest. repeat split; [by constructor|done].
  - intros (quiet & sys & rest & -> & <- & Hq & Hs). induction Hq as [|s quiet Hf Hq IH]; cbn.
    + by rewrite Hs.
    + by rewrite Hf, IH.
Qed.

(** The signal comes from seven tenths of the limit on, where the product
    does not wrap; a limit that is not configured signals at once. *)
Lemma CheckMemoryUsage_spec maxMemMB sys :
  0 <= maxMemMB < 2199023255552 -> 0 <= sys ->
  CheckMemoryUsage (NewMemoryLimitChecker maxMemMB) sys = true <-> 7 * (maxMemMB * 1048576) < 10 * (sys + 1).
Proof.
  intros Hm Hs. unfold CheckMemoryUsage, NewMemoryLimitChecker.
  rewrite (u64_small (maxMemMB * 1024)) by go_lia. rewrite (u64_small (maxMemMB * 1024 * 1024)) by go_lia.
  rewrite u64_small by go_lia. rewrite Z.leb_le.
  pose proof (Z.div_mod (maxMemMB * 1024 * 1024 * 7) 10). pose proof (Z.mod_pos_bound (maxMemMB * 1024 * 1024 * 7) 10).
  lia.
Qed.

(** ** Raft's configuration *)

(** The fields [InitRaft] sets; durations in nanoseconds. *)
Record raft_config := mkRaftConfig {
  LocalID : string;
  HeartbeatTimeout : Z;
  ElectionTimeout : Z;
  CommitTimeout : Z;
  MaxAppendEntries : Z;
  SnapshotInterval : Z;
  SnapshotThreshold : Z }.

Definition Millisecond : Z := 1000000.

(** [default] is [raft.DefaultConfig()]. *)
Definition InitRaft (configs : Scheduler0Configurations) (default : raft_config) : raft_config :=
  let set (field old new : Z) := if field =? 0 then old else new in
  let duration unit field := i64 (unit * i64 field) in
  mkRaftConfig (FormatUint (NodeId configs))
    (set (RaftHeartbeatTimeout configs) (HeartbeatTimeout default)
       (duration Millisecond (RaftHeartbeatTimeout configs)))
    (set (RaftElectionTimeout configs) (ElectionTimeout default)
       (duration Millisecond (RaftElectionTimeout configs)))
    (set (RaftCommitTimeout configs) (CommitTimeout default)
       (duration Millisecond (RaftCommitTimeout configs)))
    (set (RaftMaxAppendEntries configs) (MaxAppendEntries default) (i64 (RaftMaxAppendEntries configs)))
    (set (RaftSnapshotInterval configs) (SnapshotInterval default)
       (duration Second (RaftSnapshotInterval configs)))
    (set (RaftSnapshotThreshold configs) (SnapshotThreshold default) (RaftSnapshotThreshold configs)).

(** The servers [RecoverRaftState] names in the snapshot it writes: the node
    and the replicas with another address, by id and raft address. *)
Definition getRaftConfiguration (configs : Scheduler0Configurations) : list (string * string) :=
  (FormatUint (NodeId configs), RaftAddress configs) ::
  ((fun replica => (FormatUint (rn_NodeId replica), rn_RaftAddress replica)) <$> other_replicas configs).

(** When the node is listed among the replicas, once and under its own id,
    these are the replicas. *)
Theorem getRaftConfiguration_replicas configs before self after :
  Replicas configs = before ++ self :: after ->
  rn_Address self = GetServerHTTPAddress configs -> rn_NodeId self = NodeId configs ->
  rn_RaftAddress self = RaftAddress configs ->
  Forall (fun r => rn_Address r <> GetServerHTTPAddress configs) (before ++ after) ->
  getRaftConfiguration configs ≡ₚ
  ((fun r => (FormatUint (rn_NodeId r), rn_RaftAddress r)) <$> Replicas configs).
Proof.
  intros Hr Ha Hi Hra [Hb Hf]%Forall_app.
  assert (Hkeep : forall l, Forall (fun r => rn_Address r <> GetServerHTTPAddress configs) l ->
    List.filter (fun r => negb (String.eqb (rn_Address r) (GetServerHTTPAddress configs))) l = l).
  { induction 1 as [|r l Hne _ IH]; [done|]. cbn. by rewrite (proj2 (String.eqb_neq _ _) Hne), IH. }
  unfold getRaftConfiguration, other_replicas. rewrite Hr, List.filter_app, (Hkeep _ Hb). cbn.
  rewrite Ha, String.eqb_refl, (Hkeep _ Hf). cbn. rewrite !fmap_app. cbn. rewrite <- Hi, <- Hra.
  apply Permutation_middle.
Qed.

(** ** Start *)

Section Start.
Context {codec : CommandCodec} {gz : Gzip} {file : DbFile} {json : PeerJson} (cap : nat -> nat).
Context (configs : Scheduler0Configurations).

(** The node, its disk, the configuration raft was bootstrapped with, and
    whether the listener goroutine runs. *)
Record startup := mkStartup {
  su_node : nodeService;
  su_disk : RaftDisk;
  su_bootstrapped : option (list (Z * string));
  su_listening : bool }.

Definition on_disk {A} (m : Go RaftDisk A) : Go startup A := fun s =>
  '(a, d) ← m (su_disk s); Some (a, mkStartup (su_node s) d (su_bootstrapped s) (su_listening s)).
Definition on_node {A} (m : Nd A) : Go startup A := fun s =>
  '(a, n) ← m (su_node s); Some (a, mkStartup n (su_disk s) (su_bootstrapped s) (su_listening s)).

Lemma on_node_run {A} (m : Nd A) s a n :
  m (su_node s) = Some (a, n) ->
  on_node m s = Some (a, mkStartup n (su_disk s) (su_bootstrapped s) (su_listening s)).
Proof. intros H. unfold on_node. by rewrite H. Qed.

Definition Start : Go startup unit :=
  n ← gets su_node;
  (if isExistingNode n then on_disk (RecoverRaftState cap) else mret tt);;
  (if Bootstrap configs && negb (isExistingNode n) then
     cfg ← on_node (authRaftConfiguration configs);
     modify (fun s => mkStartup (su_node s) (su_disk s) (Some cfg) (su_listening s))
   else mret tt);;
  on_node beginAcceptingClientRequest;;
  modify (fun s => mkStartup (su_node s) (su_disk s) (su_bootstrapped s) true).

(** ** Asking the peers *)

(** A request always comes back, and changes only what was sent and what is
    still to be answered. *)
Lemma http_Do_any address path n : exists r rs rq, http_Do address path n = Some (r, with_http rs rq n).
Proof.
  unfold http_Do. rewrite go_bind_gets. cbn [id]. destruct (replies n) as [|[]]; rewrite go_bind_modify;
    by do 3 eexists.
Qed.

Lemma ConnectNode_any rep n : exists r rs rq, ConnectNode rep n = Some (r, with_http rs rq n).
Proof.
  unfold ConnectNode. destruct (http_Do_any (rn_Address rep) (API +:+ "peer-handshake") n) as (r & rs & rq & H).
  rewrite (go_bind_Some _ _ _ _ _ H). repeat case_match; by do 3 eexists.
Qed.

Notation known m := (forall a, is_Some (m !! a) -> exists rep, rep ∈ other_replicas configs /\ rn_Address rep = a).

(** What the handshakes leave: requests, and statuses of other replicas. *)
Definition handshakes {A} (m : Go (nodeService * gmap string Status) A) : Prop :=
  forall n results, known results ->
  exists a rs rq results', m (n, results) = Some (a, (with_http rs rq n, results')) /\ known results'.

Lemma handshakes_mret {A} (a : A) : handshakes (mret a).
Proof. intros n results H. exists a, (replies n), (requests n), results. by destruct n. Qed.

Lemma handshakes_bind {A B} (m : Go (nodeService * gmap string Status) A) (f : A -> Go _ B) :
  handshakes m -> (forall a, handshakes (f a)) -> handshakes (m ≫= f).
Proof.
  intros Hm Hf n results H. destruct (Hm n results H) as (a & rs & rq & r1 & H1 & K1).
  destruct (Hf a (with_http rs rq n) r1 K1) as (b & rs2 & rq2 & r2 & H2 & K2).
  exists b, rs2, rq2, r2. rewrite (go_bind_Some _ _ _ _ _ H1). by split.
Qed.

Lemma handshakes_callback rep : rep ∈ other_replicas configs -> handshakes (connect_callback rep).
Proof.
  intros Hrep n results H. unfold connect_callback. destruct (ConnectNode_any rep n) as (r & rs & rq & Hc).
  rewrite (go_bind_on_fst _ _ _ _ _ _ Hc). destruct r as [st|e].
  - exists None, rs, rq, (<[rn_Address rep := st]> results). split; [done|].
    intros a [x Hx]. apply lookup_insert_Some in Hx as [[<- _]|[_ Hx]]; [by exists rep|]. apply H. by exists x.
  - by exists (Some e), rs, rq, results.
Qed.

Lemma handshakes_retry rep max :
  rep ∈ other_replicas configs -> handshakes (RetryOnError (connect_callback rep) max).
Proof.
  intros Hrep. unfold RetryOnError. apply handshakes_bind; [by apply handshakes_callback|].
  intros [e|]; [|apply handshakes_mret]. generalize (Some e). induction (Z.to_nat max) as [|k IH]; intros o.
  - apply handshakes_mret.
  - cbn [retry_loop]. apply handshakes_bind; [by apply handshakes_callback|].
    intros [e'|]; [apply IH|apply handshakes_mret].
Qed.

Lemma authenticate_any n :
  exists rs rq results, authenticateWithPeersInConfig configs n = Some (results, with_http rs rq n) /\ known results.
Proof.
  unfold authenticateWithPeersInConfig.
  assert (Hh : forall l, (forall rep, rep ∈ l -> rep ∈ other_replicas configs) ->
    handshakes (go_for (fun _ rep => RetryOnError (connect_callback rep) (PeerConnectRetryMax configs);; mret tt) l tt)).
  { induction l as [|rep l IH]; intros Hl; cbn [go_for]; [apply handshakes_mret|].
    apply handshakes_bind.
    - apply handshakes_bind; [apply handshakes_retry, Hl; by left|]. intros _. apply handshakes_mret.
    - intros []. apply IH. intros r Hr. apply Hl. by right. }
  destruct (Hh (other_replicas configs) (fun _ H => H) n ∅) as ([] & rs & rq & results & Hgo & Hk).
  { intros a [x Hx]. by rewrite lookup_empty in Hx. }
  exists rs, rq, results. by rewrite Hgo.
Qed.

(** The members of the raft configuration. *)
Definition alive_members (results : gmap string Status) : list (Z * string) :=
  omap (fun replica =>
          match results !! rn_Address replica with
          | Some st => if IsAlive st && IsAuth st then Some (rn_NodeId replica, rn_RaftAddress replica) else None
          | None => None
          end) (Replicas configs).

Lemma alive_members_replicas results :
  known results ->
  forall id address, (id, address) ∈ alive_members results ->
    exists rep, rep ∈ Replicas configs /\ rn_Address rep <> GetServerHTTPAddress configs /\
      rn_NodeId rep = id /\ rn_RaftAddress rep = address.
Proof.
  intros Hk id address (rep & Hrep & H)%list_elem_of_omap. exists rep.
  destruct (results !! rn_Address rep) as [st|] eqn:E; [|done]. destruct (IsAlive st && IsAuth st); [|done].
  injection H as -> ->. split_and!; [done| |done|done].
  destruct (Hk (rn_Address rep)) as (rep' & [_ Hne]%elem_of_filter_bool & <-); [by exists st|].
  by apply negb_true_iff, String.eqb_neq in Hne.
Qed.

(** A new node starts: it takes requests and no writes, with nothing
    fanned in; it is the bootstrapping node that configures raft, with itself
    first and then only replicas that answered its handshake. *)
Lemma Start_new_node w q e a servers answers disk :
  let s := mkStartup (NewNode w q e a false servers answers) disk None false in
  servers_ok configs servers ->
  exists s', Start s = Some (tt, s') /\ su_disk s' = disk /\ su_listening s' = true /\
    CanAcceptRequest (su_node s') = true /\ CanAcceptClientWriteRequest (su_node s') = false /\
    fresh configs (su_node s') /\ n_world (su_node s') = w /\
    match su_bootstrapped s' with
    | None => Bootstrap configs = false
    | Some cfg => Bootstrap configs = true /\
        exists members, cfg = (NodeId configs, RaftAddress configs) :: members /\
          forall id address, (id, address) ∈ members ->
            exists rep, rep ∈ Replicas configs /\ rn_Address rep <> GetServerHTTPAddress configs /\
              rn_NodeId rep = id /\ rn_RaftAddress rep = address
    end.
Proof.
  intros s Hs. unfold Start. rewrite go_bind_gets. cbn [su_node s isExistingNode NewNode negb andb].
  rewrite andb_true_r, go_bind_mret. destruct (Bootstrap configs) eqn:Eb.
  - destruct (authenticate_any (su_node s)) as (rs & rq & results & Ha & Hk).
    assert (authRaftConfiguration configs (su_node s) = Some ((NodeId configs, RaftAddress configs) ::
      alive_members results, with_http rs rq (su_node s))) as Hcfg.
    { unfold authRaftConfiguration. by rewrite (go_bind_Some _ _ _ _ _ Ha). }
    eexists. split.
    { rewrite go_bind_assoc. rewrite (go_bind_Some _ _ _ _ _ (on_node_run _ s _ _ Hcfg)).
      rewrite go_bind_modify. reflexivity. }
    cbn. split_and!; try done. eexists. split; [done|]. apply alive_members_replicas. exact Hk.
  - eexists. split; [reflexivity|]. by split_and!.
Qed.

End Start.

(** ** A run *)

#[local] Existing Instance plain_codec.
#[local] Existing Instance plain_gzip.
#[local] Existing Instance plain_file.
#[local] Existing Instance bits_json.

(** Node a of a cluster of two, whose peer answers the handshake. *)
Definition greeted : http_reply := Reply (mkHttpResponse StatusOK "" (Ok "") None).
Definition fresh_node : nodeService :=
  NewNode exec_world NewJobQueue NewJobExecutor NewAsyncTaskManager false ["ra"; "rb"] [greeted].
Definition starting : startup := mkStartup fresh_node sample_disk None false.

(** Both nodes are members. *)
Lemma starting_members :
  (su_bootstrapped ∘ snd) <$> Start (fun n => n) two_nodes starting = Some (Some [(1, "ra"); (2, "rb")]).
Proof. vm_compute. reflexivity. Qed.
