(* ===== verification/Network.v ===== *)
(** * The connections between nodes

    pkg/network: a dialer marks a connection with a header byte, and the
    multiplexer on the other side hands it to the layer that listens for that
    byte.  raft's transport is the layer 1 ([connectRaftLogsAndTransport] of
    pkg/service/service.go). *)

From stdpp Require Import base list gmap strings.
From Stdlib Require Import ZArith Lia.
From S2P Require Import Prelude.

#[local] Open Scope Z_scope.

(** Bytes are integers; a connection is what its reader has still to read,
    and the errors its calls give. *)
Record Conn := mkConn {
  c_data : list Z;
  c_SetReadDeadline : option string;         (* before the first byte *)
  c_ResetDeadline : option string }.         (* after it *)

Definition Conn_plain (data : list Z) : Conn := mkConn data None None.

(** ** Dialing *)

Record Dialer := mkDialer { header : Z }.
Definition NewDialer (h : Z) : Dialer := mkDialer h.

(** The errors of the calls, in order. *)
Record dial_faults := mkDialFaults {
  df_Dial : option string; df_SetWriteDeadline : option string; df_Write : option string }.
Definition no_dial_faults : dial_faults := mkDialFaults None None None.

(** What was written, or the error; and whether a socket is open afterwards.
    An early return sets the named result to nil, which the deferred function
    then does not close. *)
Definition Dial (d : Dialer) (f : dial_faults) : result string (list Z) * bool :=
  match df_Dial f with
  | Some e => (Err e, false)
  | None =>
      match df_SetWriteDeadline f with
      | Some e => (Err ("failed to set WriteDeadline for header: " +:+ e), true)
      | None =>
          match df_Write f with
          | Some e => (Err e, true)
          | None => (Ok [header d], true)
          end
      end
  end.

(** ** Multiplexing *)

(** [NameAddress] of name_address.go. *)
Record NameAddress := mkNameAddress { Address : string }.
Definition NameAddress_Network (n : NameAddress) : string := "tcp".
Definition NameAddress_String (n : NameAddress) : string := Address n.

(** For each header the connections that wait to be accepted, and the address
    the node is known by; [closed] holds the connections that were closed. *)
Record Mux := mkMux { m : gmap Z (list Conn); addr : NameAddress; closed : list Conn }.
Record Layer := mkLayer { layer_header : Z; layer_addr : NameAddress; dialer : Dialer }.

(** [local] is the address of the listener. *)
Definition NewMux (local : NameAddress) (adv : option NameAddress) : Mux :=
  mkMux ∅ (default local adv) [].

(** A header that is taken is a panic. *)
Definition Listen (h : Z) : Go Mux Layer := fun mux =>
  match m mux !! h with
  | Some _ => None
  | None => Some (mkLayer h (addr mux) (NewDialer h), mkMux (<[h := []]> (m mux)) (addr mux) (closed mux))
  end.

Definition close_conn (conn : Conn) (mux : Mux) : Mux := mkMux (m mux) (addr mux) (closed mux ++ [conn]).

Definition handleConn (conn : Conn) (mux : Mux) : Mux :=
  match c_SetReadDeadline conn with
  | Some _ => close_conn conn mux
  | None =>
      match c_data conn with
      | [] => close_conn conn mux
      | typ :: rest =>
          match c_ResetDeadline conn with
          | Some _ => close_conn conn mux
          | None =>
              match m mux !! typ with
              | None => close_conn conn mux
              | Some waiting => mkMux (<[typ := waiting ++ [mkConn rest None None]]> (m mux)) (addr mux) (closed mux)
              end
          end
      end
  end.

(** [Accept] of a layer: one of the waiting connections; blocked when there
    is none. *)
Definition Accept (l : Layer) : Go Mux Conn := fun mux =>
  match m mux !! layer_header l with
  | Some (conn :: waiting) => Some (conn, mkMux (<[layer_header l := waiting]> (m mux)) (addr mux) (closed mux))
  | _ => None
  end.

Definition Layer_Dial (l : Layer) (f : dial_faults) : result string (list Z) * bool := Dial (dialer l) f.

(** [Transport] of transport.go is what raft is given: a layer by another
    name. *)
Record Transport := mkTransport { ln : Layer }.
Definition NewTransport (l : Layer) : Transport := mkTransport l.
Definition Transport_Dial (t : Transport) (f : dial_faults) : result string (list Z) * bool := Layer_Dial (ln t) f.
Definition Transport_Accept (t : Transport) : Go Mux Conn := Accept (ln t).
(** [Close] of a layer does nothing. *)
Definition Transport_Close (t : Transport) : Go Mux (option string) := mret None.
Definition Transport_Addr (t : Transport) : NameAddress := layer_addr (ln t).

(** What [ln.Accept] gives. *)
Inductive accepted := Temporary (err : string) | Permanent (err : string) | Accepted (conn : Conn).

(** [NewMux] leaves the logger nil, so a permanent error is a panic when it
    is logged.  [None] with events left is that panic. *)
Fixpoint Serve (events : list accepted) (mux : Mux) : option Mux :=
  match events with
  | [] => Some mux
  | Temporary _ :: events' => Serve events' mux
  | Permanent _ :: _ => None
  | Accepted conn :: events' => Serve events' (handleConn conn mux)
  end.

(** ** Theorems *)

(** What the peer sends after dialing arrives at the layer with the same
    header, without the header, and changes no other layer. *)
Theorem dialed_is_delivered h f bytes payload mux mux' l waiting :
  Listen h mux = Some (l, mux') -> Layer_Dial l f = (Ok bytes, true) ->
  m mux' !! h = Some waiting ->
  let mux'' := handleConn (Conn_plain (bytes ++ payload)) mux' in
  m mux'' !! h = Some (waiting ++ [Conn_plain payload]) /\ closed mux'' = closed mux' /\
  forall h', h' <> h -> m mux'' !! h' = m mux' !! h'.
Proof.
  intros HL Hd Hw mux''. unfold Listen in HL. destruct (m mux !! h); [discriminate|]. injection HL as <- <-.
  unfold Layer_Dial, Dial in Hd. cbn in Hd. destruct (df_Dial f), (df_SetWriteDeadline f), (df_Write f); try done.
  injection Hd as <-. subst mux''. unfold handleConn. cbn in *. rewrite Hw. cbn.
  split; [apply lookup_insert_eq|]. split; [done|]. intros h' Hne. by rewrite lookup_insert_ne.
Qed.

(** A connection for a header nobody listens to is closed. *)
Theorem unknown_header_closed h payload mux :
  m mux !! h = None -> handleConn (Conn_plain (h :: payload)) mux = close_conn (Conn_plain (h :: payload)) mux.
Proof. intros H. unfold handleConn. cbn. by rewrite H. Qed.

(** A failed write leaves the socket open, with nobody to close it. *)
Theorem failed_dial_leaks d f :
  df_Dial f = None -> (exists e, df_SetWriteDeadline f = Some e) \/ (exists e, df_Write f = Some e) ->
  exists err, Dial d f = (Err err, true).
Proof.
  intros Hd [[e He]|[e He]]; unfold Dial; rewrite Hd, He; [by eexists|].
  destruct (df_SetWriteDeadline f); by eexists.
Qed.
