(* ===== verification/Service.v ===== *)
(** * Putting a node together: pkg/service/service.go

    [NewService] opens the database file, makes the directory of raft and
    its stores, builds the services and starts their goroutines;
    [server_Start] of pkg/http/server/http_server.go then starts the node and
    listens. *)

From stdpp Require Import base list gmap strings pretty.
From Stdlib Require Import ZArith Lia.
From S2P Require Import Network.
From S2P Require Import Prelude Models JobTime Batcher Sql Fsm Replication Inserts Reads JobQueueRepo.
From S2P Require Import Queue JobRepo ExecutionsRepo AsyncRepo Snapshot Recovery RecoveryFacts Disk DiskFacts.
From S2P Require Import Executor ExecutorImpl Processor AsyncService AsyncImpl Pool Config Node NodeFacts FanIn FanInRuns Startup.

#[local] Open Scope Z_scope.

(** raft-boltdb, raft's snapshot store and the network: the error of opening
    one. *)
Class RaftStores := {
  NewBoltStore : string -> option string;
  NewFileSnapshotStore : string -> option string;
  net_Listen : string -> option string }.

(** The transport of raft: the layer, and the pool and timeout it gets. *)
Record raft_transport := mkRaftTransport {
  rt_stream : Transport; rt_maxPool : Z; rt_timeout : Z }.

Definition RaftLog_file : string := "logs.dat".
Definition RaftStableLog : string := "stable.dat".

(** What the closures given to the worker pool do is on the node. *)
Definition work : Type := Nd unit.

Record Service := mkService {
  sv_Dispatcher : Dispatcher work;
  sv_NodeService : nodeService;               (* with the other services in it *)
  sv_dataStore : dataStore;
  sv_mux : Mux;
  sv_transport : raft_transport;
  sv_raft : raft_config;
  sv_invoking : bool;                         (* ListenForJobsToInvoke *)
  sv_notifying : bool;                        (* ListenForNotifications *)
  sv_maxMem : Z }.                            (* of the memory checker *)

Section Service.
Context {codec : CommandCodec} {env : Env} {gz : Gzip} {file : DbFile} {json : PeerJson} {stores : RaftStores}.
Context (configs : Scheduler0Configurations).

(** [logger.Fatal] when an error came back. *)
Definition or_fatal {S} (e : option string) : Go S unit :=
  match e with Some _ => crash | None => mret tt end.

Definition connectRaftLogsAndTransport : Os (Mux * raft_transport)%type :=
  let dirPath := RaftDir +:+ "/" +:+ FormatUint (NodeId configs) in
  or_fatal (NewBoltStore (dirPath +:+ "/" +:+ RaftLog_file));;
  or_fatal (NewBoltStore (dirPath +:+ "/" +:+ RaftStableLog));;
  or_fatal (NewFileSnapshotStore dirPath);;
  or_fatal (net_Listen (RaftAddress configs));;
  let adv := mkNameAddress (NodeAdvAddress configs) in
  '(muxLn, mux) ← lift_opt (Listen 1 (NewMux (mkNameAddress (RaftAddress configs)) (Some adv)));
  mret (mux, mkRaftTransport (NewTransport muxLn) (i64 (RaftTransportMaxPool configs))
               (i64 (Second * i64 (RaftTransportTimeout configs)))).

(** The database behind an open data store; a file that is not a database is
    left out. *)
Definition database (ds : dataStore) : Os Db :=
  fs ← gets h_fs;
  match ds_connection ds with
  | Some (FileConn path) =>
      match fs !! path with
      | Some (NFile b) => match db_open b with Ok db => mret db | Err _ => crash end
      | _ => crash
      end
  | Some (MemConn db) => mret db
  | None => crash
  end.

(** [now] is the time, [default] raft's default configuration, [servers] and
    [answers] what raft and the peers will say. *)
Definition NewService (now : Time) (default : raft_config) (servers : list string)
    (answers : list http_reply) : Os Service :=
  schedulerTime ← lift_opt (match SetTimezone "UTC" GetSchedulerTime with Ok s => Some s | Err _ => None end);
  dispatcher ← lift_opt (NewDispatcher (Work := work) (i64 (MaxWorkers configs)) (i64 (MaxQueue configs)));
  sqliteDb ← CreateConnectionFromNewDbIfNonExists;
  '(_, exists_) ← MakeDirIfNotExist RaftDir;
  _ ← MakeDirIfNotExist (RaftDir +:+ "/" +:+ FormatUint (NodeId configs));
  '(mux, tm) ← connectRaftLogsAndTransport;
  db ← database sqliteDb;
  let world := mkWorld db now RaftNotLeader true [] [] in
  let nodeService := NewNode world NewJobQueue NewJobExecutor NewAsyncTaskManager exists_ servers answers in
  mret (mkService (Run dispatcher) nodeService sqliteDb mux tm (InitRaft configs default) true true
          (NewMemoryLimitChecker (MaxMemory configs))).

(** [Start] of http_server.go: [disk] are raft's stores, [listen] the error
    of [ListenAndServe]. *)
Definition server_Start (cap : nat -> nat) (now : Time) (default : raft_config) (servers : list string)
    (answers : list http_reply) (disk : RaftDisk) (listen : option string) : Os (Service * startup)%type :=
  serv ← NewService now default servers answers;
  '(_, s) ← lift_opt (Start cap configs (mkStartup (sv_NodeService serv) disk None false));
  or_fatal listen;;
  mret (serv, s).

End Service.
