(* ===== verification/Cli.v ===== *)
(** * The command line: cmd/

    The commands of the binary.  [config init], [reset raft] work on the
    files of the machine, [credential init] on the secrets, [start] runs the
    server, and [create credential] is an HTTP client of a running cluster,
    which follows redirects to the leader. *)

From stdpp Require Import base list gmap strings pretty.
From Stdlib Require Import ZArith Ascii Lia.
From S2P Require Import Network.
From S2P Require Import Prelude Models JobTime Batcher Sql Fsm Replication Inserts Reads JobQueueRepo.
From S2P Require Import Queue JobRepo AccountRepos ExecutionsRepo AsyncRepo Snapshot Recovery RecoveryFacts Disk DiskFacts.
From S2P Require Import Executor ExecutorImpl Processor AsyncService AsyncImpl Pool Config Node NodeFacts FanIn FanInRuns.
From S2P Require Import Startup Service JobService Encrypt Accounts Http.

#[local] Open Scope Z_scope.

(** ** The tree of commands *)

Inductive command :=
| ListCmd | ListCredential | VersionCmd | StartCmd | ConfigCmd | InitCmd | CredentialCmd | CredentialInit
| CredentialShow | CreateCmd | CreateCredential | ResetCmd | ResetRaft.

(** The names on the way to a command: [AddCommand] of the [init] functions. *)
Definition commands : list (list string * command) :=
  [(["list"], ListCmd); (["list"; "credential"], ListCredential); (["version"], VersionCmd);
   (["start"], StartCmd); (["config"], ConfigCmd); (["config"; "init"], InitCmd);
   (["credential"], CredentialCmd); (["credential"; "init"], CredentialInit);
   (["credential"; "show"], CredentialShow); (["create"], CreateCmd);
   (["create"; "credential"], CreateCredential); (["reset"], ResetCmd); (["reset"; "raft"], ResetRaft)].

(** ** config init, reset raft *)

(** [config] is what [GetConfigurations] gives. *)
Definition initCmd {file : DbFile} (config : option Scheduler0Configurations) : Os unit :=
  _ ← lift_opt config;
  RemoveSqliteDbDir;; RemoveRaftDir;; RunMigration.

Definition raftCmd : Os unit := RemoveRaftDir.

(** ** credential init and show *)

(** [strings.ToLower], on the letters that occur here. *)
Definition lower (c : ascii) : ascii :=
  let n := nat_of_ascii c in
  if (Nat.leb 65 n && Nat.leb n 90)%bool then ascii_of_nat (n + 32) else c.
Fixpoint ToLower (s : string) : string :=
  match s with EmptyString => EmptyString | String c s' => String (lower c) (ToLower s') end.

(** The answers the user types; a prompt that fails gives the empty string,
    and its error is not looked at. *)
Definition prompt {A} : Go (A * list string) string := fun '(a, answers) =>
  match answers with
  | [] => Some ("", (a, []))
  | answer :: rest => Some (answer, (a, rest))
  end.

Section Secrets.
Context {formats : ConfigFormats}.

Definition initCCmd (env : gmap string string) (writable : bool) : Go (secrets_state * list string) unit :=
  credentials ← on_fst (GetSecrets env);
  recreate ←
    (if negb (String.eqb (SecretKey credentials) "") && negb (String.eqb (AuthUsername credentials) "") &&
        negb (String.eqb (AuthPassword credentials) "")
     then prompt else mret "");
  if String.eqb (ToLower recreate) "n" || String.eqb (ToLower recreate) "no" then mret tt
  else
    secretKey ← prompt;
    usernameKey ← prompt;
    passwordKey ← prompt;
    _ ← on_fst (SaveSecrets writable (mkSecrets secretKey usernameKey passwordKey));
    mret tt.

(** What is printed. *)
Definition showCCmd (env : gmap string string) : Go secrets_state (list string) :=
  credentials ← GetSecrets env;
  mret ["SecretKey: " +:+ SecretKey credentials; "AuthUsername: " +:+ AuthUsername credentials;
        "AuthPassword: " +:+ AuthPassword credentials].

End Secrets.

Definition listCredentialCmd : string := "not implemented".
Definition VersionCmd_output : string := "scheduler0 v0.0.1".

(** ** URLs *)

Definition is_letter (c : ascii) : bool :=
  let n := nat_of_ascii c in
  (Nat.leb 65 n && Nat.leb n 90) || (Nat.leb 97 n && Nat.leb n 122).
Definition is_digit (c : ascii) : bool := let n := nat_of_ascii c in Nat.leb 48 n && Nat.leb n 57.

(** The scheme of a URL and what follows the colon; without a scheme
    [None], and an error when the colon comes first. *)
Fixpoint get_scheme (first : bool) (s : string) : result string (option (string * string)) :=
  match s with
  | EmptyString => Ok None
  | String c s' =>
      if Ascii.eqb c ":" then (if first then Err "missing protocol scheme" else Ok (Some (EmptyString, s')))
      else if is_letter c ||
              (negb first && (is_digit c || Ascii.eqb c "+" || Ascii.eqb c "-" || Ascii.eqb c "."))
      then match get_scheme false s' with
           | Ok (Some (scheme, rest)) => Ok (Some (String c scheme, rest))
           | r => r
           end
      else Ok None
  end.

(** The part before the first slash and the rest. *)
Fixpoint break_slash (s : string) : string * string :=
  match s with
  | EmptyString => (EmptyString, EmptyString)
  | String c s' =>
      if Ascii.eqb c "/" then (EmptyString, s)
      else let '(h, p) := break_slash s' in (String c h, p)
  end.

(** Where a request goes: the scheme with the host, and the path. *)
Record url := mkUrl { u_Address : string; u_Path : string }.

(** An absolute URL is parsed, a path is one on the host of [base]. *)
Definition url_Parse (base : string) (s : string) : result string url :=
  match get_scheme true s with
  | Err e => Err e
  | Ok (Some (scheme, String c (String c' rest))) =>
      if Ascii.eqb c "/" && Ascii.eqb c' "/" then
        let '(host, path) := break_slash rest in Ok (mkUrl (scheme +:+ "://" +:+ host) path)
      else Err "unsupported protocol scheme"
  | Ok (Some _) => Err "unsupported protocol scheme"
  | Ok None => Ok (mkUrl base s)
  end.

(** ** create credential *)

(** encoding/json: [ToJSON] of a credential, and the bodies a server
    writes. *)
Class CredentialJson := {
  encode_credential : Credential -> result string string;
  encode_body : list (http_data * bool) -> string }.

Class CredentialJsonLaws (J : CredentialJson) (B : BodyJson) : Prop := {
  credential_roundtrip c text zero :
    encode_credential c = Ok text -> text <> "" /\ body_credential text zero = (c, None);
  credential_encodes c : exists text, encode_credential c = Ok text }.

Record client_response := mkClientResponse {
  cl_StatusCode : Z; cl_Location : string; cl_Body : result string string }.

Definition ContentType : string := "Content-Type".

(** [Header.Add]: [Get] sees the first value. *)
Definition header_Add (key value : string) (h : gmap string string) : gmap string string :=
  match h !! key with Some _ => h | None => <[key := value]> h end.

Section Client.
Context {cj : CredentialJson} {St : Type}.
(** One request to a host: the error of the connection, or the answer. *)
Context (send : string -> http_request -> Go St (result string client_response)).
Context (configs : Scheduler0Configurations) (credentials : scheduler0Secrets).

(** [SetBasicAuth] and the two headers, on the first request and on every
    redirected one, which also gets its method and body back. *)
Definition authorize (data method path : string) (h : gmap string string) : http_request :=
  mkHttpRequest method path
    (header_Add ContentType "application/json" (header_Add PeerHeader PeerHeaderCMDValue h))
    (Some (AuthUsername credentials, AuthPassword credentials)) ∅ (Ok data) ∅ "".

Definition CheckRedirect (data : string) (u : url) (initial : http_request) : http_request :=
  authorize data "POST" (u_Path u) (hq_Header initial).

(** The statuses the client follows. *)
Definition is_redirect (status : Z) : bool :=
  existsb (Z.eqb status) [301; 302; 303; 307; 308].

(** [client.Do] after [5 - left] redirects; [len(via) > 5] is fatal, and so
    is every error, in the command. *)
Fixpoint client_Do (data : string) (left : nat) (u : url) (req initial : http_request)
    : Go St (result string client_response) :=
  r ← send (u_Address u) req;
  match r with
  | Err e => mret (Err e)
  | Ok resp =>
      if is_redirect (cl_StatusCode resp) && negb (String.eqb (cl_Location resp) "") then
        match url_Parse (u_Address u) (cl_Location resp) with
        | Err e => mret (Err e)
        | Ok u' =>
            match left with
            | O => crash
            | S left' => client_Do data left' u' (CheckRedirect data u' initial) initial
            end
        end
      else mret (Ok resp)
  end.

(** What is printed.  The error of [NewRequest] is not looked at: a URL that
    does not parse is a nil dereference. *)
Definition credentialCmd : Go St string :=
  data ← lift_opt (match encode_credential (mkCredential 0 false "" "" time_zero) with
                   | Ok d => Some d | Err _ => None end);
  let text := Protocol configs +:+ "://" +:+ Host configs +:+ ":" +:+ Port configs +:+ "/" +:+
              APIV1Base +:+ "/credentials" in
  u ← lift_opt (match url_Parse "" text with Ok u => Some u | Err _ => None end);
  let req := authorize data "POST" (u_Path u) ∅ in
  r ← client_Do data 5 u req req;
  match r with
  | Err _ => crash
  | Ok res =>
      match cl_Body res with
      | Err _ => crash
      | Ok body => if negb (cl_StatusCode res =? StatusCreated) then crash else mret body
      end
  end.

End Client.

(** ** A cluster the command talks to *)

Section Cluster.
Context {codec : CommandCodec} {env : Env} {mo : MapOrder} {uo : UnionOrder} {jj : JobJson} {bj : BodyJson}.
Context {aead : AEAD} {hash : string -> string} {json : PeerJson} {mux : Http.Mux} {cj : CredentialJson}.
(** The configuration of the node at an address, what its raft says, the
    secrets they share, and what a new request id and a new key draw. *)
Context (configs_at : string -> Scheduler0Configurations) (raft_at : string -> raft_view).
Context (secrets : scheduler0Secrets) (id : string) (d : draws).

(** A handler that panics closes the connection; one that waits never
    answers. *)
Definition cluster_send (address : string) (req : http_request)
    : Go (gmap string nodeService) (result string client_response) := fun nodes =>
  match nodes !! address with
  | None => Some (Err "connection refused", nodes)
  | Some n =>
      match ServeHTTP (hash := hash) (configs_at address) secrets (raft_at address) id d req n with
      | None => Some (Err "EOF", nodes)
      | Some (Waiting _ _, _) => None
      | Some (Answered resp _, n') =>
          Some (Ok (mkClientResponse (rs_Status resp) (rs_Location resp) (Ok (encode_body (rs_Bodies resp)))),
                <[address := n']> nodes)
      end
  end.

End Cluster.
