(* ===== verification/CliFacts.v ===== *)
(** * What the commands do

    [create credential] against a cluster: the request finds the leader, and
    what it prints authenticates.  [credential init] and [config init]
    against what the server reads afterwards. *)

From stdpp Require Import base list gmap strings pretty.
From Stdlib Require Import ZArith Ascii Lia.
From S2P Require Import Network.
From S2P Require Import Prelude Models JobTime Batcher Sql Fsm Replication Inserts Reads JobQueueRepo.
From S2P Require Import Queue JobRepo AccountRepos ExecutionsRepo AsyncRepo Snapshot Recovery RecoveryFacts Disk DiskFacts.
From S2P Require Import Executor ExecutorImpl Processor AsyncService AsyncImpl Pool Config ConfigFacts Node NodeFacts FanIn.
From S2P Require Import FanInRuns Startup Service JobService Encrypt Accounts AccountsFacts Http HttpFacts Cli.

#[local] Open Scope Z_scope.

(** ** URLs *)

Fixpoint all_chars (f : ascii -> bool) (s : string) : bool :=
  match s with EmptyString => true | String c s' => f c && all_chars f s' end.

Lemma letter_not_colon c : is_letter c = true -> Ascii.eqb c ":" = false.
Proof. intros H. destruct (Ascii.eqb_spec c ":") as [->|]; [discriminate H|done]. Qed.

Lemma get_scheme_more scheme rest :
  all_chars is_letter scheme = true -> get_scheme false (scheme +:+ ":" +:+ rest) = Ok (Some (scheme, rest)).
Proof.
  induction scheme as [|c scheme IH]; [done|]. cbn [all_chars]. intros [Hc Hs]%andb_true_iff.
  change (get_scheme false (String c (scheme +:+ ":" +:+ rest)) = Ok (Some (String c scheme, rest))).
  cbn [get_scheme]. rewrite (letter_not_colon _ Hc), Hc. cbn [orb]. by rewrite IH.
Qed.

Lemma get_scheme_letters scheme rest :
  scheme <> "" -> all_chars is_letter scheme = true ->
  get_scheme true (scheme +:+ ":" +:+ rest) = Ok (Some (scheme, rest)).
Proof.
  destruct scheme as [|c scheme]; [done|]. intros _. cbn [all_chars]. intros [Hc Hs]%andb_true_iff.
  change (get_scheme true (String c (scheme +:+ ":" +:+ rest)) = Ok (Some (String c scheme, rest))).
  cbn [get_scheme]. rewrite (letter_not_colon _ Hc), Hc. cbn [orb]. by rewrite get_scheme_more.
Qed.

Lemma break_slash_host host path :
  has_char "/" host = false -> break_slash (host +:+ String "/" path) = (host, String "/" path).
Proof.
  induction host as [|c host IH]; [done|]. cbn [has_char]. intros [Hc Hh]%orb_false_iff.
  change (break_slash (String c (host +:+ String "/" path)) = (String c host, String "/" path)).
  cbn [break_slash]. by rewrite Hc, IH.
Qed.

(** The address of a node: a scheme and a host. *)
Definition address_ok (a : string) : Prop :=
  exists scheme host, a = scheme +:+ "://" +:+ host /\ scheme <> "" /\ all_chars is_letter scheme = true /\
    has_char "/" host = false.

Lemma url_Parse_address base a path :
  address_ok a -> url_Parse base (a +:+ String "/" path) = Ok (mkUrl a (String "/" path)).
Proof.
  intros (scheme & host & -> & Hne & Hs & Hh). unfold url_Parse.
  rewrite !app_string_assoc. change ("://" +:+ host +:+ String "/" path) with (":" +:+ "//" +:+ host +:+ String "/" path).
  rewrite get_scheme_letters by done.
  change ("//" +:+ host +:+ String "/" path) with (String "/" (String "/" (host +:+ String "/" path))).
  cbn [Ascii.eqb Bool.eqb andb]. by rewrite break_slash_host.
Qed.

Definition credentials_path : string := "/api/v1/credentials".

Section Command.
Context {codec : CommandCodec} {env : Env} {mo : MapOrder} {uo : UnionOrder} {jj : JobJson} {bj : BodyJson}.
Context {aead : AEAD} {hash : string -> string} {json : PeerJson} {mux : Http.Mux} {ml : MuxLaws mux}.
Context {cj : CredentialJson} {cjl : CredentialJsonLaws cj bj}.
Context (secrets : scheduler0Secrets) (id : string) (d : draws).

(** Every request of the command. *)
Definition cmd_request (data path : string) : http_request := authorize secrets data "POST" path ∅.

Lemma CheckRedirect_cmd data path u :
  CheckRedirect secrets data u (cmd_request data path) = cmd_request data (u_Path u).
Proof. done. Qed.

Lemma find_route_first pattern m h rs path vars :
  mux_match pattern path = Some vars -> find_route ((pattern, m, h) :: rs) m path = Some (h, vars).
Proof. intros H. simpl. by rewrite H, String.eqb_refl. Qed.

Lemma credentials_route : find_route routes "POST" credentials_path = Some (HCreateOneCredential, ∅).
Proof. unfold routes. apply find_route_first. exact (mux_plain_match credentials_path eq_refl). Qed.

Lemma cmd_authorized cs data vars rid :
  authorized (hash := hash) secrets cs "credentials"
    (mkHttpRequest "POST" credentials_path (hq_Header (cmd_request data credentials_path))
       (Some (AuthUsername secrets, AuthPassword secrets)) ∅ (Ok data) vars rid) = true.
Proof.
  unfold authorized. change (IsServerClient _) with false. change (IsPeerClient _) with true.
  unfold IsAuthorizedPeerClient. cbn [hq_BasicAuth]. by rewrite !String.eqb_refl.
Qed.

(** A request with a doubled slash is sent to the clean path. *)
Lemma serve_doubled configs raft data n :
  ServeHTTP (hash := hash) configs secrets raft id d (cmd_request data ("/" +:+ credentials_path)) n =
  Some (Answered (mkResponse StatusMovedPermanently credentials_path []) [], n).
Proof.
  unfold ServeHTTP. change (hq_Path _) with ("/" +:+ credentials_path). rewrite mux_clean_slash by done.
  change (String.eqb credentials_path ("/" +:+ credentials_path)) with false. cbn [negb].
  change (hq_Query _) with (∅ : gmap string (list string)). by rewrite mux_query_none.
Qed.

(** The clean path gets through the router and the authentication. *)
Lemma serve_clean configs raft data cs n :
  healthy (n_world n) -> creds_abs (w_db (n_world n)) cs ->
  ServeHTTP (hash := hash) configs secrets raft id d (cmd_request data credentials_path) n =
  EnsureRaftLeaderMiddleware configs raft (CreateOneCredential (hash := hash) secrets d)
    (mkHttpRequest "POST" credentials_path (hq_Header (cmd_request data credentials_path))
       (Some (AuthUsername secrets, AuthPassword secrets)) ∅ (Ok data) ∅ id) n.
Proof.
  intros Hw Ha. unfold ServeHTTP. change (hq_Path _) with credentials_path. change (hq_Method _) with "POST".
  rewrite mux_clean_id by done. rewrite String.eqb_refl. cbn [negb]. rewrite credentials_route.
  unfold ContextMiddleware, with_vars. cbn [hq_Method hq_Path hq_Header hq_BasicAuth hq_Query hq_Body hq_Vars].
  erewrite (AuthMiddleware_spec _ _ _ cs n "credentials") by done. by rewrite cmd_authorized.
Qed.

(** A follower sends the command to the leader. *)
Lemma serve_follower configs raft data cs n peer :
  healthy (n_world n) -> creds_abs (w_db (n_world n)) cs -> acceptRequest n = true -> acceptClientWrites n = false ->
  List.find (fun p => String.eqb (rn_RaftAddress p) (rv_LeaderAddress raft)) (Replicas configs) = Some peer ->
  rn_Address peer <> "" ->
  ServeHTTP (hash := hash) configs secrets raft id d (cmd_request data credentials_path) n =
  Some (Answered (mkResponse StatusMovedPermanently (rn_Address peer +:+ credentials_path) []) [], n).
Proof.
  intros Hw Ha Hr Hcw Hf Hne. erewrite serve_clean by done. unfold EnsureRaftLeaderMiddleware.
  rewrite (go_bind_lift _ "credentials") by done. rewrite go_bind_gets.
  unfold CanAcceptRequest, CanAcceptClientWriteRequest. cbn [Datatypes.id hq_Method is_write].
  change (String.eqb "credentials" "peer-handshake") with false. cbv iota. rewrite Hr, Hcw, Hf. cbn [negb andb].
  by rewrite (proj2 (String.eqb_neq _ _) Hne).
Qed.

(** The node and its database can take a new credential. *)
Record can_create_credential (cs : list Credential) (n : nodeService) : Prop := {
  cc_quiet : quiet (n_world n);
  cc_creds : creds_abs (w_db (n_world n)) cs;
  cc_time : json_marshalable (VTime (t_ns (w_now (n_world n)))) = true;
  cc_room : 0 <= t_seq (db_table (w_db (n_world n)) CredentialRepo.CredentialTableName) < MaxInt64;
  cc_key : aes_key (hex_decode (SecretKey secrets)) = true;
  cc_requests : acceptRequest n = true;
  cc_writes : acceptClientWrites n = true }.

(** The node after its database became [w]. *)
Definition with_world (w : World) (n : nodeService) : nodeService :=
  with_parts w (n_queue n) (n_executor n) (n_async n) n.

(** The leader creates the credential and answers it. *)
Lemma serve_leader configs raft data cs n :
  codec_total -> can_create_credential cs n ->
  encode_credential (mkCredential 0 false "" "" time_zero) = Ok data ->
  exists w' key secret c,
    GenerateApiAndSecretKey (hash := hash) d (SecretKey secrets) = Some (key, secret) /\
    cr_ApiKey c = key /\ cr_ApiSecret c = secret /\
    ServeHTTP (hash := hash) configs secrets raft id d (cmd_request data credentials_path) n =
      Some (Answered (SendJSON (DCredential c) true StatusCreated) [], with_world w' n) /\
    quiet w' /\ creds_abs (w_db w') (cs ++ [c]).
Proof.
  intros Hc [] He.
  destruct (credential_roundtrip _ _ (mkCredential 0 false "" "" time_zero) He) as [Hne Hb].
  destruct (CreateNewCredential_abs (hash := hash) (SecretKey secrets) d (mkCredential 0 false "" "" time_zero) cs
              (n_world n)) as (w' & key & secret & Hg & Hcr & Hq & Ha); [done..|].
  set (seq := t_seq _) in *. set (c := stored_cred _ _ _ _ _) in *.
  exists w', key, secret, c. split_and!; [done|done|done| |done|done].
  erewrite serve_clean by (try done; by apply quiet_healthy). unfold EnsureRaftLeaderMiddleware.
  rewrite (go_bind_lift _ "credentials") by done. rewrite go_bind_gets.
  unfold CanAcceptRequest, CanAcceptClientWriteRequest. cbn [Datatypes.id].
  change (String.eqb "credentials" "peer-handshake") with false. cbv iota. rewrite cc_requests0, cc_writes0.
  cbn [negb andb]. unfold CreateOneCredential, ExtractBody. cbn [hq_Body].
  destruct (Nat.ltb_spec (String.length data) 1).
  { exfalso. destruct data; [done|]. cbn in *. lia. }
  rewrite Hb. rewrite (go_bind_Some _ _ _ _ _ (on_world_run _ _ _ _ Hcr)). cbv iota beta.
  assert (Hf : CredentialService.FindOneCredentialByID (seq + 1) w' = Some (Ok c, w')).
  { rewrite (FindOneCredentialByID_abs _ (cs ++ [c])) by (done || lia || by apply quiet_healthy).
    rewrite List.filter_app. cbn [List.filter]. unfold has_id at 2. cbn [c stored_cred cr_ID].
    rewrite Z.eqb_refl, last_snoc. done. }
  rewrite (go_bind_Some _ _ _ (Ok c) (with_world w' n)); [done|]. by apply (on_world_run _ (with_world w' n)).
Qed.

(** ** The command *)

Context (configs_at : string -> Scheduler0Configurations) (raft_at : string -> raft_view).
Notation send := (cluster_send (hash := hash) configs_at raft_at secrets id d).

Lemma cluster_send_answer address req nodes n n' resp work :
  nodes !! address = Some n ->
  ServeHTTP (hash := hash) (configs_at address) secrets (raft_at address) id d req n = Some (Answered resp work, n') ->
  send address req nodes =
  Some (Ok (mkClientResponse (rs_Status resp) (rs_Location resp) (Ok (encode_body (rs_Bodies resp)))),
        <[address := n']> nodes).
Proof. intros Hn Hs. unfold cluster_send. by rewrite Hn, Hs. Qed.

(** A turn of [client_Do] that is redirected and leaves the nodes alone. *)
Lemma client_Do_redirect data left u path req nodes n u' :
  nodes !! u_Address u = Some n ->
  ServeHTTP (hash := hash) (configs_at (u_Address u)) secrets (raft_at (u_Address u)) id d req n =
    Some (Answered (mkResponse StatusMovedPermanently path []) [], n) ->
  path <> "" -> url_Parse (u_Address u) path = Ok u' ->
  client_Do send secrets data (S left) u req (cmd_request data ("/" +:+ credentials_path)) nodes =
  client_Do send secrets data left u' (cmd_request data (u_Path u')) (cmd_request data ("/" +:+ credentials_path)) nodes.
Proof.
  intros Hn Hs Hne Hu. cbn [client_Do]. rewrite (go_bind_Some _ _ _ _ _ (cluster_send_answer _ _ _ _ _ _ _ Hn Hs)).
  cbn [cl_StatusCode cl_Location rs_Status rs_Location]. rewrite (proj2 (String.eqb_neq _ _) Hne).
  change (is_redirect StatusMovedPermanently) with true. cbn [negb andb]. rewrite Hu.
  rewrite insert_id by done. by rewrite CheckRedirect_cmd.
Qed.

(** Where the command finds the leader [a1] from the node [a0] it is
    configured with: they are the same, or [a0] is a follower whose raft
    knows the leader. *)
Definition leads_to (nodes : gmap string nodeService) (cs0 : list Credential) (a0 a1 : string) : Prop :=
  a0 = a1 \/
  exists n0 peer, nodes !! a0 = Some n0 /\ healthy (n_world n0) /\ creds_abs (w_db (n_world n0)) cs0 /\
    acceptRequest n0 = true /\ acceptClientWrites n0 = false /\
    List.find (fun p => String.eqb (rn_RaftAddress p) (rv_LeaderAddress (raft_at a0))) (Replicas (configs_at a0)) =
      Some peer /\ rn_Address peer = a1.


End Command.

(** ** The requests of a command *)

Section Requests.
Context {St : Type} (send : string -> http_request -> Go St (result string client_response)).
Context (secrets : scheduler0Secrets).

(** Sending with a record of what was sent. *)
Definition recorded (address : string) (req : http_request)
    : Go (St * list http_request) (result string client_response) := fun '(s, sent) =>
  match send address req s with
  | Some (r, s') => Some (r, (s', sent ++ [req]))
  | None => None
  end.

Lemma one_request data path (sent : list http_request) left :
  exists new, sent ++ [cmd_request secrets data path] = sent ++ new /\ (length new <= left + 1)%nat /\
    Forall (fun req => exists path', req = cmd_request secrets data path') new.
Proof. eexists. split; [done|]. split; [cbn; lia|]. constructor; [by eexists|constructor]. Qed.

(** Whatever the servers answer, a run of [client.Do] sends at most one
    request more than the redirects it has left, each of them a POST of the
    same document with the password of the cluster. *)
Theorem client_Do_bounded data left u path initial s sent r s' sent' :
  client_Do recorded secrets data left u (cmd_request secrets data path) (cmd_request secrets data initial) (s, sent) =
    Some (r, (s', sent')) ->
  exists new, sent' = sent ++ new /\ (length new <= left + 1)%nat /\
    Forall (fun req => exists path', req = cmd_request secrets data path') new.
Proof.
  revert u path s sent. induction left as [|left IH]; intros u path s sent; cbn [client_Do];
    intros (x & [s1 sent1] & Hx & Hk)%go_bind_inv; unfold recorded in Hx;
    destruct (send (u_Address u) (cmd_request secrets data path) s) as [[x' s1']|]; try discriminate;
    injection Hx as -> -> <-;
    (destruct x as [resp|e]; [destruct (is_redirect _ && _); [destruct (url_Parse _ _) as [u'|]|]|]);
    first [discriminate Hk|injection Hk as <- <- <-; by apply one_request|idtac].
  rewrite CheckRedirect_cmd in Hk. apply IH in Hk as (new & -> & Hlen & HF).
  exists (cmd_request secrets data path :: new). rewrite <- app_assoc. split_and!; [done|cbn; lia|].
  constructor; [by eexists|done].
Qed.

End Requests.

(** ** Secrets *)

Section Secrets.
Context {formats : ConfigFormats} {laws : FormatLaws formats}.

(** What a user types at [credential init] is what a server that starts
    later reads, whatever its environment says. *)
Theorem credential_init_read_back env env' st s0 st0 k u p :
  GetSecrets env st = Some (s0, st0) -> (SecretKey s0 = "" \/ AuthUsername s0 = "" \/ AuthPassword s0 = "") ->
  secrets_text (mkSecrets k u p) ->
  exists st', initCCmd env true (st, [k; u; p]) = Some (tt, (st', [])) /\
    fst <$> GetSecrets env' (mkSecretsState None (secretsFile st')) = Some (mkSecrets k u p).
Proof.
  intros Hg Hm Ht. eexists. split.
  - unfold initCCmd. rewrite (go_bind_on_fst _ _ _ _ _ _ Hg).
    assert (negb (String.eqb (SecretKey s0) "") && negb (String.eqb (AuthUsername s0) "") &&
            negb (String.eqb (AuthPassword s0) "") = false) as ->.
    { destruct Hm as [->|[->| ->]]; cbn; [done|by rewrite andb_false_r|by rewrite andb_false_r]. }
    reflexivity.
  - unfold GetSecrets. rewrite go_bind_gets. cbn. by rewrite secrets_roundtrip.
Qed.

(** Secrets that are complete are kept when the user declines. *)
Theorem credential_init_declined env st s0 st0 answer rest writable :
  GetSecrets env st = Some (s0, st0) ->
  SecretKey s0 <> "" -> AuthUsername s0 <> "" -> AuthPassword s0 <> "" ->
  ToLower answer = "n" \/ ToLower answer = "no" ->
  initCCmd env writable (st, answer :: rest) = Some (tt, (st0, rest)).
Proof.
  intros Hg H1%String.eqb_neq H2%String.eqb_neq H3%String.eqb_neq Ha. unfold initCCmd.
  rewrite (go_bind_on_fst _ _ _ _ _ _ Hg), H1, H2, H3. cbn [negb andb].
  rewrite (go_bind_Some _ _ _ answer (st0, rest)) by done. by destruct Ha as [-> | ->].
Qed.

End Secrets.
