(* ===== verification/ServiceFacts.v ===== *)
(** * The life of a node on its machine

    What [config init], the first start and later starts make of the files
    of a machine, and whether the node knows that it is not new. *)

From stdpp Require Import base list gmap strings pretty.
From Stdlib Require Import ZArith Ascii Lia.
From S2P Require Import Network.
From S2P Require Import Prelude Models JobTime Batcher Sql Fsm Replication Inserts Reads JobQueueRepo.
From S2P Require Import Queue JobRepo AccountRepos ExecutionsRepo AsyncRepo Snapshot Recovery RecoveryFacts Disk DiskFacts.
From S2P Require Import Executor ExecutorImpl Processor AsyncService AsyncImpl Pool Config ConfigFacts Node NodeFacts FanIn.
From S2P Require Import FanInRuns Startup Service JobService Encrypt Accounts Http Cli.

#[local] Open Scope Z_scope.

Lemma no_slash_parent x : has_char "/" x = false -> parent x = None.
Proof.
  induction x as [|c x IH]; [done|]. cbn [has_char parent]. intros [Hc Hx]%orb_false_iff. by rewrite IH, Hc.
Qed.

Lemma parse_digits_no_slash s acc n : parse_digits s acc = Some n -> has_char "/" s = false.
Proof.
  revert acc. induction s as [|c s IH]; intros acc; [done|]. cbn [parse_digits has_char].
  destruct (digit c) as [v|] eqn:E; [|done]. cbn. destruct (_ <=? _); [|done]. intros H%IH. rewrite H, orb_false_r.
  destruct (Ascii.eqb_spec c "/") as [->|]; [discriminate E|done].
Qed.

Lemma FormatUint_no_slash n : fits n -> has_char "/" (FormatUint n) = false.
Proof.
  intros H%ParseUint_FormatUint. unfold ParseUint in H. destruct (FormatUint n) as [|c s]; [done|].
  by eapply parse_digits_no_slash.
Qed.

Section Life.
Context {codec : CommandCodec} {env : Env} {gz : Gzip} {file : DbFile} {json : PeerJson} {stores : RaftStores}.
Context (cap : nat -> nat) (configs : Scheduler0Configurations) (cwd : string).

(** The stores of raft and the network answer, and the numbers fit. *)
Record can_start : Prop := {
  cs_utc : exists l, load_location "UTC" = Ok l;
  cs_bolt : forall p, NewBoltStore p = None;
  cs_snapshots : forall p, NewFileSnapshotStore p = None;
  cs_listen : forall a, net_Listen a = None;
  cs_workers : 0 <= MaxWorkers configs <= MaxInt64;
  cs_queue : 0 <= MaxQueue configs <= MaxInt64;
  cs_node : fits (NodeId configs) }.

(** The directory of raft for this node. *)
Definition node_dir : string := raft_dir cwd +:+ "/" +:+ FormatUint (NodeId configs).

Lemma node_dir_path : cwd +:+ "/" +:+ RaftDir +:+ "/" +:+ FormatUint (NodeId configs) = node_dir.
Proof. unfold node_dir, raft_dir. by rewrite !app_string_assoc. Qed.

Lemma parent_node_dir : can_start -> parent node_dir = Some (raft_dir cwd).
Proof. intros []. by apply parent_join, no_slash_parent, FormatUint_no_slash. Qed.

Definition with_raft_dirs (fs : gmap string fs_node) : gmap string fs_node :=
  <[node_dir := NDir]> (<[raft_dir cwd := NDir]> fs).

Lemma node_dir_ne : node_dir <> raft_dir cwd.
Proof.
  unfold node_dir. intros E%(f_equal String.length). rewrite !string_length_app in E. cbn in E. lia.
Qed.

Lemma node_dir_in_raft : in_tree (raft_dir cwd) node_dir = true.
Proof.
  apply orb_true_iff. right. unfold below, node_dir. rewrite <- app_string_assoc.
  apply (prefix_shorter _ (FormatUint (NodeId configs))), prefix_self.
Qed.

Lemma connect_calm h : can_start -> exists mux tm, connectRaftLogsAndTransport configs h = Some ((mux, tm), h).
Proof.
  intros []. unfold connectRaftLogsAndTransport. cbv zeta.
  rewrite !cs_bolt0, cs_snapshots0, cs_listen0. unfold or_fatal. rewrite !go_bind_mret.
  do 2 eexists. reflexivity.
Qed.

(** The node a service is built around. *)
Definition built (db : Db) (now : Time) (existing : bool) (servers : list string) (answers : list http_reply)
    : nodeService :=
  NewNode (mkWorld db now RaftNotLeader true [] []) NewJobQueue NewJobExecutor NewAsyncTaskManager existing servers
    answers.

(** [NewService] on a machine with a database file: the directories of raft
    are made, and the node is an existing one exactly if that of raft was
    there. *)
Lemma NewService_calm fs b db now default servers answers :
  can_start -> is_dir fs cwd = true -> is_dir fs (sqlite_dir cwd) = true ->
  fs !! sqlite_file cwd = Some (NFile b) -> db_open b = Ok db ->
  not_file fs (raft_dir cwd) -> not_file fs node_dir ->
  exists sv, NewService configs now default servers answers (calm cwd fs) = Some (sv, calm cwd (with_raft_dirs fs)) /\
    sv_NodeService sv = built db now (is_dir fs (raft_dir cwd)) servers answers.
Proof.
  intros Hs Hc Hd Hf Hb Hr Hn. pose proof Hs as [[l Hl] _ _ _ Hw Hq _]. unfold NewService.
  rewrite (go_bind_lift _ (mkSchedulerTime (Some l))) by (unfold SetTimezone; by rewrite Hl).
  assert (exists dp, NewDispatcher (Work := work) (i64 (MaxWorkers configs)) (i64 (MaxQueue configs)) = Some dp)
    as [dp Hdp].
  { rewrite !i64_small by go_lia. unfold NewDispatcher. rewrite !(proj2 (Z.ltb_ge _ _)) by lia. by eexists. }
  rewrite (go_bind_lift _ _ _ _ Hdp), (go_bind_Some _ _ _ _ _ (CreateConnection_existing cwd fs b Hd Hf)).
  assert (H1 : in_dir fs (raft_dir cwd) = true) by (unfold in_dir; by rewrite parent_raft_dir).
  rewrite (go_bind_Some _ _ _ _ _ (MakeDirIfNotExist_calm cwd RaftDir fs Hr H1)). cbv iota beta.
  fold (raft_dir cwd). set (fs1 := <[raft_dir cwd := NDir]> fs).
  assert (H2 : not_file fs1 (cwd +:+ "/" +:+ RaftDir +:+ "/" +:+ FormatUint (NodeId configs)) /\
               in_dir fs1 (cwd +:+ "/" +:+ RaftDir +:+ "/" +:+ FormatUint (NodeId configs)) = true).
  { rewrite node_dir_path. unfold not_file, in_dir, is_dir, fs1. rewrite (parent_node_dir Hs), lookup_insert_eq.
    rewrite lookup_insert_ne by (intros E; by apply node_dir_ne). by split. }
  destruct H2 as [H2 H3].
  rewrite (go_bind_Some _ _ _ _ _ (MakeDirIfNotExist_calm cwd _ fs1 H2 H3)), node_dir_path. cbv iota beta.
  fold (with_raft_dirs fs). destruct (connect_calm (calm cwd (with_raft_dirs fs)) Hs) as (mux & tm & Hm).
  rewrite (go_bind_Some _ _ _ _ _ Hm). cbv iota beta.
  assert (Hdb : database (opened cwd) (calm cwd (with_raft_dirs fs)) = Some (db, calm cwd (with_raft_dirs fs))).
  { unfold database. rewrite go_bind_gets. cbn [ds_connection opened h_fs calm]. unfold with_raft_dirs.
    pose proof node_dir_in_raft as Ht.
    rewrite !lookup_insert_ne, Hf, Hb; [done| |].
    - intros E. pose proof (sqlite_file_not_raft cwd) as Hx. by rewrite <- E, in_tree_refl in Hx.
    - intros E. pose proof (sqlite_file_not_raft cwd) as Hx. by rewrite <- E, Ht in Hx. }
  rewrite (go_bind_Some _ _ _ _ _ Hdb). cbv zeta. by eexists.
Qed.

(** [Start] of a node that is not new recovers raft's state and does not
    configure raft. *)
Lemma Start_existing n disk :
  isExistingNode n = true ->
  Start cap configs (mkStartup n disk None false) =
  match RecoverRaftState cap disk with
  | Some (_, disk') => Some (tt, mkStartup (with_requests_accepted true n) disk' None true)
  | None => None
  end.
Proof.
  intros He. unfold Start. rewrite go_bind_gets. cbn [su_node]. rewrite He. cbn [negb andb].
  rewrite andb_false_r, go_bind_eq. unfold on_disk. cbn [su_disk].
  destruct (RecoverRaftState cap disk) as [[[] disk']|]; done.
Qed.

Lemma reopened_empty : db_open (new_db_bytes (file := file)) = Ok db_empty.
Proof. unfold new_db_bytes. rewrite db_open_bytes. done. Qed.

(** A later start, with the file [b] and the directories that were made. *)
Lemma restart fs1 b db now default servers answers disk :
  can_start -> is_dir fs1 cwd = true -> is_dir fs1 (sqlite_dir cwd) = true -> db_open b = Ok db ->
  let fs3 := <[sqlite_file cwd := NFile b]> (with_raft_dirs fs1) in
  exists sv, server_Start configs cap now default servers answers disk None (calm cwd fs3) =
    match RecoverRaftState cap disk with
    | Some (_, disk') =>
        Some ((sv, mkStartup (with_requests_accepted true (sv_NodeService sv)) disk' None true), calm cwd fs3)
    | None => None
    end /\
    isExistingNode (sv_NodeService sv) = true /\ w_db (n_world (sv_NodeService sv)) = db.
Proof.
  intros Hs Hc Hd Hb fs3.
  assert (Hout : forall q, in_tree (raft_dir cwd) q = false -> q <> sqlite_file cwd -> fs3 !! q = fs1 !! q).
  { intros q Hq Hne. unfold fs3, with_raft_dirs. rewrite !lookup_insert_ne; [done| | |done]; intros <-.
    - by rewrite in_tree_refl in Hq.
    - by rewrite node_dir_in_raft in Hq. }
  assert (fs3 !! raft_dir cwd = Some NDir /\ fs3 !! node_dir = Some NDir) as [Hr3 Hn3].
  { unfold fs3, with_raft_dirs. pose proof (sqlite_file_not_raft cwd) as Hx. split.
    - rewrite lookup_insert_ne by (intros E; by rewrite E, in_tree_refl in Hx).
      by rewrite lookup_insert_ne, lookup_insert_eq by (intros E; by apply node_dir_ne).
    - rewrite lookup_insert_ne by (intros E; by rewrite E, node_dir_in_raft in Hx). by rewrite lookup_insert_eq. }
  assert (Hf3 : fs3 !! sqlite_file cwd = Some (NFile b)) by (unfold fs3; by rewrite lookup_insert_eq).
  assert (Hw3 : with_raft_dirs fs3 = fs3) by (unfold with_raft_dirs; by rewrite (insert_id fs3), insert_id by done).
  destruct (NewService_calm fs3 b db now default servers answers Hs) as (sv & Hnew & Hnode); try done.
  - unfold is_dir. rewrite Hout; [exact Hc|apply cwd_outside|].
    intros E. pose proof (cwd_outside cwd (SqliteDir +:+ "/" +:+ SqliteDbFileName)) as Hx.
    fold (sqlite_file cwd) in Hx. by rewrite <- E, in_tree_refl in Hx.
  - unfold is_dir. rewrite Hout; [exact Hd|apply sqlite_not_raft|apply sqlite_dir_file_ne].
  - unfold not_file. by rewrite Hr3.
  - unfold not_file. by rewrite Hn3.
  - rewrite Hw3 in Hnew. unfold is_dir in Hnode. rewrite Hr3 in Hnode. exists sv.
    split; [|by rewrite Hnode]. unfold server_Start. rewrite (go_bind_Some _ _ _ _ _ Hnew).
    rewrite go_bind_eq. unfold lift_opt. rewrite Start_existing by (by rewrite Hnode).
    by destruct (RecoverRaftState cap disk) as [[[] disk']|].
Qed.

(** C25: The life of a node on a machine.  [config init] clears what an
    earlier node left, whatever it was.  The first start then finds a
    database with every table empty and no state of raft: the node is a new
    one, which takes requests and no writes, and configures raft if it is to
    bootstrap.  Every later start, whatever the database file holds by then,
    keeps that file, opens it, and takes the node for an existing one: it
    recovers raft's state instead of configuring raft again. *)
Theorem node_life_cycle fs now default servers answers disk :
  can_start -> is_dir fs cwd = true -> tree_ok (sqlite_dir cwd) fs -> tree_ok (raft_dir cwd) fs ->
  servers_ok configs servers ->
  exists fs1 fs2 sv s,
    initCmd (Some configs) (calm cwd fs) = Some (tt, calm cwd fs1) /\
    server_Start configs cap now default servers answers disk None (calm cwd fs1) = Some ((sv, s), calm cwd fs2) /\
    isExistingNode (sv_NodeService sv) = false /\ w_db (n_world (su_node s)) = db_empty /\ su_disk s = disk /\
    CanAcceptRequest (su_node s) = true /\ CanAcceptClientWriteRequest (su_node s) = false /\
    (Bootstrap configs = true <-> is_Some (su_bootstrapped s)) /\
    forall b db now' servers' answers' disk',
      db_open b = Ok db ->
      let fs3 := <[sqlite_file cwd := NFile b]> fs2 in
      exists sv', server_Start configs cap now' default servers' answers' disk' None (calm cwd fs3) =
        match RecoverRaftState cap disk' with
        | Some (_, disk'') =>
            Some ((sv', mkStartup (with_requests_accepted true (sv_NodeService sv')) disk'' None true), calm cwd fs3)
        | None => None
        end /\
        isExistingNode (sv_NodeService sv') = true /\ w_db (n_world (sv_NodeService sv')) = db.
Proof.
  intros Hs Hc Hsq Hra Hsv. set (fs1 := initialised cwd fs). set (fs2 := with_raft_dirs fs1).
  pose proof (initialised_raft cwd fs Hsq Hra) as Hraft. fold fs1 in Hraft.
  assert (Hnr : fs1 !! raft_dir cwd = None) by (apply Hraft, in_tree_refl).
  assert (Hnn : fs1 !! node_dir = None) by (apply Hraft, node_dir_in_raft).
  destruct (NewService_calm fs1 new_db_bytes db_empty now default servers answers Hs) as (sv & Hnew & Hnode);
    [by apply initialised_cwd|by apply initialised_dir|by apply initialised_file|apply reopened_empty|
     unfold not_file; by rewrite Hnr|unfold not_file; by rewrite Hnn|].
  assert (is_dir fs1 (raft_dir cwd) = false) as Hx by (unfold is_dir; by rewrite Hnr). rewrite Hx in Hnode. clear Hx.
  destruct (Start_new_node cap configs (mkWorld db_empty now RaftNotLeader true [] []) NewJobQueue NewJobExecutor
              NewAsyncTaskManager servers answers disk Hsv)
    as (s & Hst & Hdisk & _ & Hreq & Hwr & _ & Hworld & Hboot).
  exists fs1, fs2, sv, s. split_and!.
  - unfold initCmd. rewrite (go_bind_lift _ configs) by done. by apply initialise_calm.
  - unfold server_Start. rewrite (go_bind_Some _ _ _ _ _ Hnew), Hnode. by rewrite (go_bind_lift _ _ _ _ Hst).
  - by rewrite Hnode.
  - by rewrite Hworld.
  - done.
  - done.
  - done.
  - destruct (su_bootstrapped s) as [cfg|]; [|split; [congruence|by intros []]]. split; [by eexists|by intros _; destruct Hboot].
  - intros b db now' servers' answers' disk' Hb fs3.
    apply (restart fs1 b db now' default servers' answers' disk'); try done;
      [by apply initialised_cwd|by apply initialised_dir].
Qed.

End Life.
