(* ===== verification/CliRuns.v ===== *)
(** * Concrete commands

    A codec for credentials, a cluster of a leader and a follower, and a
    machine on which a node was set up before. *)

From stdpp Require Import countable base list gmap strings pretty.
From Stdlib Require Import ZArith Ascii Lia.
From S2P Require Import Network.
From S2P Require Import Prelude Models JobTime Batcher Sql Fsm Replication Inserts Reads JobQueueRepo.
From S2P Require Import Queue JobRepo AccountRepos ExecutionsRepo AsyncRepo Snapshot Recovery RecoveryFacts Disk DiskFacts.
From S2P Require Import Executor ExecutorImpl Processor AsyncService AsyncImpl Pool Config ConfigFacts Node NodeFacts FanIn.
From S2P Require Import FanInRuns Startup Service JobService Encrypt Accounts AccountsFacts Http HttpFacts HttpRuns.
From S2P Require Import Cli CliFacts ServiceFacts.

#[local] Open Scope Z_scope.

#[local] Existing Instance plain_codec.
#[local] Existing Instance plain_gzip.
#[local] Existing Instance plain_file.
#[local] Existing Instance sample_env.
#[local] Existing Instance tagged_aead.
#[local] Existing Instance first_union.
#[local] Existing Instance bits_json.
#[local] Existing Instance simple_mux.
#[local] Existing Instance simple_mux_laws.
#[local] Existing Instance plain_job_json.

(** ** A codec for credentials *)

Definition credential_tuple (c : Credential) : Z * bool * string * string * (Z * string) :=
  (cr_ID c, cr_Archived c, cr_ApiKey c, cr_ApiSecret c, (t_ns (cr_DateCreated c), t_loc (cr_DateCreated c))).

#[local] Instance credential_countable : Countable Credential.
Proof.
  apply (inj_countable' credential_tuple (fun '(a, b, c, d, (e, f)) => mkCredential a b c d (mkTime e f))).
  by intros [? ? ? ? []].
Defined.

#[local] Instance text_body_json : BodyJson := {|
  body_jobs _ := ([], None);
  body_job _ j := (j, None);
  body_project _ p := (p, None);
  body_credential s c := match of_text (String.substring 1 (String.length s) s) with
                         | Ok c => (c, None)
                         | Err e => (c, Some e)
                         end |}.

#[local] Instance text_credential_json : CredentialJson := {|
  encode_credential c := Ok ("c" +:+ to_text c);
  encode_body l := match l with [(DCredential c, true)] => cr_ApiKey c | _ => "" end |}.

Lemma substring_all s : String.substring 0 (String.length s) s = s.
Proof. induction s as [|c s IH]; [done|]. cbn. by rewrite IH. Qed.
Lemma substring_tail c s n : (String.length s <= n)%nat -> String.substring 1 n (String c s) = s.
Proof.
  intros H. cbn. revert n H. induction s as [|x s IH]; intros n H; [by destruct n|].
  cbn in H. destruct n as [|n]; [lia|]. cbn. rewrite IH; [done|lia].
Qed.

#[local] Instance text_credential_laws : CredentialJsonLaws text_credential_json text_body_json.
Proof.
  split.
  - intros c text zero [= <-]. split; [done|]. cbn [body_credential text_body_json].
    change ("c" +:+ to_text c) with (String "c" (to_text c)).
    rewrite substring_tail by (cbn; lia). by rewrite of_text_to_text.
  - intros c. by eexists.
Qed.

(** ** A cluster *)

(** Both nodes take requests; [a] leads and takes writes. *)
Definition leader_a : nodeService := with_writes true (with_requests_accepted true elected).
Definition follower_b : nodeService := with_requests_accepted true elected.
Definition both : gmap string nodeService := <["http://a:1" := leader_a]> {["http://b:1" := follower_b]}.
Definition both_configs (address : string) : Scheduler0Configurations := two_nodes.
Definition both_raft (address : string) : raft_view := sample_raft.

(** The command is configured with the follower. *)
Definition cmd_configs : Scheduler0Configurations :=
  mkConfigurations "" "http" "b" "1" [] 0 0 0 false 2 "" "rb" 0 0 0 0 0 0 0 0 0 0 3 1 0 0 1 0 0.

Lemma address_ok_b : address_ok "http://b:1".
Proof. by exists "http", "b:1". Qed.
Lemma address_ok_a : address_ok "http://a:1".
Proof. by exists "http", "a:1". Qed.


(** The key that was printed. *)
Lemma created_key :
  fst <$> credentialCmd (cluster_send (hash := id) both_configs both_raft sample_secrets "id" sample_draws) cmd_configs
            sample_secrets both =
  fst <$> GenerateApiAndSecretKey (hash := id) sample_draws sample_key.
Proof. vm_compute. reflexivity. Qed.

(** ** A machine *)

#[local] Instance all_stores : RaftStores := {|
  NewBoltStore _ := None; NewFileSnapshotStore _ := None; net_Listen _ := None |}.

(** An earlier node left a directory of raft with a file in it. *)
Definition used_fs : gmap string fs_node :=
  <["/srv" := NDir]> (<["/srv/raft_data" := NDir]> {["/srv/raft_data/1" := NFile [1; 2]]}).
Definition raft_default : raft_config := mkRaftConfig "" 0 0 0 0 0 0.

Lemma two_nodes_can_start : can_start two_nodes.
Proof.
  split; try done; try (by split; vm_compute; discriminate). by eexists.
Qed.

Lemma used_fs_sqlite : tree_ok (sqlite_dir "/srv") used_fs.
Proof.
  right. intros q Hq. unfold used_fs. rewrite !lookup_insert_ne; [|by intros <-..]. apply lookup_singleton_ne.
  by intros <-.
Qed.

Lemma node_life_cycle_witness :
  exists fs1 fs2 sv s,
    initCmd (Some two_nodes) (calm "/srv" used_fs) = Some (tt, calm "/srv" fs1) /\
    server_Start two_nodes (fun n => n) sample_now raft_default ["ra"; "rb"] [greeted] sample_disk None
      (calm "/srv" fs1) = Some ((sv, s), calm "/srv" fs2) /\
    isExistingNode (sv_NodeService sv) = false /\ w_db (n_world (su_node s)) = db_empty /\
    su_disk s = sample_disk /\
    CanAcceptRequest (su_node s) = true /\ CanAcceptClientWriteRequest (su_node s) = false /\
    (Bootstrap two_nodes = true <-> is_Some (su_bootstrapped s)) /\
    forall b db now' servers' answers' disk',
      db_open b = Ok db ->
      let fs3 := <[sqlite_file "/srv" := NFile b]> fs2 in
      exists sv', server_Start two_nodes (fun n => n) now' raft_default servers' answers' disk' None (calm "/srv" fs3) =
        match RecoverRaftState (fun n => n) disk' with
        | Some (_, disk'') =>
            Some ((sv', mkStartup (with_requests_accepted true (sv_NodeService sv')) disk'' None true), calm "/srv" fs3)
        | None => None
        end /\
        isExistingNode (sv_NodeService sv') = true /\ w_db (n_world (sv_NodeService sv')) = db.
Proof.
  apply (node_life_cycle (fun n => n) two_nodes "/srv" used_fs sample_now raft_default ["ra"; "rb"] [greeted]
           sample_disk).
  - apply two_nodes_can_start.
  - reflexivity.
  - apply used_fs_sqlite.
  - left. reflexivity.
  - split; [apply (bool_decide_unpack _); vm_compute; exact I|]. change (["ra"; "rb"] ⊆ ["ra"; "rb"]). done.
Defined.
